(** * Data Empire: the tick engine and its formula library

    A shallow embedding of [src/game/engine.ts] (processTick,
    processIncidents, createIncident, calculateOfflineProgress) and of the
    formula library it imports (calculateSLA, calculateDatasetDC,
    calculateTotalDC, calculateStaffMultiplier, applyMetricDecay,
    applyStaffBonuses, calculateDatasetStatus, calculateIncidentChance),
    together with the balance constants they read.

    JavaScript numbers are kept behind the interface [JsNumber].  Two
    instances are given:
    - [binary64]: IEEE 754 double precision, the arithmetic the program runs
      with (Rocq's primitive floats);
    - [rational]: exact rational arithmetic, without rounding, the
      arithmetic in which the formulas of the specification are written.
    Every function of the program is defined once, over the interface. *)

From Stdlib Require Import ZArith QArith Qround Qminmax Qpower Floats Uint63.
From Stdlib Require Import List String Bool Lia Lqa Permutation.
Import ListNotations.

Set Implicit Arguments.

(** ** JavaScript numbers *)

Class JsNumber (num : Type) : Type := {
  (** the value denoted by a numeric literal of the source *)
  lit : Q -> num;
  num_add : num -> num -> num;
  num_sub : num -> num -> num;
  num_mul : num -> num -> num;
  num_div : num -> num -> num;
  (** [a < b] and [a >= b] *)
  num_lt : num -> num -> bool;
  num_ge : num -> num -> bool;
  Math_max : num -> num -> num;
  Math_min : num -> num -> num;
  Math_floor : num -> num;
  Math_ceil : num -> num;
  (** the array index a number denotes, when it denotes one *)
  num_index : num -> option nat
}.

Arguments lit {num _} _%_Q.

Declare Scope js_scope.
Delimit Scope js_scope with js.
Infix "+" := num_add : js_scope.
Infix "-" := num_sub : js_scope.
Infix "*" := num_mul : js_scope.
Infix "/" := num_div : js_scope.
Infix "<?" := num_lt (at level 70, no associativity) : js_scope.
Infix ">=?" := num_ge (at level 70, no associativity) : js_scope.

(** [xs.length] as a number. *)
Definition num_of_nat {num} `{JsNumber num} (n : nat) : num :=
  lit (inject_Z (Z.of_nat n)).

(** *** IEEE 754 binary64 *)

Module F64.

(** The double nearest to an integer (ties to even, infinity on overflow). *)
Definition of_Z (z : Z) : float :=
  SF2Prim (binary_normalize prec emax z 0 false).

(** A decimal literal denotes the double nearest to its value: the integer
    itself when it has no fractional part, else, for a literal whose
    numerator and denominator are below 2^53, the correctly rounded quotient
    of the two. *)
Definition of_literal (q : Q) : float :=
  match Qden q with
  | xH => of_Z (Qnum q)
  | _ => PrimFloat.div (of_Z (Qnum q)) (of_Z (Zpos (Qden q)))
  end.

(** [Math.max]: NaN if either argument is NaN, and [+0] above [-0]. *)
Definition max (a b : float) : float :=
  match PrimFloat.compare a b with
  | FLt => b
  | FGt => a
  | FEq => match PrimFloat.classify a with NZero => b | _ => a end
  | FNotComparable => PrimFloat.nan
  end.

(** [Math.min]: NaN if either argument is NaN, and [-0] below [+0]. *)
Definition min (a b : float) : float :=
  match PrimFloat.compare a b with
  | FLt => a
  | FGt => b
  | FEq => match PrimFloat.classify a with PZero => b | _ => a end
  | FNotComparable => PrimFloat.nan
  end.

(** [Math.floor]: zeros, infinities, NaN and integers are returned as
    they are. *)
Definition floor (x : float) : float :=
  match Prim2SF x with
  | S754_finite s m e =>
      if (0 <=? e)%Z then x
      else of_Z (Z.shiftl (cond_Zopp s (Zpos m)) e)
  | _ => x
  end.

(** [Math.ceil]: a negative fraction above -1 goes to [-0]. *)
Definition ceil (x : float) : float :=
  match Prim2SF x with
  | S754_finite s m e =>
      if (0 <=? e)%Z then x
      else
        let z := (- Z.shiftl (cond_Zopp (negb s) (Zpos m)) e)%Z in
        if (z =? 0)%Z then (if s then PrimFloat.neg_zero else PrimFloat.zero)
        else of_Z z
  | _ => x
  end.

(** [xs[x]] reads an element only when [x] is a non-negative integer. *)
Definition index (x : float) : option nat :=
  match Prim2SF x with
  | S754_zero _ => Some O
  | S754_finite false m e =>
      let z := Z.shiftl (Zpos m) e in
      if (Z.shiftl z (- e) =? Zpos m)%Z then Some (Z.to_nat z) else None
  | _ => None
  end.

End F64.

#[export] Instance binary64 : JsNumber float := {
  lit := F64.of_literal;
  num_add := PrimFloat.add;
  num_sub := PrimFloat.sub;
  num_mul := PrimFloat.mul;
  num_div := PrimFloat.div;
  num_lt := PrimFloat.ltb;
  num_ge := fun a b => PrimFloat.leb b a;
  Math_max := F64.max;
  Math_min := F64.min;
  Math_floor := F64.floor;
  Math_ceil := F64.ceil;
  num_index := F64.index
}.

(** *** Exact rational arithmetic

    No rounding, no infinities and no NaN; a division by zero, which
    JavaScript answers with an infinity or NaN, is outside this instance
    (Rocq's [Qdiv] answers 0). *)

Module Rational.

Definition ltb (a b : Q) : bool :=
  match (a ?= b)%Q with Lt => true | _ => false end.

Definition floor (x : Q) : Q := inject_Z (Qfloor x).
Definition ceil (x : Q) : Q := inject_Z (Qceiling x).

Definition index (x : Q) : option nat :=
  if Qeq_bool x (inject_Z (Qfloor x)) && (0 <=? Qfloor x)%Z
  then Some (Z.to_nat (Qfloor x)) else None.

End Rational.

#[export] Instance rational : JsNumber Q := {
  lit := fun q => q;
  num_add := Qplus;
  num_sub := Qminus;
  num_mul := Qmult;
  num_div := Qdiv;
  num_lt := Rational.ltb;
  num_ge := fun a b => Qle_bool b a;
  Math_max := Qmax;
  Math_min := Qmin;
  Math_floor := Rational.floor;
  Math_ceil := Rational.ceil;
  num_index := Rational.index
}.

(** *** A comparison law both arithmetics share

    [a >= b] excludes [a < b].  (The converse fails on [binary64]: NaN is
    neither.) *)
Class JsOrder (num : Type) {N : JsNumber num} : Prop :=
  ge_not_lt : forall a b : num, num_ge a b = true -> num_lt a b = false.

Arguments JsOrder num {N}.

(** *** Order laws both arithmetics share on the range [[0, 100]]

    [num_le a b] reads [b >= a].  On [binary64] it fails as soon as one
    side is NaN, so that [num_le a a] says that [a] is a number. *)
Definition num_le {num} `{JsNumber num} (a b : num) : Prop := num_ge b a = true.

(** The literals of the source that the range laws compare. *)
Definition range_literals : list Q := [0; 0.01; 0.1; 0.2; 0.4; 100]%Q.

Class JsRange (num : Type) {N : JsNumber num} : Prop := {
  num_le_trans : forall a b c : num, num_le a b -> num_le b c -> num_le a c;
  num_le_number_l : forall a b : num, num_le a b -> num_le a a;
  num_le_number_r : forall a b : num, num_le a b -> num_le b b;
  (** [Math.max] and [Math.min] of two numbers return one of the two *)
  Math_max_cases : forall a b : num, num_le a a -> num_le b b ->
    (Math_max a b = a /\ num_le b a) \/ (Math_max a b = b /\ num_le a b);
  Math_min_cases : forall a b : num, num_le a a -> num_le b b ->
    (Math_min a b = a /\ num_le a b) \/ (Math_min a b = b /\ num_le b a);
  (** signs survive rounding *)
  num_add_nonneg : forall a b : num,
    num_le (lit 0) a -> num_le (lit 0) b -> num_le (lit 0) (num_add a b);
  num_add_nonpos : forall a b : num,
    num_le (lit 0) a -> num_le a (lit 100) -> num_le b (lit 0) ->
    num_le (num_add a b) a;
  num_sub_nonneg : forall a r : num,
    num_le (lit 0) a -> num_le a (lit 100) -> num_le (lit 0) r ->
    num_le (num_sub a r) a;
  num_mul_nonneg : forall a b : num,
    num_le (lit 0) a -> num_lt (lit 0) b = true -> num_le b (lit 100) ->
    num_le (lit 0) (num_mul a b);
  num_of_nat_nonneg : forall n : nat, num_le (lit 0) (num_of_nat n);
  (** literals keep their order *)
  lit_le : forall p q : Q,
    In p range_literals -> In q range_literals -> (p <= q)%Q ->
    num_le (lit p) (lit q);
  lit_lt : forall p q : Q,
    In p range_literals -> In q range_literals -> (p < q)%Q ->
    num_lt (lit p) (lit q) = true
}.

Arguments JsRange num {N}.

(** ** Data model ([src/types]) *)

Inductive RiskRating := low | medium | high.
Inductive DatasetStatus := ok | warning | failing.

Inductive IncidentType :=
| pipeline_failure | data_delay | corrupted_batch
| hardware_outage | quality_crash | regulatory_warning.

Inductive EventType := audit_event | incident_event | bonus_event | choice_event.

Inductive StaffRole := data_engineer | data_steward | sre | architect | cdao.

(** [Metrics], [SLATargets] and an incident's [metric_impact] are the same
    shape [{T, A, C}]. *)
Module Metrics.
Record t (num : Type) := mk { T : num; A : num; C : num }.
End Metrics.

Module UnlockRequirement.
Record t (num : Type) := mk {
  dc_threshold : option num;
  tech_required : option string
}.
End UnlockRequirement.

Module Dataset.
Record t (num : Type) := mk {
  id : string;
  name : string;
  description : string;
  base_dc : num;
  volume : num;
  risk_rating : RiskRating;
  sla_targets : Metrics.t num;
  current_metrics : Metrics.t num;
  pipelines_installed : list string;
  currentSLA : num;
  status : DatasetStatus;
  unlock_requirement : option (UnlockRequirement.t num)
}.

(** [{ ...dataset, current_metrics }] *)
Definition with_current_metrics {num} (d : t num) (m : Metrics.t num) : t num :=
  mk (id d) (name d) (description d) (base_dc d) (volume d) (risk_rating d)
     (sla_targets d) m (pipelines_installed d) (currentSLA d) (status d)
     (unlock_requirement d).

(** [{ ...dataset, currentSLA, status }] *)
Definition with_sla_status {num} (d : t num) (sla : num) (st : DatasetStatus) : t num :=
  mk (id d) (name d) (description d) (base_dc d) (volume d) (risk_rating d)
     (sla_targets d) (current_metrics d) (pipelines_installed d) sla st
     (unlock_requirement d).
End Dataset.

Module StaffEffects.
Record t (num : Type) := mk {
  global_T_bonus : num;
  global_A_bonus : num;
  global_C_bonus : num;
  incident_resolution_speed : num;
  dc_generation_bonus : num
}.
End StaffEffects.

Module Staff.
Record t (num : Type) := mk {
  id : string;
  name : string;
  role : StaffRole;
  description : string;
  cost_to_hire : num;
  salary_per_minute : num;
  effects : StaffEffects.t num;
  hired_at : option num;
  requires_tech : option string
}.
End Staff.

Module Incident.
Record t (num : Type) := mk {
  id : string;
  type : IncidentType;
  title : string;
  description : string;
  dataset_id : string;
  metric_impact : Metrics.t num;
  base_resolution_time : num;
  resolution_progress : num;
  started_at : num;
  halts_dc_generation : bool
}.

(** [{ ...incident, resolution_progress }] *)
Definition with_resolution_progress {num} (i : t num) (p : num) : t num :=
  mk (id i) (type i) (title i) (description i) (dataset_id i)
     (metric_impact i) (base_resolution_time i) p (started_at i)
     (halts_dc_generation i).

(** [{ ...incident, halts_dc_generation }], used to state that the flag
    is inert. *)
Definition with_halts_dc_generation {num} (i : t num) (b : bool) : t num :=
  mk (id i) (type i) (title i) (description i) (dataset_id i)
     (metric_impact i) (base_resolution_time i) (resolution_progress i)
     (started_at i) b.
End Incident.

Module EventEffects.
Record t (num : Type) := mk {
  dc_change : option num;
  metric_changes : option (option num * option num * option num);
  incident_chance_change : option num;
  spawn_incident : option (IncidentType * string)
}.
End EventEffects.

Module EventChoice.
Record t (num : Type) := mk {
  id : string;
  label : string;
  effects : EventEffects.t num
}.
End EventChoice.

Module TriggerConditions.
Record t (num : Type) := mk {
  min_sla : option num;
  max_sla : option num;
  min_dc : option num;
  requires_tech : option string
}.
End TriggerConditions.

Module Event.
Record t (num : Type) := mk {
  id : string;
  title : string;
  message : string;
  type : EventType;
  choices : list (EventChoice.t num);
  trigger_chance : option num;
  trigger_conditions : option (TriggerConditions.t num)
}.
End Event.

(** ** The ambient platform: [Math.random], [Date.now], [performance.now]

    The engine reads three ambient sources.  Each is a stream of the values
    its successive calls return; a call takes the head and leaves the rest.
    The text of a generated incident identifier
    ([`incident-${Date.now()}-${Math.random().toString(36).substring(2, 9)}`])
    is the platform's rendering of the two numbers drawn for it. *)

Module World.
Record t (num : Type) := mk {
  random : nat -> num;
  date : nat -> num;
  perf : nat -> num;
  render_incident_id : num -> num -> string
}.
End World.

Definition Js (num A : Type) : Type := World.t num -> A * World.t num.

Definition ret {num A} (a : A) : Js num A := fun w => (a, w).

Definition bind {num A B} (m : Js num A) (k : A -> Js num B) : Js num B :=
  fun w => let (a, w') := m w in k a w'.

Notation "x <- m ;; k" := (bind m (fun x => k))
  (at level 61, m at next level, right associativity).

Definition Math_random {num} : Js num num :=
  fun w => (World.random w 0,
            World.mk (fun k => World.random w (S k)) (World.date w)
                     (World.perf w) (World.render_incident_id w)).

Definition Date_now {num} : Js num num :=
  fun w => (World.date w 0,
            World.mk (World.random w) (fun k => World.date w (S k))
                     (World.perf w) (World.render_incident_id w)).

Definition performance_now {num} : Js num num :=
  fun w => (World.perf w 0,
            World.mk (World.random w) (World.date w)
                     (fun k => World.perf w (S k)) (World.render_incident_id w)).

Definition incident_id {num} (stamp salt : num) : Js num string :=
  fun w => (World.render_incident_id w stamp salt, w).

(** ** Balance constants ([src/game/balance]) *)

Section Balance.
Context {num : Type} {N : JsNumber num}.

Definition BASE_DECAY_RATE : num := lit 0.1.

Definition INCIDENT_IMPACT_MINOR : Metrics.t num :=
  Metrics.mk (lit (-5)) (lit (-5)) (lit (-5)).
Definition INCIDENT_IMPACT_MODERATE : Metrics.t num :=
  Metrics.mk (lit (-15)) (lit (-15)) (lit (-10)).
Definition INCIDENT_IMPACT_MAJOR : Metrics.t num :=
  Metrics.mk (lit (-30)) (lit (-30)) (lit (-20)).

Definition INCIDENT_RESOLUTION_TIME_MINOR : num := lit 30.
Definition INCIDENT_RESOLUTION_TIME_MODERATE : num := lit 60.
Definition INCIDENT_RESOLUTION_TIME_MAJOR : num := lit 120.
End Balance.

(** ** Formula library ([src/game/formulas]) *)

Section Formulas.
Context {num : Type} {N : JsNumber num}.
Local Open Scope js_scope.

Definition calculateSLA (metrics : Metrics.t num) : num :=
  let sla := Metrics.T metrics * lit 0.4 + Metrics.A metrics * lit 0.4
             + Metrics.C metrics * lit 0.2 in
  Math_max (lit 0) (Math_min (lit 100) sla).

Definition calculateDatasetDC (dataset : Dataset.t num) (globalMultipliers : num) : num :=
  let sla := calculateSLA (Dataset.current_metrics dataset) in
  let baseDC := Dataset.base_dc dataset in
  let efficiency := sla / lit 100 in
  (baseDC * efficiency * globalMultipliers) / lit 60.

Definition calculateStaffMultiplier (staff : list (Staff.t num)) : num :=
  fold_left
    (fun multiplier member =>
       multiplier * StaffEffects.dc_generation_bonus (Staff.effects member))
    staff (lit 1.0).

Definition calculateTotalDC (datasets : list (Dataset.t num))
           (staff : list (Staff.t num)) : num :=
  let staffMultiplier := calculateStaffMultiplier staff in
  fold_left
    (fun total dataset => total + calculateDatasetDC dataset staffMultiplier)
    datasets (lit 0).

Definition applyMetricDecay (dataset : Dataset.t num) (decayRate : num) : Dataset.t num :=
  Dataset.with_current_metrics dataset
    (Metrics.mk
       (Math_max (lit 0) (Metrics.T (Dataset.current_metrics dataset) - decayRate))
       (Math_max (lit 0) (Metrics.A (Dataset.current_metrics dataset) - decayRate))
       (Math_max (lit 0) (Metrics.C (Dataset.current_metrics dataset) - decayRate))).

Definition applyStaffBonuses (dataset : Dataset.t num)
           (staff : list (Staff.t num)) : Dataset.t num :=
  let totalBonus :=
    fold_left
      (fun acc member =>
         Metrics.mk
           (Metrics.T acc + StaffEffects.global_T_bonus (Staff.effects member))
           (Metrics.A acc + StaffEffects.global_A_bonus (Staff.effects member))
           (Metrics.C acc + StaffEffects.global_C_bonus (Staff.effects member)))
      staff (Metrics.mk (lit 0) (lit 0) (lit 0)) in
  Dataset.with_current_metrics dataset
    (Metrics.mk
       (Math_min (lit 100) (Metrics.T (Dataset.current_metrics dataset) + Metrics.T totalBonus))
       (Math_min (lit 100) (Metrics.A (Dataset.current_metrics dataset) + Metrics.A totalBonus))
       (Math_min (lit 100) (Metrics.C (Dataset.current_metrics dataset) + Metrics.C totalBonus))).

Definition calculateDatasetStatus (dataset : Dataset.t num) : DatasetStatus :=
  let sla := calculateSLA (Dataset.current_metrics dataset) in
  let target := calculateSLA (Dataset.sla_targets dataset) in
  if sla >=? target then ok
  else if sla >=? target * lit 0.8 then warning
  else failing.

Definition riskMultipliers (r : RiskRating) : num :=
  match r with
  | low => lit 1.0
  | medium => lit 1.5
  | high => lit 2.0
  end.

Definition calculateIncidentChance (dataset : Dataset.t num) (baseChance : num) : num :=
  let sla := calculateSLA (Dataset.current_metrics dataset) in
  let volumeFactor := lit 1 + Dataset.volume dataset / lit 1000 in
  let slaFactor := (lit 100 - sla) / lit 100 in
  let riskMultiplier := riskMultipliers (Dataset.risk_rating dataset) in
  let chance := baseChance * volumeFactor * slaFactor * riskMultiplier in
  Math_max (lit 0.001) (Math_min (lit 0.1) chance).

End Formulas.

(** ** Tick engine ([src/game/engine.ts]) *)

Module Performance.
Record t (num : Type) := mk {
  tickDurationMs : num;
  decayTimeMs : num;
  incidentTimeMs : num;
  dcCalcTimeMs : num
}.
End Performance.

Module TickResult.
Record t (num : Type) := mk {
  dcGenerated : num;
  newIncidents : list (Incident.t num);
  newEvent : option (Event.t num);
  updatedDatasets : list (Dataset.t num);
  updatedIncidents : list (Incident.t num);
  performance : Performance.t num
}.
End TickResult.

(** The argument of [processTick]. *)
Module Snapshot.
Record t (num : Type) := mk {
  datasets : list (Dataset.t num);
  staff : list (Staff.t num);
  activeIncidents : list (Incident.t num);
  currentEvent : option (Event.t num);
  dc : num;
  lifetimeDC : num;
  prestigeLevel : num
}.
End Snapshot.

(** The first argument of [calculateOfflineProgress]. *)
Module SavedState.
Record t (num : Type) := mk {
  datasets : list (Dataset.t num);
  staff : list (Staff.t num);
  activeIncidents : list (Incident.t num);
  dc : num;
  lifetimeDC : num;
  prestigeLevel : num
}.
End SavedState.

Module OfflineResult.
Record t (num : Type) := mk {
  dcEarned : num;
  ticksSimulated : num;
  finalDatasets : list (Dataset.t num)
}.
End OfflineResult.

Module IncidentTemplate.
Record t (num : Type) := mk {
  type : IncidentType;
  title : string;
  description : string;
  impact : Metrics.t num;
  resolutionTime : num;
  haltsDC : bool
}.
End IncidentTemplate.

Section Engine.
Context {num : Type} {N : JsNumber num}.
Local Open Scope js_scope.

(** The body of [incidents.map(...)] in [processIncidents]. *)
Definition advanceIncident (resolutionSpeedMultiplier : num)
           (incident : Incident.t num) : Incident.t num :=
  let progressPerTick :=
    (lit 1 / Incident.base_resolution_time incident) * resolutionSpeedMultiplier in
  let newProgress := Incident.resolution_progress incident + progressPerTick in
  Incident.with_resolution_progress incident newProgress.

(** The body of [affectingIncidents.forEach(...)] in [processIncidents]. *)
Definition applyImpact (current_metrics : Metrics.t num)
           (incident : Incident.t num) : Metrics.t num :=
  Metrics.mk
    (Math_max (lit 0) (Metrics.T current_metrics + Metrics.T (Incident.metric_impact incident)))
    (Math_max (lit 0) (Metrics.A current_metrics + Metrics.A (Incident.metric_impact incident)))
    (Math_max (lit 0) (Metrics.C current_metrics + Metrics.C (Incident.metric_impact incident))).

(** The body of [datasets.map(...)] in [processIncidents]. *)
Definition applyIncidentPenalties (updatedIncidents : list (Incident.t num))
           (dataset : Dataset.t num) : Dataset.t num :=
  let affectingIncidents :=
    filter (fun incident => String.eqb (Incident.dataset_id incident) (Dataset.id dataset))
           updatedIncidents in
  if Nat.eqb (List.length affectingIncidents) 0 then dataset
  else
    let current_metrics :=
      fold_left applyImpact affectingIncidents (Dataset.current_metrics dataset) in
    Dataset.with_current_metrics dataset current_metrics.

Definition processIncidents (datasets : list (Dataset.t num))
           (incidents : list (Incident.t num)) (staff : list (Staff.t num))
  : list (Dataset.t num) * list (Incident.t num) :=
  let resolutionSpeedMultiplier :=
    fold_left
      (fun multiplier member =>
         multiplier * StaffEffects.incident_resolution_speed (Staff.effects member))
      staff (lit 1.0) in
  let updatedIncidents :=
    filter (fun incident => Incident.resolution_progress incident <? lit 1.0)
           (map (advanceIncident resolutionSpeedMultiplier) incidents) in
  let updatedDatasets := map (applyIncidentPenalties updatedIncidents) datasets in
  (updatedDatasets, updatedIncidents).

Definition dataDelay (dataset : Dataset.t num) : IncidentTemplate.t num :=
  IncidentTemplate.mk data_delay "Data Delay"
    (Dataset.name dataset ++ " is experiencing upstream delays")%string
    INCIDENT_IMPACT_MINOR INCIDENT_RESOLUTION_TIME_MINOR false.

Definition corruptedBatch (dataset : Dataset.t num) : IncidentTemplate.t num :=
  IncidentTemplate.mk corrupted_batch "Corrupted Batch"
    ("Data quality issue detected in " ++ Dataset.name dataset)%string
    INCIDENT_IMPACT_MODERATE INCIDENT_RESOLUTION_TIME_MODERATE false.

Definition pipelineFailure (dataset : Dataset.t num) : IncidentTemplate.t num :=
  IncidentTemplate.mk pipeline_failure "Pipeline Failure"
    ("Critical pipeline failure in " ++ Dataset.name dataset)%string
    INCIDENT_IMPACT_MAJOR INCIDENT_RESOLUTION_TIME_MAJOR true.

Definition incidentTypes (dataset : Dataset.t num) : list (IncidentTemplate.t num) :=
  [dataDelay dataset; corruptedBatch dataset; pipelineFailure dataset].

(** [incidentTypes[x]].  [Math.random] returns a value in [[0, 1)], so the
    index [Math.floor(Math.random() * incidentTypes.length)] is 0, 1 or 2,
    in exact arithmetic and in double precision ([draw_indexes_catalog],
    [Binary64Draws.draw_indexes_catalog_binary64]).  At any other index the
    source reads [undefined] and throws a [TypeError] on [template.type];
    the embedding has no exception and puts the first template there, so a
    statement about the incident spawned follows the source for draws in
    [[0, 1)] only ([unitDraw]). *)
Definition templateAt (dataset : Dataset.t num) (x : num) : IncidentTemplate.t num :=
  match num_index x with
  | Some k => nth k (incidentTypes dataset) (dataDelay dataset)
  | None => dataDelay dataset
  end.

Definition createIncident (dataset : Dataset.t num) : Js num (Incident.t num) :=
  r <- Math_random ;;
  let template :=
    templateAt dataset
      (Math_floor (r * num_of_nat (List.length (incidentTypes dataset)))) in
  stamp <- Date_now ;;
  salt <- Math_random ;;
  id <- incident_id stamp salt ;;
  started_at <- Date_now ;;
  ret (Incident.mk id
         (IncidentTemplate.type template)
         (IncidentTemplate.title template)
         (IncidentTemplate.description template)
         (Dataset.id dataset)
         (IncidentTemplate.impact template)
         (IncidentTemplate.resolutionTime template)
         (lit 0)
         started_at
         (IncidentTemplate.haltsDC template)).

(** Step 6 of [processTick]: [datasets.forEach(...)] pushing onto
    [newIncidents]. *)
Fixpoint rollIncidents (datasets : list (Dataset.t num))
         (newIncidents : list (Incident.t num)) : Js num (list (Incident.t num)) :=
  match datasets with
  | [] => ret newIncidents
  | dataset :: rest =>
      let incidentChance := calculateIncidentChance dataset (lit 0.003) in
      r <- Math_random ;;
      if r <? incidentChance then
        incident <- createIncident dataset ;;
        rollIncidents rest (newIncidents ++ [incident])%list
      else rollIncidents rest newIncidents
  end.

(** Step 1 of [processTick]: the body of the first [state.datasets.map]. *)
Definition effectiveDecayRate (dataset : Dataset.t num) : num :=
  let decayReduction :=
    num_of_nat (List.length (Dataset.pipelines_installed dataset)) * lit 0.01 in
  Math_max (lit 0.01) (BASE_DECAY_RATE - decayReduction).

Definition decayAndBonus (staff : list (Staff.t num)) (dataset : Dataset.t num)
  : Dataset.t num :=
  let decayed := applyMetricDecay dataset (effectiveDecayRate dataset) in
  if Nat.ltb 0 (List.length staff) then applyStaffBonuses decayed staff else decayed.

(** Step 4 of [processTick]: the body of the second [datasets.map]. *)
Definition refreshSLA (dataset : Dataset.t num) : Dataset.t num :=
  Dataset.with_sla_status dataset
    (calculateSLA (Dataset.current_metrics dataset))
    (calculateDatasetStatus dataset).

Definition processTick (state : Snapshot.t num) : Js num (TickResult.t num) :=
  startTime <- performance_now ;;
  let perfMetrics := Performance.mk (lit 0) (lit 0) (lit 0) (lit 0) in
  match Snapshot.currentEvent state with
  | Some _ =>
      ret (TickResult.mk (lit 0) [] None
             (Snapshot.datasets state) (Snapshot.activeIncidents state) perfMetrics)
  | None =>
      decayStart <- performance_now ;;
      let datasets := map (decayAndBonus (Snapshot.staff state)) (Snapshot.datasets state) in
      decayEnd <- performance_now ;;
      incidentStart <- performance_now ;;
      let '(datasetsAfterIncidents, updatedIncidents) :=
        processIncidents datasets (Snapshot.activeIncidents state) (Snapshot.staff state) in
      let datasets := datasetsAfterIncidents in
      incidentEnd <- performance_now ;;
      let datasets := map refreshSLA datasets in
      dcCalcStart <- performance_now ;;
      let dcGenerated := calculateTotalDC datasets (Snapshot.staff state) in
      dcCalcEnd <- performance_now ;;
      newIncidents <- rollIncidents datasets [] ;;
      let newEvent := None in
      tickEnd <- performance_now ;;
      ret (TickResult.mk dcGenerated newIncidents newEvent datasets updatedIncidents
             (Performance.mk (tickEnd - startTime) (decayEnd - decayStart)
                             (incidentEnd - incidentStart) (dcCalcEnd - dcCalcStart)))
  end.

(** The [for] loop of [calculateOfflineProgress]: [batch] counts up to
    [batches]; the loop variables are [totalDCEarned], [currentDatasets]
    and [ticksProcessed].  The recursion is on [fuel]; [None] means the
    fuel ran out before the loop condition failed. *)
Fixpoint offlineLoop (fuel : nat) (state : SavedState.t num)
         (ticksToSimulate batches batch : num)
         (totalDCEarned : num) (currentDatasets : list (Dataset.t num))
         (ticksProcessed : num)
  : Js num (option (num * list (Dataset.t num) * num)) :=
  match fuel with
  | O => ret None
  | S fuel' =>
      if batch <? batches then
        let BATCH_SIZE := lit 60 in
        let OFFLINE_EFFICIENCY := lit 0.5 in
        let ticksInBatch := Math_min BATCH_SIZE (ticksToSimulate - ticksProcessed) in
        result <- processTick
                    (Snapshot.mk currentDatasets (SavedState.staff state) [] None
                                 (SavedState.dc state) (SavedState.lifetimeDC state)
                                 (SavedState.prestigeLevel state)) ;;
        let batchDC := TickResult.dcGenerated result * ticksInBatch * OFFLINE_EFFICIENCY in
        offlineLoop fuel' state ticksToSimulate batches (batch + lit 1)
                    (totalDCEarned + batchDC)
                    (TickResult.updatedDatasets result)
                    (ticksProcessed + ticksInBatch)
      else ret (Some (totalDCEarned, currentDatasets, ticksProcessed))
  end.

Definition calculateOfflineProgressFuel (fuel : nat) (state : SavedState.t num)
           (secondsElapsed : num) : Js num (option (OfflineResult.t num)) :=
  let MAX_OFFLINE_SECONDS := lit 86400 in
  let ticksToSimulate := Math_min secondsElapsed MAX_OFFLINE_SECONDS in
  let BATCH_SIZE := lit 60 in
  let batches := Math_ceil (ticksToSimulate / BATCH_SIZE) in
  out <- offlineLoop fuel state ticksToSimulate batches (lit 0)
                     (lit 0) (SavedState.datasets state) (lit 0) ;;
  ret (match out with
       | Some (totalDCEarned, currentDatasets, ticksProcessed) =>
           Some (OfflineResult.mk (Math_floor totalDCEarned) ticksProcessed currentDatasets)
       | None => None
       end).

(** [batches] is at most [ceil(86400 / 60) = 1440], so the loop condition
    is tested at most 1441 times. *)
Definition offlineFuel : nat := 1441.

Definition calculateOfflineProgress (state : SavedState.t num) (secondsElapsed : num)
  : Js num (option (OfflineResult.t num)) :=
  calculateOfflineProgressFuel offlineFuel state secondsElapsed.

End Engine.

(** ** The scenarios of the test suite ([engine.test.ts]) *)

Section Scenarios.
Context {num : Type} {N : JsNumber num}.

Definition mockDataset : Dataset.t num :=
  Dataset.mk "test-dataset" "Test Dataset" "Test" (lit 60) (lit 100) low
    (Metrics.mk (lit 95) (lit 95) (lit 95))
    (Metrics.mk (lit 100) (lit 100) (lit 100))
    [] (lit 100) ok None.

Definition activeSnapshot (datasets : list (Dataset.t num))
           (staff : list (Staff.t num)) (incidents : list (Incident.t num))
  : Snapshot.t num :=
  Snapshot.mk datasets staff incidents None (lit 0) (lit 0) (lit 0).

(** The incident of the test "removes resolved incidents"; [started_at]
    is [Date.now()] there, a fixed stamp here. *)
Definition nearlyResolved : Incident.t num :=
  Incident.mk "incident-1" data_delay "Data Delay" "Test incident" "test-dataset"
    (Metrics.mk (lit (-10)) (lit (-5)) (lit (-5)))
    (lit 30) (lit 0.97) (lit 0) false.

Definition savedState (datasets : list (Dataset.t num)) : SavedState.t num :=
  SavedState.mk datasets [] [] (lit 0) (lit 0) (lit 0).

(** The incident of the test "processes active incidents". *)
Definition justStarted : Incident.t num :=
  Incident.mk "incident-1" data_delay "Data Delay" "Test incident" "test-dataset"
    (Metrics.mk (lit (-10)) (lit (-5)) (lit (-5)))
    (lit 30) (lit 0) (lit 0) false.

(** The staff member of the test "applies staff bonuses to counteract
    decay". *)
Definition engineer : Staff.t num :=
  Staff.mk "engineer" "Data Engineer" data_engineer "Improves metrics"
    (lit 1000) (lit 10)
    (StaffEffects.mk (lit 0.2) (lit 0.2) (lit 0.2) (lit 1.0) (lit 1.0))
    None None.

(** The event of the test "pauses game when event is active". *)
Definition mockEvent : Event.t num :=
  Event.mk "event-1" "Test Event" "Test" choice_event [] None None.

Definition pausedSnapshot (datasets : list (Dataset.t num))
           (staff : list (Staff.t num)) (incidents : list (Incident.t num))
  : Snapshot.t num :=
  Snapshot.mk datasets staff incidents (Some mockEvent) (lit 0) (lit 0) (lit 0).

(** A platform whose random draws are all [r] and whose clocks stand
    still. *)
Definition constantWorld (r : num) : World.t num :=
  World.mk (fun _ => r) (fun _ => lit 0) (fun _ => lit 0) (fun _ _ => "incident-0-x"%string).
End Scenarios.

(** ** Definitions used to state the properties *)

Section Statements.
Context {num : Type} {N : JsNumber num}.
Local Open Scope js_scope.

(** The staff resolution-speed product computed at the head of
    [processIncidents]. *)
Definition resolutionSpeed (staff : list (Staff.t num)) : num :=
  fold_left
    (fun multiplier member =>
       multiplier * StaffEffects.incident_resolution_speed (Staff.effects member))
    staff (lit 1.0).

(** The datasets as they leave steps 1 to 4 of an active tick. *)
Definition tickDatasets (state : Snapshot.t num) : list (Dataset.t num) :=
  map refreshSLA
      (fst (processIncidents
              (map (decayAndBonus (Snapshot.staff state)) (Snapshot.datasets state))
              (Snapshot.activeIncidents state) (Snapshot.staff state))).

(** The incidents as they leave step 3 of an active tick. *)
Definition tickIncidents (state : Snapshot.t num) : list (Incident.t num) :=
  snd (processIncidents
         (map (decayAndBonus (Snapshot.staff state)) (Snapshot.datasets state))
         (Snapshot.activeIncidents state) (Snapshot.staff state)).

(** [{ ...state, activeIncidents }] *)
Definition withIncidents (state : Snapshot.t num) (incidents : list (Incident.t num))
  : Snapshot.t num :=
  Snapshot.mk (Snapshot.datasets state) (Snapshot.staff state) incidents
              (Snapshot.currentEvent state) (Snapshot.dc state)
              (Snapshot.lifetimeDC state) (Snapshot.prestigeLevel state).

(** An incident whose progress after this tick's advance is still below
    1.0. *)
Definition survives (staff : list (Staff.t num)) (incident : Incident.t num) : bool :=
  Incident.resolution_progress (advanceIncident (resolutionSpeed staff) incident)
  <? lit 1.0.

(** The snapshot with every [halts_dc_generation] flag overwritten: two
    snapshots differ at most in those flags exactly when this makes them
    equal. *)
Definition eraseHalts (state : Snapshot.t num) : Snapshot.t num :=
  withIncidents state
    (map (fun i => Incident.with_halts_dc_generation i false)
         (Snapshot.activeIncidents state)).

(** The incident step as the sentence "its metric impact IS still applied
    for that final tick before removal" words it: every advanced incident
    weighs on its dataset, and the resolved ones are dropped afterwards. *)
Definition processIncidents_impactBeforeRemoval (datasets : list (Dataset.t num))
           (incidents : list (Incident.t num)) (staff : list (Staff.t num))
  : list (Dataset.t num) * list (Incident.t num) :=
  let advanced := map (advanceIncident (resolutionSpeed staff)) incidents in
  (map (applyIncidentPenalties advanced) datasets,
   filter (fun incident => Incident.resolution_progress incident <? lit 1.0) advanced).

Definition tickDatasets_impactBeforeRemoval (state : Snapshot.t num)
  : list (Dataset.t num) :=
  map refreshSLA
      (fst (processIncidents_impactBeforeRemoval
              (map (decayAndBonus (Snapshot.staff state)) (Snapshot.datasets state))
              (Snapshot.activeIncidents state) (Snapshot.staff state))).

(** The snapshot [calculateOfflineProgress] hands to [processTick]. *)
Definition offlineSnapshot (state : SavedState.t num) (datasets : list (Dataset.t num))
  : Snapshot.t num :=
  Snapshot.mk datasets (SavedState.staff state) [] None
              (SavedState.dc state) (SavedState.lifetimeDC state)
              (SavedState.prestigeLevel state).

(** The [ticksProcessed] variable of the [for] loop of
    [calculateOfflineProgress], followed on its own: it does not depend on
    the datasets or on the platform. *)
Fixpoint ticksLoop (fuel : nat) (ticksToSimulate batches batch ticksProcessed : num)
  : option num :=
  match fuel with
  | O => None
  | S fuel' =>
      if batch <? batches then
        ticksLoop fuel' ticksToSimulate batches (batch + lit 1)
                  (ticksProcessed + Math_min (lit 60) (ticksToSimulate - ticksProcessed))
      else Some ticksProcessed
  end.

End Statements.

Section RangeStatements.
Context {num : Type} {N : JsNumber num}.

(** A number lies in [[0, 100]]. *)
Definition within (x : num) : Prop := num_le (lit 0) x /\ num_le x (lit 100).

(** The metrics of a dataset lie in [[0, 100]]. *)
Definition inRange (m : Metrics.t num) : Prop :=
  within (Metrics.T m) /\ within (Metrics.A m) /\ within (Metrics.C m).

Definition nonNegativeBonus (member : Staff.t num) : Prop :=
  num_le (lit 0) (StaffEffects.global_T_bonus (Staff.effects member))
  /\ num_le (lit 0) (StaffEffects.global_A_bonus (Staff.effects member))
  /\ num_le (lit 0) (StaffEffects.global_C_bonus (Staff.effects member)).

Definition nonPositiveImpact (incident : Incident.t num) : Prop :=
  num_le (Metrics.T (Incident.metric_impact incident)) (lit 0)
  /\ num_le (Metrics.A (Incident.metric_impact incident)) (lit 0)
  /\ num_le (Metrics.C (Incident.metric_impact incident)) (lit 0).

End RangeStatements.

Section ExactStatements.
Local Open Scope Q_scope.

(** The product of every staff member's resolution-speed factor, 1 for an
    empty staff list, as the specification words it. *)
Definition speedProduct (staff : list (Staff.t Q)) : Q :=
  fold_right
    (fun member acc => StaffEffects.incident_resolution_speed (Staff.effects member) * acc)
    1 staff.

End ExactStatements.

(** ** Vocabulary of the rounding lemmas *)

Module Rounding.

Abbreviation fexp64 := (SpecFloat.fexp prec emax).
Abbreviation emin64 := (SpecFloat.emin prec emax).
Abbreviation SF64add := (SFadd prec emax).
Abbreviation SF64sub := (SFsub prec emax).
Abbreviation SF64mul := (SFmul prec emax).

(** The sign of a value that has one. *)
Definition has_sign (sx : bool) (f : spec_float) : Prop :=
  match f with
  | S754_zero s | S754_infinity s | S754_finite s _ _ => s = sx
  | S754_nan => False
  end.

(** The result of rounding a positive mantissa, described by the two
    shifts and the increment between them. *)
Definition round_result (sx : bool) (M3 e3 : Z) : spec_float :=
  match M3 with
  | Z0 => S754_zero sx
  | Zpos m => if (e3 <=? emax - prec)%Z then S754_finite sx m e3 else S754_infinity sx
  | Zneg _ => S754_nan
  end.

(** The order of [SFcompare], read on a key. *)
Definition lex (e1 : Z) (m1 : positive) (e2 : Z) (m2 : positive) : comparison :=
  match Z.compare e1 e2 with
  | Lt => Lt
  | Gt => Gt
  | Eq => Pos.compare m1 m2
  end.

(** The double that holds the integer [z], [0 <= z < 2^53]: [z] itself,
    shifted to a mantissa of 53 digits. *)
Definition int_repr (z : Z) : spec_float :=
  round_result false (z * 2 ^ (53 - Zdigits2 z))%Z (Zdigits2 z - 53)%Z.

Definition nonneg (f : spec_float) : Prop := SFleb (S754_zero false) f = true.
Definition nonpos (f : spec_float) : Prop := SFleb f (S754_zero false) = true.

End Rounding.

(** ** Formula library, the remaining functions ([src/game/formulas]) *)

Inductive PipelineCategory :=
| validation_pipeline | etl_pipeline | streaming_pipeline
| quality_pipeline | automation_pipeline.

Module PipelineEffects.
Record t (num : Type) := mk {
  T : num;
  A : num;
  C : num;
  decay_reduction : num;
  incident_reduction : num
}.
End PipelineEffects.

Module Pipeline.
Record t (num : Type) := mk {
  id : string;
  name : string;
  description : string;
  cost_dc : num;
  effects : PipelineEffects.t num;
  requires_tech : option string;
  per_dataset : bool;
  category : PipelineCategory
}.
End Pipeline.

Section FormulasRest.
Context {num : Type} {N : JsNumber num}.
Local Open Scope js_scope.

Definition applyMetricDecayToAll (datasets : list (Dataset.t num)) (decayRate : num)
  : list (Dataset.t num) :=
  map (fun dataset => applyMetricDecay dataset decayRate) datasets.

(** [{ ...dataset, current_metrics: ..., pipelines_installed: [...] }] *)
Definition applyPipelineEffects (dataset : Dataset.t num) (pipeline : Pipeline.t num)
  : Dataset.t num :=
  Dataset.mk (Dataset.id dataset) (Dataset.name dataset) (Dataset.description dataset)
    (Dataset.base_dc dataset) (Dataset.volume dataset) (Dataset.risk_rating dataset)
    (Dataset.sla_targets dataset)
    (Metrics.mk
       (Math_min (lit 100) (Metrics.T (Dataset.current_metrics dataset)
                            + PipelineEffects.T (Pipeline.effects pipeline)))
       (Math_min (lit 100) (Metrics.A (Dataset.current_metrics dataset)
                            + PipelineEffects.A (Pipeline.effects pipeline)))
       (Math_min (lit 100) (Metrics.C (Dataset.current_metrics dataset)
                            + PipelineEffects.C (Pipeline.effects pipeline))))
    (Dataset.pipelines_installed dataset ++ [Pipeline.id pipeline])
    (Dataset.currentSLA dataset) (Dataset.status dataset)
    (Dataset.unlock_requirement dataset).

Definition calculateGlobalSLA (datasets : list (Dataset.t num)) : num :=
  if Nat.eqb (List.length datasets) 0 then lit 100
  else
    let totalSLA :=
      fold_left
        (fun sum dataset => sum + calculateSLA (Dataset.current_metrics dataset))
        datasets (lit 0) in
    totalSLA / num_of_nat (List.length datasets).

Definition canPrestige (datasets : list (Dataset.t num)) (lifetimeDC : num) : bool :=
  let hasEnoughDatasets := num_of_nat (List.length datasets) >=? lit 10 in
  let hasHighSLA := calculateGlobalSLA datasets >=? lit 95 in
  let hasEnoughDC := lifetimeDC >=? lit 2000000 in
  hasEnoughDatasets && hasHighSLA && hasEnoughDC.

Definition calculatePrestigeBonus (prestigeLevel : num) : num :=
  prestigeLevel * lit 5.

End FormulasRest.

(** ** Technologies ([src/types/technology]) *)

Inductive TechnologyCategory :=
| infrastructure_tech | processing_tech | governance_tech
| automation_tech | advanced_tech.

Module GlobalBonuses.
Record t (num : Type) := mk {
  dc_multiplier : option num;
  sla_bonus : option num;
  decay_reduction : option num;
  incident_reduction : option num
}.
End GlobalBonuses.

Module TechnologyUnlocks.
Record t (num : Type) := mk {
  datasets : list string;
  pipelines : list string;
  staff_roles : list string;
  global_bonuses : GlobalBonuses.t num
}.
End TechnologyUnlocks.

Module Technology.
Record t (num : Type) := mk {
  id : string;
  name : string;
  description : string;
  cost_dc : num;
  unlocks : TechnologyUnlocks.t num;
  requires : list string;
  tier : num;
  category : TechnologyCategory
}.
End Technology.

(** ** The store ([src/store/gameStore.ts])

    The state of the Zustand store and its actions, each as a function of
    the state it reads with [get()] to the state it leaves with [set(...)];
    an action that returns a boolean returns it beside the state.  What the
    actions write to the console is left out. *)

Module GameState.
Record t (num : Type) := mk {
  dc : num;
  lifetimeDC : num;
  prestigeLevel : num;
  datasets : list (Dataset.t num);
  purchasedPipelines : list string;
  staff : list (Staff.t num);
  unlockedTechnologies : list string;
  activeIncidents : list (Incident.t num);
  currentEvent : option (Event.t num);
  lastTickTime : num;
  offlineProgressApplied : bool
}.
End GameState.

Section Store.
Context {num : Type} {N : JsNumber num}.
Local Open Scope js_scope.

(** Whether a number is truthy: neither zero nor NaN. *)
Definition truthy (x : num) : bool := (x <? lit 0) || (lit 0 <? x).

(** [x || 0], for an optional number [x]. *)
Definition orZero (x : option num) : num :=
  match x with
  | Some v => if truthy v then v else lit 0
  | None => lit 0
  end.

Definition canAfford (state : GameState.t num) (cost : num) : bool :=
  GameState.dc state >=? cost.

(** The snapshot [tick] hands to [processTick]. *)
Definition snapshotOf (state : GameState.t num) : Snapshot.t num :=
  Snapshot.mk (GameState.datasets state) (GameState.staff state)
              (GameState.activeIncidents state) (GameState.currentEvent state)
              (GameState.dc state) (GameState.lifetimeDC state)
              (GameState.prestigeLevel state).

(** The body of [result.updatedDatasets.map(...)] in [tick]. *)
Definition withPrestige (prestigeBonus : num) (dataset : Dataset.t num) : Dataset.t num :=
  Dataset.with_current_metrics dataset
    (Metrics.mk
       (Math_min (lit 100) (Metrics.T (Dataset.current_metrics dataset) + prestigeBonus))
       (Math_min (lit 100) (Metrics.A (Dataset.current_metrics dataset) + prestigeBonus))
       (Math_min (lit 100) (Metrics.C (Dataset.current_metrics dataset) + prestigeBonus))).

Definition tick (state : GameState.t num) : Js num (GameState.t num) :=
  result <- processTick (snapshotOf state) ;;
  let prestigeBonus := calculatePrestigeBonus (GameState.prestigeLevel state) in
  let datasetsWithPrestige :=
    map (withPrestige prestigeBonus) (TickResult.updatedDatasets result) in
  now <- Date_now ;;
  ret (GameState.mk
         (GameState.dc state + TickResult.dcGenerated result)
         (GameState.lifetimeDC state + TickResult.dcGenerated result)
         (GameState.prestigeLevel state)
         datasetsWithPrestige
         (GameState.purchasedPipelines state)
         (GameState.staff state)
         (GameState.unlockedTechnologies state)
         (TickResult.updatedIncidents result ++ TickResult.newIncidents result)
         (match TickResult.newEvent result with
          | Some event => Some event
          | None => GameState.currentEvent state
          end)
         now
         (GameState.offlineProgressApplied state)).

Definition hireStaff (staff : Staff.t num) (state : GameState.t num)
  : bool * GameState.t num :=
  if existsb (fun s => String.eqb (Staff.id s) (Staff.id staff)) (GameState.staff state)
  then (false, state)
  else if negb (canAfford state (Staff.cost_to_hire staff)) then (false, state)
  else
    (true,
     GameState.mk
       (GameState.dc state - Staff.cost_to_hire staff)
       (GameState.lifetimeDC state) (GameState.prestigeLevel state)
       (GameState.datasets state) (GameState.purchasedPipelines state)
       (GameState.staff state ++ [staff])
       (GameState.unlockedTechnologies state) (GameState.activeIncidents state)
       (GameState.currentEvent state) (GameState.lastTickTime state)
       (GameState.offlineProgressApplied state)).

(** [xs.includes(x)] on strings. *)
Definition includes (xs : list string) (x : string) : bool :=
  existsb (String.eqb x) xs.

Definition unlockTechnology (tech : Technology.t num) (state : GameState.t num)
  : bool * GameState.t num :=
  if includes (GameState.unlockedTechnologies state) (Technology.id tech)
  then (false, state)
  else
    let hasPrerequisites :=
      forallb (fun reqId => includes (GameState.unlockedTechnologies state) reqId)
              (Technology.requires tech) in
    if negb hasPrerequisites then (false, state)
    else if negb (canAfford state (Technology.cost_dc tech)) then (false, state)
    else
      (true,
       GameState.mk
         (GameState.dc state - Technology.cost_dc tech)
         (GameState.lifetimeDC state) (GameState.prestigeLevel state)
         (GameState.datasets state) (GameState.purchasedPipelines state)
         (GameState.staff state)
         (GameState.unlockedTechnologies state ++ [Technology.id tech])
         (GameState.activeIncidents state)
         (GameState.currentEvent state) (GameState.lastTickTime state)
         (GameState.offlineProgressApplied state)).

(** The body of [state.datasets.map(...)] in [resolveEvent]. *)
Definition applyMetricChanges (changes : option num * option num * option num)
           (dataset : Dataset.t num) : Dataset.t num :=
  let '(dT, dA, dC) := changes in
  Dataset.with_current_metrics dataset
    (Metrics.mk
       (Math_max (lit 0)
          (Math_min (lit 100) (Metrics.T (Dataset.current_metrics dataset) + orZero dT)))
       (Math_max (lit 0)
          (Math_min (lit 100) (Metrics.A (Dataset.current_metrics dataset) + orZero dA)))
       (Math_max (lit 0)
          (Math_min (lit 100) (Metrics.C (Dataset.current_metrics dataset) + orZero dC)))).

Definition resolveEvent (choiceId : string) (state : GameState.t num) : GameState.t num :=
  match GameState.currentEvent state with
  | None => state
  | Some event =>
      match find (fun c => String.eqb (EventChoice.id c) choiceId) (Event.choices event) with
      | None => state
      | Some choice =>
          let effects := EventChoice.effects choice in
          let newDC :=
            match EventEffects.dc_change effects with
            | Some change =>
                if truthy change then GameState.dc state + change else GameState.dc state
            | None => GameState.dc state
            end in
          let newDatasets :=
            match EventEffects.metric_changes effects with
            | Some changes => map (applyMetricChanges changes) (GameState.datasets state)
            | None => GameState.datasets state
            end in
          GameState.mk newDC
            (GameState.lifetimeDC state) (GameState.prestigeLevel state)
            newDatasets (GameState.purchasedPipelines state)
            (GameState.staff state) (GameState.unlockedTechnologies state)
            (GameState.activeIncidents state)
            None (GameState.lastTickTime state)
            (GameState.offlineProgressApplied state)
      end
  end.

Definition unlockDataset (dataset : Dataset.t num) (state : GameState.t num)
  : GameState.t num :=
  if existsb (fun d => String.eqb (Dataset.id d) (Dataset.id dataset))
             (GameState.datasets state)
  then state
  else
    GameState.mk
      (GameState.dc state) (GameState.lifetimeDC state) (GameState.prestigeLevel state)
      (GameState.datasets state ++ [dataset]) (GameState.purchasedPipelines state)
      (GameState.staff state) (GameState.unlockedTechnologies state)
      (GameState.activeIncidents state)
      (GameState.currentEvent state) (GameState.lastTickTime state)
      (GameState.offlineProgressApplied state).

Definition getGlobalSLA (state : GameState.t num) : num :=
  calculateGlobalSLA (GameState.datasets state).

Definition getDatasetDCRate (datasetId : string) (state : GameState.t num) : num :=
  match find (fun d => String.eqb (Dataset.id d) datasetId) (GameState.datasets state) with
  | None => lit 0
  | Some dataset =>
      let staffMultiplier := calculateStaffMultiplier (GameState.staff state) in
      calculateDatasetDC dataset staffMultiplier
  end.

Definition getTotalDCRate (state : GameState.t num) : num :=
  calculateTotalDC (GameState.datasets state) (GameState.staff state).

(** The first argument [applyOfflineProgress] hands to
    [calculateOfflineProgress]. *)
Definition savedStateOf (state : GameState.t num) : SavedState.t num :=
  SavedState.mk (GameState.datasets state) (GameState.staff state)
                (GameState.activeIncidents state) (GameState.dc state)
                (GameState.lifetimeDC state) (GameState.prestigeLevel state).

(** [None] when the loop of [calculateOfflineProgress] runs out of fuel. *)
Definition applyOfflineProgress (secondsElapsed : num) (state : GameState.t num)
  : Js num (option (GameState.t num)) :=
  if GameState.offlineProgressApplied state then ret (Some state)
  else
    out <- calculateOfflineProgress (savedStateOf state) secondsElapsed ;;
    match out with
    | None => ret None
    | Some result =>
        now <- Date_now ;;
        ret (Some
               (GameState.mk
                  (GameState.dc state + OfflineResult.dcEarned result)
                  (GameState.lifetimeDC state + OfflineResult.dcEarned result)
                  (GameState.prestigeLevel state)
                  (OfflineResult.finalDatasets result)
                  (GameState.purchasedPipelines state)
                  (GameState.staff state)
                  (GameState.unlockedTechnologies state)
                  []
                  (GameState.currentEvent state)
                  now
                  true))
    end.

End Store.

(** ** Definitions used to state the further properties *)

Section FurtherStatements.
Context {num : Type} {N : JsNumber num}.
Local Open Scope js_scope.

(** The staff member of the test "staff improves incident resolution
    speed". *)
Definition fastEngineer : Staff.t num :=
  Staff.mk "fast-engineer" "Data Engineer" data_engineer "Resolves incidents faster"
    (lit 1000) (lit 10)
    (StaffEffects.mk (lit 0) (lit 0) (lit 0) (lit 2.0) (lit 1.0))
    None None.

(** A second dataset beside [mockDataset], under another id. *)
Definition otherDataset : Dataset.t num :=
  Dataset.mk "other-dataset" "Other Dataset" "Test" (lit 60) (lit 100) low
    (Metrics.mk (lit 95) (lit 95) (lit 95))
    (Metrics.mk (lit 100) (lit 100) (lit 100))
    [] (lit 100) ok None.

(** A dataset at 100 / 100 / 100 with the given base rate. *)
Definition ratedDataset (base : num) : Dataset.t num :=
  Dataset.mk "rated-dataset" "Rated Dataset" "Test" base (lit 100) low
    (Metrics.mk (lit 95) (lit 95) (lit 95))
    (Metrics.mk (lit 100) (lit 100) (lit 100))
    [] (lit 100) ok None.

(** A staff member whose one effect is a factor on the DC generated. *)
Definition booster (bonus : num) : Staff.t num :=
  Staff.mk "booster" "Chief Data Officer" cdao "Raises DC generation"
    (lit 1000) (lit 10)
    (StaffEffects.mk (lit 0) (lit 0) (lit 0) (lit 1.0) bonus)
    None None.

(** The pipeline of the tests of [applyPipelineEffects]. *)
Definition mockPipeline : Pipeline.t num :=
  Pipeline.mk "validation" "Validation Pipeline" "Test" (lit 100)
    (PipelineEffects.mk (lit 10) (lit 15) (lit 5) (lit 0.1) (lit 0.1))
    None true validation_pipeline.

(** What a tick leaves of a dataset as it found it: everything but the
    current metrics, the stored SLA and the status. *)
Definition staticPart (d : Dataset.t num)
  : string * string * string * num * num * RiskRating * Metrics.t num
    * list string * option (UnlockRequirement.t num) :=
  (Dataset.id d, Dataset.name d, Dataset.description d, Dataset.base_dc d,
   Dataset.volume d, Dataset.risk_rating d, Dataset.sla_targets d,
   Dataset.pipelines_installed d, Dataset.unlock_requirement d).

(** The DC per second of the datasets at 100% SLA. *)
Definition nominalRate (datasets : list (Dataset.t num)) (staff : list (Staff.t num))
  : num :=
  fold_left
    (fun total dataset =>
       total + (Dataset.base_dc dataset * calculateStaffMultiplier staff) / lit 60)
    datasets (lit 0).

(** One batch of the offline loop on the datasets: an active tick without
    incidents. *)
Definition offlineStep (state : SavedState.t num) (datasets : list (Dataset.t num))
  : list (Dataset.t num) :=
  tickDatasets (offlineSnapshot state datasets).

(** The [for] loop of [calculateOfflineProgress] without the platform: the
    tick's DC and datasets do not depend on it. *)
Fixpoint offlineLoopPure (fuel : nat) (state : SavedState.t num)
         (ticksToSimulate batches batch : num)
         (totalDCEarned : num) (currentDatasets : list (Dataset.t num))
         (ticksProcessed : num)
  : option (num * list (Dataset.t num) * num) :=
  match fuel with
  | O => None
  | S fuel' =>
      if batch <? batches then
        let ticksInBatch := Math_min (lit 60) (ticksToSimulate - ticksProcessed) in
        let next := offlineStep state currentDatasets in
        let batchDC :=
          calculateTotalDC next (SavedState.staff state) * ticksInBatch * lit 0.5 in
        offlineLoopPure fuel' state ticksToSimulate batches (batch + lit 1)
                        (totalDCEarned + batchDC) next
                        (ticksProcessed + ticksInBatch)
      else Some (totalDCEarned, currentDatasets, ticksProcessed)
  end.

(** The number of turns of the [for] loop of [calculateOfflineProgress]:
    [batch] counts up from its start until [batch < batches] fails. *)
Fixpoint batchesRun (fuel : nat) (batches batch : num) : option nat :=
  match fuel with
  | O => None
  | S fuel' =>
      if batch <? batches
      then option_map S (batchesRun fuel' batches (batch + lit 1))
      else Some O
  end.

(** The platform after [k] readings of [performance.now]. *)
Definition skipPerf (k : nat) (w : World.t num) : World.t num :=
  World.mk (World.random w) (World.date w) (fun n => World.perf w (k + n))
           (World.render_incident_id w).

(** The incident [createIncident] builds for a dataset from a template, up
    to its identifier and its time stamp. *)
Definition spawnedFrom (dataset : Dataset.t num) (template : IncidentTemplate.t num)
           (incident : Incident.t num) : Prop :=
  incident
  = Incident.mk (Incident.id incident)
      (IncidentTemplate.type template) (IncidentTemplate.title template)
      (IncidentTemplate.description template) (Dataset.id dataset)
      (IncidentTemplate.impact template) (IncidentTemplate.resolutionTime template)
      (lit 0) (Incident.started_at incident) (IncidentTemplate.haltsDC template).

(** The incidents pair off, in order, with distinct datasets of the list:
    each incident names its dataset and starts at progress 0, and no dataset
    gets more than one. *)
Inductive onePerDataset : list (Dataset.t num) -> list (Incident.t num) -> Prop :=
| onePerDataset_nil : onePerDataset [] []
| onePerDataset_skip (dataset : Dataset.t num) (datasets : list (Dataset.t num))
                     (incidents : list (Incident.t num)) :
    onePerDataset datasets incidents ->
    onePerDataset (dataset :: datasets) incidents
| onePerDataset_spawn (dataset : Dataset.t num) (datasets : list (Dataset.t num))
                      (incident : Incident.t num) (incidents : list (Incident.t num)) :
    Incident.dataset_id incident = Dataset.id dataset ->
    Incident.resolution_progress incident = lit 0 ->
    onePerDataset datasets incidents ->
    onePerDataset (dataset :: datasets) (incident :: incidents).

(** A random draw as [Math.random] returns it: in [[0, 1)]. *)
Definition unitDraw (r : num) : Prop := num_le (lit 0) r /\ num_lt r (lit 1) = true.

(** Every value [Math.random] is going to return satisfies [P]. *)
Definition draws (P : num -> Prop) (w : World.t num) : Prop :=
  forall n : nat, P (World.random w n).

(** A store state around the scenarios of the test suite. *)
Definition storeState (dc : num) (datasets : list (Dataset.t num))
           (staff : list (Staff.t num)) (event : option (Event.t num))
  : GameState.t num :=
  GameState.mk dc dc (lit 0) datasets [] staff [] [] event (lit 0) false.

End FurtherStatements.

(** Sums and products over a list, in exact arithmetic. *)
Definition sumOf {A : Type} (g : A -> Q) (l : list A) : Q :=
  fold_right (fun x s => (g x + s)%Q) 0%Q l.

Definition productOf {A : Type} (g : A -> Q) (l : list A) : Q :=
  fold_right (fun x p => (g x * p)%Q) 1%Q l.

(** ** The value of a mantissa at an exponent *)

Module Magnitude.

(** [m * 2^e], as a rational. *)
Definition Qval (m e : Z) : Q := inject_Z m * 2 ^ e.

End Magnitude.

Section FurtherScenarios.
Context {num : Type} {N : JsNumber num}.

(** An incident halfway through a resolution time of 1e17 seconds. *)
Definition slowIncident : Incident.t num :=
  Incident.mk "incident-2" data_delay "Data Delay" "Test incident" "test-dataset"
    (Metrics.mk (lit (-10)) (lit (-5)) (lit (-5)))
    (lit 100000000000000000) (lit 0.5) (lit 0) false.

End FurtherScenarios.

(** * Proofs *)

(** ** Tactics for the rational instance *)

(** Name [Qmax] and [Qmin] terms by their defining cases, for [lra]. *)
Ltac minmax_cases :=
  repeat match goal with
         | |- context [Qmax ?a ?b] =>
             let x := fresh "mx" in
             pose proof (Q.max_spec a b); set (x := Qmax a b) in *; clearbody x
         | |- context [Qmin ?a ?b] =>
             let x := fresh "mn" in
             pose proof (Q.min_spec a b); set (x := Qmin a b) in *; clearbody x
         | H : context [Qmax ?a ?b] |- _ =>
             let x := fresh "mx" in
             pose proof (Q.max_spec a b); set (x := Qmax a b) in *; clearbody x
         | H : context [Qmin ?a ?b] |- _ =>
             let x := fresh "mn" in
             pose proof (Q.min_spec a b); set (x := Qmin a b) in *; clearbody x
         end.

(** Read the interface's operations at the rational instance. *)
Ltac rational_ops :=
  cbn [num_add num_sub num_mul num_div num_lt num_ge Math_max Math_min
       Math_floor Math_ceil lit rational] in *.

(** Decide a closed comparison of rationals. *)
Ltac closed_Qle := let Hgt := fresh "Hgt" in intro Hgt; discriminate Hgt.

(** ** The comparison law *)

Lemma SFcompare_antisym (x y : spec_float) (c : comparison) :
  SFcompare x y = Some c -> SFcompare y x = Some (CompOpp c).
Proof.
  destruct x as [sx|sx| |sx mx ex], y as [sy|sy| |sy my ey]; cbn;
    try destruct sx; try destruct sy; cbn; intros H; inversion H; subst;
    try reflexivity.
  - rewrite (Z.compare_antisym ey ex). destruct (ey ?= ex)%Z; cbn; try reflexivity.
    rewrite CompOpp_involutive. f_equal.
    rewrite Pos.compare_cont_antisym. reflexivity.
  - rewrite (Z.compare_antisym ey ex). destruct (ey ?= ex)%Z; cbn; try reflexivity.
    rewrite Pos.compare_cont_antisym. reflexivity.
Qed.

#[export] Instance binary64_order : JsOrder float.
Proof.
  intros a b. cbn. rewrite FloatAxioms.leb_spec, FloatAxioms.ltb_spec.
  unfold SFleb, SFltb.
  destruct (SFcompare (Prim2SF b) (Prim2SF a)) as [c|] eqn:E; [|discriminate].
  rewrite (SFcompare_antisym _ _ E). destruct c; cbn; congruence.
Qed.

Lemma rational_ltb_lt (a b : Q) : Rational.ltb a b = true <-> (a < b)%Q.
Proof.
  unfold Rational.ltb. rewrite Qlt_alt.
  destruct (a ?= b)%Q; split; intros H; congruence.
Qed.

Lemma rational_ltb_ge (a b : Q) : Rational.ltb a b = false <-> (b <= a)%Q.
Proof.
  destruct (Rational.ltb a b) eqn:E.
  - apply rational_ltb_lt in E. split; [discriminate|lra].
  - split; [|reflexivity]. intros _.
    destruct (Qlt_le_dec a b) as [Hlt|Hle]; [|exact Hle].
    apply rational_ltb_lt in Hlt. congruence.
Qed.

#[export] Instance rational_order : JsOrder Q.
Proof.
  intros a b. cbn. intros H. apply Qle_bool_iff in H.
  apply rational_ltb_ge. exact H.
Qed.


(** ** A draw in [[0, 1)] reads the incident catalog *)

(** In exact arithmetic the index [Math.floor(r * 3)] of a draw [r] in
    [[0, 1)] is 0, 1 or 2, so [templateAt] never takes its fallback. *)
Lemma draw_indexes_catalog (dataset : Dataset.t Q) (r : Q) :
  (0 <= r < 1)%Q ->
  exists k : nat,
    num_index (Math_floor (num_mul r (num_of_nat (List.length (incidentTypes dataset)))))
    = Some k
    /\ (k < List.length (incidentTypes dataset))%nat.
Proof.
  intros Hr. unfold num_of_nat. cbn [incidentTypes List.length]. rational_ops.
  unfold Rational.floor.
  set (x := (r * inject_Z (Z.of_nat 3))%Q).
  assert (Hx : (0 <= x < 3)%Q).
  { subst x. change (inject_Z (Z.of_nat 3)) with 3%Q. lra. }
  pose proof (Qfloor_le x) as Hle. pose proof (Qlt_floor x) as Hlt.
  assert (H0 : (0 <= Qfloor x)%Z).
  { assert (H : (0 < Qfloor x + 1)%Z).
    { rewrite Zlt_Qlt. change (inject_Z 0) with 0%Q. lra. }
    lia. }
  assert (H3 : (Qfloor x < 3)%Z).
  { rewrite Zlt_Qlt. change (inject_Z 3) with 3%Q. lra. }
  cbn [num_index rational]. unfold Rational.index. rewrite Qfloor_Z.
  assert (Heq : Qeq_bool (inject_Z (Qfloor x)) (inject_Z (Qfloor x)) = true).
  { apply Qeq_bool_iff. reflexivity. }
  rewrite Heq. apply Z.leb_le in H0 as H0'. rewrite H0'. cbn [andb].
  exists (Z.to_nat (Qfloor x)). split; [reflexivity|]. lia.
Qed.

(** ** The tick as a function of its snapshot *)

Section TickShape.
Context {num : Type} {N : JsNumber num}.

Lemma processTick_paused (state : Snapshot.t num) (e : Event.t num) (w : World.t num) :
  Snapshot.currentEvent state = Some e ->
  fst (processTick state w)
  = TickResult.mk (lit 0) [] None (Snapshot.datasets state)
                  (Snapshot.activeIncidents state)
                  (Performance.mk (lit 0) (lit 0) (lit 0) (lit 0)).
Proof.
  intros Hev. unfold processTick, bind, ret, performance_now.
  rewrite Hev. reflexivity.
Qed.

Lemma processTick_active (state : Snapshot.t num) (w : World.t num) :
  Snapshot.currentEvent state = None ->
  let r := fst (processTick state w) in
  TickResult.dcGenerated r = calculateTotalDC (tickDatasets state) (Snapshot.staff state)
  /\ TickResult.updatedDatasets r = tickDatasets state
  /\ TickResult.updatedIncidents r = tickIncidents state
  /\ TickResult.newEvent r = None.
Proof.
  intros Hev. unfold processTick, tickDatasets, tickIncidents, bind, ret, performance_now.
  rewrite Hev. cbn [fst snd].
  destruct (processIncidents _ _ _) as [ds is_]. cbn [fst snd].
  match goal with |- context [rollIncidents ?l ?acc ?w'] =>
    destruct (rollIncidents l acc w') as [inc w''] end.
  cbn. repeat split.
Qed.

End TickShape.

(** ** The incident step does not read [halts_dc_generation] *)

Section HaltsFlag.
Context {num : Type} {N : JsNumber num}.

Let erase (i : Incident.t num) : Incident.t num :=
  Incident.with_halts_dc_generation i false.

Lemma fold_applyImpact_erase (l : list (Incident.t num)) (m : Metrics.t num) :
  fold_left applyImpact (map erase l) m = fold_left applyImpact l m.
Proof.
  revert m. induction l as [|i l IH]; intros m; [reflexivity|].
  cbn [map fold_left]. rewrite IH. reflexivity.
Qed.

Lemma filter_map_erase (p : Incident.t num -> bool) (l : list (Incident.t num)) :
  (forall i, p (erase i) = p i) ->
  filter p (map erase l) = map erase (filter p l).
Proof.
  intros Hp. induction l as [|i l IH]; [reflexivity|].
  cbn [map filter]. rewrite Hp, IH. destruct (p i); reflexivity.
Qed.

Lemma applyIncidentPenalties_erase (l : list (Incident.t num)) (d : Dataset.t num) :
  applyIncidentPenalties (map erase l) d = applyIncidentPenalties l d.
Proof.
  unfold applyIncidentPenalties.
  rewrite filter_map_erase by reflexivity.
  rewrite length_map, fold_applyImpact_erase. reflexivity.
Qed.

Lemma survivors_erase (mult : num) (l : list (Incident.t num)) :
  filter (fun incident => num_lt (Incident.resolution_progress incident) (lit 1.0))
         (map (advanceIncident mult) (map erase l))
  = map erase
        (filter (fun incident => num_lt (Incident.resolution_progress incident) (lit 1.0))
                (map (advanceIncident mult) l)).
Proof.
  induction l as [|i l IH]; [reflexivity|].
  cbn [map filter]. rewrite IH.
  change (Incident.resolution_progress (advanceIncident mult (erase i)))
    with (Incident.resolution_progress (advanceIncident mult i)).
  destruct (num_lt _ _); reflexivity.
Qed.

Lemma processIncidents_erase (ds : list (Dataset.t num))
      (l : list (Incident.t num)) (st : list (Staff.t num)) :
  fst (processIncidents ds (map erase l) st) = fst (processIncidents ds l st).
Proof.
  unfold processIncidents. cbn [fst].
  rewrite survivors_erase.
  apply map_ext. intros d. apply applyIncidentPenalties_erase.
Qed.

Lemma tickDatasets_eraseHalts (state : Snapshot.t num) :
  tickDatasets (eraseHalts state) = tickDatasets state.
Proof.
  unfold tickDatasets, eraseHalts, withIncidents. cbn [Snapshot.staff Snapshot.datasets
    Snapshot.activeIncidents].
  f_equal. apply processIncidents_erase.
Qed.

End HaltsFlag.

(** ** Properties of a tick *)

Section TickProperties.
Context {num : Type} {N : JsNumber num}.

Lemma survivors_of_survivors (mult : num) (l : list (Incident.t num)) :
  filter (fun incident => num_lt (Incident.resolution_progress incident) (lit 1.0))
         (map (advanceIncident mult)
              (filter (fun i => num_lt (Incident.resolution_progress (advanceIncident mult i))
                                       (lit 1.0)) l))
  = filter (fun incident => num_lt (Incident.resolution_progress incident) (lit 1.0))
           (map (advanceIncident mult) l).
Proof.
  induction l as [|i l IH]; [reflexivity|].
  cbn [filter map].
  destruct (num_lt (Incident.resolution_progress (advanceIncident mult i)) (lit 1.0)) eqn:E.
  - cbn [filter map]. rewrite E, IH. reflexivity.
  - exact IH.
Qed.

Lemma processIncidents_survivors (ds : list (Dataset.t num))
      (l : list (Incident.t num)) (st : list (Staff.t num)) :
  processIncidents ds (filter (survives st) l) st = processIncidents ds l st.
Proof.
  unfold processIncidents, survives, resolutionSpeed.
  rewrite survivors_of_survivors. reflexivity.
Qed.

Lemma tickIncidents_spec (state : Snapshot.t num) :
  tickIncidents state
  = filter (fun incident => num_lt (Incident.resolution_progress incident) (lit 1.0))
           (map (advanceIncident (resolutionSpeed (Snapshot.staff state)))
                (Snapshot.activeIncidents state)).
Proof. reflexivity. Qed.

End TickProperties.

(** C3. A snapshot whose blocking event is non-null is returned unchanged:
    [dcGenerated] is 0, no incident is spawned, no event is raised, and the
    datasets and incidents of the result are those of the snapshot.  No
    random draw is consumed either. *)
Theorem paused_tick_is_identity :
  forall (num : Type) (N : JsNumber num) (state : Snapshot.t num)
         (e : Event.t num) (w : World.t num),
    Snapshot.currentEvent state = Some e ->
    let r := fst (processTick state w) in
    TickResult.dcGenerated r = lit 0
    /\ TickResult.newIncidents r = []
    /\ TickResult.newEvent r = None
    /\ TickResult.updatedDatasets r = Snapshot.datasets state
    /\ TickResult.updatedIncidents r = Snapshot.activeIncidents state
    /\ World.random (snd (processTick state w)) = World.random w.
Proof.
  intros num N state e w Hev r. subst r.
  rewrite (processTick_paused state w Hev). cbn.
  repeat split.
  unfold processTick, bind, ret, performance_now. rewrite Hev. reflexivity.
Qed.

Lemma paused_tick_is_identity_witness :
  let state := pausedSnapshot (num := float) [mockDataset] [] [nearlyResolved] in
  let r := fst (processTick state (constantWorld (lit 0.5))) in
  TickResult.dcGenerated r = lit 0
  /\ TickResult.newIncidents r = []
  /\ TickResult.newEvent r = None
  /\ TickResult.updatedDatasets r = [mockDataset]
  /\ TickResult.updatedIncidents r = [nearlyResolved]
  /\ World.random (snd (processTick state (constantWorld (lit 0.5))))
     = World.random (constantWorld (lit 0.5)).
Proof.
  exact (@paused_tick_is_identity float binary64
           (pausedSnapshot [mockDataset] [] [nearlyResolved]) mockEvent
           (constantWorld (lit 0.5)) eq_refl).
Defined.

(** C2. Two snapshots that differ only in the [halts_dc_generation] flags of
    their incidents yield the same [dcGenerated]: nothing before the DC
    computation reads the flag. *)
Theorem halts_flag_is_inert :
  forall (num : Type) (N : JsNumber num) (s1 s2 : Snapshot.t num)
         (w1 w2 : World.t num),
    Snapshot.currentEvent s1 = None ->
    eraseHalts s1 = eraseHalts s2 ->
    TickResult.dcGenerated (fst (processTick s1 w1))
    = TickResult.dcGenerated (fst (processTick s2 w2)).
Proof.
  intros num N s1 s2 w1 w2 Hev Heq.
  assert (Hev2 : Snapshot.currentEvent s2 = None).
  { change (Snapshot.currentEvent (eraseHalts s2) = None). rewrite <- Heq. exact Hev. }
  assert (Hst : Snapshot.staff s1 = Snapshot.staff s2).
  { change (Snapshot.staff (eraseHalts s1) = Snapshot.staff (eraseHalts s2)).
    rewrite Heq. reflexivity. }
  destruct (processTick_active s1 w1 Hev) as [H1 _].
  destruct (processTick_active s2 w2 Hev2) as [H2 _].
  rewrite H1, H2, <- Hst.
  rewrite <- (tickDatasets_eraseHalts s1), <- (tickDatasets_eraseHalts s2), Heq.
  reflexivity.
Qed.

Lemma halts_flag_is_inert_witness :
  let halting := Incident.with_halts_dc_generation (num := float) nearlyResolved true in
  let fresh := Incident.with_resolution_progress (num := float) nearlyResolved (lit 0) in
  let s1 := activeSnapshot [mockDataset] [] [nearlyResolved; fresh] in
  let s2 := activeSnapshot [mockDataset] []
              [halting; Incident.with_halts_dc_generation fresh true] in
  (Snapshot.currentEvent s1 = None
   /\ eraseHalts s1 = eraseHalts s2
   /\ map (@Incident.halts_dc_generation float) (Snapshot.activeIncidents s1) = [false; false]
   /\ map (@Incident.halts_dc_generation float) (Snapshot.activeIncidents s2) = [true; true])
  /\ TickResult.dcGenerated (fst (processTick s1 (constantWorld (lit 0.5))))
     = TickResult.dcGenerated (fst (processTick s2 (constantWorld (lit 0.0001)))).
Proof.
  split; [repeat split|].
  exact (@halts_flag_is_inert float binary64
           (activeSnapshot [mockDataset] [] [nearlyResolved;
              Incident.with_resolution_progress nearlyResolved (lit 0)])
           (activeSnapshot [mockDataset] []
              [Incident.with_halts_dc_generation nearlyResolved true;
               Incident.with_halts_dc_generation
                 (Incident.with_resolution_progress nearlyResolved (lit 0)) true])
           (constantWorld (lit 0.5)) (constantWorld (lit 0.0001)) eq_refl eq_refl).
Defined.

(** C10. In an active tick every incident of [updatedIncidents] is one of
    the snapshot's incidents with only [resolution_progress] changed; no
    other incident appears there. *)
Theorem updated_incidents_frame :
  forall (num : Type) (N : JsNumber num) (state : Snapshot.t num)
         (w : World.t num) (j : Incident.t num),
    Snapshot.currentEvent state = None ->
    In j (TickResult.updatedIncidents (fst (processTick state w))) ->
    exists i : Incident.t num,
      In i (Snapshot.activeIncidents state)
      /\ j = Incident.with_resolution_progress i (Incident.resolution_progress j)
      /\ Incident.id j = Incident.id i
      /\ Incident.type j = Incident.type i
      /\ Incident.title j = Incident.title i
      /\ Incident.description j = Incident.description i
      /\ Incident.dataset_id j = Incident.dataset_id i
      /\ Incident.metric_impact j = Incident.metric_impact i
      /\ Incident.base_resolution_time j = Incident.base_resolution_time i
      /\ Incident.started_at j = Incident.started_at i
      /\ Incident.halts_dc_generation j = Incident.halts_dc_generation i.
Proof.
  intros num N state w j Hev Hin.
  destruct (processTick_active state w Hev) as (_ & _ & Hinc & _).
  rewrite Hinc, tickIncidents_spec in Hin.
  apply filter_In in Hin. destruct Hin as [Hin _].
  apply in_map_iff in Hin. destruct Hin as (i & Hj & Hi).
  exists i. subst j. cbn. repeat split. exact Hi.
Qed.

Lemma updated_incidents_frame_witness :
  let fresh := Incident.with_resolution_progress (num := float) nearlyResolved (lit 0) in
  let state := activeSnapshot [mockDataset] [] [nearlyResolved; fresh] in
  let j := Incident.with_resolution_progress fresh (num_div (lit 1) (lit 30)) in
  TickResult.updatedIncidents (fst (processTick state (constantWorld (lit 0.5)))) = [j]
  /\ exists i : Incident.t float,
      In i (Snapshot.activeIncidents state)
      /\ j = Incident.with_resolution_progress i (Incident.resolution_progress j)
      /\ Incident.id j = Incident.id i
      /\ Incident.type j = Incident.type i
      /\ Incident.title j = Incident.title i
      /\ Incident.description j = Incident.description i
      /\ Incident.dataset_id j = Incident.dataset_id i
      /\ Incident.metric_impact j = Incident.metric_impact i
      /\ Incident.base_resolution_time j = Incident.base_resolution_time i
      /\ Incident.started_at j = Incident.started_at i
      /\ Incident.halts_dc_generation j = Incident.halts_dc_generation i.
Proof.
  split; [vm_compute; reflexivity|].
  refine (@updated_incidents_frame float binary64
            (activeSnapshot [mockDataset] []
               [nearlyResolved; Incident.with_resolution_progress nearlyResolved (lit 0)])
            (constantWorld (lit 0.5))
            (Incident.with_resolution_progress
               (Incident.with_resolution_progress nearlyResolved (lit 0))
               (num_div (lit 1) (lit 30)))
            eq_refl _).
  vm_compute. left. reflexivity.
Defined.

(** C1, as stated, fails on the scenario of the test "removes resolved
    incidents": the incident goes from 0.97 to 0.97 + 1/30 >= 1.0 and is
    removed, and the dataset leaves the tick at 99.9 / 99.9 / 99.9, the
    decayed values, where an impact applied on the final tick would leave
    89.9 / 94.9 / 94.9.  In double precision and in exact arithmetic alike. *)
Lemma final_tick_impact_is_not_applied :
  (let state := activeSnapshot (num := float) [mockDataset] [] [nearlyResolved] in
   let r := fst (processTick state (constantWorld (lit 0.5))) in
   Snapshot.currentEvent state = None
   /\ num_ge (Incident.resolution_progress
                (advanceIncident (resolutionSpeed (Snapshot.staff state)) nearlyResolved))
             (lit 1.0) = true
   /\ TickResult.updatedIncidents r = []
   /\ map (@Dataset.current_metrics float) (TickResult.updatedDatasets r)
      = [Metrics.mk (lit 99.9) (lit 99.9) (lit 99.9)]
   /\ map (@Dataset.current_metrics float) (tickDatasets_impactBeforeRemoval state)
      = [Metrics.mk (num_sub (lit 99.9) (lit 10)) (num_sub (lit 99.9) (lit 5))
                    (num_sub (lit 99.9) (lit 5))]
   /\ TickResult.updatedDatasets r <> tickDatasets_impactBeforeRemoval state)
  /\
  (let state := activeSnapshot (num := Q) [mockDataset] [] [nearlyResolved] in
   let r := fst (processTick state (constantWorld (lit 0.5))) in
   Snapshot.currentEvent state = None
   /\ num_ge (Incident.resolution_progress
                (advanceIncident (resolutionSpeed (Snapshot.staff state)) nearlyResolved))
             (lit 1.0) = true
   /\ TickResult.updatedIncidents r = []
   /\ map (fun d => Qred (Metrics.T (Dataset.current_metrics d)))
          (TickResult.updatedDatasets r)
      = [99.9%Q]
   /\ map (fun d => Qred (Metrics.T (Dataset.current_metrics d)))
          (tickDatasets_impactBeforeRemoval state)
      = [89.9%Q]
   /\ TickResult.updatedDatasets r <> tickDatasets_impactBeforeRemoval state).
Proof.
  split; cbv zeta; repeat split; try (vm_compute; reflexivity);
    intros H; vm_compute in H; discriminate H.
Qed.

(** C1, amended.  In an active tick an incident whose advanced progress is
    >= 1.0 is removed from [updatedIncidents] that same tick, and its impact
    is not applied on that tick: the datasets, the DC and the incidents of
    the result are those of the same snapshot taken without the incidents
    that resolve this tick.  Only the surviving incidents weigh on the
    metrics. *)
Theorem resolved_incident_is_removed_before_impacts :
  forall (num : Type) (N : JsNumber num) (O : JsOrder num)
         (state : Snapshot.t num) (w : World.t num) (incident : Incident.t num),
    Snapshot.currentEvent state = None ->
    In incident (Snapshot.activeIncidents state) ->
    num_ge (Incident.resolution_progress
              (advanceIncident (resolutionSpeed (Snapshot.staff state)) incident))
           (lit 1.0) = true ->
    let r := fst (processTick state w) in
    let rest :=
      withIncidents state
        (filter (survives (Snapshot.staff state)) (Snapshot.activeIncidents state)) in
    ~ In (advanceIncident (resolutionSpeed (Snapshot.staff state)) incident)
         (TickResult.updatedIncidents r)
    /\ ~ In incident (Snapshot.activeIncidents rest)
    /\ TickResult.updatedIncidents r = TickResult.updatedIncidents (fst (processTick rest w))
    /\ TickResult.updatedDatasets r = TickResult.updatedDatasets (fst (processTick rest w))
    /\ TickResult.dcGenerated r = TickResult.dcGenerated (fst (processTick rest w)).
Proof.
  intros num N O state w incident Hev Hin Hge r rest.
  apply ge_not_lt in Hge.
  assert (Hev' : Snapshot.currentEvent rest = None) by exact Hev.
  destruct (processTick_active state w Hev) as (Hdc & Hds & Hinc & _).
  destruct (processTick_active rest w Hev') as (Hdc' & Hds' & Hinc' & _).
  assert (Hsame : processIncidents
                    (map (decayAndBonus (Snapshot.staff rest)) (Snapshot.datasets rest))
                    (Snapshot.activeIncidents rest) (Snapshot.staff rest)
                  = processIncidents
                      (map (decayAndBonus (Snapshot.staff state)) (Snapshot.datasets state))
                      (Snapshot.activeIncidents state) (Snapshot.staff state)).
  { subst rest. cbn [withIncidents Snapshot.staff Snapshot.datasets Snapshot.activeIncidents].
    apply processIncidents_survivors. }
  assert (Hds2 : tickDatasets rest = tickDatasets state).
  { unfold tickDatasets. rewrite Hsame. reflexivity. }
  assert (Hinc2 : tickIncidents rest = tickIncidents state).
  { unfold tickIncidents. rewrite Hsame. reflexivity. }
  subst r. rewrite Hdc, Hds, Hinc, Hdc', Hds', Hinc', Hds2, Hinc2.
  repeat split.
  - rewrite tickIncidents_spec. intros Habs. apply filter_In in Habs.
    destruct Habs as [_ Hlt]. rewrite Hge in Hlt. discriminate Hlt.
  - subst rest. cbn [withIncidents Snapshot.activeIncidents].
    intros Habs. apply filter_In in Habs. destruct Habs as [_ Hlt].
    unfold survives in Hlt. rewrite Hge in Hlt. discriminate Hlt.
Qed.

Lemma resolved_incident_is_removed_before_impacts_witness :
  let state := activeSnapshot (num := float) [mockDataset] [] [nearlyResolved] in
  let w := constantWorld (lit 0.5) in
  let r := fst (processTick state w) in
  let rest := activeSnapshot (num := float) [mockDataset] [] [] in
  (num_ge (Incident.resolution_progress
            (advanceIncident (resolutionSpeed (Snapshot.staff state)) nearlyResolved))
          (lit 1.0) = true
   /\ withIncidents state
        (filter (survives (Snapshot.staff state)) (Snapshot.activeIncidents state))
      = rest)
  /\ ~ In (advanceIncident (resolutionSpeed (Snapshot.staff state)) nearlyResolved)
          (TickResult.updatedIncidents r)
  /\ ~ In nearlyResolved
          (Snapshot.activeIncidents
             (withIncidents state
                (filter (survives (Snapshot.staff state)) (Snapshot.activeIncidents state))))
  /\ TickResult.updatedIncidents r
     = TickResult.updatedIncidents
         (fst (processTick
                 (withIncidents state
                    (filter (survives (Snapshot.staff state))
                            (Snapshot.activeIncidents state))) w))
  /\ TickResult.updatedDatasets r
     = TickResult.updatedDatasets
         (fst (processTick
                 (withIncidents state
                    (filter (survives (Snapshot.staff state))
                            (Snapshot.activeIncidents state))) w))
  /\ TickResult.dcGenerated r
     = TickResult.dcGenerated
         (fst (processTick
                 (withIncidents state
                    (filter (survives (Snapshot.staff state))
                            (Snapshot.activeIncidents state))) w)).
Proof.
  split; [split; vm_compute; reflexivity|].
  refine (@resolved_incident_is_removed_before_impacts float binary64 binary64_order
            (activeSnapshot [mockDataset] [] [nearlyResolved])
            (constantWorld (lit 0.5)) nearlyResolved eq_refl _ _).
  - left. reflexivity.
  - vm_compute. reflexivity.
Defined.

(** ** Rounding in binary64

    What the range laws need of IEEE 754 rounding, from the specification
    [SpecFloat] of the primitive floats: rounding a value keeps its sign,
    and does not carry it across a representable bound. *)

Module Binary64Facts.
Import Rounding.
Local Unset Implicit Arguments.
Local Open Scope Z_scope.

Lemma fexp64_eq e : fexp64 e = Z.max (e - 53) (-1074).
Proof. reflexivity. Qed.

(** *** Binary digits *)

(** [p] has [digits2_pos p] binary digits. *)
Lemma digits2_pos_bounds (p : positive) :
  2 ^ (Zpos (digits2_pos p) - 1) <= Zpos p < 2 ^ (Zpos (digits2_pos p)).
Proof.
  induction p as [p IH|p IH|]; cbn [digits2_pos].
  - rewrite Pos2Z.inj_succ. replace (Z.succ (Zpos (digits2_pos p)) - 1) with (Z.succ (Zpos (digits2_pos p) - 1)) by lia.
    rewrite !Z.pow_succ_r by lia. change (Zpos p~1) with (2 * Zpos p + 1).
    set (a := 2 ^ (Zpos (digits2_pos p) - 1)) in *. set (b := 2 ^ Zpos (digits2_pos p)) in *.
    clearbody a b. lia.
  - rewrite Pos2Z.inj_succ. replace (Z.succ (Zpos (digits2_pos p)) - 1) with (Z.succ (Zpos (digits2_pos p) - 1)) by lia.
    rewrite !Z.pow_succ_r by lia. change (Zpos p~0) with (2 * Zpos p).
    set (a := 2 ^ (Zpos (digits2_pos p) - 1)) in *. set (b := 2 ^ Zpos (digits2_pos p)) in *.
    clearbody a b. lia.
  - cbn. lia.
Qed.

(** A smaller number has no more digits. *)
Lemma digits2_pos_mono (p q : positive) :
  Zpos p <= Zpos q -> Zpos (digits2_pos p) <= Zpos (digits2_pos q).
Proof.
  intros Hpq.
  destruct (Z.le_gt_cases (Zpos (digits2_pos p)) (Zpos (digits2_pos q))) as [H|H];
    [exact H|exfalso].
  pose proof (digits2_pos_bounds p) as [Hp _].
  pose proof (digits2_pos_bounds q) as [_ Hq].
  assert (2 ^ Zpos (digits2_pos q) <= 2 ^ (Zpos (digits2_pos p) - 1)).
  { apply Z.pow_le_mono_r; lia. }
  lia.
Qed.

(** a positive number below 2^k has at most k digits *)
Lemma digits2_pos_le (p : positive) (k : Z) :
  0 <= k -> Zpos p < 2 ^ k -> Zpos (digits2_pos p) <= k.
Proof.
  intros Hk Hp. pose proof (digits2_pos_bounds p) as [Hlow _].
  destruct (Z.le_gt_cases (Zpos (digits2_pos p)) k) as [H|H]; [exact H|exfalso].
  assert (2 ^ k <= 2 ^ (Zpos (digits2_pos p) - 1)) by (apply Z.pow_le_mono_r; lia).
  lia.
Qed.

(** A number from [2^k] on has more than [k] digits. *)
Lemma digits2_pos_ge (p : positive) (k : Z) :
  2 ^ k <= Zpos p -> k + 1 <= Zpos (digits2_pos p).
Proof.
  intros Hp. pose proof (digits2_pos_bounds p) as [_ Hup].
  destruct (Z.le_gt_cases (k + 1) (Zpos (digits2_pos p))) as [H|H]; [exact H|exfalso].
  assert (2 ^ Zpos (digits2_pos p) <= 2 ^ k) by (apply Z.pow_le_mono_r; lia).
  lia.
Qed.

(** *** Shifting right

    [shr] divides the mantissa by a power of two and remembers, in its
    round and sticky bits, what the division dropped. *)

Lemma iter_pos_nat {A} (f : A -> A) (p : positive) (x : A) :
  iter_pos f p x = Nat.iter (Pos.to_nat p) f x.
Proof.
  revert x. induction p as [p IH|p IH|]; intros x; cbn [iter_pos].
  - rewrite !IH. rewrite Pos2Nat.inj_xI.
    replace (S (2 * Pos.to_nat p))%nat with (Pos.to_nat p + (Pos.to_nat p + 1))%nat by lia.
    rewrite !Nat.iter_add. cbn. reflexivity.
  - rewrite !IH. rewrite Pos2Nat.inj_xO.
    replace (2 * Pos.to_nat p)%nat with (Pos.to_nat p + Pos.to_nat p)%nat by lia.
    rewrite Nat.iter_add. reflexivity.
  - reflexivity.
Qed.

Lemma shr_1_m (m : Z) (r s : bool) :
  0 <= m ->
  shr_m (shr_1 (Build_shr_record m r s)) = m / 2
  /\ shr_r (shr_1 (Build_shr_record m r s)) = Z.odd m
  /\ shr_s (shr_1 (Build_shr_record m r s)) = orb r s.
Proof.
  intros Hm. destruct m as [|p|p]; [cbn; auto| |lia].
  destruct p as [p|p|]; cbn [shr_1 shr_m shr_r shr_s].
  - repeat split. change (Zpos p~1) with (2 * Zpos p + 1).
    apply Z.div_unique with 1; lia.
  - repeat split. change (Zpos p~0) with (2 * Zpos p).
    apply Z.div_unique with 0; lia.
  - repeat split.
Qed.

Lemma shr_iter (k : nat) (m : Z) :
  0 <= m ->
  let rec := Nat.iter k shr_1 (Build_shr_record m false false) in
  shr_m rec = m / 2 ^ Z.of_nat k
  /\ (m mod 2 ^ Z.of_nat k = 0 -> shr_r rec = false /\ shr_s rec = false).
Proof.
  intros Hm. induction k as [|k IH].
  - cbn. rewrite Z.div_1_r. auto.
  - cbn zeta in *. rewrite Nat.iter_succ.
    destruct IH as [IHm IHx].
    destruct (Nat.iter k shr_1 (Build_shr_record m false false)) as [mk rk sk] eqn:E.
    cbn [shr_m shr_r shr_s] in IHm, IHx.
    assert (Hmk : 0 <= mk) by (subst mk; apply Z.div_pos; [lia|apply Z.pow_pos_nonneg; lia]).
    destruct (shr_1_m mk rk sk Hmk) as (H1 & H2 & H3).
    rewrite H1, H2, H3.
    rewrite Nat2Z.inj_succ, Z.pow_succ_r by lia.
    split.
    + subst mk. rewrite Z.div_div by (try lia; apply Z.pow_pos_nonneg; lia).
      f_equal. lia.
    + intros Hmod.
      assert (Hp : 0 < 2 ^ Z.of_nat k) by (apply Z.pow_pos_nonneg; lia).
      assert (Hdiv : m = 2 * 2 ^ Z.of_nat k * (m / (2 * 2 ^ Z.of_nat k))).
      { pose proof (Z.div_mod m (2 * 2 ^ Z.of_nat k)). lia. }
      set (q := m / (2 * 2 ^ Z.of_nat k)) in *.
      assert (Hmodk : m mod 2 ^ Z.of_nat k = 0).
      { rewrite Hdiv. replace (2 * 2 ^ Z.of_nat k * q) with ((2 * q) * 2 ^ Z.of_nat k) by lia.
        apply Z.mod_mul. lia. }
      destruct (IHx Hmodk) as [Hr Hs]. subst rk sk. split; [|reflexivity].
      subst mk. rewrite Hdiv.
      replace (2 * 2 ^ Z.of_nat k * q) with ((2 * q) * 2 ^ Z.of_nat k) by lia.
      rewrite Z.div_mul by lia. rewrite Z.odd_mul. reflexivity.
Qed.

Lemma shr_spec (m e n : Z) :
  0 <= m ->
  let out := shr (Build_shr_record m false false) e n in
  snd out = e + Z.max 0 n
  /\ shr_m (fst out) = m / 2 ^ Z.max 0 n
  /\ (m mod 2 ^ Z.max 0 n = 0 -> shr_r (fst out) = false /\ shr_s (fst out) = false).
Proof.
  intros Hm. destruct n as [|p|p]; cbn [shr fst snd].
  - cbn. rewrite Z.div_1_r. repeat split; lia.
  - rewrite iter_pos_nat. rewrite Z.max_r by lia.
    destruct (shr_iter (Pos.to_nat p) m Hm) as [H1 H2].
    rewrite positive_nat_Z in H1, H2. repeat split; auto; apply H2; assumption.
  - cbn. rewrite Z.div_1_r. repeat split; lia.
Qed.

Lemma Zdigits2_nonneg (m : Z) : 0 <= Zdigits2 m.
Proof. destruct m; cbn; lia. Qed.

(** [shr_fexp] shifts down to the exponent the format allots to a value
    of that size, and drops nothing when the mantissa is a multiple of the
    divisor. *)
Lemma shr_fexp_spec (m e : Z) :
  0 <= m ->
  let n := Z.max 0 (fexp64 (Zdigits2 m + e) - e) in
  let out := shr_fexp prec emax m e loc_Exact in
  snd out = e + n
  /\ shr_m (fst out) = m / 2 ^ n
  /\ (m mod 2 ^ n = 0 -> shr_r (fst out) = false /\ shr_s (fst out) = false).
Proof.
  intros Hm n out. unfold shr_fexp in out. cbn [shr_record_of_loc] in out.
  apply (shr_spec m e (fexp64 (Zdigits2 m + e) - e) Hm).
Qed.

(** *** Rounding to nearest, ties to even

    The rounded mantissa is the shifted one or its successor, and the
    shifted one when nothing was dropped. *)

Lemma rne_cases (mrs : shr_record) :
  let r := round_nearest_even (shr_m mrs) (loc_of_shr_record mrs) in
  (r = shr_m mrs \/ r = shr_m mrs + 1)
  /\ (shr_r mrs = false -> shr_s mrs = false -> r = shr_m mrs).
Proof.
  destruct mrs as [m [|] [|]]; cbn; repeat split; auto; try discriminate.
  destruct (Z.even m); auto.
Qed.

(** [binary_round_aux]: shift, round, and shift once more in case the
    increment has carried into a new digit. *)
Lemma binary_round_aux_spec (sx : bool) (mz : Z) (ez : Z) :
  0 <= mz ->
  let n1 := Z.max 0 (fexp64 (Zdigits2 mz + ez) - ez) in
  let e1 := ez + n1 in
  let M1 := mz / 2 ^ n1 in
  exists M2,
    (M2 = M1 \/ M2 = M1 + 1)
    /\ (mz mod 2 ^ n1 = 0 -> M2 = M1)
    /\ let n2 := Z.max 0 (fexp64 (Zdigits2 M2 + e1) - e1) in
       binary_round_aux prec emax sx mz ez loc_Exact
       = round_result sx (M2 / 2 ^ n2) (e1 + n2).
Proof.
  intros Hmz n1 e1 M1.
  unfold binary_round_aux.
  destruct (shr_fexp_spec mz ez Hmz) as (He1 & HM1 & Hex1).
  fold n1 in He1, HM1, Hex1.
  destruct (shr_fexp prec emax mz ez loc_Exact) as [mrs' e'].
  cbn [fst snd] in He1, HM1, Hex1. subst e'. fold e1.
  destruct (rne_cases mrs') as [Hr Hrx]. cbv zeta in Hr, Hrx.
  set (M2 := round_nearest_even (shr_m mrs') (loc_of_shr_record mrs')) in *.
  rewrite HM1 in Hr, Hrx. fold M1 in Hr, Hrx.
  assert (HM1pos : 0 <= M1).
  { subst M1. apply Z.div_pos; [lia|]. apply Z.pow_pos_nonneg; lia. }
  assert (HM2 : 0 <= M2) by lia.
  exists M2. split; [exact Hr|]. split.
  { intros Hmod. destruct (Hex1 Hmod) as [Ha Hb]. apply Hrx; assumption. }
  destruct (shr_fexp_spec M2 e1 HM2) as (He3 & HM3 & _).
  destruct (shr_fexp prec emax M2 e1 loc_Exact) as [mrs'' e''].
  cbn [fst snd] in He3, HM3. subst e''. rewrite HM3.
  unfold round_result. reflexivity.
Qed.

(** *** Aligning to the left, then rounding *)

Lemma pos_iter_xO (d m : positive) :
  Zpos (Pos.iter xO m d) = Zpos m * 2 ^ Zpos d
  /\ Zpos (digits2_pos (Pos.iter xO m d)) = Zpos (digits2_pos m) + Zpos d.
Proof.
  induction d as [|d IH] using Pos.peano_ind.
  - cbn [Pos.iter digits2_pos]. split; [change (Zpos m~0) with (2 * Zpos m); lia|lia].
  - rewrite Pos.iter_succ. cbn [digits2_pos]. destruct IH as [IH1 IH2].
    change (Zpos (Pos.iter xO m d)~0) with (2 * Zpos (Pos.iter xO m d)).
    rewrite IH1. rewrite !Pos2Z.inj_succ, Z.pow_succ_r by lia. rewrite IH2. split; lia.
Qed.

Lemma shl_align_spec (mx : positive) (ex ex' : Z) :
  let out := shl_align mx ex ex' in
  snd out = Z.min ex ex'
  /\ Zpos (fst out) = Zpos mx * 2 ^ (ex - Z.min ex ex')
  /\ Zpos (digits2_pos (fst out)) = Zpos (digits2_pos mx) + (ex - Z.min ex ex').
Proof.
  unfold shl_align. destruct (ex' - ex) as [|d|d] eqn:E; cbn [fst snd].
  - assert (ex' = ex) by lia. subst. rewrite Z.min_id, Z.sub_diag. cbn. lia.
  - rewrite Z.min_l by lia. rewrite Z.sub_diag. cbn. lia.
  - assert (Hd : ex - ex' = Zpos d) by lia.
    rewrite Z.min_r by lia. rewrite Hd.
    destruct (pos_iter_xO d mx) as [H1 H2]. auto.
Qed.

Lemma fexp64_mono (a b : Z) : a <= b -> fexp64 a <= fexp64 b.
Proof. rewrite !fexp64_eq. lia. Qed.

Lemma fexp64_emin (a : Z) : -1074 <= fexp64 a.
Proof. rewrite fexp64_eq. lia. Qed.

(** [binary_round] of the value [M * 2^ez], through the exponent [f0]
    the format allots to it: the mantissa [M1] at that exponent has at most
    53 digits, and the result is built from [M1] or its successor. *)
Lemma binary_round_spec (sx : bool) (M : positive) (ez : Z) :
  let f0 := fexp64 (Zpos (digits2_pos M) + ez) in
  exists M1 M2,
    (f0 <= ez -> M1 = Zpos M * 2 ^ (ez - f0))
    /\ (ez < f0 -> M1 = Zpos M / 2 ^ (f0 - ez))
    /\ 0 <= M1 < 2 ^ 53
    /\ (M2 = M1 \/ M2 = M1 + 1)
    /\ (f0 <= ez \/ Zpos M mod 2 ^ (f0 - ez) = 0 -> M2 = M1)
    /\ binary_round prec emax sx M ez
       = round_result sx (M2 / 2 ^ Z.max 0 (fexp64 (Zdigits2 M2 + f0) - f0))
                      (f0 + Z.max 0 (fexp64 (Zdigits2 M2 + f0) - f0)).
Proof.
  intros f0. unfold binary_round. fold f0.
  destruct (shl_align_spec M ez f0) as (Hez & Hmz & Hdz).
  destruct (shl_align M ez f0) as [mz ez'] eqn:E. cbn [fst snd] in Hez, Hmz, Hdz.
  assert (Hdig : Zdigits2 (Zpos mz) + ez' = Zpos (digits2_pos M) + ez).
  { cbn [Zdigits2]. rewrite Hdz. lia. }
  destruct (binary_round_aux_spec sx (Zpos mz) ez' ltac:(lia)) as (M2 & HM2 & Hex & Hres).
  rewrite Hdig in HM2, Hex, Hres. fold f0 in HM2, Hex, Hres.
  assert (Hn1 : Z.max 0 (f0 - ez') = f0 - ez') by (subst ez'; lia).
  rewrite Hn1 in HM2, Hex, Hres.
  replace (ez' + (f0 - ez')) with f0 in Hres by lia.
  assert (Hpw : forall k, 0 <= k -> 0 < 2 ^ k) by (intros; apply Z.pow_pos_nonneg; lia).
  pose proof (digits2_pos_bounds M) as [_ HMup].
  assert (Hf0 : Zpos (digits2_pos M) + ez - 53 <= f0).
  { subst f0. rewrite fexp64_eq. lia. }
  clearbody f0. clear E Hdig Hdz.
  destruct (Z.le_gt_cases f0 ez) as [Hc|Hc].
  - rewrite Z.min_r in Hez, Hmz by lia. subst ez'.
    rewrite Z.sub_diag, Z.pow_0_r, Z.div_1_r in HM2, Hex.
    rewrite Z.mod_1_r in Hex.
    exists (Zpos mz), M2.
    split; [intros _; exact Hmz|]. split; [intros; lia|].
    split.
    { split; [lia|]. rewrite Hmz.
      assert (2 ^ (ez - f0) * 2 ^ Zpos (digits2_pos M) <= 2 ^ 53).
      { rewrite <- Z.pow_add_r by lia. apply Z.pow_le_mono_r; lia. }
      assert (0 < 2 ^ (ez - f0)) by (apply Hpw; lia). nia. }
    split; [exact HM2|]. split; [intros _; apply Hex; reflexivity|exact Hres].
  - rewrite Z.min_l in Hez, Hmz by lia. subst ez'.
    rewrite Z.sub_diag, Z.pow_0_r, Z.mul_1_r in Hmz. rewrite Hmz in *.
    exists (Zpos M / 2 ^ (f0 - ez)), M2.
    split; [intros; lia|]. split; [intros _; reflexivity|].
    split.
    { split; [apply Z.div_pos; [lia|apply Hpw; lia]|].
      apply Z.div_lt_upper_bound; [apply Hpw; lia|].
      rewrite <- Z.pow_add_r by lia.
      assert (2 ^ Zpos (digits2_pos M) <= 2 ^ (f0 - ez + 53)) by (apply Z.pow_le_mono_r; lia).
      lia. }
    split; [exact HM2|]. split; [|exact Hres].
    intros [Hle|Hmod]; [lia|]. apply Hex. exact Hmod.
Qed.

(** *** Rounding keeps the sign *)

Lemma round_result_sign (sx : bool) (M3 e3 : Z) :
  0 <= M3 -> has_sign sx (round_result sx M3 e3).
Proof.
  intros H. unfold has_sign, round_result. destruct M3 as [|m|m]; [reflexivity| |lia].
  destruct (e3 <=? emax - prec); reflexivity.
Qed.

Lemma binary_round_aux_sign (sx : bool) (mz ez : Z) :
  0 <= mz -> has_sign sx (binary_round_aux prec emax sx mz ez loc_Exact).
Proof.
  intros Hmz.
  destruct (binary_round_aux_spec sx mz ez Hmz) as (M2 & HM2 & _ & Hres).
  cbv zeta in Hres. rewrite Hres. apply round_result_sign.
  assert (0 <= mz / 2 ^ Z.max 0 (fexp64 (Zdigits2 mz + ez) - ez)).
  { apply Z.div_pos; [lia|apply Z.pow_pos_nonneg; lia]. }
  apply Z.div_pos; [lia|apply Z.pow_pos_nonneg; lia].
Qed.

Lemma binary_round_sign (sx : bool) (M : positive) (ez : Z) :
  has_sign sx (binary_round prec emax sx M ez).
Proof.
  destruct (binary_round_spec sx M ez) as (M1 & M2 & _ & _ & HM1 & HM2 & _ & Hres).
  rewrite Hres. apply round_result_sign.
  apply Z.div_pos; [lia|apply Z.pow_pos_nonneg; lia].
Qed.

(** *** Rounding stays below a representable bound *)

Lemma SFleb_finite_pos (m1 : positive) (e1 : Z) (m2 : positive) (e2 : Z) :
  e1 < e2 \/ (e1 = e2 /\ Zpos m1 <= Zpos m2) ->
  SFleb (S754_finite false m1 e1) (S754_finite false m2 e2) = true.
Proof.
  intros H. unfold SFleb, SFcompare.
  destruct H as [H|[H1 H2]].
  - apply Z.compare_lt_iff in H. rewrite H. reflexivity.
  - subst e2. rewrite Z.compare_refl.
    change (Pos.compare_cont Eq m1 m2) with (m1 ?= m2)%positive.
    destruct (m1 ?= m2)%positive eqn:E; try reflexivity.
    apply Pos.compare_gt_iff in E. lia.
Qed.

(** Rounding does not pass a representable bound. *)
Lemma binary_round_le_bound (M : positive) (ez : Z) (mx : positive) (ex : Z) :
  bounded prec emax mx ex = true ->
  ez <= ex ->
  Zpos M <= Zpos mx * 2 ^ (ex - ez) ->
  SFleb (binary_round prec emax false M ez) (S754_finite false mx ex) = true.
Proof.
  intros Hb Hez HM.
  unfold bounded, canonical_mantissa in Hb.
  apply andb_true_iff in Hb. destruct Hb as [Hcan Hmax].
  apply Z.eqb_eq in Hcan. apply Z.leb_le in Hmax.
  assert (Hpw : forall k, 0 <= k -> 0 < 2 ^ k) by (intros; apply Z.pow_pos_nonneg; lia).
  (* digits of M are at most those of the aligned bound *)
  assert (HdM : Zpos (digits2_pos M) <= Zpos (digits2_pos mx) + (ex - ez)).
  { apply digits2_pos_le; [lia|].
    pose proof (digits2_pos_bounds mx) as [_ Hup].
    rewrite Z.pow_add_r by lia.
    assert (0 < 2 ^ (ex - ez)) by (apply Hpw; lia). nia. }
  destruct (binary_round_spec false M ez)
    as (M1 & M2 & HM1a & HM1b & HM1 & HM2 & Hexact & Hres).
  set (f0 := fexp64 (Zpos (digits2_pos M) + ez)) in *.
  assert (Hf0ex : f0 <= ex).
  { rewrite <- Hcan. apply fexp64_mono. lia. }
  assert (Hf0min : -1074 <= f0) by apply fexp64_emin.
  rewrite Hres. clear Hres.
  assert (Hmx53 : Zpos mx < 2 ^ 53).
  { pose proof (digits2_pos_bounds mx) as [_ Hup].
    assert (Zpos (digits2_pos mx) <= 53) by (rewrite fexp64_eq in Hcan; lia).
    assert (2 ^ Zpos (digits2_pos mx) <= 2 ^ 53) by (apply Z.pow_le_mono_r; lia). lia. }
  (* the second shift *)
  assert (Hsecond :
            (M2 < 2 ^ 53 /\ Z.max 0 (fexp64 (Zdigits2 M2 + f0) - f0) = 0)
            \/ (M2 = 2 ^ 53 /\ Z.max 0 (fexp64 (Zdigits2 M2 + f0) - f0) = 1)).
  { destruct (Z.eq_dec M2 (2 ^ 53)) as [Heq|Hne].
    - right. split; [exact Heq|]. rewrite Heq. change (Zdigits2 (2 ^ 53)) with 54.
      rewrite fexp64_eq. lia.
    - left. assert (HM2lt : M2 < 2 ^ 53) by lia. split; [exact HM2lt|].
      destruct M2 as [|m2|m2]; [cbn; rewrite fexp64_eq; lia| |lia].
      cbn [Zdigits2]. assert (Zpos (digits2_pos m2) <= 53) by (apply digits2_pos_le; lia).
      rewrite fexp64_eq. lia. }
  destruct (Z.eq_dec f0 ex) as [Heq|Hlt].
  - (* same exponent as the bound: the mantissa stays below the bound's *)
    assert (HM2le : M2 <= Zpos mx).
    { destruct (Z.le_gt_cases f0 ez) as [Hc|Hc].
      - assert (ez = ex) by lia. subst ez.
        rewrite (Hexact (or_introl Hc)). rewrite (HM1a Hc).
        replace (ex - f0) with 0 by lia. rewrite Z.sub_diag in HM. cbn in *. lia.
      - rewrite (HM1b Hc) in *. rewrite Heq in *.
        assert (Zpos M / 2 ^ (ex - ez) <= Zpos mx).
        { apply Z.div_le_upper_bound; [apply Hpw; lia|]. lia. }
        destruct (Z.eq_dec (Zpos M / 2 ^ (ex - ez)) (Zpos mx)) as [He|Hn]; [|lia].
        assert (Hge : Zpos mx * 2 ^ (ex - ez) <= Zpos M).
        { rewrite <- He. rewrite Z.mul_comm. apply Z.mul_div_le. apply Hpw; lia. }
        assert (HMeq : Zpos M = Zpos mx * 2 ^ (ex - ez)) by lia.
        rewrite Hexact; [lia|]. right. rewrite HMeq. apply Z.mod_mul.
        assert (0 < 2 ^ (ex - ez)) by (apply Hpw; lia). lia. }
    destruct Hsecond as [[_ Hn2]|[Habs _]]; [|lia].
    rewrite Hn2, Z.pow_0_r, Z.div_1_r, Z.add_0_r. rewrite Heq.
    destruct M2 as [|m2|m2]; [reflexivity| |lia].
    cbn [round_result]. apply Z.leb_le in Hmax as Hmax'. rewrite Hmax'.
    apply SFleb_finite_pos. right. split; [reflexivity|exact HM2le].
  - (* a smaller exponent *)
    assert (Hf0lt : f0 < ex) by lia.
    destruct Hsecond as [[HM2lt Hn2]|[HM2eq Hn2]].
    + rewrite Hn2, Z.pow_0_r, Z.div_1_r, Z.add_0_r.
      destruct M2 as [|m2|m2]; [reflexivity| |lia].
      cbn [round_result].
      assert (Hle : (f0 <=? emax - prec) = true) by (apply Z.leb_le; lia).
      rewrite Hle. apply SFleb_finite_pos. left. exact Hf0lt.
    + rewrite Hn2, HM2eq. change (2 ^ 53 / 2 ^ 1) with (Zpos (2 ^ 52)).
      cbn [round_result].
      assert (Hle : (f0 + 1 <=? emax - prec) = true) by (apply Z.leb_le; lia).
      rewrite Hle. apply SFleb_finite_pos.
      destruct (Z.eq_dec (f0 + 1) ex) as [He|Hn]; [right|left; lia].
      split; [exact He|].
      assert (Hd53 : Zpos (digits2_pos mx) = 53) by (rewrite fexp64_eq in Hcan; lia).
      pose proof (digits2_pos_bounds mx) as [Hlow _]. rewrite Hd53 in Hlow.
      exact Hlow.
Qed.

(** *** The order of the specification is an order *)

Lemma lex_refl e m : lex e m e m = Eq.
Proof. unfold lex. rewrite Z.compare_refl. apply Pos.compare_refl. Qed.

Lemma lex_le_trans e1 m1 e2 m2 e3 m3 :
  lex e1 m1 e2 m2 <> Gt -> lex e2 m2 e3 m3 <> Gt -> lex e1 m1 e3 m3 <> Gt.
Proof.
  unfold lex.
  destruct (Z.compare_spec e1 e2), (Z.compare_spec e2 e3), (Z.compare_spec e1 e3);
    try congruence; try lia; subst; intros Hab Hbc.
  destruct (Pos.compare_spec m1 m2), (Pos.compare_spec m2 m3), (Pos.compare_spec m1 m3);
    try congruence; try lia.
Qed.

Lemma lex_ge_trans e1 m1 e2 m2 e3 m3 :
  lex e1 m1 e2 m2 <> Lt -> lex e2 m2 e3 m3 <> Lt -> lex e1 m1 e3 m3 <> Lt.
Proof.
  unfold lex.
  destruct (Z.compare_spec e1 e2), (Z.compare_spec e2 e3), (Z.compare_spec e1 e3);
    try congruence; try lia; subst; intros Hab Hbc.
  destruct (Pos.compare_spec m1 m2), (Pos.compare_spec m2 m3), (Pos.compare_spec m1 m3);
    try congruence; try lia.
Qed.

Lemma SFcompare_finite s1 m1 e1 s2 m2 e2 :
  SFcompare (S754_finite s1 m1 e1) (S754_finite s2 m2 e2)
  = Some (match s1, s2 with
          | true, false => Lt
          | false, true => Gt
          | false, false => lex e1 m1 e2 m2
          | true, true => CompOpp (lex e1 m1 e2 m2)
          end).
Proof.
  unfold SFcompare, lex. destruct s1, s2; try reflexivity;
    destruct (e1 ?= e2); reflexivity.
Qed.

Lemma SFleb_trans (a b c : spec_float) :
  SFleb a b = true -> SFleb b c = true -> SFleb a c = true.
Proof.
  unfold SFleb.
  destruct a as [sa|sa| |sa ma ea], b as [sb|sb| |sb mb eb], c as [sc|sc| |sc mc ec];
    rewrite ?SFcompare_finite;
    try (cbn; discriminate);
    try (destruct sa; try destruct sb; try destruct sc; cbn; congruence).
  destruct sa, sb, sc; try (cbn; congruence); intros H1 H2.
  - pose proof (@lex_ge_trans ea ma eb mb ec mc) as T.
    destruct (lex ea ma eb mb), (lex eb mb ec mc), (lex ea ma ec mc);
      cbn in *; try congruence; exfalso; apply T; congruence.
  - pose proof (@lex_le_trans ea ma eb mb ec mc) as T.
    destruct (lex ea ma eb mb), (lex eb mb ec mc), (lex ea ma ec mc);
      cbn in *; try congruence; exfalso; apply T; congruence.
Qed.

Lemma SFleb_refl (a : spec_float) : a <> S754_nan -> SFleb a a = true.
Proof.
  intros H. unfold SFleb. destruct a as [s|s| |s m e]; try congruence.
  - reflexivity.
  - destruct s; reflexivity.
  - rewrite SFcompare_finite, lex_refl. destruct s; reflexivity.
Qed.

Lemma SFleb_not_nan_l (a b : spec_float) : SFleb a b = true -> a <> S754_nan.
Proof. intros H E. subst a. discriminate H. Qed.

Lemma SFleb_not_nan_r (a b : spec_float) : SFleb a b = true -> b <> S754_nan.
Proof. intros H E. subst b. destruct a; discriminate H. Qed.

(** *** Sums, differences and products by sign *)

Lemma has_sign_false_nonneg f : has_sign false f -> nonneg f.
Proof. destruct f as [s|s| |s m e]; cbn; intros H; try contradiction; subst; reflexivity. Qed.

Lemma has_sign_true_le f g : has_sign true f -> nonneg g -> SFleb f g = true.
Proof.
  destruct f as [s|s| |s m e]; cbn; intros H; try contradiction; subst;
    destruct g as [t|t| |t n k]; cbn; try discriminate; try reflexivity;
    destruct t; cbn; try discriminate; reflexivity.
Qed.

(** Adding a value that is not positive does not increase a finite
    non-negative value. *)
Lemma SFadd_nonpos_le (x y : spec_float) :
  valid_binary x = true ->
  nonneg x -> x <> S754_infinity false -> nonpos y ->
  SFleb (SF64add x y) x = true.
Proof.
  intros Hv Hx Hfin Hy.
  destruct x as [sx|sx| |sx mx ex]; try discriminate Hx.
  - (* zero *)
    destruct y as [sy|sy| |sy my ey]; try discriminate Hy.
    + destruct sx, sy; reflexivity.
    + destruct sy; [reflexivity|discriminate Hy].
    + destruct sy; [reflexivity|discriminate Hy].
  - destruct sx; [discriminate Hx|congruence].
  - destruct sx; [discriminate Hx|].
    destruct y as [sy|sy| |sy my ey]; try discriminate Hy.
    + cbn [SFadd SFsub]. apply SFleb_refl. discriminate.
    + destruct sy; [reflexivity|discriminate Hy].
    + destruct sy; [|discriminate Hy].
      cbn [SFadd cond_Zopp].
      set (ez := Z.min ex ey).
      destruct (shl_align_spec mx ex ez) as (_ & HX & _).
      destruct (shl_align_spec my ey ez) as (_ & HY & _).
      replace (Z.min ex ez) with ez in HX by lia.
      set (X := fst (shl_align mx ex ez)) in *.
      set (Y := fst (shl_align my ey ez)) in *.
      destruct (Zpos X + - Zpos Y) as [|p|p] eqn:EM; cbn [binary_normalize].
      * reflexivity.
      * apply binary_round_le_bound; [exact Hv|lia|lia].
      * apply has_sign_true_le; [apply binary_round_sign|reflexivity].
Qed.

(** Subtracting a value that is not negative does not increase a finite
    non-negative value. *)
Lemma SFsub_nonneg_le (x y : spec_float) :
  valid_binary x = true ->
  nonneg x -> x <> S754_infinity false -> nonneg y ->
  SFleb (SF64sub x y) x = true.
Proof.
  intros Hv Hx Hfin Hy.
  destruct x as [sx|sx| |sx mx ex]; try discriminate Hx.
  - destruct y as [sy|sy| |sy my ey]; try discriminate Hy.
    + destruct sx, sy; reflexivity.
    + destruct sy; [discriminate Hy|reflexivity].
    + destruct sy; [discriminate Hy|reflexivity].
  - destruct sx; [discriminate Hx|congruence].
  - destruct sx; [discriminate Hx|].
    destruct y as [sy|sy| |sy my ey]; try discriminate Hy.
    + cbn [SFadd SFsub]. apply SFleb_refl. discriminate.
    + destruct sy; [discriminate Hy|reflexivity].
    + destruct sy; [discriminate Hy|].
      cbn [SFsub cond_Zopp].
      set (ez := Z.min ex ey).
      destruct (shl_align_spec mx ex ez) as (_ & HX & _).
      destruct (shl_align_spec my ey ez) as (_ & HY & _).
      replace (Z.min ex ez) with ez in HX by lia.
      set (X := fst (shl_align mx ex ez)) in *.
      set (Y := fst (shl_align my ey ez)) in *.
      destruct (Zpos X - Zpos Y) as [|p|p] eqn:EM; cbn [binary_normalize].
      * reflexivity.
      * apply binary_round_le_bound; [exact Hv|lia|lia].
      * apply has_sign_true_le; [apply binary_round_sign|reflexivity].
Qed.

(** The sum of two non-negative values is a non-negative value. *)
Lemma SFadd_nonneg (x y : spec_float) :
  nonneg x -> nonneg y -> nonneg (SF64add x y).
Proof.
  intros Hx Hy.
  destruct x as [sx|sx| |sx mx ex]; try discriminate Hx;
    destruct y as [sy|sy| |sy my ey]; try discriminate Hy;
    try (destruct sx; try discriminate Hx); try (destruct sy; try discriminate Hy);
    try reflexivity.
  cbn [SFadd cond_Zopp].
  set (ez := Z.min ex ey).
  set (X := fst (shl_align mx ex ez)). set (Y := fst (shl_align my ey ez)).
  change (Zpos X + Zpos Y) with (Zpos (X + Y)). cbn [binary_normalize].
  apply has_sign_false_nonneg. apply binary_round_sign.
Qed.

(** The product of a non-negative value and a positive finite one. *)
Lemma SFmul_nonneg (x : spec_float) (my : positive) (ey : Z) :
  nonneg x -> nonneg (SF64mul x (S754_finite false my ey)).
Proof.
  intros Hx.
  destruct x as [sx|sx| |sx mx ex]; try discriminate Hx;
    try (destruct sx; try discriminate Hx); try reflexivity.
  cbn [SFmul xorb].
  apply has_sign_false_nonneg. apply binary_round_aux_sign. lia.
Qed.

(** *** Integers below 2^53 are held exactly *)

Lemma Zdigits2_unique (z d : Z) :
  0 < z -> 2 ^ (d - 1) <= z < 2 ^ d -> Zdigits2 z = d.
Proof.
  intros Hz [Hlo Hhi].
  assert (Hd : 0 <= d).
  { destruct (Z.le_gt_cases 0 d) as [H|H]; [exact H|].
    rewrite (Z.pow_neg_r 2 d H) in Hhi. lia. }
  destruct z as [|p|p]; try lia. cbn [Zdigits2].
  pose proof (digits2_pos_le p d Hd Hhi). pose proof (digits2_pos_ge p (d - 1) Hlo). lia.
Qed.

Lemma Zdigits2_bounds (z : Z) :
  0 < z -> 2 ^ (Zdigits2 z - 1) <= z < 2 ^ Zdigits2 z.
Proof.
  intros Hz. destruct z as [|p|p]; try lia. cbn [Zdigits2]. apply digits2_pos_bounds.
Qed.

Lemma Zdigits2_pos (z : Z) : 0 < z -> 1 <= Zdigits2 z.
Proof. intros Hz. destruct z as [|p|p]; try lia. cbn [Zdigits2]. lia. Qed.

Lemma Zdigits2_shift (z k : Z) :
  0 < z -> 0 <= k -> Zdigits2 (z * 2 ^ k) = Zdigits2 z + k.
Proof.
  intros Hz Hk. pose proof (Zdigits2_bounds z Hz) as [Hlo Hhi].
  pose proof (Zdigits2_pos z Hz) as Hd.
  assert (Hp : 0 < 2 ^ k) by (apply Z.pow_pos_nonneg; lia).
  apply Zdigits2_unique; [nia|].
  replace (Zdigits2 z + k - 1) with ((Zdigits2 z - 1) + k) by lia.
  rewrite !Z.pow_add_r by lia. nia.
Qed.

Lemma Zdigits2_le_53 (z : Z) : 0 < z < 2 ^ 53 -> Zdigits2 z <= 53.
Proof.
  intros [Hz Hhi]. destruct z as [|p|p]; try lia. cbn [Zdigits2].
  apply digits2_pos_le; [lia|exact Hhi].
Qed.

(** The mantissa and the exponent of [int_repr]. *)
Lemma int_repr_pos (z : Z) :
  0 < z < 2 ^ 53 ->
  exists m : positive,
    int_repr z = S754_finite false m (Zdigits2 z - 53)
    /\ Zpos m = z * 2 ^ (53 - Zdigits2 z)
    /\ Zpos (digits2_pos m) = 53.
Proof.
  intros Hz. pose proof (Zdigits2_le_53 z Hz) as Hd.
  pose proof (Zdigits2_pos z ltac:(lia)) as Hd1.
  assert (Hp : 0 < 2 ^ (53 - Zdigits2 z)) by (apply Z.pow_pos_nonneg; lia).
  assert (HM : 0 < z * 2 ^ (53 - Zdigits2 z)) by nia.
  unfold int_repr, round_result.
  destruct (z * 2 ^ (53 - Zdigits2 z)) as [|m|m] eqn:E; try lia.
  exists m. split; [|split; [reflexivity|]].
  - assert (Hle : (Zdigits2 z - 53 <=? emax - prec) = true).
    { apply Z.leb_le. change (emax - prec) with 971. lia. }
    rewrite Hle. reflexivity.
  - change (Zpos (digits2_pos m)) with (Zdigits2 (Zpos m)). rewrite <- E.
    rewrite Zdigits2_shift by lia. lia.
Qed.

Lemma int_repr_zero : int_repr 0 = S754_zero false.
Proof. reflexivity. Qed.

(** Rounding a mantissa that holds an integer below 2^53, scaled by a
    power of two, is exact. *)
Lemma binary_round_exact (M : positive) (k z : Z) :
  0 <= k -> Zpos M = z * 2 ^ k -> z < 2 ^ 53 ->
  binary_round prec emax false M (- k) = int_repr z.
Proof.
  intros Hk HM Hz53.
  assert (Hpk : 0 < 2 ^ k) by (apply Z.pow_pos_nonneg; lia).
  assert (Hz : 0 < z) by nia.
  pose proof (Zdigits2_le_53 z ltac:(lia)) as Hd.
  pose proof (Zdigits2_pos z Hz) as Hd1.
  destruct (binary_round_spec false M (- k)) as (M1 & M2 & Hle & Hgt & HM1 & HM2 & Hex & Hres).
  cbv zeta in Hle, Hgt, Hex, Hres.
  assert (HdM : Zpos (digits2_pos M) = Zdigits2 z + k).
  { change (Zpos (digits2_pos M)) with (Zdigits2 (Zpos M)). rewrite HM.
    apply Zdigits2_shift; lia. }
  rewrite HdM in *.
  replace (Zdigits2 z + k + - k) with (Zdigits2 z) in * by lia.
  assert (Hf0 : fexp64 (Zdigits2 z) = Zdigits2 z - 53).
  { rewrite fexp64_eq. lia. }
  rewrite Hf0 in *.
  set (d := Zdigits2 z) in *.
  assert (Hp : 0 < 2 ^ (53 - d)) by (apply Z.pow_pos_nonneg; lia).
  assert (HM1eq : M1 = z * 2 ^ (53 - d) /\ M2 = M1).
  { destruct (Z.le_gt_cases (d - 53) (- k)) as [Hc|Hc].
    - split; [|apply Hex; left; exact Hc].
      rewrite (Hle Hc), HM. rewrite <- Z.mul_assoc, <- Z.pow_add_r by lia.
      f_equal. f_equal. lia.
    - assert (Hsplit : Zpos M = z * 2 ^ (53 - d) * 2 ^ (d - 53 - - k)).
      { rewrite HM. rewrite <- Z.mul_assoc, <- Z.pow_add_r by lia.
        f_equal. f_equal. lia. }
      assert (Hq : 0 < 2 ^ (d - 53 - - k)) by (apply Z.pow_pos_nonneg; lia).
      split.
      + rewrite (Hgt Hc), Hsplit. apply Z.div_mul. lia.
      + apply Hex. right. rewrite Hsplit. apply Z.mod_mul. lia. }
  destruct HM1eq as [HM1eq HM2eq]. subst M2.
  assert (HdM1 : Zdigits2 M1 = 53).
  { rewrite HM1eq. rewrite Zdigits2_shift by lia. lia. }
  rewrite HdM1 in Hres.
  replace (53 + (d - 53)) with d in Hres by lia.
  rewrite Hf0 in Hres. rewrite Z.sub_diag in Hres.
  change (Z.max 0 0) with 0 in Hres. rewrite Z.pow_0_r, Z.div_1_r, Z.add_0_r in Hres.
  rewrite Hres. unfold int_repr. fold d. rewrite HM1eq. reflexivity.
Qed.

Lemma binary_normalize_exact (z : Z) :
  0 <= z < 2 ^ 53 -> binary_normalize prec emax z 0 false = int_repr z.
Proof.
  intros [Hz Hhi]. destruct z as [|p|p]; try lia; [reflexivity|].
  cbn [binary_normalize]. change 0 with (- 0).
  apply binary_round_exact; lia.
Qed.

Lemma int_repr_valid (z : Z) :
  0 <= z < 2 ^ 53 -> valid_binary (int_repr z) = true.
Proof.
  intros [Hz Hhi]. destruct (Z.eq_dec z 0) as [->|Hnz]; [reflexivity|].
  destruct (int_repr_pos z ltac:(lia)) as (m & Hr & Hm & Hdm).
  rewrite Hr. cbn [valid_binary]. unfold bounded, canonical_mantissa.
  pose proof (Zdigits2_le_53 z ltac:(lia)). pose proof (Zdigits2_pos z ltac:(lia)).
  rewrite Hdm. apply andb_true_iff. split.
  - apply Z.eqb_eq. rewrite fexp64_eq. lia.
  - apply Z.leb_le. change (emax - prec) with 971. lia.
Qed.

Lemma Prim2SF_of_Z (z : Z) :
  0 <= z < 2 ^ 53 -> Prim2SF (F64.of_Z z) = int_repr z.
Proof.
  intros Hz. unfold F64.of_Z. rewrite binary_normalize_exact by exact Hz.
  apply Prim2SF_SF2Prim. apply int_repr_valid. exact Hz.
Qed.

(** *** Sums, differences and comparisons of such integers are exact *)

(** Two integers at a common exponent. *)
Lemma int_repr_align (z : Z) (m : positive) (ez : Z) :
  0 < z < 2 ^ 53 ->
  Zpos m = z * 2 ^ (53 - Zdigits2 z) ->
  ez <= Zdigits2 z - 53 ->
  Zpos (fst (shl_align m (Zdigits2 z - 53) ez)) = z * 2 ^ (- ez).
Proof.
  intros Hz Hm Hez.
  pose proof (Zdigits2_le_53 z Hz) as Hd.
  destruct (shl_align_spec m (Zdigits2 z - 53) ez) as (_ & Hfst & _).
  rewrite Hfst, Hm. rewrite Z.min_r by lia.
  rewrite <- Z.mul_assoc, <- Z.pow_add_r by lia. f_equal. f_equal. lia.
Qed.

Lemma SFadd_int (a b : Z) :
  0 <= a -> 0 <= b -> a + b < 2 ^ 53 ->
  SFadd prec emax (int_repr a) (int_repr b) = int_repr (a + b).
Proof.
  intros Ha Hb Hab.
  destruct (Z.eq_dec a 0) as [->|Hna].
  { rewrite int_repr_zero. cbn [Z.add].
    destruct (Z.eq_dec b 0) as [->|Hnb]; [reflexivity|].
    destruct (int_repr_pos b ltac:(lia)) as (mb & Hrb & _). rewrite Hrb. reflexivity. }
  destruct (Z.eq_dec b 0) as [->|Hnb].
  { rewrite int_repr_zero, Z.add_0_r.
    destruct (int_repr_pos a ltac:(lia)) as (ma & Hra & _). rewrite Hra. reflexivity. }
  destruct (int_repr_pos a ltac:(lia)) as (ma & Hra & Hma & _).
  destruct (int_repr_pos b ltac:(lia)) as (mb & Hrb & Hmb & _).
  rewrite Hra, Hrb. cbn [SFadd cond_Zopp].
  pose proof (Zdigits2_le_53 a ltac:(lia)). pose proof (Zdigits2_le_53 b ltac:(lia)).
  set (ez := Z.min (Zdigits2 a - 53) (Zdigits2 b - 53)).
  rewrite (int_repr_align a ma ez) by (try assumption; subst ez; lia).
  rewrite (int_repr_align b mb ez) by (try assumption; subst ez; lia).
  assert (Hp : 0 < 2 ^ (- ez)) by (apply Z.pow_pos_nonneg; subst ez; lia).
  rewrite <- Z.mul_add_distr_r.
  destruct ((a + b) * 2 ^ (- ez)) as [|M|M] eqn:E; try nia.
  cbn [binary_normalize]. rewrite <- (Z.opp_involutive ez).
  apply binary_round_exact; [subst ez; lia|symmetry; exact E|exact Hab].
Qed.

Lemma SFsub_int (a b : Z) :
  0 <= b -> b <= a -> a < 2 ^ 53 ->
  SFsub prec emax (int_repr a) (int_repr b) = int_repr (a - b).
Proof.
  intros Hb Hba Ha.
  destruct (Z.eq_dec b 0) as [->|Hnb].
  { rewrite int_repr_zero, Z.sub_0_r.
    destruct (Z.eq_dec a 0) as [->|Hna]; [reflexivity|].
    destruct (int_repr_pos a ltac:(lia)) as (ma & Hra & _). rewrite Hra. reflexivity. }
  destruct (int_repr_pos a ltac:(lia)) as (ma & Hra & Hma & _).
  destruct (int_repr_pos b ltac:(lia)) as (mb & Hrb & Hmb & _).
  rewrite Hra, Hrb. cbn [SFsub cond_Zopp].
  pose proof (Zdigits2_le_53 a ltac:(lia)). pose proof (Zdigits2_le_53 b ltac:(lia)).
  set (ez := Z.min (Zdigits2 a - 53) (Zdigits2 b - 53)).
  rewrite (int_repr_align a ma ez) by (try assumption; subst ez; lia).
  rewrite (int_repr_align b mb ez) by (try assumption; subst ez; lia).
  assert (Hp : 0 < 2 ^ (- ez)) by (apply Z.pow_pos_nonneg; subst ez; lia).
  rewrite <- Z.mul_sub_distr_r.
  destruct (Z.eq_dec a b) as [->|Hne].
  { rewrite Z.sub_diag. reflexivity. }
  destruct ((a - b) * 2 ^ (- ez)) as [|M|M] eqn:E; try nia.
  cbn [binary_normalize]. rewrite <- (Z.opp_involutive ez).
  apply binary_round_exact; [subst ez; lia|symmetry; exact E|lia].
Qed.

Lemma Zdigits2_mono (a b : Z) : 0 < a -> a <= b -> Zdigits2 a <= Zdigits2 b.
Proof.
  intros Ha Hab. destruct a as [|p|p]; try lia. destruct b as [|q|q]; try lia.
  cbn [Zdigits2]. apply digits2_pos_mono. exact Hab.
Qed.

Lemma SFcompare_int (a b : Z) :
  0 <= a < 2 ^ 53 -> 0 <= b < 2 ^ 53 ->
  SFcompare (int_repr a) (int_repr b) = Some (a ?= b).
Proof.
  intros Ha Hb.
  destruct (Z.eq_dec a 0) as [->|Hna].
  { rewrite int_repr_zero. destruct (Z.eq_dec b 0) as [->|Hnb]; [reflexivity|].
    destruct (int_repr_pos b ltac:(lia)) as (mb & Hrb & _). rewrite Hrb.
    assert (E : (0 ?= b) = Lt) by (apply Z.compare_lt_iff; lia).
    rewrite E. reflexivity. }
  destruct (Z.eq_dec b 0) as [->|Hnb].
  { rewrite int_repr_zero.
    destruct (int_repr_pos a ltac:(lia)) as (ma & Hra & _). rewrite Hra.
    assert (E : (a ?= 0) = Gt) by (apply Z.compare_gt_iff; lia).
    rewrite E. reflexivity. }
  destruct (int_repr_pos a ltac:(lia)) as (ma & Hra & Hma & _).
  destruct (int_repr_pos b ltac:(lia)) as (mb & Hrb & Hmb & _).
  rewrite Hra, Hrb. cbn [SFcompare]. f_equal.
  pose proof (Zdigits2_bounds a ltac:(lia)) as [Hal Hah].
  pose proof (Zdigits2_bounds b ltac:(lia)) as [Hbl Hbh].
  destruct (Zdigits2 a - 53 ?= Zdigits2 b - 53) eqn:E.
  - apply Z.compare_eq_iff in E. assert (Hd : Zdigits2 a = Zdigits2 b) by lia.
    change (Pos.compare_cont Eq ma mb) with (Zpos ma ?= Zpos mb).
    rewrite Hma, Hmb, Hd.
    pose proof (Zdigits2_le_53 b ltac:(lia)).
    assert (Hp : 0 < 2 ^ (53 - Zdigits2 b)) by (apply Z.pow_pos_nonneg; lia).
    destruct (a ?= b) eqn:Eab.
    + apply Z.compare_eq_iff in Eab. subst. apply Z.compare_refl.
    + apply Z.compare_lt_iff in Eab. apply Z.compare_lt_iff.
      apply Z.mul_lt_mono_pos_r; assumption.
    + apply Z.compare_gt_iff in Eab. apply Z.compare_gt_iff.
      apply Z.mul_lt_mono_pos_r; assumption.
  - rewrite Z.compare_lt_iff in E. symmetry. apply Z.compare_lt_iff.
    destruct (Z.lt_ge_cases a b) as [Hlt|Hge]; [exact Hlt|exfalso].
    pose proof (Zdigits2_mono b a ltac:(lia) Hge). lia.
  - rewrite Z.compare_gt_iff in E. symmetry. apply Z.compare_gt_iff.
    destruct (Z.lt_ge_cases b a) as [Hlt|Hge]; [exact Hlt|exfalso].
    pose proof (Zdigits2_mono a b ltac:(lia) Hge). lia.
Qed.

(** *** Whole numbers in double precision *)

Lemma of_Z_add (a b : Z) :
  0 <= a -> 0 <= b -> a + b < 2 ^ 53 ->
  PrimFloat.add (F64.of_Z a) (F64.of_Z b) = F64.of_Z (a + b).
Proof.
  intros Ha Hb Hab. apply Prim2SF_inj.
  rewrite FloatAxioms.add_spec, !Prim2SF_of_Z by lia.
  apply SFadd_int; assumption.
Qed.

Lemma of_Z_sub (a b : Z) :
  0 <= b -> b <= a -> a < 2 ^ 53 ->
  PrimFloat.sub (F64.of_Z a) (F64.of_Z b) = F64.of_Z (a - b).
Proof.
  intros Hb Hba Ha. apply Prim2SF_inj.
  rewrite FloatAxioms.sub_spec, !Prim2SF_of_Z by lia.
  apply SFsub_int; assumption.
Qed.

Lemma of_Z_ltb (a b : Z) :
  0 <= a < 2 ^ 53 -> 0 <= b < 2 ^ 53 ->
  PrimFloat.ltb (F64.of_Z a) (F64.of_Z b) = (a <? b).
Proof.
  intros Ha Hb. rewrite FloatAxioms.ltb_spec, !Prim2SF_of_Z by assumption.
  unfold SFltb. rewrite SFcompare_int by assumption.
  unfold Z.ltb. destruct (a ?= b); reflexivity.
Qed.

Lemma of_Z_min (a b : Z) :
  0 <= a < 2 ^ 53 -> 0 <= b < 2 ^ 53 ->
  F64.min (F64.of_Z a) (F64.of_Z b) = F64.of_Z (Z.min a b).
Proof.
  intros Ha Hb. unfold F64.min.
  rewrite FloatAxioms.compare_spec, !Prim2SF_of_Z by assumption.
  rewrite SFcompare_int by assumption. unfold Z.min.
  destruct (a ?= b) eqn:E; cbn [flatten_cmp_opt]; try reflexivity.
  apply Z.compare_eq_iff in E. subst b.
  destruct (classify (F64.of_Z a)); reflexivity.
Qed.

(** *** Rounding from any location *)

(** The mantissa of a shift does not depend on the bits carried in. *)
Lemma shr_iter_m (k : nat) (m : Z) (r s : bool) :
  0 <= m ->
  shr_m (Nat.iter k shr_1 (Build_shr_record m r s)) = m / 2 ^ Z.of_nat k.
Proof.
  intros Hm. induction k as [|k IH].
  - cbn. rewrite Z.div_1_r. reflexivity.
  - rewrite Nat.iter_succ.
    destruct (Nat.iter k shr_1 (Build_shr_record m r s)) as [mk rk sk] eqn:E.
    cbn [shr_m] in IH.
    assert (Hmk : 0 <= mk) by (subst mk; apply Z.div_pos; [lia|apply Z.pow_pos_nonneg; lia]).
    destruct (shr_1_m mk rk sk Hmk) as (H1 & _). rewrite H1, IH.
    rewrite Z.div_div by (try apply Z.pow_pos_nonneg; lia).
    f_equal. rewrite Nat2Z.inj_succ, Z.pow_succ_r by lia. lia.
Qed.

Lemma shr_fexp_m (m e : Z) (l : location) :
  0 <= m ->
  let n := Z.max 0 (fexp64 (Zdigits2 m + e) - e) in
  let out := shr_fexp prec emax m e l in
  snd out = e + n /\ shr_m (fst out) = m / 2 ^ n.
Proof.
  intros Hm n out. subst out. unfold shr_fexp. fold n.
  set (n0 := fexp64 (Zdigits2 m + e) - e) in *.
  assert (Hrec : exists r s, shr_record_of_loc m l = Build_shr_record m r s).
  { destruct l as [|[| |]]; cbn; eauto. }
  destruct Hrec as (r & s & ->).
  destruct n0 as [|p|p] eqn:E; cbn [shr fst snd].
  - subst n. cbn. rewrite Z.div_1_r. split; [lia|reflexivity].
  - subst n. rewrite Z.max_r by lia. split; [reflexivity|].
    rewrite iter_pos_nat, shr_iter_m by exact Hm. rewrite positive_nat_Z. reflexivity.
  - subst n. rewrite Z.max_l by lia. cbn. rewrite Z.div_1_r. split; [lia|reflexivity].
Qed.

(** [binary_round_aux] from any location: the mantissa is shifted to the
    format's exponent, kept or incremented, and shifted once more. *)
Lemma binary_round_aux_any (sx : bool) (mz ez : Z) (l : location) :
  0 <= mz ->
  let n1 := Z.max 0 (fexp64 (Zdigits2 mz + ez) - ez) in
  let e1 := ez + n1 in
  let M1 := mz / 2 ^ n1 in
  exists M2,
    (M2 = M1 \/ M2 = M1 + 1)
    /\ (l = loc_Exact -> mz mod 2 ^ n1 = 0 -> M2 = M1)
    /\ let n2 := Z.max 0 (fexp64 (Zdigits2 M2 + e1) - e1) in
       binary_round_aux prec emax sx mz ez l
       = round_result sx (M2 / 2 ^ n2) (e1 + n2).
Proof.
  intros Hmz n1 e1 M1.
  destruct l as [|c].
  { destruct (binary_round_aux_spec sx mz ez Hmz) as (M2 & H1 & H2 & H3).
    exists M2. split; [exact H1|]. split; [intros _; exact H2|exact H3]. }
  unfold binary_round_aux.
  destruct (shr_fexp_m mz ez (loc_Inexact c) Hmz) as (He1 & HM1).
  fold n1 in He1, HM1.
  destruct (shr_fexp prec emax mz ez (loc_Inexact c)) as [mrs' e'].
  cbn [fst snd] in He1, HM1. subst e'. fold e1.
  destruct (rne_cases mrs') as [Hr _]. cbv zeta in Hr.
  set (M2 := round_nearest_even (shr_m mrs') (loc_of_shr_record mrs')) in *.
  rewrite HM1 in Hr. fold M1 in Hr.
  assert (HM1pos : 0 <= M1).
  { subst M1. apply Z.div_pos; [lia|]. apply Z.pow_pos_nonneg; lia. }
  assert (HM2 : 0 <= M2) by lia.
  exists M2. split; [exact Hr|]. split; [intros Habs; discriminate Habs|].
  destruct (shr_fexp_m M2 e1 loc_Exact HM2) as (He3 & HM3).
  destruct (shr_fexp prec emax M2 e1 loc_Exact) as [mrs'' e''].
  cbn [fst snd] in He3, HM3. subst e''. rewrite HM3.
  unfold round_result. reflexivity.
Qed.

(** *** The quotient of whole seconds by 60 *)

(** The quotient by 60 on a grid of step [1 / K], floored, shifted, kept
    or incremented, and shifted again, stays in [(B - 1, B]] when the exact
    quotient does. *)
Lemma quotient_sandwich (B K X Y q M1 M2 M3 t1 t2 : Z) :
  240 <= K ->
  (t1 = 1 \/ t1 = 2) -> (t2 = 1 \/ t2 = 2) ->
  X = B * K ->
  60 * X - 59 * K <= Y <= 60 * X ->
  q = (Y * (t1 * t2)) / 60 ->
  M1 = q / t1 ->
  (M2 = M1 \/ M2 = M1 + 1) ->
  ((Y * (t1 * t2)) mod 60 = 0 -> q mod t1 = 0 -> M2 = M1) ->
  M3 = M2 / t2 ->
  X - K < M3 <= X.
Proof.
  intros HK [-> | ->] [-> | ->] HX HY Hq HM1 HM2 Hex HM3;
    Z.to_euclidean_division_equations; lia.
Qed.

Lemma int_repr_60 : int_repr 60 = S754_finite false 8444249301319680 (-47).
Proof. reflexivity. Qed.

(** The integer division at the heart of [a / 60]. *)
Lemma SFdiv_core_60 (ma : positive) (d : Z) :
  Zpos (digits2_pos ma) = 53 -> 1 <= d <= 17 ->
  SFdiv_core_binary prec emax (Zpos ma) (d - 53) 8444249301319680 (-47)
  = ((Zpos ma * 2 ^ 53) / 8444249301319680, d - 59,
     new_location 8444249301319680 ((Zpos ma * 2 ^ 53) mod 8444249301319680)).
Proof.
  intros Hd Hr. unfold SFdiv_core_binary. cbn [Zdigits2]. rewrite Hd.
  change (Zpos (digits2_pos 8444249301319680)) with 53.
  replace (53 + (d - 53) - (53 + -47)) with (d - 6) by lia.
  replace (d - 53 - -47) with (d - 6) by lia.
  rewrite fexp64_eq. rewrite (Z.max_l (d - 6 - 53)) by lia.
  rewrite Z.min_l by lia.
  replace (d - 6 - (d - 6 - 53)) with 53 by lia.
  cbv iota. rewrite Z.shiftl_mul_pow2 by lia.
  unfold Z.div, Z.modulo.
  destruct (Z.div_eucl (Zpos ma * 2 ^ 53) 8444249301319680) as [q r].
  replace (d - 6 - 53) with (d - 59) by lia. reflexivity.
Qed.

Lemma Zdigits2_53_or_54 (x : Z) :
  2 ^ 52 <= x < 2 ^ 54 ->
  (Zdigits2 x = 53 /\ x < 2 ^ 53) \/ (Zdigits2 x = 54 /\ 2 ^ 53 <= x).
Proof.
  intros [Hlo Hhi]. assert (H52 : 0 < 2 ^ 52) by reflexivity.
  destruct (Z.lt_ge_cases x (2 ^ 53)) as [H|H].
  - left. split; [|exact H]. apply Zdigits2_unique; [lia|]. split; assumption.
  - right. split; [|exact H]. apply Zdigits2_unique; [lia|]. split; assumption.
Qed.

(** [a / 60] in double precision, for [a] whole seconds up to a day: a
    positive double [m * 2^(-k)] in [(B - 1, B]] when [a / 60] is. *)
Lemma SFdiv_60_bounds (a B : Z) :
  1 <= a <= 86400 -> 60 * (B - 1) < a <= 60 * B ->
  exists (m : positive) (k : Z),
    SFdiv prec emax (int_repr a) (int_repr 60) = S754_finite false m (- k)
    /\ 0 < k /\ (B - 1) * 2 ^ k < Zpos m <= B * 2 ^ k.
Proof.
  intros Ha HB.
  assert (E47 : 2 ^ 47 = 140737488355328) by reflexivity.
  assert (E52 : 2 ^ 52 = 4503599627370496) by reflexivity.
  assert (E53 : 2 ^ 53 = 9007199254740992) by reflexivity.
  assert (E54 : 2 ^ 54 = 18014398509481984) by reflexivity.
  assert (E58 : 2 ^ 58 = 288230376151711744) by reflexivity.
  assert (E17 : 2 ^ 17 = 131072) by reflexivity.
  set (d := Zdigits2 a).
  assert (Hd : 1 <= d <= 17).
  { split; [apply Zdigits2_pos; lia|]. subst d. destruct a as [|p|p]; try lia.
    cbn [Zdigits2]. apply digits2_pos_le; lia. }
  destruct (int_repr_pos a ltac:(lia)) as (ma & Hra & Hma & Hdm).
  fold d in Hra, Hma.
  rewrite Hra, int_repr_60. cbn [SFdiv xorb].
  rewrite (SFdiv_core_60 ma d Hdm Hd).
  set (P := 2 ^ (59 - d)).
  assert (HP : 0 < P) by (apply Z.pow_pos_nonneg; lia).
  assert (HmaQ : Zpos ma * 2 ^ 53 = (a * P) * 2 ^ 47).
  { rewrite Hma. subst P. rewrite <- !Z.mul_assoc, <- !Z.pow_add_r by lia.
    f_equal. f_equal. lia. }
  change 8444249301319680 with (60 * 2 ^ 47).
  rewrite HmaQ. rewrite Z.div_mul_cancel_r by lia. rewrite Z.mul_mod_distr_r by lia.
  set (Q := a * P). set (q := Q / 60).
  pose proof (Zdigits2_bounds a ltac:(lia)) as [Hal Hah]. fold d in Hal, Hah.
  assert (HQ : 2 ^ 58 <= Q < 2 ^ 58 * 2).
  { assert (E : 2 ^ 58 = 2 ^ (d - 1) * P).
    { subst P. rewrite <- Z.pow_add_r by lia. f_equal. lia. }
    assert (E' : 2 ^ d = 2 ^ (d - 1) * 2).
    { replace d with ((d - 1) + 1) at 1 by lia. rewrite Z.pow_add_r by lia. reflexivity. }
    rewrite E. subst Q. nia. }
  assert (Hq : 2 ^ 52 <= q < 2 ^ 54).
  { subst q. rewrite E52, E54. rewrite E58 in HQ.
    Z.to_euclidean_division_equations. lia. }
  destruct (binary_round_aux_any false q (d - 59)
              (new_location (60 * 2 ^ 47) (Q mod 60 * 2 ^ 47)) ltac:(lia))
    as (M2 & HM2 & Hex & Hres).
  cbv zeta in HM2, Hex, Hres. rewrite Hres. clear Hres.
  (* the first shift *)
  set (n1 := Z.max 0 (fexp64 (Zdigits2 q + (d - 59)) - (d - 59))) in *.
  assert (Hn1 : n1 = Zdigits2 q - 53).
  { subst n1. rewrite fexp64_eq.
    destruct (Zdigits2_53_or_54 q Hq) as [[-> _]|[-> _]]; lia. }
  set (M1 := q / 2 ^ n1) in *.
  assert (HM1 : 2 ^ 52 <= M1 < 2 ^ 53 /\ (2 ^ n1 = 1 \/ 2 ^ n1 = 2) /\ 0 <= n1 <= 1).
  { subst M1. destruct (Zdigits2_53_or_54 q Hq) as [[Hdq Hlt]|[Hdq Hge]];
      rewrite Hdq in Hn1; rewrite Hn1.
    - change (2 ^ (53 - 53)) with 1. rewrite Z.div_1_r. lia.
    - change (2 ^ (54 - 53)) with 2. rewrite E52, E53 in *. rewrite E54 in Hq.
      split; [Z.to_euclidean_division_equations; lia|lia]. }
  destruct HM1 as (HM1 & Ht1 & Hn1r).
  (* the second shift *)
  assert (HM2r : 2 ^ 52 <= M2 < 2 ^ 54) by lia.
  set (n2 := Z.max 0 (fexp64 (Zdigits2 M2 + (d - 59 + n1)) - (d - 59 + n1))) in *.
  assert (Hn2 : n2 = Zdigits2 M2 - 53).
  { subst n2. rewrite fexp64_eq.
    destruct (Zdigits2_53_or_54 M2 HM2r) as [[-> _]|[-> _]]; lia. }
  set (M3 := M2 / 2 ^ n2) in *.
  assert (HM3 : 2 ^ 52 <= M3 /\ (2 ^ n2 = 1 \/ 2 ^ n2 = 2) /\ 0 <= n2 <= 1).
  { subst M3. destruct (Zdigits2_53_or_54 M2 HM2r) as [[Hdq Hlt]|[Hdq Hge]];
      rewrite Hdq in Hn2; rewrite Hn2.
    - change (2 ^ (53 - 53)) with 1. rewrite Z.div_1_r. lia.
    - change (2 ^ (54 - 53)) with 2. rewrite E52, E53 in *.
      split; [Z.to_euclidean_division_equations; lia|lia]. }
  destruct HM3 as (HM3 & Ht2 & Hn2r).
  (* the result *)
  set (k := 59 - d - n1 - n2).
  assert (Hk : 40 <= k) by (subst k; lia).
  assert (HK : 240 <= 2 ^ k).
  { assert (2 ^ 40 <= 2 ^ k) by (apply Z.pow_le_mono_r; lia).
    assert (2 ^ 40 = 1099511627776) by reflexivity. lia. }
  assert (HPk : P = 2 ^ k * (2 ^ n1 * 2 ^ n2)).
  { subst P k. rewrite <- !Z.pow_add_r by lia. f_equal. lia. }
  pose proof (quotient_sandwich B (2 ^ k) (B * 2 ^ k) (a * 2 ^ k) q M1 M2 M3
                (2 ^ n1) (2 ^ n2) HK Ht1 Ht2 eq_refl) as Hs.
  assert (Hbounds : B * 2 ^ k - 2 ^ k < M3 <= B * 2 ^ k).
  { apply Hs.
    - assert (Hpk : 0 <= 2 ^ k) by lia.
      assert (Hlow : (60 * B - 59) * 2 ^ k <= a * 2 ^ k)
        by (apply Z.mul_le_mono_nonneg_r; lia).
      assert (Hup : a * 2 ^ k <= (60 * B) * 2 ^ k)
        by (apply Z.mul_le_mono_nonneg_r; lia).
      clear - Hlow Hup. lia.
    - subst q Q. rewrite HPk. f_equal. ring.
    - reflexivity.
    - exact HM2.
    - intros Hmod Hq0. apply Hex; [|exact Hq0].
      assert (HQ0 : Q mod 60 = 0).
      { subst Q. rewrite HPk. rewrite <- Hmod. f_equal. ring. }
      rewrite HQ0. reflexivity.
    - reflexivity. }
  replace (d - 59 + n1 + n2) with (- k) by (subst k; lia).
  unfold round_result.
  destruct M3 as [|m3|m3] eqn:EM3; try lia.
  assert (Hle : (- k <=? emax - prec) = true).
  { apply Z.leb_le. change (emax - prec) with 971. lia. }
  rewrite Hle. exists m3, k. split; [reflexivity|]. split; [lia|]. nia.
Qed.

(** [Math.ceil(a / 60)] counts the batches of [a] whole seconds. *)
Lemma ceil_of_quotient (a : Z) :
  0 <= a <= 86400 ->
  F64.ceil (PrimFloat.div (F64.of_Z a) (F64.of_Z 60)) = F64.of_Z ((a + 59) / 60).
Proof.
  intros Ha. destruct (Z.eq_dec a 0) as [->|Hna]; [vm_compute; reflexivity|].
  assert (E53 : 2 ^ 53 = 9007199254740992) by reflexivity.
  set (B := (a + 59) / 60).
  assert (HB : 60 * (B - 1) < a <= 60 * B /\ 1 <= B).
  { subst B. Z.to_euclidean_division_equations. lia. }
  destruct HB as [HB HB1].
  destruct (SFdiv_60_bounds a B ltac:(lia) HB) as (m & k & Hdiv & Hk & Hlo & Hhi).
  unfold F64.ceil. rewrite FloatAxioms.div_spec, !Prim2SF_of_Z by lia.
  unfold SF64div. rewrite Hdiv.
  assert (Hneg : (0 <=? - k) = false) by (apply Z.leb_gt; lia).
  rewrite Hneg. cbn [cond_Zopp negb].
  rewrite Z.shiftl_opp_r, Z.shiftr_div_pow2 by lia.
  assert (Hp : 0 < 2 ^ k) by (apply Z.pow_pos_nonneg; lia).
  assert (Hq : (- Zpos m) / 2 ^ k = - B).
  { symmetry. apply Z.div_unique with (B * 2 ^ k - Zpos m); [left; lia|ring]. }
  rewrite Hq, Z.opp_involutive.
  assert (Hnz : (B =? 0) = false) by (apply Z.eqb_neq; lia).
  rewrite Hnz. reflexivity.
Qed.

Local Close Scope Z_scope.
Local Open Scope float_scope.

(** *** The same, on the primitive floats *)

(** Only NaN is incomparable. *)
Lemma SFcompare_none (x y : spec_float) :
  SFcompare x y = None -> x = S754_nan \/ y = S754_nan.
Proof.
  destruct x as [sx|sx| |sx mx ex], y as [sy|sy| |sy my ey]; cbn; auto; discriminate.
Qed.

Lemma SFleb_of_compare (x y : spec_float) (c : comparison) :
  SFcompare x y = Some c -> c <> Gt -> SFleb x y = true.
Proof. intros H Hc. unfold SFleb. rewrite H. destruct c; congruence. Qed.

Lemma leb_trans (a b c : float) :
  (a <=? b) = true -> (b <=? c) = true -> (a <=? c) = true.
Proof. rewrite !FloatAxioms.leb_spec. apply SFleb_trans. Qed.

(** Whatever is compared is a number. *)
Lemma leb_refl_l (a b : float) : (a <=? b) = true -> (a <=? a) = true.
Proof.
  rewrite !FloatAxioms.leb_spec. intros H. apply SFleb_refl.
  exact (SFleb_not_nan_l _ _ H).
Qed.

Lemma leb_refl_r (a b : float) : (a <=? b) = true -> (b <=? b) = true.
Proof.
  rewrite !FloatAxioms.leb_spec. intros H. apply SFleb_refl.
  exact (SFleb_not_nan_r _ _ H).
Qed.

Lemma leb_not_nan (a : float) : (a <=? a) = true -> Prim2SF a <> S754_nan.
Proof. rewrite FloatAxioms.leb_spec. apply SFleb_not_nan_l. Qed.

(** [Math.max] and [Math.min] return one of their arguments, the right
    one. *)
Lemma max_cases (a b : float) :
  (a <=? a) = true -> (b <=? b) = true ->
  (F64.max a b = a /\ (b <=? a) = true) \/ (F64.max a b = b /\ (a <=? b) = true).
Proof.
  intros Ha Hb. unfold F64.max. rewrite FloatAxioms.compare_spec.
  destruct (SFcompare (Prim2SF a) (Prim2SF b)) as [c|] eqn:E.
  - pose proof (SFcompare_antisym _ _ E) as E'. destruct c; cbn [CompOpp] in E'.
    all: cbn [flatten_cmp_opt].
    + destruct (classify a);
        ((left; split; [reflexivity|]; rewrite FloatAxioms.leb_spec;
          apply (SFleb_of_compare _ _ _ E'); discriminate)
         || (right; split; [reflexivity|]; rewrite FloatAxioms.leb_spec;
             apply (SFleb_of_compare _ _ _ E); discriminate)).
    + right. split; [reflexivity|]. rewrite FloatAxioms.leb_spec.
      apply (SFleb_of_compare _ _ _ E). discriminate.
    + left. split; [reflexivity|]. rewrite FloatAxioms.leb_spec.
      apply (SFleb_of_compare _ _ _ E'). discriminate.
  - exfalso. destruct (SFcompare_none _ _ E) as [H|H].
    + exact (leb_not_nan a Ha H).
    + exact (leb_not_nan b Hb H).
Qed.

Lemma min_cases (a b : float) :
  (a <=? a) = true -> (b <=? b) = true ->
  (F64.min a b = a /\ (a <=? b) = true) \/ (F64.min a b = b /\ (b <=? a) = true).
Proof.
  intros Ha Hb. unfold F64.min. rewrite FloatAxioms.compare_spec.
  destruct (SFcompare (Prim2SF a) (Prim2SF b)) as [c|] eqn:E.
  - pose proof (SFcompare_antisym _ _ E) as E'. destruct c; cbn [CompOpp] in E'.
    all: cbn [flatten_cmp_opt].
    + destruct (classify a);
        ((left; split; [reflexivity|]; rewrite FloatAxioms.leb_spec;
          apply (SFleb_of_compare _ _ _ E); discriminate)
         || (right; split; [reflexivity|]; rewrite FloatAxioms.leb_spec;
             apply (SFleb_of_compare _ _ _ E'); discriminate)).
    + left. split; [reflexivity|]. rewrite FloatAxioms.leb_spec.
      apply (SFleb_of_compare _ _ _ E). discriminate.
    + right. split; [reflexivity|]. rewrite FloatAxioms.leb_spec.
      apply (SFleb_of_compare _ _ _ E'). discriminate.
  - exfalso. destruct (SFcompare_none _ _ E) as [H|H].
    + exact (leb_not_nan a Ha H).
    + exact (leb_not_nan b Hb H).
Qed.

Lemma Prim2SF_zero : Prim2SF 0 = S754_zero false.
Proof. reflexivity. Qed.

Lemma add_nonneg (a b : float) :
  (0 <=? a) = true -> (0 <=? b) = true -> (0 <=? a + b) = true.
Proof.
  rewrite !FloatAxioms.leb_spec, FloatAxioms.add_spec, Prim2SF_zero.
  apply SFadd_nonneg.
Qed.

(** Below a finite number there is no [+infinity]. *)
Lemma finite_of_leb (a c : float) :
  (a <=? c) = true -> Prim2SF c <> S754_infinity false ->
  Prim2SF c <> S754_nan -> Prim2SF a <> S754_infinity false.
Proof.
  rewrite FloatAxioms.leb_spec. intros H Hc Hn E. rewrite E in H.
  destruct (Prim2SF c) as [s|s| |s m e]; try congruence; try discriminate H.
  - destruct s; [discriminate H|congruence].
Qed.

Lemma add_nonpos_le (a b c : float) :
  Prim2SF c <> S754_infinity false ->
  (0 <=? a) = true -> (a <=? c) = true -> (b <=? 0) = true -> (a + b <=? a) = true.
Proof.
  intros Hc Ha Hac Hb.
  assert (Hfin : Prim2SF a <> S754_infinity false).
  { apply (finite_of_leb a c Hac Hc).
    apply leb_not_nan. exact (leb_refl_r _ _ Hac). }
  rewrite FloatAxioms.leb_spec in *. rewrite FloatAxioms.add_spec.
  rewrite Prim2SF_zero in *.
  apply SFadd_nonpos_le; [apply Prim2SF_valid|exact Ha|exact Hfin|exact Hb].
Qed.

Lemma sub_nonneg_le (a r c : float) :
  Prim2SF c <> S754_infinity false ->
  (0 <=? a) = true -> (a <=? c) = true -> (0 <=? r) = true -> (a - r <=? a) = true.
Proof.
  intros Hc Ha Hac Hr.
  assert (Hfin : Prim2SF a <> S754_infinity false).
  { apply (finite_of_leb a c Hac Hc).
    apply leb_not_nan. exact (leb_refl_r _ _ Hac). }
  rewrite FloatAxioms.leb_spec in *. rewrite FloatAxioms.sub_spec.
  rewrite Prim2SF_zero in *.
  apply SFsub_nonneg_le; [apply Prim2SF_valid|exact Ha|exact Hfin|exact Hr].
Qed.

Lemma mul_nonneg (a b c : float) :
  Prim2SF c <> S754_infinity false ->
  (0 <=? a) = true -> (0 <? b) = true -> (b <=? c) = true -> (0 <=? a * b) = true.
Proof.
  intros Hc Ha Hb Hbc.
  assert (Hfin : Prim2SF b <> S754_infinity false).
  { apply (finite_of_leb b c Hbc Hc).
    apply leb_not_nan. exact (leb_refl_r _ _ Hbc). }
  rewrite FloatAxioms.leb_spec in *. rewrite FloatAxioms.ltb_spec in Hb.
  rewrite FloatAxioms.mul_spec. rewrite Prim2SF_zero in *.
  destruct (Prim2SF b) as [s|s| |s m e]; try discriminate Hb.
  - destruct s; [discriminate Hb|congruence].
  - destruct s; [discriminate Hb|].
    apply SFmul_nonneg. exact Ha.
Qed.

(** *** Array lengths

    [F64.of_Z] of a non-negative integer is not negative (it may be
    [+infinity]).  [SF2Prim] assembles its result with [ldexp], which
    rounds again and keeps the sign again. *)

Lemma binary_normalize_sign (z e : Z) :
  (0 <= z)%Z -> has_sign false (binary_normalize prec emax z e false).
Proof.
  intros Hz. destruct z as [|m|m]; [reflexivity| |lia].
  cbn [binary_normalize]. apply binary_round_sign.
Qed.

Lemma SF2Prim_sign (f : spec_float) :
  has_sign false f -> has_sign false (Prim2SF (SF2Prim f)).
Proof.
  destruct f as [s|s| |s m e]; cbn [has_sign]; intros H; try contradiction; subst.
  - reflexivity.
  - reflexivity.
  - cbn [SF2Prim]. rewrite Z_ldexp_spec, FloatAxioms.of_uint63_spec.
    pose proof (binary_normalize_sign (Uint63.to_Z (Uint63.of_Z (Z.pos m))) 0) as Hn.
    destruct (binary_normalize prec emax (Uint63.to_Z (Uint63.of_Z (Z.pos m))) 0 false)
      as [s'|s'| |s' m' e'] eqn:E; cbn [SFldexp].
    + apply Hn. apply Uint63.to_Z_bounded.
    + apply Hn. apply Uint63.to_Z_bounded.
    + apply Hn. apply Uint63.to_Z_bounded.
    + assert (Hs : s' = false) by (apply Hn; apply Uint63.to_Z_bounded).
      subst s'. apply binary_round_sign.
Qed.

Lemma of_Z_nonneg (z : Z) :
  (0 <= z)%Z -> PrimFloat.leb PrimFloat.zero (F64.of_Z z) = true.
Proof.
  intros Hz. rewrite FloatAxioms.leb_spec. apply has_sign_false_nonneg.
  unfold F64.of_Z. apply SF2Prim_sign. apply binary_normalize_sign. exact Hz.
Qed.

Lemma of_nat_nonneg (n : nat) :
  PrimFloat.leb (lit 0) (num_of_nat n) = true.
Proof.
  unfold num_of_nat. cbn [lit binary64]. unfold F64.of_literal. cbn [inject_Z Qden Qnum].
  apply of_Z_nonneg. lia.
Qed.

End Binary64Facts.

(** ** Double precision: rounding and the order of values *)

Module Binary64Order.
Import Rounding Binary64Facts Magnitude.
Local Unset Implicit Arguments.
Local Open Scope Z_scope.

(** *** Values *)

Lemma Qpow2_pos (e : Z) : (0 < 2 ^ e)%Q.
Proof. apply Qpower_0_lt. reflexivity. Qed.

Lemma Qpow2_Z (k : Z) : 0 <= k -> (inject_Z (2 ^ k) == 2 ^ k)%Q.
Proof. intros Hk. apply (Zpower_Qpower 2 k Hk). Qed.

Lemma Qpow2_add (a b : Z) : (2 ^ (a + b) == 2 ^ a * 2 ^ b)%Q.
Proof. apply Qpower_plus. discriminate. Qed.

Lemma Qpow2_le (a b : Z) : a <= b -> (2 ^ a <= 2 ^ b)%Q.
Proof. intros H. apply Qpower_le_compat_l; [exact H|]. discriminate. Qed.

Lemma Qpow2_lt_inv (a b : Z) : (2 ^ a < 2 ^ b)%Q -> a < b.
Proof. intros H. apply (Qpower_lt_compat_l_inv 2 a b H). reflexivity. Qed.

(** The value read at a smaller exponent. *)
Lemma Qval_shift (m e c : Z) :
  c <= e -> (Qval m e == inject_Z (m * 2 ^ (e - c)) * 2 ^ c)%Q.
Proof.
  intros Hc. unfold Qval. rewrite inject_Z_mult, Qpow2_Z by lia.
  assert (E : (2 ^ e == 2 ^ (e - c) * 2 ^ c)%Q).
  { rewrite <- Qpow2_add. replace (e - c + c) with e by lia. reflexivity. }
  rewrite E. ring.
Qed.

(** Values compare as their mantissas do at a common exponent. *)
Lemma Qval_le_iff (m1 e1 m2 e2 c : Z) :
  c <= e1 -> c <= e2 ->
  (Qval m1 e1 <= Qval m2 e2)%Q <-> m1 * 2 ^ (e1 - c) <= m2 * 2 ^ (e2 - c).
Proof.
  intros H1 H2. rewrite (Qval_shift m1 e1 c H1), (Qval_shift m2 e2 c H2).
  rewrite Zle_Qle. apply Qmult_le_r. apply Qpow2_pos.
Qed.

Lemma Qval_mul (m1 e1 m2 e2 : Z) :
  (Qval (m1 * m2) (e1 + e2) == Qval m1 e1 * Qval m2 e2)%Q.
Proof. unfold Qval. rewrite inject_Z_mult, Qpow2_add. ring. Qed.

Lemma Qval_pos (m : positive) (e : Z) : (0 < Qval (Zpos m) e)%Q.
Proof.
  unfold Qval. apply Qmult_lt_0_compat; [reflexivity|apply Qpow2_pos].
Qed.

(** A value with [d] digits above its exponent lies in [[2^(d+e-1), 2^(d+e))]. *)
Lemma Qval_digits (m : positive) (e : Z) :
  (2 ^ (Zpos (digits2_pos m) + e - 1) <= Qval (Zpos m) e
   /\ Qval (Zpos m) e < 2 ^ (Zpos (digits2_pos m) + e))%Q.
Proof.
  pose proof (digits2_pos_bounds m) as [Hlo Hhi].
  set (d := Zpos (digits2_pos m)) in *.
  assert (Hd : 1 <= d) by (subst d; lia).
  unfold Qval. split.
  - replace (d + e - 1) with ((d - 1) + e) by lia. rewrite Qpow2_add.
    apply Qmult_le_compat_r; [|apply Qlt_le_weak, Qpow2_pos].
    rewrite <- Qpow2_Z by lia. rewrite <- Zle_Qle. exact Hlo.
  - rewrite Qpow2_add. apply Qmult_lt_compat_r; [apply Qpow2_pos|].
    rewrite <- Qpow2_Z by lia. rewrite <- Zlt_Qlt. exact Hhi.
Qed.

(** The greater value has no fewer digits above zero. *)
Lemma magnitude_mono (m1 : positive) (e1 : Z) (m2 : positive) (e2 : Z) :
  (Qval (Zpos m1) e1 <= Qval (Zpos m2) e2)%Q ->
  Zpos (digits2_pos m1) + e1 <= Zpos (digits2_pos m2) + e2.
Proof.
  intros H.
  destruct (Qval_digits m1 e1) as [Hlo _]. destruct (Qval_digits m2 e2) as [_ Hhi].
  assert (Hlt : (2 ^ (Zpos (digits2_pos m1) + e1 - 1)
                 < 2 ^ (Zpos (digits2_pos m2) + e2))%Q).
  { eapply Qle_lt_trans; [exact Hlo|]. eapply Qle_lt_trans; [exact H|exact Hhi]. }
  apply Qpow2_lt_inv in Hlt. lia.
Qed.

(** *** Canonical mantissas *)

Lemma bounded_spec (m : positive) (e : Z) :
  bounded prec emax m e = true ->
  -1074 <= e <= 971
  /\ Zpos (digits2_pos m) <= 53
  /\ (-1074 < e -> Zpos (digits2_pos m) = 53)
  /\ fexp64 (Zpos (digits2_pos m) + e) = e.
Proof.
  intros Hb. unfold bounded, canonical_mantissa in Hb.
  apply andb_true_iff in Hb. destruct Hb as [Hcan Hmax].
  apply Z.eqb_eq in Hcan. apply Z.leb_le in Hmax. change (emax - prec) with 971 in Hmax.
  pose proof Hcan as Hcan'. rewrite fexp64_eq in Hcan'.
  repeat split; lia.
Qed.

(** The order of [SFcompare] on canonical mantissas is the order of the
    values. *)
Lemma SFleb_value (m1 : positive) (e1 : Z) (m2 : positive) (e2 : Z) :
  bounded prec emax m1 e1 = true -> bounded prec emax m2 e2 = true ->
  SFleb (S754_finite false m1 e1) (S754_finite false m2 e2) = true ->
  (Qval (Zpos m1) e1 <= Qval (Zpos m2) e2)%Q.
Proof.
  intros Hb1 Hb2 H.
  destruct (bounded_spec m1 e1 Hb1) as (He1 & Hd1 & _ & _).
  destruct (bounded_spec m2 e2 Hb2) as (He2 & Hd2 & Hn2 & _).
  unfold SFleb in H. rewrite SFcompare_finite in H. unfold lex in H.
  destruct (Z.compare_spec e1 e2) as [Heq|Hlt|Hgt]; [| |discriminate H].
  - subst e2. apply (Qval_le_iff _ _ _ _ e1); [lia|lia|].
    rewrite Z.sub_diag, Z.pow_0_r, !Z.mul_1_r.
    destruct (Pos.compare_spec m1 m2); try discriminate H; subst; lia.
  - destruct (Qval_digits m1 e1) as [_ Hhi]. destruct (Qval_digits m2 e2) as [Hlo _].
    rewrite (Hn2 ltac:(lia)) in Hlo.
    apply Qlt_le_weak. eapply Qlt_le_trans; [exact Hhi|].
    eapply Qle_trans; [|exact Hlo]. apply Qpow2_le. lia.
Qed.

(** *** Rounding gives a canonical mantissa *)

(** The second shift of [binary_round_aux] is by one digit, after a carry,
    or by none. *)
Lemma second_shift (M2 f0 : Z) :
  0 <= M2 <= 2 ^ 53 -> -1074 <= f0 ->
  (M2 < 2 ^ 53 /\ Z.max 0 (fexp64 (Zdigits2 M2 + f0) - f0) = 0)
  \/ (M2 = 2 ^ 53 /\ Z.max 0 (fexp64 (Zdigits2 M2 + f0) - f0) = 1).
Proof.
  intros HM2 Hf0.
  destruct (Z.eq_dec M2 (2 ^ 53)) as [Heq|Hne].
  - right. split; [exact Heq|]. rewrite Heq. change (Zdigits2 (2 ^ 53)) with 54.
    rewrite fexp64_eq. lia.
  - left. assert (HM2lt : M2 < 2 ^ 53) by lia. split; [exact HM2lt|].
    destruct M2 as [|m2|m2]; [cbn; rewrite fexp64_eq; lia| |lia].
    cbn [Zdigits2]. assert (Zpos (digits2_pos m2) <= 53) by (apply digits2_pos_le; lia).
    rewrite fexp64_eq. lia.
Qed.

(** The first mantissa of a normal value has 53 digits. *)
Lemma first_mantissa_normal (M : positive) (ez M1 : Z) :
  let f0 := fexp64 (Zpos (digits2_pos M) + ez) in
  -1074 < f0 ->
  (f0 <= ez -> M1 = Zpos M * 2 ^ (ez - f0)) ->
  (ez < f0 -> M1 = Zpos M / 2 ^ (f0 - ez)) ->
  2 ^ 52 <= M1.
Proof.
  intros f0 Hn Hle Hgt.
  pose proof (digits2_pos_bounds M) as [Hlo _].
  set (d := Zpos (digits2_pos M)) in *.
  assert (Hd : 1 <= d) by (subst d; lia).
  assert (Hf0 : f0 = d + ez - 53) by (subst f0; rewrite fexp64_eq in *; lia).
  destruct (Z.le_gt_cases f0 ez) as [Hc|Hc].
  - rewrite (Hle Hc). replace (ez - f0) with (53 - d) by lia.
    assert (E : 2 ^ 52 = 2 ^ (d - 1) * 2 ^ (53 - d)).
    { rewrite <- Z.pow_add_r by lia. f_equal. lia. }
    rewrite E. apply Z.mul_le_mono_nonneg_r; [|exact Hlo].
    apply Z.pow_nonneg. lia.
  - rewrite (Hgt Hc). replace (f0 - ez) with (d - 53) by lia.
    apply Z.div_le_lower_bound; [apply Z.pow_pos_nonneg; lia|].
    rewrite <- Z.pow_add_r by lia. replace (d - 53 + 52) with (d - 1) by lia. exact Hlo.
Qed.

Lemma round_result_valid (M2 f0 : Z) :
  0 <= M2 <= 2 ^ 53 -> -1074 <= f0 ->
  (-1074 < f0 -> 2 ^ 52 <= M2) ->
  let n2 := Z.max 0 (fexp64 (Zdigits2 M2 + f0) - f0) in
  valid_binary (round_result false (M2 / 2 ^ n2) (f0 + n2)) = true.
Proof.
  intros HM2 Hf0 Hnormal n2. subst n2.
  destruct (second_shift M2 f0 HM2 Hf0) as [[Hlt ->]|[Heq ->]].
  - rewrite Z.pow_0_r, Z.div_1_r, Z.add_0_r.
    destruct M2 as [|m2|m2]; [reflexivity| |lia].
    cbn [round_result]. destruct (f0 <=? emax - prec) eqn:E; [|reflexivity].
    cbn [valid_binary]. unfold bounded, canonical_mantissa. rewrite E, andb_true_r.
    apply Z.eqb_eq. rewrite fexp64_eq.
    assert (Hd : Zpos (digits2_pos m2) <= 53) by (apply digits2_pos_le; lia).
    destruct (Z.eq_dec f0 (-1074)) as [Hs|Hs]; [lia|].
    assert (Zpos (digits2_pos m2) >= 53).
    { pose proof (digits2_pos_ge m2 52 (Hnormal ltac:(lia))). lia. }
    lia.
  - rewrite Heq. change (2 ^ 53 / 2 ^ 1) with (Zpos (2 ^ 52)).
    cbn [round_result]. destruct (f0 + 1 <=? emax - prec) eqn:E; [|reflexivity].
    cbn [valid_binary]. unfold bounded, canonical_mantissa. rewrite E, andb_true_r.
    apply Z.eqb_eq. change (Zpos (digits2_pos (2 ^ 52))) with 53.
    rewrite fexp64_eq. lia.
Qed.

Lemma binary_round_valid (M : positive) (ez : Z) :
  valid_binary (binary_round prec emax false M ez) = true.
Proof.
  destruct (binary_round_spec false M ez)
    as (M1 & M2 & Hle & Hgt & HM1 & HM2 & _ & Hres).
  cbv zeta in Hle, Hgt, Hres. rewrite Hres.
  apply round_result_valid.
  - lia.
  - apply fexp64_emin.
  - intros Hn. pose proof (first_mantissa_normal M ez M1 Hn Hle Hgt). lia.
Qed.

(** The double of any non-negative integer. *)
Lemma Prim2SF_of_Z_any (z : Z) :
  0 <= z -> Prim2SF (F64.of_Z z) = binary_normalize prec emax z 0 false.
Proof.
  intros Hz. unfold F64.of_Z. apply Prim2SF_SF2Prim.
  destruct z as [|p|p]; [reflexivity| |lia].
  cbn [binary_normalize]. apply binary_round_valid.
Qed.

(** *** Rounding does not fall below a representable bound *)

Lemma binary_round_ge_bound (M : positive) (ez : Z) (mb : positive) (eb : Z) :
  bounded prec emax mb eb = true ->
  (Qval (Zpos mb) eb <= Qval (Zpos M) ez)%Q ->
  SFleb (S754_finite false mb eb) (binary_round prec emax false M ez) = true.
Proof.
  intros Hb Hval.
  destruct (bounded_spec mb eb Hb) as (Heb & Hdb & Hnb & Hcan).
  assert (Hpw : forall k, 0 <= k -> 0 < 2 ^ k) by (intros; apply Z.pow_pos_nonneg; lia).
  pose proof (magnitude_mono mb eb M ez Hval) as Hmag.
  destruct (binary_round_spec false M ez)
    as (M1 & M2 & Hle & Hgt & HM1 & HM2 & _ & Hres).
  cbv zeta in Hle, Hgt, Hres.
  set (f0 := fexp64 (Zpos (digits2_pos M) + ez)) in *.
  assert (Hf0min : -1074 <= f0) by apply fexp64_emin.
  assert (Hebf0 : eb <= f0).
  { rewrite <- Hcan. apply fexp64_mono. exact Hmag. }
  rewrite Hres. clear Hres.
  (* at the exponent of the bound the first mantissa is not below it *)
  assert (Hfirst : eb = f0 -> Zpos mb <= M1).
  { intros E. destruct (Z.le_gt_cases f0 ez) as [Hc|Hc].
    - rewrite (Hle Hc). apply (Qval_le_iff _ _ _ _ eb) in Hval; [|lia|lia].
      rewrite Z.sub_diag, Z.pow_0_r, Z.mul_1_r in Hval. rewrite <- E. exact Hval.
    - rewrite (Hgt Hc). apply (Qval_le_iff _ _ _ _ ez) in Hval; [|lia|lia].
      rewrite Z.sub_diag, Z.pow_0_r, Z.mul_1_r in Hval.
      apply Z.div_le_lower_bound; [apply Hpw; lia|].
      rewrite <- E. lia. }
  assert (Hnormal : -1074 < f0 -> 2 ^ 52 <= M1).
  { intros Hn. exact (first_mantissa_normal M ez M1 Hn Hle Hgt). }
  assert (HM2pos : 0 < M2).
  { destruct (Z.eq_dec eb f0) as [E|E].
    - pose proof (Hfirst E). lia.
    - pose proof (Hnormal ltac:(lia)). lia. }
  destruct (second_shift M2 f0 ltac:(lia) Hf0min) as [[Hlt ->]|[Heq ->]].
  - rewrite Z.pow_0_r, Z.div_1_r, Z.add_0_r.
    destruct M2 as [|m2|m2]; [lia| |lia].
    cbn [round_result]. destruct (f0 <=? emax - prec); [|reflexivity].
    apply SFleb_finite_pos.
    destruct (Z.eq_dec eb f0) as [E|E]; [right|left; lia].
    split; [exact E|]. pose proof (Hfirst E). lia.
  - rewrite Heq. change (2 ^ 53 / 2 ^ 1) with (Zpos (2 ^ 52)).
    cbn [round_result]. destruct (f0 + 1 <=? emax - prec); [|reflexivity].
    apply SFleb_finite_pos. left. lia.
Qed.

End Binary64Order.

Module Binary64Steps.
Import Rounding Binary64Facts Magnitude Binary64Order.
Local Unset Implicit Arguments.
Local Open Scope Z_scope.

(** *** Products *)

(** The product of two canonical mantissas is rounded as [binary_round]
    rounds it: it has digits enough not to be shifted to the left. *)
Lemma SFmul_finite (mx : positive) (ex : Z) (my : positive) (ey : Z) :
  bounded prec emax mx ex = true -> bounded prec emax my ey = true ->
  SF64mul (S754_finite false mx ex) (S754_finite false my ey)
  = binary_round prec emax false (mx * my) (ex + ey).
Proof.
  intros Hbx Hby.
  destruct (bounded_spec mx ex Hbx) as (Hex & Hdx & Hnx & _).
  destruct (bounded_spec my ey Hby) as (Hey & Hdy & Hny & _).
  cbn [SFmul xorb]. unfold binary_round.
  set (f0 := fexp64 (Zpos (digits2_pos (mx * my)) + (ex + ey))).
  assert (Hf0 : ex + ey <= f0).
  { subst f0. rewrite fexp64_eq.
    destruct (Z.eq_dec ex (-1074)) as [Hsx|Hsx];
      destruct (Z.eq_dec ey (-1074)) as [Hsy|Hsy]; try lia.
    - assert (Hd : 53 <= Zpos (digits2_pos (mx * my))).
      { rewrite <- (Hny ltac:(lia)). apply digits2_pos_mono.
        rewrite Pos2Z.inj_mul. nia. }
      lia.
    - assert (Hd : 53 <= Zpos (digits2_pos (mx * my))).
      { rewrite <- (Hnx ltac:(lia)). apply digits2_pos_mono.
        rewrite Pos2Z.inj_mul. nia. }
      lia.
    - assert (Hd : 53 <= Zpos (digits2_pos (mx * my))).
      { rewrite <- (Hnx ltac:(lia)). apply digits2_pos_mono.
        rewrite Pos2Z.inj_mul. nia. }
      lia. }
  unfold shl_align. destruct (f0 - (ex + ey)) as [|d|d] eqn:E; try reflexivity. lia.
Qed.

(** A product is not below the product of lower bounds of its factors. *)
Lemma SFmul_ge_bound (x : spec_float) (my : positive) (ey : Z)
      (ma : positive) (ea : Z) (mb : positive) (eb : Z) :
  valid_binary x = true -> bounded prec emax my ey = true ->
  bounded prec emax ma ea = true -> bounded prec emax mb eb = true ->
  SFleb (S754_finite false ma ea) x = true ->
  (Qval (Zpos mb) eb <= Qval (Zpos ma) ea * Qval (Zpos my) ey)%Q ->
  SFleb (S754_finite false mb eb) (SF64mul x (S754_finite false my ey)) = true.
Proof.
  intros Hvx Hby Hba Hbb Hax Hval.
  destruct x as [sx|sx| |sx mx ex]; try discriminate Hax.
  - destruct sx; [discriminate Hax|reflexivity].
  - destruct sx; [discriminate Hax|].
    cbn [valid_binary] in Hvx.
    rewrite (SFmul_finite mx ex my ey Hvx Hby).
    apply binary_round_ge_bound; [exact Hbb|].
    rewrite Pos2Z.inj_mul, Qval_mul.
    eapply Qle_trans; [exact Hval|].
    apply Qmult_le_compat_r; [|apply Qlt_le_weak, Qval_pos].
    apply SFleb_value; assumption.
Qed.

(** *** Differences and sums *)

(** Taking away at least as much leaves nothing positive. *)
Lemma SFsub_le_zero (mx : positive) (ex : Z) (y : spec_float) :
  bounded prec emax mx ex = true -> valid_binary y = true ->
  SFleb (S754_finite false mx ex) y = true ->
  SFleb (SF64sub (S754_finite false mx ex) y) (S754_zero false) = true.
Proof.
  intros Hbx Hvy Hxy.
  destruct y as [sy|sy| |sy my ey]; try discriminate Hxy.
  - destruct sy; [discriminate Hxy|reflexivity].
  - destruct sy; [discriminate Hxy|].
    cbn [valid_binary] in Hvy.
    pose proof (SFleb_value mx ex my ey Hbx Hvy Hxy) as Hval.
    cbn [SFsub cond_Zopp].
    set (ez := Z.min ex ey).
    destruct (shl_align_spec mx ex ez) as (_ & HX & _).
    destruct (shl_align_spec my ey ez) as (_ & HY & _).
    replace (Z.min ex ez) with ez in HX by lia.
    replace (Z.min ey ez) with ez in HY by lia.
    set (X := fst (shl_align mx ex ez)) in *.
    set (Y := fst (shl_align my ey ez)) in *.
    apply (Qval_le_iff _ _ _ _ ez) in Hval; [|lia|lia].
    destruct (Zpos X - Zpos Y) as [|p|p] eqn:EM; cbn [binary_normalize].
    + reflexivity.
    + lia.
    + apply has_sign_true_le; [apply binary_round_sign|reflexivity].
Qed.

(** Adding a value that is not negative does not decrease a value that is
    not negative. *)
Lemma SFadd_nonneg_ge (x y : spec_float) :
  valid_binary x = true -> nonneg x -> nonneg y ->
  SFleb x (SF64add x y) = true.
Proof.
  intros Hv Hx Hy.
  destruct x as [sx|sx| |sx mx ex]; try discriminate Hx;
    destruct y as [sy|sy| |sy my ey]; try discriminate Hy;
    try (destruct sx; try discriminate Hx); try (destruct sy; try discriminate Hy);
    try reflexivity.
  - cbn [SFadd]. apply SFleb_refl. discriminate.
  - cbn [SFadd]. apply SFleb_refl. discriminate.
  - cbn [SFadd cond_Zopp]. cbn [valid_binary] in Hv.
    set (ez := Z.min ex ey).
    destruct (shl_align_spec mx ex ez) as (_ & HX & _).
    replace (Z.min ex ez) with ez in HX by lia.
    set (X := fst (shl_align mx ex ez)) in *.
    set (Y := fst (shl_align my ey ez)) in *.
    change (Zpos X + Zpos Y) with (Zpos (X + Y)). cbn [binary_normalize].
    apply binary_round_ge_bound; [exact Hv|].
    apply (Qval_le_iff _ _ _ _ ez); [lia|lia|].
    rewrite Z.sub_diag, Z.pow_0_r, Z.mul_1_r, Pos2Z.inj_add. lia.
Qed.

(** *** Quotients *)

Lemma binary_round_aux_sign_any (sx : bool) (mz ez : Z) (l : location) :
  0 <= mz -> has_sign sx (binary_round_aux prec emax sx mz ez l).
Proof.
  intros Hmz.
  destruct (binary_round_aux_any sx mz ez l Hmz) as (M2 & HM2 & _ & Hres).
  cbv zeta in Hres. rewrite Hres. apply round_result_sign.
  assert (0 <= mz / 2 ^ Z.max 0 (fexp64 (Zdigits2 mz + ez) - ez)).
  { apply Z.div_pos; [lia|apply Z.pow_pos_nonneg; lia]. }
  apply Z.div_pos; [lia|apply Z.pow_pos_nonneg; lia].
Qed.

(** The quotient of two positive values is not negative. *)
Lemma SFdiv_nonneg (mx : positive) (ex : Z) (y : spec_float) :
  SFltb (S754_zero false) y = true ->
  nonneg (SFdiv prec emax (S754_finite false mx ex) y).
Proof.
  intros Hy.
  destruct y as [sy|sy| |sy my ey]; try discriminate Hy.
  - destruct sy; [discriminate Hy|reflexivity].
  - destruct sy; [discriminate Hy|].
    cbn [SFdiv xorb]. unfold SFdiv_core_binary.
    set (m' := match _ with Zpos _ => _ | Z0 => _ | Zneg _ => _ end).
    assert (Hm' : 0 <= m').
    { subst m'. destruct (_ - _ - _) as [|s|s]; try lia.
      rewrite Z.shiftl_mul_pow2 by lia.
      apply Z.mul_nonneg_nonneg; [lia|apply Z.pow_nonneg; lia]. }
    pose proof (Z.div_eucl_eq m' (Zpos my) ltac:(lia)) as Heq.
    pose proof (Z.mod_pos_bound m' (Zpos my) ltac:(lia)) as Hmod.
    unfold Z.modulo in Hmod.
    destruct (Z.div_eucl m' (Zpos my)) as [q r].
    apply has_sign_false_nonneg. apply binary_round_aux_sign_any. nia.
Qed.

(** *** The same, on the primitive floats *)

Lemma add_nonneg_ge (a b : float) :
  (0 <=? a)%float = true -> (0 <=? b)%float = true -> (a <=? a + b)%float = true.
Proof.
  rewrite !FloatAxioms.leb_spec, FloatAxioms.add_spec, Prim2SF_zero.
  apply SFadd_nonneg_ge. apply Prim2SF_valid.
Qed.

Lemma Prim2SF_one : Prim2SF (lit 1) = S754_finite false 4503599627370496 (-52).
Proof. reflexivity. Qed.

Lemma div_one_nonneg (b : float) :
  (0 <? b)%float = true -> (0 <=? lit 1 / b)%float = true.
Proof.
  rewrite FloatAxioms.ltb_spec, FloatAxioms.leb_spec, FloatAxioms.div_spec.
  rewrite Prim2SF_zero, Prim2SF_one. apply SFdiv_nonneg.
Qed.

(** The product of a number that is not negative and a positive finite
    one. *)
Lemma mul_finite_nonneg (a b : float) :
  (0 <=? a)%float = true -> (0 <? b)%float = true ->
  (b <? infinity)%float = true -> (0 <=? a * b)%float = true.
Proof.
  intros Ha Hb Hfin.
  apply (mul_nonneg a b b); try assumption.
  - rewrite FloatAxioms.ltb_spec in Hfin. intros E. rewrite E in Hfin.
    discriminate Hfin.
  - apply leb_refl_r with (a := 0%float).
    rewrite FloatAxioms.leb_spec. rewrite FloatAxioms.ltb_spec in Hb.
    unfold SFleb. unfold SFltb in Hb.
    destruct (SFcompare (Prim2SF 0) (Prim2SF b)) as [[| |]|]; try discriminate Hb.
    reflexivity.
Qed.

(** *** The decay rate from ten pipelines on *)

Lemma Prim2SF_hundredth :
  Prim2SF (lit 0.01) = S754_finite false 5764607523034235 (-59).
Proof. reflexivity. Qed.

Lemma Prim2SF_tenth :
  Prim2SF (lit 0.1) = S754_finite false 7205759403792794 (-56).
Proof. reflexivity. Qed.

(** Eleven pipelines or more: the reduction is at least the base rate. *)
Lemma reduction_covers_base (n : nat) :
  (11 <= n)%nat ->
  (lit 0.1 <=? num_of_nat n * lit 0.01)%float = true.
Proof.
  intros Hn. change (num_of_nat n) with (F64.of_Z (Z.of_nat n)).
  rewrite FloatAxioms.leb_spec, FloatAxioms.mul_spec.
  rewrite Prim2SF_tenth, Prim2SF_hundredth, Prim2SF_of_Z_any by lia.
  destruct (Z.of_nat n) as [|p|p] eqn:E; try lia.
  cbn [binary_normalize].
  apply (SFmul_ge_bound _ _ _ 6192449487634432 (-49)); try reflexivity.
  - apply binary_round_valid.
  - apply binary_round_ge_bound; [reflexivity|].
    apply (Qval_le_iff _ _ _ _ (-49)); [lia|lia|].
    change (2 ^ (-49 - -49)) with 1. change (2 ^ (0 - -49)) with 562949953421312. lia.
  - vm_compute. discriminate.
Qed.

Lemma effectiveDecayRate_floor (d : Dataset.t float) :
  (10 <= List.length (Dataset.pipelines_installed d))%nat ->
  effectiveDecayRate d = lit 0.01.
Proof.
  intros Hn. unfold effectiveDecayRate, BASE_DECAY_RATE. cbv zeta.
  set (n := List.length (Dataset.pipelines_installed d)) in *. clearbody n.
  destruct (Nat.eq_dec n 10) as [->|Hne]; [vm_compute; reflexivity|].
  assert (Hcover : (lit 0.1 <=? num_of_nat n * lit 0.01)%float = true)
    by (apply reduction_covers_base; lia).
  set (k := (num_of_nat n * lit 0.01)%float) in *.
  assert (Hle : (lit 0.1 - k <=? 0)%float = true).
  { rewrite FloatAxioms.leb_spec in *. rewrite FloatAxioms.sub_spec, Prim2SF_zero.
    rewrite Prim2SF_tenth in *.
    apply SFsub_le_zero; [reflexivity|apply Prim2SF_valid|exact Hcover]. }
  cbn [Math_max num_sub binary64].
  remember (lit (num := float) 0.01) as floor eqn:Hfloor.
  assert (Hnum : (floor <=? floor)%float = true) by (subst floor; vm_compute; reflexivity).
  destruct (max_cases floor (lit 0.1 - k)%float Hnum (leb_refl_l _ _ Hle))
    as [[E _]|[_ Habs]]; [exact E|].
  exfalso. pose proof (leb_trans _ _ _ Habs Hle) as H. subst floor.
  vm_compute in H. discriminate H.
Qed.

End Binary64Steps.

(** ** Double precision: a draw in [[0, 1)] reads the incident catalog

    [Math.floor(Math.random() * 3)] is 0, 1 or 2 in double precision too:
    the largest double below 1 is [1 - 2^-53], and three times it rounds to
    [3 - 2^-51], not to 3. *)

Module Binary64Draws.

Import Rounding Binary64Facts Magnitude Binary64Order Binary64Steps.
Local Unset Implicit Arguments.
Local Open Scope Z_scope.

Lemma Prim2SF_three :
  Prim2SF (F64.of_Z 3) = S754_finite false 6755399441055744 (-51).
Proof. vm_compute. reflexivity. Qed.

(** A positive double below 1 has an exponent of -53 or less. *)
Lemma below_one (m : positive) (e : Z) :
  bounded prec emax m e = true ->
  SFltb (S754_finite false m e) (S754_finite false 4503599627370496 (-52)) = true ->
  e <= -53 /\ Zpos m < 2 ^ 53.
Proof.
  intros Hb Hlt. destruct (bounded_spec m e Hb) as (He & Hd & Hn & _).
  pose proof (digits2_pos_bounds m) as Hm.
  assert (Hm53 : Zpos m < 2 ^ 53).
  { eapply Z.lt_le_trans; [exact (proj2 Hm)|].
    apply Z.pow_le_mono_r; lia. }
  split; [|exact Hm53].
  unfold SFltb in Hlt. rewrite SFcompare_finite in Hlt. unfold lex in Hlt.
  destruct (Z.compare_spec e (-52)) as [E|E|E]; [|lia|discriminate Hlt].
  subst e. rewrite (Hn ltac:(lia)) in Hm.
  change (2 ^ (53 - 1)) with 4503599627370496 in Hm.
  destruct Hm as [Hlow _].
  destruct (Pos.compare_spec m 4503599627370496) as [Em|Em|Em];
    [discriminate Hlt| |discriminate Hlt].
  apply Pos2Z.pos_lt_pos in Em. clear - Hlow Em. lia.
Qed.

(** Three times a double below 1 is, once rounded, at most [3 - 2^-51]. *)
Lemma triple_below_three (m : positive) (e : Z) :
  bounded prec emax m e = true ->
  SFltb (S754_finite false m e) (S754_finite false 4503599627370496 (-52)) = true ->
  SFleb (binary_round prec emax false (m * 6755399441055744) (e + -51))
        (S754_finite false 6755399441055743 (-51)) = true.
Proof.
  intros Hb Hlt. destruct (below_one m e Hb Hlt) as [He Hm].
  destruct (Z.eq_dec e (-53)) as [E|E].
  - subst e. destruct (Z.eq_dec (Zpos m) (2 ^ 53 - 1)) as [Em|Em].
    + assert (Hm' : m = 9007199254740991%positive) by (apply Pos2Z.inj; exact Em).
      subst m. vm_compute. reflexivity.
    + apply binary_round_le_bound; [reflexivity|lia|].
      rewrite Pos2Z.inj_mul.
      change (-51 - (-53 + -51)) with 53.
      change (2 ^ 53) with 9007199254740992 in *. lia.
  - apply binary_round_le_bound; [reflexivity|lia|].
    rewrite Pos2Z.inj_mul.
    replace (-51 - (e + -51)) with (54 + (- e - 54)) by lia.
    rewrite Z.pow_add_r by lia.
    assert (Hp : 1 <= 2 ^ (- e - 54)) by (apply Z.lt_pred_le, Z.pow_pos_nonneg; lia).
    change (2 ^ 53) with 9007199254740992 in Hm.
    change (2 ^ 54) with 18014398509481984.
    set (P := 2 ^ (- e - 54)) in *. clearbody P. nia.
Qed.

(** The floor of a double in [[0, 3 - 2^-51]] is 0, 1 or 2. *)
Lemma floor_below_three (x : float) :
  nonneg (Prim2SF x) ->
  SFleb (Prim2SF x) (S754_finite false 6755399441055743 (-51)) = true ->
  exists k : nat, F64.index (F64.floor x) = Some k /\ (k < 3)%nat.
Proof.
  intros Hs Hle. pose proof (FloatAxioms.Prim2SF_valid x) as Hv.
  unfold F64.floor.
  destruct (Prim2SF x) as [s|s| |s m e] eqn:Hx.
  - exists 0%nat. unfold F64.index. rewrite Hx. split; [reflexivity|lia].
  - destruct s; [discriminate Hs|discriminate Hle].
  - discriminate Hs.
  - destruct s; [discriminate Hs|]. cbn [valid_binary] in Hv.
    destruct (bounded_spec m e Hv) as (He & Hd & _ & _).
    pose proof (digits2_pos_bounds m) as Hm.
    assert (Hm53 : Zpos m < 2 ^ 53).
    { eapply Z.lt_le_trans; [exact (proj2 Hm)|]. apply Z.pow_le_mono_r; lia. }
    unfold SFleb in Hle. rewrite SFcompare_finite in Hle. unfold lex in Hle.
    assert (Hcase : e < -51 \/ (e = -51 /\ Zpos m <= 6755399441055743)).
    { destruct (Z.compare_spec e (-51)) as [E|E|E]; [|left; exact E|discriminate Hle].
      right. split; [exact E|].
      destruct (Pos.compare_spec m 6755399441055743) as [Em|Em|Em];
        [subst m; reflexivity| |discriminate Hle].
      apply Pos2Z.pos_lt_pos in Em. clear - Em. lia. }
    assert (He0 : (0 <=? e) = false) by (apply Z.leb_gt; lia).
    rewrite He0. cbn [cond_Zopp].
    rewrite <- (Z.shiftr_opp_r (Zpos m) e), Z.shiftr_div_pow2 by lia.
    set (z := Zpos m / 2 ^ (- e)).
    assert (Hz : 0 <= z <= 2).
    { subst z. split; [apply Z.div_pos; [lia|apply Z.pow_pos_nonneg; lia]|].
      apply Z.lt_succ_r. apply Z.div_lt_upper_bound; [apply Z.pow_pos_nonneg; lia|].
      destruct Hcase as [E|[E Em]].
      - replace (- e) with (52 + (- e - 52)) by lia. rewrite Z.pow_add_r by lia.
        assert (Hp : 1 <= 2 ^ (- e - 52)) by (apply Z.lt_pred_le, Z.pow_pos_nonneg; lia).
        change (2 ^ 53) with 9007199254740992 in Hm53.
        change (2 ^ 52) with 4503599627370496.
        set (P := 2 ^ (- e - 52)) in *. clearbody P. nia.
      - subst e. change (2 ^ (- -51)) with 2251799813685248. lia. }
    clearbody z.
    assert (Hz' : z = 0 \/ z = 1 \/ z = 2) by (clear - Hz; lia).
    destruct Hz' as [-> | [-> | ->]].
    + exists 0%nat. split; [vm_compute; reflexivity|clear; lia].
    + exists 1%nat. split; [vm_compute; reflexivity|clear; lia].
    + exists 2%nat. split; [vm_compute; reflexivity|clear; lia].
Qed.

(** The index [Math.floor(r * 3)] of a draw [r] in [[0, 1)] is 0, 1 or 2. *)
Lemma draw_indexes_catalog_binary64 (dataset : Dataset.t float) (r : float) :
  (0 <=? r)%float = true -> (r <? lit 1)%float = true ->
  exists k : nat,
    num_index (Math_floor (num_mul r (num_of_nat (List.length (incidentTypes dataset)))))
    = Some k
    /\ (k < List.length (incidentTypes dataset))%nat.
Proof.
  intros H0 H1. cbn [incidentTypes List.length].
  change (num_of_nat (num := float) 3) with (F64.of_Z 3).
  cbn [num_index Math_floor num_mul binary64].
  rewrite FloatAxioms.leb_spec, Prim2SF_zero in H0.
  rewrite FloatAxioms.ltb_spec, Prim2SF_one in H1.
  pose proof (FloatAxioms.Prim2SF_valid r) as Hv.
  assert (Hmul : Prim2SF (r * F64.of_Z 3)
                 = SF64mul (Prim2SF r) (S754_finite false 6755399441055744 (-51))).
  { rewrite FloatAxioms.mul_spec, Prim2SF_three. reflexivity. }
  apply floor_below_three.
  - rewrite Hmul. destruct (Prim2SF r) as [s|s| |s m e].
    + destruct s; reflexivity.
    + destruct s; [discriminate H0|discriminate H1].
    + discriminate H0.
    + destruct s; [discriminate H0|].
      cbn [valid_binary] in Hv. rewrite (SFmul_finite m e 6755399441055744 (-51) Hv eq_refl).
      apply has_sign_false_nonneg, binary_round_sign.
  - rewrite Hmul. destruct (Prim2SF r) as [s|s| |s m e].
    + destruct s; reflexivity.
    + destruct s; [discriminate H0|discriminate H1].
    + discriminate H0.
    + destruct s; [discriminate H0|].
      cbn [valid_binary] in Hv. rewrite (SFmul_finite m e 6755399441055744 (-51) Hv eq_refl).
      apply triple_below_three; assumption.
Qed.

End Binary64Draws.

(** ** The range laws hold in both arithmetics *)

(** Membership of a literal in [range_literals]. *)
Ltac literal_in :=
  cbn [In range_literals]; repeat (first [left; reflexivity | right]).

#[export] Instance rational_range : JsRange Q.
Proof.
  split; unfold num_le; cbn [num_ge num_lt num_add num_sub num_mul Math_max
                             Math_min lit rational]; intros.
  - rewrite Qle_bool_iff in *. lra.
  - rewrite Qle_bool_iff in *. lra.
  - rewrite Qle_bool_iff in *. lra.
  - rewrite !Qle_bool_iff. unfold Qmax, GenericMinMax.gmax.
    destruct (a ?= b)%Q eqn:E.
    + left. split; [reflexivity|]. apply Qeq_alt in E. lra.
    + right. split; [reflexivity|]. apply Qlt_alt in E. lra.
    + left. split; [reflexivity|]. apply Qgt_alt in E. lra.
  - rewrite !Qle_bool_iff. unfold Qmin, GenericMinMax.gmin.
    destruct (a ?= b)%Q eqn:E.
    + left. split; [reflexivity|]. apply Qeq_alt in E. lra.
    + left. split; [reflexivity|]. apply Qlt_alt in E. lra.
    + right. split; [reflexivity|]. apply Qgt_alt in E. lra.
  - rewrite Qle_bool_iff in *. lra.
  - rewrite Qle_bool_iff in *. lra.
  - rewrite Qle_bool_iff in *. lra.
  - rewrite Qle_bool_iff in *. apply rational_ltb_lt in H0.
    apply Qmult_le_0_compat; lra.
  - rewrite Qle_bool_iff. unfold num_of_nat. cbn [lit rational].
    change 0%Q with (inject_Z 0). rewrite <- Zle_Qle. lia.
  - rewrite Qle_bool_iff. assumption.
  - apply rational_ltb_lt. assumption.
Qed.

#[export] Instance binary64_range : JsRange float.
Proof.
  assert (Hfin : Prim2SF (lit 100) <> S754_infinity false)
    by (vm_compute; discriminate).
  split; unfold num_le; cbn [num_ge num_lt num_add num_sub num_mul Math_max
                             Math_min binary64].
  - intros a b c. apply Binary64Facts.leb_trans.
  - intros a b. apply Binary64Facts.leb_refl_l.
  - intros a b. apply Binary64Facts.leb_refl_r.
  - intros a b. apply Binary64Facts.max_cases.
  - intros a b. apply Binary64Facts.min_cases.
  - intros a b. apply Binary64Facts.add_nonneg.
  - intros a b. apply (Binary64Facts.add_nonpos_le a b (lit 100) Hfin).
  - intros a r. apply (Binary64Facts.sub_nonneg_le a r (lit 100) Hfin).
  - intros a b. apply (Binary64Facts.mul_nonneg a b (lit 100) Hfin).
  - intros n. apply Binary64Facts.of_nat_nonneg.
  - intros p q Hp Hq Hpq. cbn [In range_literals] in Hp, Hq.
    repeat (destruct Hp as [<-|Hp]; [|]); try contradiction;
      repeat (destruct Hq as [<-|Hq]; [|]); try contradiction;
      solve [vm_compute; reflexivity | exfalso; apply Hpq; reflexivity].
  - intros p q Hp Hq Hpq. cbn [In range_literals] in Hp, Hq.
    repeat (destruct Hp as [<-|Hp]; [|]); try contradiction;
      repeat (destruct Hq as [<-|Hq]; [|]); try contradiction;
      solve [vm_compute; reflexivity | discriminate Hpq].
Qed.

(** ** Ranges *)

Module RangeFacts.
Section Laws.
Context {num : Type} {N : JsNumber num} {R : JsRange num}.

(** An order between two literals of [range_literals]. *)
Ltac literal_order :=
  first [apply lit_le | apply lit_lt];
  [literal_in | literal_in | first [closed_Qle | reflexivity]].

Lemma zero_le_hundred : num_le (num := num) (lit 0) (lit 100).
Proof. literal_order. Qed.

Lemma zero_is_number : num_le (num := num) (lit 0) (lit 0).
Proof. exact (num_le_number_l zero_le_hundred). Qed.

Lemma hundred_is_number : num_le (num := num) (lit 100) (lit 100).
Proof. exact (num_le_number_r zero_le_hundred). Qed.

(** [Math.max(0, y)] of a [y] that is at most some [x <= 100]. *)
Lemma floor_at_zero (y x : num) :
  num_le y x -> num_le x (lit 100) -> within (Math_max (lit 0) y).
Proof.
  intros Hyx Hx. unfold within.
  destruct (Math_max_cases zero_is_number (num_le_number_l Hyx))
    as [[-> Hle]|[-> Hle]].
  - split; [exact zero_is_number|exact zero_le_hundred].
  - split; [exact Hle|exact (num_le_trans Hyx Hx)].
Qed.

(** [Math.min(100, y)] of a [y >= 0]. *)
Lemma cap_at_hundred (y : num) :
  num_le (lit 0) y -> within (Math_min (lit 100) y).
Proof.
  intros Hy. unfold within.
  destruct (Math_min_cases hundred_is_number (num_le_number_r Hy))
    as [[-> Hle]|[-> Hle]].
  - split; [exact zero_le_hundred|exact hundred_is_number].
  - split; [exact Hy|exact Hle].
Qed.

Lemma decay_within (x r : num) :
  within x -> num_le (lit 0) r -> within (Math_max (lit 0) (num_sub x r)).
Proof.
  intros [H0 H100] Hr. apply floor_at_zero with (x := x); [|exact H100].
  apply num_sub_nonneg; assumption.
Qed.

Lemma bonus_within (x b : num) :
  within x -> num_le (lit 0) b -> within (Math_min (lit 100) (num_add x b)).
Proof.
  intros [H0 _] Hb. apply cap_at_hundred. apply num_add_nonneg; assumption.
Qed.

Lemma impact_within (x i : num) :
  within x -> num_le i (lit 0) -> within (Math_max (lit 0) (num_add x i)).
Proof.
  intros [H0 H100] Hi. apply floor_at_zero with (x := x); [|exact H100].
  apply num_add_nonpos; assumption.
Qed.

Lemma effectiveDecayRate_nonneg (d : Dataset.t num) :
  num_le (lit 0) (effectiveDecayRate d).
Proof.
  unfold effectiveDecayRate, BASE_DECAY_RATE. cbv zeta.
  set (n := num_of_nat (List.length (Dataset.pipelines_installed d))).
  assert (Hred : num_le (lit 0) (num_mul n (lit 0.01))).
  { apply num_mul_nonneg; [apply num_of_nat_nonneg|literal_order|literal_order]. }
  assert (Hsub : num_le (num_sub (lit 0.1) (num_mul n (lit 0.01))) (lit 0.1)).
  { apply num_sub_nonneg; [literal_order|literal_order|exact Hred]. }
  assert (H001 : num_le (num := num) (lit 0) (lit 0.01)) by literal_order.
  destruct (Math_max_cases (num_le_number_r H001) (num_le_number_l Hsub))
    as [[-> _]|[-> Hle]].
  - exact H001.
  - exact (num_le_trans H001 Hle).
Qed.

Lemma applyMetricDecay_inRange (d : Dataset.t num) (r : num) :
  num_le (lit 0) r ->
  inRange (Dataset.current_metrics d) ->
  inRange (Dataset.current_metrics (applyMetricDecay d r)).
Proof.
  intros Hr (HT & HA & HC). unfold inRange, applyMetricDecay.
  cbn [Dataset.current_metrics Dataset.with_current_metrics
       Metrics.T Metrics.A Metrics.C].
  repeat split; apply decay_within; assumption.
Qed.

Lemma totalBonus_nonneg (staff : list (Staff.t num)) (acc : Metrics.t num) :
  Forall nonNegativeBonus staff ->
  num_le (lit 0) (Metrics.T acc) /\ num_le (lit 0) (Metrics.A acc)
  /\ num_le (lit 0) (Metrics.C acc) ->
  let total :=
    fold_left
      (fun acc member =>
         Metrics.mk
           (num_add (Metrics.T acc) (StaffEffects.global_T_bonus (Staff.effects member)))
           (num_add (Metrics.A acc) (StaffEffects.global_A_bonus (Staff.effects member)))
           (num_add (Metrics.C acc) (StaffEffects.global_C_bonus (Staff.effects member))))
      staff acc in
  num_le (lit 0) (Metrics.T total) /\ num_le (lit 0) (Metrics.A total)
  /\ num_le (lit 0) (Metrics.C total).
Proof.
  intros Hst. revert acc. induction Hst as [|member staff Hm _ IH]; intros acc Hacc.
  - exact Hacc.
  - cbn [fold_left]. apply IH. cbn [Metrics.T Metrics.A Metrics.C].
    destruct Hm as (HT & HA & HC). destruct Hacc as (H1 & H2 & H3).
    repeat split; apply num_add_nonneg; assumption.
Qed.

Lemma applyStaffBonuses_inRange (d : Dataset.t num) (staff : list (Staff.t num)) :
  Forall nonNegativeBonus staff ->
  inRange (Dataset.current_metrics d) ->
  inRange (Dataset.current_metrics (applyStaffBonuses d staff)).
Proof.
  intros Hst (HT & HA & HC). unfold applyStaffBonuses.
  pose proof (@totalBonus_nonneg staff (Metrics.mk (lit 0) (lit 0) (lit 0)) Hst) as Hb.
  cbv zeta in Hb.
  match type of Hb with _ -> num_le _ (Metrics.T ?t) /\ _ => set (total := t) in * end.
  destruct Hb as (HbT & HbA & HbC).
  { cbn [Metrics.T Metrics.A Metrics.C]. repeat split; exact zero_is_number. }
  unfold inRange.
  cbn [Dataset.current_metrics Dataset.with_current_metrics
       Metrics.T Metrics.A Metrics.C].
  repeat split; apply bonus_within; assumption.
Qed.

Lemma decayAndBonus_inRange (staff : list (Staff.t num)) (d : Dataset.t num) :
  Forall nonNegativeBonus staff ->
  inRange (Dataset.current_metrics d) ->
  inRange (Dataset.current_metrics (decayAndBonus staff d)).
Proof.
  intros Hst Hd. unfold decayAndBonus.
  assert (Hdec : inRange (Dataset.current_metrics
                            (applyMetricDecay d (effectiveDecayRate d)))).
  { apply applyMetricDecay_inRange; [|exact Hd]. apply effectiveDecayRate_nonneg. }
  destruct (Nat.ltb 0 (List.length staff)); [|exact Hdec].
  apply applyStaffBonuses_inRange; assumption.
Qed.

Lemma fold_applyImpact_inRange (l : list (Incident.t num)) (m : Metrics.t num) :
  Forall nonPositiveImpact l ->
  inRange m ->
  inRange (fold_left applyImpact l m).
Proof.
  intros Hl. revert m. induction Hl as [|i l Hi _ IH]; intros m Hm; [exact Hm|].
  cbn [fold_left]. apply IH.
  destruct Hm as (HT & HA & HC). destruct Hi as (HiT & HiA & HiC).
  unfold inRange, applyImpact. cbn [Metrics.T Metrics.A Metrics.C].
  repeat split; apply impact_within; assumption.
Qed.

Lemma applyIncidentPenalties_inRange (l : list (Incident.t num)) (d : Dataset.t num) :
  Forall nonPositiveImpact l ->
  inRange (Dataset.current_metrics d) ->
  inRange (Dataset.current_metrics (applyIncidentPenalties l d)).
Proof.
  intros Hl Hd. unfold applyIncidentPenalties.
  destruct (Nat.eqb _ 0); [exact Hd|].
  cbn [Dataset.current_metrics Dataset.with_current_metrics].
  apply fold_applyImpact_inRange; [|exact Hd].
  apply Forall_forall. intros i Hi. apply filter_In in Hi.
  rewrite Forall_forall in Hl. apply Hl. tauto.
Qed.

Lemma survivors_nonPositiveImpact (mult : num) (l : list (Incident.t num)) :
  Forall nonPositiveImpact l ->
  Forall nonPositiveImpact
         (filter (fun incident => num_lt (Incident.resolution_progress incident) (lit 1.0))
                 (map (advanceIncident mult) l)).
Proof.
  intros Hl. apply Forall_forall. intros j Hj.
  apply filter_In in Hj. destruct Hj as [Hj _].
  apply in_map_iff in Hj. destruct Hj as (i & <- & Hi).
  rewrite Forall_forall in Hl. exact (Hl i Hi).
Qed.

(** The SLA of metrics in range is in range: the weighted sum is a number,
    which the two clamps keep. *)
Lemma calculateSLA_within (m : Metrics.t num) :
  inRange m -> within (calculateSLA m).
Proof.
  intros ((HT & _) & (HA & _) & (HC & _)). unfold calculateSLA. cbv zeta.
  set (s := num_add _ _).
  assert (Hs : num_le (lit 0) s).
  { subst s. apply num_add_nonneg; [apply num_add_nonneg|];
      apply num_mul_nonneg; try assumption; literal_order. }
  destruct (cap_at_hundred Hs) as [_ Hhi].
  apply floor_at_zero with (x := Math_min (lit 100) s);
    [exact (num_le_number_l Hhi)|exact Hhi].
Qed.

End Laws.
End RangeFacts.

(** C7. In double precision as in exact arithmetic (in any arithmetic with
    the range laws [JsRange]): when the snapshot's metrics lie in
    [[0, 100]], the staff bonuses are >= 0 and the incident impacts are
    <= 0, every dataset of an active tick's result has its three metrics and
    its stored [currentSLA] in [[0, 100]]. *)
Theorem metrics_and_sla_stay_in_range :
  forall (num : Type) (N : JsNumber num) (R : JsRange num)
         (state : Snapshot.t num) (w : World.t num),
    Snapshot.currentEvent state = None ->
    Forall (fun d => inRange (Dataset.current_metrics d))
           (Snapshot.datasets state) ->
    Forall nonNegativeBonus (Snapshot.staff state) ->
    Forall nonPositiveImpact (Snapshot.activeIncidents state) ->
    Forall (fun d => inRange (Dataset.current_metrics d)
                     /\ within (Dataset.currentSLA d))
           (TickResult.updatedDatasets (fst (processTick state w))).
Proof.
  intros num N R state w Hev Hds Hst Hinc.
  destruct (processTick_active state w Hev) as (_ & Hupd & _).
  rewrite Hupd. unfold tickDatasets, processIncidents. cbn [fst].
  rewrite Forall_forall in *. intros d' Hd'.
  apply in_map_iff in Hd'. destruct Hd' as (d1 & <- & Hd1).
  apply in_map_iff in Hd1. destruct Hd1 as (d2 & <- & Hd2).
  apply in_map_iff in Hd2. destruct Hd2 as (d & <- & Hd).
  cbn [refreshSLA Dataset.with_sla_status Dataset.current_metrics Dataset.currentSLA].
  match goal with |- inRange ?m /\ _ => assert (Hm : inRange m) end.
  { apply RangeFacts.applyIncidentPenalties_inRange.
    - apply RangeFacts.survivors_nonPositiveImpact. apply Forall_forall. exact Hinc.
    - apply RangeFacts.decayAndBonus_inRange; [apply Forall_forall; exact Hst|].
      apply Hds. exact Hd. }
  split; [exact Hm|apply RangeFacts.calculateSLA_within; exact Hm].
Qed.

Lemma metrics_and_sla_stay_in_range_witness :
  let state := activeSnapshot (num := float) [mockDataset] [engineer] [justStarted] in
  (Forall (fun d => inRange (Dataset.current_metrics d))
          (Snapshot.datasets state)
   /\ Forall nonNegativeBonus (Snapshot.staff state)
   /\ Forall nonPositiveImpact (Snapshot.activeIncidents state))
  /\ Forall (fun d => inRange (Dataset.current_metrics d)
                      /\ within (Dataset.currentSLA d))
            (TickResult.updatedDatasets
               (fst (processTick state (constantWorld (lit 0.5))))).
Proof.
  assert (Hds : Forall (fun d => inRange (Dataset.current_metrics d))
                       (Snapshot.datasets
                          (activeSnapshot (num := float) [mockDataset] [engineer] [justStarted]))).
  { repeat constructor; vm_compute; reflexivity. }
  assert (Hst : Forall nonNegativeBonus
                       (Snapshot.staff
                          (activeSnapshot (num := float) [mockDataset] [engineer] [justStarted]))).
  { repeat constructor; vm_compute; reflexivity. }
  assert (Hinc : Forall nonPositiveImpact
                        (Snapshot.activeIncidents
                           (activeSnapshot (num := float) [mockDataset] [engineer] [justStarted]))).
  { repeat constructor; vm_compute; reflexivity. }
  split; [split; [exact Hds|split; [exact Hst|exact Hinc]]|].
  exact (@metrics_and_sla_stay_in_range float binary64 binary64_range
           (activeSnapshot [mockDataset] [engineer] [justStarted])
           (constantWorld (lit 0.5)) eq_refl Hds Hst Hinc).
Defined.



(** ** Exact arithmetic: incident progress *)

Module ProgressFacts.

Local Open Scope Q_scope.

Lemma fold_speed (staff : list (Staff.t Q)) (a : Q) :
  fold_left
    (fun multiplier member =>
       num_mul multiplier (StaffEffects.incident_resolution_speed (Staff.effects member)))
    staff a
  == a * speedProduct staff.
Proof.
  unfold speedProduct. revert a.
  induction staff as [|member staff IH]; intros a; cbn [fold_left fold_right].
  - ring.
  - rewrite IH. rational_ops. ring.
Qed.

Lemma resolutionSpeed_product (staff : list (Staff.t Q)) :
  resolutionSpeed staff == speedProduct staff.
Proof. unfold resolutionSpeed. rewrite fold_speed. rational_ops. ring. Qed.

Lemma advance_progress (staff : list (Staff.t Q)) (incident : Incident.t Q) :
  Incident.resolution_progress (advanceIncident (resolutionSpeed staff) incident)
  == Incident.resolution_progress incident
     + (1 / Incident.base_resolution_time incident) * speedProduct staff.
Proof.
  unfold advanceIncident. cbn. rational_ops.
  rewrite resolutionSpeed_product. reflexivity.
Qed.

End ProgressFacts.

(** ** Incident progress in double precision *)

Module ProgressSteps.

Import Binary64Facts Binary64Steps.

(** One step of progress does not go backwards. *)
Lemma advance_never_decreases (speed : float) (incident : Incident.t float) :
  num_le (lit 0) (Incident.resolution_progress incident) ->
  num_lt (lit 0) (Incident.base_resolution_time incident) = true ->
  num_lt (lit 0) speed = true ->
  num_lt speed infinity = true ->
  num_le (Incident.resolution_progress incident)
         (Incident.resolution_progress (advanceIncident speed incident)).
Proof.
  unfold num_le. cbn [num_ge num_lt binary64]. intros Hp Hbrt Hspeed Hfin.
  unfold advanceIncident. cbv zeta.
  cbn [Incident.with_resolution_progress Incident.resolution_progress
       num_add num_mul num_div binary64].
  apply add_nonneg_ge; [exact Hp|].
  apply mul_finite_nonneg; [|exact Hspeed|exact Hfin].
  apply div_one_nonneg. exact Hbrt.
Qed.

End ProgressSteps.

(** C9, as stated, fails in double precision, the arithmetic the program
    runs in: an increment below half a unit in the last place of the
    progress is absorbed by the addition.  The incident at progress 0.5
    with [base_resolution_time = 1e17] and no staff is active, its base
    time and the speed product are positive, and after the tick it is still
    in [updatedIncidents] at progress 0.5: no strict increase.  Nor is the
    increment exactly [1 / base_resolution_time]: thirty ticks on a fresh
    incident with base time 30 leave its progress below 1.0. *)
Lemma absorbed_step_leaves_progress_unchanged :
  let state := activeSnapshot (num := float) [mockDataset] [] [slowIncident] in
  let r := fst (processTick state (constantWorld (lit 0.5))) in
  let advanced := advanceIncident (resolutionSpeed (Snapshot.staff state)) slowIncident in
  Snapshot.currentEvent state = None
  /\ In slowIncident (Snapshot.activeIncidents state)
  /\ num_lt (lit 0) (Incident.base_resolution_time (num := float) slowIncident) = true
  /\ num_lt (lit 0) (resolutionSpeed (Snapshot.staff state)) = true
  /\ TickResult.updatedIncidents r = [slowIncident]
  /\ Incident.resolution_progress advanced = lit 0.5
  /\ num_lt (Incident.resolution_progress (num := float) slowIncident)
            (Incident.resolution_progress advanced) = false
  /\ num_lt (Incident.resolution_progress
               (Nat.iter 30 (advanceIncident (num := float) (lit 1.0)) justStarted))
            (lit 1.0) = true.
Proof.
  cbv zeta.
  destruct (processTick_active
              (activeSnapshot (num := float) [mockDataset] [] [slowIncident])
              (constantWorld (lit 0.5)) eq_refl) as (_ & _ & H & _).
  rewrite H.
  split; [reflexivity|]. split; [left; reflexivity|].
  repeat split; vm_compute; reflexivity.
Qed.

(** C9. In an active tick an incident with [base_resolution_time > 0],
    under a positive staff speed product, has its progress replaced by
    [progress + (1 / base_resolution_time) * speed], where [speed] is the
    product of the staff resolution-speed factors that [processIncidents]
    folds, 1 without staff; it stays in [updatedIncidents] with the new
    progress while that is below 1.0 and is removed otherwise.  In exact
    arithmetic this is a strict increase by exactly that amount.  In double
    precision each operation is rounded: the progress of an incident at 0
    or more, under a finite product, never decreases, but it need not
    increase.  The incident at 0.97 with [base_resolution_time = 30] and no
    staff is active before the tick and gone after one tick, in exact and
    in double-precision arithmetic. *)
Theorem incident_progress_advances :
  (forall (state : Snapshot.t Q) (w : World.t Q) (incident : Incident.t Q),
      Snapshot.currentEvent state = None ->
      In incident (Snapshot.activeIncidents state) ->
      (0 < Incident.base_resolution_time incident)%Q ->
      (0 < speedProduct (Snapshot.staff state))%Q ->
      let r := fst (processTick state w) in
      let advanced := advanceIncident (resolutionSpeed (Snapshot.staff state)) incident in
      (resolutionSpeed (Snapshot.staff state)
       == speedProduct (Snapshot.staff state))%Q
      /\ speedProduct (@nil (Staff.t Q)) = 1%Q
      /\ (Incident.resolution_progress advanced
          == Incident.resolution_progress incident
             + (1 / Incident.base_resolution_time incident)
               * speedProduct (Snapshot.staff state))%Q
      /\ (Incident.resolution_progress incident < Incident.resolution_progress advanced)%Q
      /\ ((Incident.resolution_progress advanced < 1)%Q ->
          In advanced (TickResult.updatedIncidents r))
      /\ ((1 <= Incident.resolution_progress advanced)%Q ->
          ~ In advanced (TickResult.updatedIncidents r)))
  /\ (forall w : World.t Q,
        num_lt (Incident.resolution_progress (num := Q) nearlyResolved) (lit 1.0) = true
        /\ TickResult.updatedIncidents
             (fst (processTick (activeSnapshot [mockDataset] [] [nearlyResolved]) w))
           = [])
  /\ (forall w : World.t float,
        num_lt (Incident.resolution_progress (num := float) nearlyResolved) (lit 1.0) = true
        /\ TickResult.updatedIncidents
             (fst (processTick (activeSnapshot [mockDataset] [] [nearlyResolved]) w))
           = [])
  /\ (forall (state : Snapshot.t float) (w : World.t float) (incident : Incident.t float),
        Snapshot.currentEvent state = None ->
        In incident (Snapshot.activeIncidents state) ->
        num_le (lit 0) (Incident.resolution_progress incident) ->
        num_lt (lit 0) (Incident.base_resolution_time incident) = true ->
        num_lt (lit 0) (resolutionSpeed (Snapshot.staff state)) = true ->
        num_lt (resolutionSpeed (Snapshot.staff state)) infinity = true ->
        let r := fst (processTick state w) in
        let advanced :=
          advanceIncident (resolutionSpeed (Snapshot.staff state)) incident in
        Incident.resolution_progress advanced
        = num_add (Incident.resolution_progress incident)
                  (num_mul (num_div (lit 1) (Incident.base_resolution_time incident))
                           (resolutionSpeed (Snapshot.staff state)))
        /\ num_le (Incident.resolution_progress incident)
                  (Incident.resolution_progress advanced)
        /\ (num_lt (Incident.resolution_progress advanced) (lit 1.0) = true ->
            In advanced (TickResult.updatedIncidents r))
        /\ (num_lt (Incident.resolution_progress advanced) (lit 1.0) = false ->
            ~ In advanced (TickResult.updatedIncidents r))).
Proof.
  split; [|split; [|split]].
  - intros state w incident Hev Hin Hbrt Hspeed r advanced.
    destruct (processTick_active state w Hev) as (_ & _ & Hinc & _).
    subst r. rewrite Hinc, tickIncidents_spec.
    pose proof (ProgressFacts.advance_progress (Snapshot.staff state) incident) as Hadv.
    fold advanced in Hadv.
    assert (Hstep : (0 < (1 / Incident.base_resolution_time incident)
                         * speedProduct (Snapshot.staff state))%Q).
    { apply Qmult_lt_0_compat; [|exact Hspeed].
      unfold Qdiv. rewrite Qmult_1_l. apply Qinv_lt_0_compat. exact Hbrt. }
    split; [apply ProgressFacts.resolutionSpeed_product|].
    split; [reflexivity|].
    split; [exact Hadv|].
    split; [lra|].
    split.
    + intros Hlt. apply filter_In. split.
      * apply in_map. exact Hin.
      * apply rational_ltb_lt. rational_ops. lra.
    + intros Hge Habs. apply filter_In in Habs. destruct Habs as [_ Habs].
      apply rational_ltb_lt in Habs. rational_ops. lra.
  - intros w. split; [reflexivity|].
    destruct (processTick_active
                (activeSnapshot (num := Q) [mockDataset] [] [nearlyResolved]) w eq_refl)
      as (_ & _ & H & _).
    rewrite H. vm_compute. reflexivity.
  - intros w. split; [reflexivity|].
    destruct (processTick_active
                (activeSnapshot (num := float) [mockDataset] [] [nearlyResolved]) w eq_refl)
      as (_ & _ & H & _).
    rewrite H. vm_compute. reflexivity.
  - intros state w incident Hev Hin Hp Hbrt Hspeed Hfin r advanced.
    destruct (processTick_active state w Hev) as (_ & _ & H & _).
    subst r. rewrite H, tickIncidents_spec.
    split; [reflexivity|]. split.
    + apply ProgressSteps.advance_never_decreases; assumption.
    + split.
      * intros Hlt. apply filter_In. split; [apply in_map; exact Hin|exact Hlt].
      * intros Hge Habs. apply filter_In in Habs. destruct Habs as [_ Habs].
        fold advanced in Habs. congruence.
Qed.

Lemma incident_progress_advances_witness :
  let state := activeSnapshot (num := Q) [mockDataset] [engineer] [justStarted] in
  let r := fst (processTick state (constantWorld (lit 0.5))) in
  let advanced := advanceIncident (resolutionSpeed (Snapshot.staff state)) justStarted in
  let state' := activeSnapshot (num := float) [mockDataset] [engineer] [justStarted] in
  let advanced' := advanceIncident (resolutionSpeed (Snapshot.staff state')) justStarted in
  (Snapshot.currentEvent state = None
   /\ In justStarted (Snapshot.activeIncidents state)
   /\ (0 < Incident.base_resolution_time (num := Q) justStarted)%Q
   /\ (0 < speedProduct (Snapshot.staff state))%Q)
  /\ (Incident.resolution_progress (num := Q) justStarted
      < Incident.resolution_progress advanced)%Q
  /\ In advanced (TickResult.updatedIncidents r)
  /\ (Snapshot.currentEvent state' = None
      /\ In justStarted (Snapshot.activeIncidents state')
      /\ num_le (lit 0) (Incident.resolution_progress (num := float) justStarted)
      /\ num_lt (lit 0) (Incident.base_resolution_time (num := float) justStarted) = true
      /\ num_lt (lit 0) (resolutionSpeed (Snapshot.staff state')) = true
      /\ num_lt (resolutionSpeed (Snapshot.staff state')) infinity = true)
  /\ num_le (Incident.resolution_progress (num := float) justStarted)
            (Incident.resolution_progress advanced').
Proof.
  assert (Hin : In justStarted
                   (Snapshot.activeIncidents
                      (activeSnapshot (num := Q) [mockDataset] [engineer] [justStarted])))
    by (left; reflexivity).
  assert (Hbrt : (0 < Incident.base_resolution_time (num := Q) justStarted)%Q)
    by reflexivity.
  assert (Hspeed : (0 < speedProduct
                         (Snapshot.staff
                            (activeSnapshot (num := Q) [mockDataset] [engineer]
                                            [justStarted])))%Q)
    by reflexivity.
  pose proof (proj1 incident_progress_advances
                (activeSnapshot [mockDataset] [engineer] [justStarted])
                (constantWorld (lit 0.5)) justStarted eq_refl Hin Hbrt Hspeed) as H.
  cbv zeta in H. destruct H as (_ & _ & _ & Hlt & Hkeep & _).
  assert (Hin' : In justStarted
                    (Snapshot.activeIncidents
                       (activeSnapshot (num := float) [mockDataset] [engineer]
                                       [justStarted])))
    by (left; reflexivity).
  assert (Hp' : num_le (lit 0) (Incident.resolution_progress (num := float) justStarted))
    by (vm_compute; reflexivity).
  assert (Hbrt' : num_lt (lit 0) (Incident.base_resolution_time (num := float) justStarted)
                  = true) by (vm_compute; reflexivity).
  assert (Hspeed' : num_lt (lit 0)
                           (resolutionSpeed
                              (Snapshot.staff
                                 (activeSnapshot (num := float) [mockDataset] [engineer]
                                                 [justStarted]))) = true)
    by (vm_compute; reflexivity).
  assert (Hfin' : num_lt (resolutionSpeed
                            (Snapshot.staff
                               (activeSnapshot (num := float) [mockDataset] [engineer]
                                               [justStarted]))) infinity = true)
    by (vm_compute; reflexivity).
  cbv zeta. split; [repeat split; assumption|]. split; [exact Hlt|].
  split; [apply Hkeep; vm_compute; reflexivity|].
  split; [repeat split; assumption|].
  exact (proj1 (proj2 (proj2 (proj2 (proj2 incident_progress_advances))
                        (activeSnapshot [mockDataset] [engineer] [justStarted])
                        (constantWorld (lit 0.5)) justStarted
                        eq_refl Hin' Hp' Hbrt' Hspeed' Hfin'))).
Defined.

(** ** The offline loop counts ticks on its own *)

Section OfflineShape.
Context {num : Type} {N : JsNumber num}.

Lemma offlineLoop_ticksLoop (state : SavedState.t num) (t batches : num) (fuel : nat) :
  forall (batch total : num) (ds : list (Dataset.t num)) (p : num) (w : World.t num),
    option_map snd (fst (offlineLoop fuel state t batches batch total ds p w))
    = ticksLoop fuel t batches batch p.
Proof.
  induction fuel as [|fuel IH]; intros batch total ds p w; [reflexivity|].
  cbn [offlineLoop ticksLoop].
  destruct (num_lt batch batches); [|reflexivity].
  unfold bind. destruct (processTick _ w) as [result w']. apply IH.
Qed.

Lemma ticksLoop_step (fuel : nat) (t batches batch p : num) :
  ticksLoop (S fuel) t batches batch p
  = if num_lt batch batches
    then ticksLoop fuel t batches (num_add batch (lit 1))
                   (num_add p (Math_min (lit 60) (num_sub t p)))
    else Some p.
Proof. reflexivity. Qed.

Lemma calculateOfflineProgress_ticks (fuel : nat) (state : SavedState.t num)
      (secondsElapsed : num) (w : World.t num) :
  let ticksToSimulate := Math_min secondsElapsed (lit 86400) in
  option_map (@OfflineResult.ticksSimulated num)
             (fst (calculateOfflineProgressFuel fuel state secondsElapsed w))
  = ticksLoop fuel ticksToSimulate (Math_ceil (num_div ticksToSimulate (lit 60)))
              (lit 0) (lit 0).
Proof.
  intros t. rewrite <- (offlineLoop_ticksLoop state t _ fuel (lit 0) (lit 0)
                          (SavedState.datasets state) (lit 0) w).
  unfold calculateOfflineProgressFuel, bind, ret. fold t.
  destruct (offlineLoop _ _ _ _ _ _ _ _ w) as [[[[total ds] p]|] w']; reflexivity.
Qed.

Lemma ticksSimulated_of_run (state : SavedState.t num) (secondsElapsed : num)
      (w : World.t num) (ticks : num) :
  ticksLoop offlineFuel (Math_min secondsElapsed (lit 86400))
            (Math_ceil (num_div (Math_min secondsElapsed (lit 86400)) (lit 60)))
            (lit 0) (lit 0) = Some ticks ->
  exists r : OfflineResult.t num,
    fst (calculateOfflineProgress state secondsElapsed w) = Some r
    /\ OfflineResult.ticksSimulated r = ticks.
Proof.
  intros Hrun.
  pose proof (calculateOfflineProgress_ticks offlineFuel state secondsElapsed w) as H.
  cbv zeta in H. rewrite Hrun in H. unfold calculateOfflineProgress.
  destruct (fst (calculateOfflineProgressFuel offlineFuel state secondsElapsed w)) as [r|];
    [|discriminate H].
  exists r. split; [reflexivity|]. cbn in H. congruence.
Qed.

End OfflineShape.

(** ** Exact arithmetic: the offline loop *)

Module OfflineFacts.

Local Open Scope Q_scope.

(** After [k] turns the loop has processed [min(60 k, t)] ticks; it leaves
    after [n = ceil(t / 60)] turns with [t] ticks processed, given more fuel
    than turns left. *)
Lemma ticksLoop_runs (t : Q) (n : Z) :
  inject_Z (n - 1) * 60 < t ->
  t <= inject_Z n * 60 ->
  forall (fuel : nat) (k : Z) (batch p : Q),
    (0 <= k <= n)%Z ->
    batch == inject_Z k ->
    p == Qmin (inject_Z k * 60) t ->
    (Z.to_nat (n - k) < fuel)%nat ->
    exists p', ticksLoop fuel t (inject_Z n) batch p = Some p' /\ p' == t.
Proof.
  intros Hlow Hup fuel.
  induction fuel as [|fuel IH]; intros k batch p Hk Hbatch Hp Hfuel; [lia|].
  cbn [ticksLoop]. rational_ops.
  assert (Hn1 : inject_Z (n - 1) == inject_Z n - 1).
  { unfold Z.sub. rewrite inject_Z_plus. reflexivity. }
  destruct (Rational.ltb batch (inject_Z n)) eqn:Htest.
  - apply rational_ltb_lt in Htest.
    assert (Hkn : (k < n)%Z) by (rewrite Zlt_Qlt; lra).
    assert (Hk1 : inject_Z (k + 1) == inject_Z k + 1).
    { rewrite inject_Z_plus. reflexivity. }
    assert (Hkle : inject_Z (k + 1) <= inject_Z n) by (rewrite <- Zle_Qle; lia).
    apply (IH (k + 1)%Z); [lia|lra| |lia].
    minmax_cases. lra.
  - apply rational_ltb_ge in Htest.
    assert (Hnk : (n <= k)%Z) by (rewrite Zle_Qle; lra).
    assert (k = n) by lia. subst k.
    exists p. split; [reflexivity|]. minmax_cases. lra.
Qed.

Lemma ceiling_bounds (t : Q) :
  let n := Qceiling (t / 60) in
  inject_Z (n - 1) * 60 < t /\ t <= inject_Z n * 60.
Proof.
  intros n.
  assert (Hq : t / 60 * 60 == t) by (field; discriminate).
  pose proof (Qceiling_lt (t / 60)) as Hlt. fold n in Hlt.
  pose proof (Qle_ceiling (t / 60)) as Hle. fold n in Hle.
  set (q := t / 60) in *. split; lra.
Qed.

Lemma ceiling_at_most (t : Q) (c : Z) :
  t <= inject_Z c * 60 -> (Qceiling (t / 60) <= c)%Z.
Proof.
  intros Ht. rewrite <- (Qceiling_Z c). apply Qceiling_resp_le.
  assert (Hq : t / 60 * 60 == t) by (field; discriminate).
  set (q := t / 60) in *. lra.
Qed.

Lemma ceiling_at_least (t : Q) (c : Z) :
  inject_Z c * 60 <= t -> (c <= Qceiling (t / 60))%Z.
Proof.
  intros Ht. rewrite <- (Qceiling_Z c). apply Qceiling_resp_le.
  assert (Hq : t / 60 * 60 == t) by (field; discriminate).
  set (q := t / 60) in *. lra.
Qed.

(** The loop leaves within [offlineFuel] turns and has then processed the
    capped elapsed time. *)
Lemma ticks_of_elapsed (secondsElapsed : Q) :
  0 <= secondsElapsed ->
  let t := Qmin secondsElapsed 86400 in
  exists p', ticksLoop offlineFuel t (Math_ceil (t / 60)) 0 0 = Some p' /\ p' == t.
Proof.
  intros Hs t. rational_ops. unfold Rational.ceil.
  assert (Ht : 0 <= t <= 86400) by (subst t; minmax_cases; lra).
  destruct (ceiling_bounds t) as (Hlow & Hup).
  assert (Hn : (Qceiling (t / 60) <= 1440)%Z).
  { apply ceiling_at_most. change (inject_Z 1440 * 60) with 86400. lra. }
  assert (Hn0 : (0 <= Qceiling (t / 60))%Z).
  { apply ceiling_at_least. change (inject_Z 0 * 60) with 0. lra. }
  apply (@ticksLoop_runs t (Qceiling (t / 60)) Hlow Hup offlineFuel 0%Z).
  - lia.
  - reflexivity.
  - change (inject_Z 0 * 60) with 0. minmax_cases. lra.
  - unfold offlineFuel. lia.
Qed.

(** A negative elapsed time runs no batch. *)
Lemma ticks_of_negative (secondsElapsed : Q) :
  secondsElapsed < 0 ->
  let t := Qmin secondsElapsed 86400 in
  ticksLoop offlineFuel t (Math_ceil (t / 60)) 0 0 = Some 0.
Proof.
  intros Hs t. change offlineFuel with (S 1440). rewrite ticksLoop_step.
  rational_ops. unfold Rational.ceil.
  assert (Ht : t < 0) by (subst t; minmax_cases; lra).
  assert (Hn : (Qceiling (t / 60) <= 0)%Z).
  { apply ceiling_at_most. change (inject_Z 0 * 60) with 0. lra. }
  assert (Htest : Rational.ltb 0 (inject_Z (Qceiling (t / 60))) = false).
  { apply rational_ltb_ge. rewrite Zle_Qle in Hn. exact Hn. }
  rewrite Htest. reflexivity.
Qed.

(** [calculateOfflineProgress] returns on every input: the fuel never runs
    out. *)
Lemma calculateOfflineProgress_returns (state : SavedState.t Q) (secondsElapsed : Q)
      (w : World.t Q) :
  exists r : OfflineResult.t Q,
    fst (calculateOfflineProgress state secondsElapsed w) = Some r.
Proof.
  destruct (Qlt_le_dec secondsElapsed 0) as [Hneg|Hpos].
  - destruct (ticksSimulated_of_run state secondsElapsed w
                (ticks_of_negative Hneg)) as (r & Hr & _).
    exists r. exact Hr.
  - destruct (ticks_of_elapsed Hpos) as (p' & Hrun & _).
    destruct (ticksSimulated_of_run state secondsElapsed w Hrun) as (r & Hr & _).
    exists r. exact Hr.
Qed.

End OfflineFacts.

(** ** Double precision: the offline loop on whole seconds

    The callers pass a whole number of seconds.  Whole numbers below 2^53
    are doubles, and the cap, the subtraction, the accumulation and the
    comparisons of the loop are exact on them. *)

Module WholeSeconds.
Import Binary64Facts.
Local Unset Implicit Arguments.
Local Open Scope Z_scope.

(** An integer literal is the double of the integer. *)
Lemma lit_whole (z : Z) : lit (num := float) (inject_Z z) = F64.of_Z z.
Proof. reflexivity. Qed.

(** [Math.min(secondsElapsed, 86400)] is the cap of the whole number. *)
Lemma cap_of_whole_seconds (z : Z) :
  0 <= z < 2 ^ 53 ->
  Math_min (lit (num := float) (inject_Z z)) (lit 86400)
  = lit (inject_Z (Z.min z 86400)).
Proof.
  intros Hz. rewrite !lit_whole. change (lit 86400) with (F64.of_Z 86400).
  cbn [Math_min binary64].
  assert (H53 : 2 ^ 53 = 9007199254740992) by reflexivity.
  apply of_Z_min; lia.
Qed.

(** After [k] turns [min(60 k, m)] ticks are processed, all [m] of them
    after [B = ceil(m / 60)] turns. *)
Lemma ticksLoop_whole (m B : Z) :
  0 <= m <= 86400 -> B = (m + 59) / 60 ->
  forall (fuel : nat) (k : Z),
    0 <= k <= B -> (Z.to_nat (B - k) < fuel)%nat ->
    ticksLoop fuel (F64.of_Z m) (F64.of_Z B) (F64.of_Z k)
              (F64.of_Z (Z.min (60 * k) m))
    = Some (F64.of_Z m).
Proof.
  intros Hm HB.
  assert (HB60 : 60 * (B - 1) < m <= 60 * B /\ 0 <= B <= 1440).
  { subst B. Z.to_euclidean_division_equations. lia. }
  destruct HB60 as [HB60 HBr].
  assert (H53 : 2 ^ 53 = 9007199254740992) by reflexivity.
  induction fuel as [|fuel IH]; intros k Hk Hfuel; [lia|].
  rewrite ticksLoop_step. cbn [num_lt num_add num_sub Math_min binary64].
  change (lit 1) with (F64.of_Z 1). change (lit 60) with (F64.of_Z 60).
  rewrite of_Z_ltb by lia.
  destruct (k <? B) eqn:E.
  - apply Z.ltb_lt in E.
    rewrite (of_Z_add k 1) by lia.
    rewrite (Z.min_l (60 * k) m) by lia.
    rewrite (of_Z_sub m (60 * k)) by lia.
    rewrite (of_Z_min 60 (m - 60 * k)) by lia.
    rewrite (of_Z_add (60 * k)) by lia.
    replace (60 * k + Z.min 60 (m - 60 * k)) with (Z.min (60 * (k + 1)) m) by lia.
    apply IH; lia.
  - apply Z.ltb_ge in E. assert (k = B) by lia. subst k.
    rewrite Z.min_r by lia. reflexivity.
Qed.

(** The tick counter of [calculateOfflineProgress] on a whole number of
    seconds: capped at a day, counted exactly. *)
Lemma ticks_of_whole_seconds (z : Z) :
  0 <= z < 2 ^ 53 ->
  ticksLoop offlineFuel
            (Math_min (lit (inject_Z z)) (lit 86400))
            (Math_ceil (num_div (Math_min (lit (inject_Z z)) (lit 86400)) (lit 60)))
            (lit 0) (lit 0)
  = Some (lit (num := float) (inject_Z (Z.min z 86400))).
Proof.
  intros Hz. rewrite (cap_of_whole_seconds z Hz).
  set (m := Z.min z 86400).
  assert (Hm : 0 <= m <= 86400) by (subst m; lia).
  rewrite lit_whole. cbn [Math_ceil num_div binary64].
  change (lit 60) with (F64.of_Z 60). change (lit 0) with (F64.of_Z 0).
  rewrite (ceil_of_quotient m Hm).
  pose proof (ticksLoop_whole m ((m + 59) / 60) Hm eq_refl offlineFuel 0) as H.
  rewrite Z.mul_0_r, (Z.min_l 0 m) in H by lia.
  apply H.
  - Z.to_euclidean_division_equations. lia.
  - unfold offlineFuel. Z.to_euclidean_division_equations. lia.
Qed.

End WholeSeconds.

(** C4. For every saved state and every [secondsElapsed >= 0],
    [calculateOfflineProgress] returns, and [ticksSimulated] is
    [min(secondsElapsed, 86400)], the capped elapsed time and not the number
    of batches: in exact arithmetic for every [secondsElapsed >= 0], and in
    double precision for every whole number of seconds below 2^53 (the
    callers pass [Math.floor] of the elapsed seconds), whatever the state
    and the random draws.  100000 seconds give 86400, in both. *)
Theorem offline_ticks_are_capped_elapsed_time :
  forall (state : SavedState.t Q) (secondsElapsed : Q) (w : World.t Q),
    (0 <= secondsElapsed)%Q ->
    (exists r : OfflineResult.t Q,
        fst (calculateOfflineProgress state secondsElapsed w) = Some r
        /\ (OfflineResult.ticksSimulated r == Qmin secondsElapsed 86400)%Q)
    /\ (exists r : OfflineResult.t Q,
           fst (calculateOfflineProgress state 100000%Q w) = Some r
           /\ (OfflineResult.ticksSimulated r == 86400)%Q)
    /\ (forall (state' : SavedState.t float) (w' : World.t float) (z : Z),
          (0 <= z < 2 ^ 53)%Z ->
          exists r : OfflineResult.t float,
            fst (calculateOfflineProgress state' (lit (inject_Z z)) w') = Some r
            /\ OfflineResult.ticksSimulated r = lit (inject_Z (Z.min z 86400)))
    /\ (forall (state' : SavedState.t float) (w' : World.t float),
          exists r : OfflineResult.t float,
            fst (calculateOfflineProgress state' (lit 100000) w') = Some r
            /\ OfflineResult.ticksSimulated r = lit 86400).
Proof.
  assert (Hgen : forall (state : SavedState.t Q) (s : Q) (w : World.t Q),
             (0 <= s)%Q ->
             exists r : OfflineResult.t Q,
               fst (calculateOfflineProgress state s w) = Some r
               /\ (OfflineResult.ticksSimulated r == Qmin s 86400)%Q).
  { intros state s w Hs.
    destruct (OfflineFacts.ticks_of_elapsed Hs) as (p' & Hrun & Hp').
    destruct (ticksSimulated_of_run state s w Hrun) as (r & Hr & Hticks).
    exists r. split; [exact Hr|]. rewrite Hticks. exact Hp'. }
  assert (Hwhole : forall (state' : SavedState.t float) (w' : World.t float) (z : Z),
             (0 <= z < 2 ^ 53)%Z ->
             exists r : OfflineResult.t float,
               fst (calculateOfflineProgress state' (lit (inject_Z z)) w') = Some r
               /\ OfflineResult.ticksSimulated r = lit (inject_Z (Z.min z 86400))).
  { intros state' w' z Hz. apply ticksSimulated_of_run.
    apply WholeSeconds.ticks_of_whole_seconds. exact Hz. }
  intros state secondsElapsed w Hs.
  split; [apply Hgen; exact Hs|]. split; [|split].
  - destruct (Hgen state 100000%Q w) as (r & Hr & Ht); [closed_Qle|].
    exists r. split; [exact Hr|]. rewrite Ht. reflexivity.
  - exact Hwhole.
  - intros state' w'. apply (Hwhole state' w' 100000%Z).
    split; [discriminate|reflexivity].
Qed.

Lemma offline_ticks_are_capped_elapsed_time_witness :
  (0 <= 300)%Q
  /\ (exists r : OfflineResult.t Q,
         fst (calculateOfflineProgress (savedState [mockDataset]) 300%Q
                                       (constantWorld (lit 0.5))) = Some r
         /\ (OfflineResult.ticksSimulated r == Qmin 300 86400)%Q)
  /\ (exists r : OfflineResult.t Q,
         fst (calculateOfflineProgress (savedState [mockDataset]) 100000%Q
                                       (constantWorld (lit 0.5))) = Some r
         /\ (OfflineResult.ticksSimulated r == 86400)%Q)
  /\ (forall (state' : SavedState.t float) (w' : World.t float) (z : Z),
        (0 <= z < 2 ^ 53)%Z ->
        exists r : OfflineResult.t float,
          fst (calculateOfflineProgress state' (lit (inject_Z z)) w') = Some r
          /\ OfflineResult.ticksSimulated r = lit (inject_Z (Z.min z 86400)))
  /\ (forall (state' : SavedState.t float) (w' : World.t float),
        exists r : OfflineResult.t float,
          fst (calculateOfflineProgress state' (lit 100000) w') = Some r
          /\ OfflineResult.ticksSimulated r = lit 86400).
Proof.
  assert (H : (0 <= 300)%Q) by closed_Qle.
  split; [exact H|].
  exact (@offline_ticks_are_capped_elapsed_time
           (savedState [mockDataset]) 300%Q (constantWorld (lit 0.5)) H).
Defined.

(** ** The offline loop when one batch covers the elapsed time *)

Section SingleBatch.
Context {num : Type} {N : JsNumber num}.

Lemma offline_single_batch (state : SavedState.t num) (secondsElapsed : num)
      (w : World.t num) (fuel : nat) :
  let ticksToSimulate := Math_min secondsElapsed (lit 86400) in
  let batches := Math_ceil (num_div ticksToSimulate (lit 60)) in
  let ticksInBatch := Math_min (lit 60) (num_sub ticksToSimulate (lit 0)) in
  let snapshot := offlineSnapshot state (SavedState.datasets state) in
  num_lt (lit 0) batches = true ->
  num_lt (num_add (lit 0) (lit 1)) batches = false ->
  fst (calculateOfflineProgressFuel (S (S fuel)) state secondsElapsed w)
  = Some (OfflineResult.mk
            (Math_floor
               (num_add (lit 0)
                  (num_mul (num_mul (TickResult.dcGenerated (fst (processTick snapshot w)))
                                    ticksInBatch)
                           (lit 0.5))))
            (num_add (lit 0) ticksInBatch)
            (TickResult.updatedDatasets (fst (processTick snapshot w)))).
Proof.
  intros ticksToSimulate batches ticksInBatch snapshot Hfirst Hsecond.
  unfold calculateOfflineProgressFuel.
  fold ticksToSimulate. fold batches.
  unfold bind at 1. cbn [offlineLoop]. rewrite Hfirst.
  unfold bind at 1. fold (offlineSnapshot state (SavedState.datasets state)).
  fold snapshot.
  destruct (processTick snapshot w) as [result w'].
  cbn [offlineLoop fst]. rewrite Hsecond. reflexivity.
Qed.

End SingleBatch.

(** ** One dataset, no staff, no incident *)

Section LoneDataset.
Context {num : Type} {N : JsNumber num}.

(** The tick of a lone dataset: decayed at its rate, then refreshed. *)
Lemma tickDatasets_lone (d : Dataset.t num) (event : option (Event.t num))
      (dc lifetimeDC prestigeLevel : num) :
  tickDatasets (Snapshot.mk [d] [] [] event dc lifetimeDC prestigeLevel)
  = [refreshSLA (applyMetricDecay d (effectiveDecayRate d))].
Proof. reflexivity. Qed.

Lemma calculateTotalDC_lone (d : Dataset.t num) :
  calculateTotalDC [d] []
  = num_add (lit 0) (calculateDatasetDC d (lit 1.0)).
Proof. reflexivity. Qed.

Lemma processTick_lone (d : Dataset.t num) (dc lifetimeDC prestigeLevel : num)
      (w : World.t num) :
  let r := fst (processTick (Snapshot.mk [d] [] [] None dc lifetimeDC prestigeLevel) w) in
  let d' := refreshSLA (applyMetricDecay d (effectiveDecayRate d)) in
  TickResult.dcGenerated r = num_add (lit 0) (calculateDatasetDC d' (lit 1.0))
  /\ TickResult.updatedDatasets r = [d'].
Proof.
  cbv zeta.
  destruct (processTick_active (Snapshot.mk [d] [] [] None dc lifetimeDC prestigeLevel) w
                               eq_refl) as (Hdc & Hds & _).
  rewrite Hdc, Hds, tickDatasets_lone. split; reflexivity.
Qed.

End LoneDataset.

Module LoneFacts.

Import Binary64Facts Binary64Steps.

(** The decay rates double precision gives: one for each number of
    pipelines up to ten, and the floor from ten on. *)
Lemma effectiveDecayRate_cases (d : Dataset.t float) :
  exists n : nat,
    (n <= 10)%nat
    /\ effectiveDecayRate d
       = Math_max (lit 0.01) (num_sub (lit 0.1) (num_mul (num_of_nat n) (lit 0.01))).
Proof.
  destruct (Nat.le_gt_cases (List.length (Dataset.pipelines_installed d)) 10) as [H|H].
  - exists (List.length (Dataset.pipelines_installed d)). split; [exact H|reflexivity].
  - exists 10%nat. split; [lia|].
    rewrite effectiveDecayRate_floor by lia. vm_compute. reflexivity.
Qed.

Local Open Scope Q_scope.

(** In exact arithmetic the rate lies between the floor and the base
    rate. *)
Lemma effectiveDecayRate_bounds (d : Dataset.t Q) :
  0.01 <= effectiveDecayRate d <= 0.1.
Proof.
  unfold effectiveDecayRate, BASE_DECAY_RATE. cbv zeta. rational_ops.
  assert (Hn : 0 <= num_of_nat (num := Q) (List.length (Dataset.pipelines_installed d))).
  { unfold num_of_nat. cbn [lit rational]. change 0 with (inject_Z 0).
    rewrite <- Zle_Qle. lia. }
  set (n := num_of_nat (List.length (Dataset.pipelines_installed d))) in *. clearbody n.
  minmax_cases. lra.
Qed.

(** A dataset at 100% SLA is, after one tick of decay, at 99.9% or
    more. *)
Lemma decayed_sla (m : Metrics.t Q) (rate : Q) :
  0.01 <= rate <= 0.1 ->
  calculateSLA m == 100 ->
  99.9 <= calculateSLA
            (Metrics.mk (Qmax 0 (Metrics.T m - rate)) (Qmax 0 (Metrics.A m - rate))
                        (Qmax 0 (Metrics.C m - rate)))
       <= 100.
Proof.
  unfold calculateSLA. cbv zeta. cbn [Metrics.T Metrics.A Metrics.C]. rational_ops.
  intros Hr Hs. minmax_cases. lra.
Qed.

End LoneFacts.

(** C6. One dataset with base rate 60 DC per minute, metrics
    100 / 100 / 100, targets 95 / 95 / 95 and no pipeline, whatever its
    other fields (its stored SLA and status included), no staff, no
    incident, no event: whatever the balance and the random draws, one tick
    generates 0.999 DC (within 0.0011 of 1.0 in double precision), leaves
    the one dataset with metrics 99.9 / 99.9 / 99.9 and gives it the status
    [ok].  In double precision and in exact arithmetic. *)
Theorem single_tick_scenario :
  (forall (d : Dataset.t float) (dc lifetimeDC prestigeLevel : float) (w : World.t float),
      Dataset.base_dc d = lit 60 ->
      Dataset.current_metrics d = Metrics.mk (lit 100) (lit 100) (lit 100) ->
      Dataset.sla_targets d = Metrics.mk (lit 95) (lit 95) (lit 95) ->
      Dataset.pipelines_installed d = [] ->
      let r := fst (processTick (Snapshot.mk [d] [] [] None dc lifetimeDC prestigeLevel) w) in
      num_lt (lit 0.9989) (TickResult.dcGenerated r) = true
      /\ num_lt (TickResult.dcGenerated r) (lit 0.9991) = true
      /\ exists d' : Dataset.t float,
          TickResult.updatedDatasets r = [d']
          /\ Dataset.current_metrics d' = Metrics.mk (lit 99.9) (lit 99.9) (lit 99.9)
          /\ Dataset.status d' = ok)
  /\ (forall (d : Dataset.t Q) (dc lifetimeDC prestigeLevel : Q) (w : World.t Q),
         (Dataset.base_dc d == 60)%Q ->
         (Metrics.T (Dataset.current_metrics d) == 100
          /\ Metrics.A (Dataset.current_metrics d) == 100
          /\ Metrics.C (Dataset.current_metrics d) == 100)%Q ->
         (Metrics.T (Dataset.sla_targets d) == 95
          /\ Metrics.A (Dataset.sla_targets d) == 95
          /\ Metrics.C (Dataset.sla_targets d) == 95)%Q ->
         Dataset.pipelines_installed d = [] ->
         let r := fst (processTick (Snapshot.mk [d] [] [] None dc lifetimeDC prestigeLevel) w) in
         (TickResult.dcGenerated r == 0.999)%Q
         /\ exists d' : Dataset.t Q,
             TickResult.updatedDatasets r = [d']
             /\ (Metrics.T (Dataset.current_metrics d') == 99.9)%Q
             /\ (Metrics.A (Dataset.current_metrics d') == 99.9)%Q
             /\ (Metrics.C (Dataset.current_metrics d') == 99.9)%Q
             /\ Dataset.status d' = ok).
Proof.
  split.
  - intros d dc lifetimeDC prestigeLevel w Hb Hm Ht Hp r. subst r.
    destruct (processTick_lone d dc lifetimeDC prestigeLevel w) as [Hdc Hds].
    rewrite Hdc, Hds. clear Hdc Hds.
    destruct d as [id name description base_dc volume risk targets metrics pipelines
                      sla status unlock].
    cbn [Dataset.base_dc Dataset.current_metrics Dataset.sla_targets
         Dataset.pipelines_installed] in Hb, Hm, Ht, Hp. subst.
    split; [vm_compute; reflexivity|]. split; [vm_compute; reflexivity|].
    eexists. split; [reflexivity|]. split; vm_compute; reflexivity.
  - intros d dc lifetimeDC prestigeLevel w Hb (HT & HA & HC) (HtT & HtA & HtC) Hp r.
    subst r.
    destruct (processTick_lone d dc lifetimeDC prestigeLevel w) as [Hdc Hds].
    rewrite Hdc, Hds. clear Hdc Hds.
    assert (Hrate : (effectiveDecayRate d == 0.1)%Q).
    { unfold effectiveDecayRate, BASE_DECAY_RATE. rewrite Hp. reflexivity. }
    set (d' := refreshSLA (applyMetricDecay d (effectiveDecayRate d))).
    assert (HT' : (Metrics.T (Dataset.current_metrics d') == 99.9)%Q).
    { subst d'. cbn [refreshSLA applyMetricDecay Dataset.with_sla_status
                     Dataset.with_current_metrics Dataset.current_metrics Metrics.T].
      rational_ops. rewrite Hrate, HT. reflexivity. }
    assert (HA' : (Metrics.A (Dataset.current_metrics d') == 99.9)%Q).
    { subst d'. cbn [refreshSLA applyMetricDecay Dataset.with_sla_status
                     Dataset.with_current_metrics Dataset.current_metrics Metrics.A].
      rational_ops. rewrite Hrate, HA. reflexivity. }
    assert (HC' : (Metrics.C (Dataset.current_metrics d') == 99.9)%Q).
    { subst d'. cbn [refreshSLA applyMetricDecay Dataset.with_sla_status
                     Dataset.with_current_metrics Dataset.current_metrics Metrics.C].
      rational_ops. rewrite Hrate, HC. reflexivity. }
    assert (Hsla : (calculateSLA (Dataset.current_metrics d') == 99.9)%Q).
    { unfold calculateSLA. cbv zeta. rational_ops. rewrite HT', HA', HC'. reflexivity. }
    assert (Htarget : (calculateSLA (Dataset.sla_targets d') == 95)%Q).
    { subst d'. cbn [refreshSLA applyMetricDecay Dataset.with_sla_status
                     Dataset.with_current_metrics Dataset.sla_targets].
      unfold calculateSLA. cbv zeta. rational_ops. rewrite HtT, HtA, HtC. reflexivity. }
    split.
    + unfold calculateDatasetDC. cbv zeta. rewrite Hsla.
      assert (Hbase : (Dataset.base_dc d' == 60)%Q) by exact Hb.
      rational_ops. rewrite Hbase. reflexivity.
    + exists d'. split; [reflexivity|]. split; [exact HT'|]. split; [exact HA'|].
      split; [exact HC'|].
      change (Dataset.status d') with
        (calculateDatasetStatus (applyMetricDecay d (effectiveDecayRate d))).
      unfold calculateDatasetStatus. cbv zeta.
      assert (Hge : num_ge (calculateSLA (Dataset.current_metrics
                                            (applyMetricDecay d (effectiveDecayRate d))))
                           (calculateSLA (Dataset.sla_targets
                                            (applyMetricDecay d (effectiveDecayRate d))))
                    = true).
      { rational_ops. apply Qle_bool_iff.
        change (calculateSLA (Dataset.sla_targets d')
                <= calculateSLA (Dataset.current_metrics d'))%Q.
        rewrite Hsla, Htarget. closed_Qle. }
      rewrite Hge. reflexivity.
Qed.

Lemma single_tick_scenario_witness :
  let r := fst (processTick (activeSnapshot (num := float) [mockDataset] [] [])
                            (constantWorld (lit 0.5))) in
  (Dataset.base_dc (num := float) mockDataset = lit 60
   /\ Dataset.current_metrics (num := float) mockDataset
      = Metrics.mk (lit 100) (lit 100) (lit 100)
   /\ Dataset.sla_targets (num := float) mockDataset
      = Metrics.mk (lit 95) (lit 95) (lit 95)
   /\ Dataset.pipelines_installed (num := float) mockDataset = [])
  /\ num_lt (lit 0.9989) (TickResult.dcGenerated r) = true
  /\ num_lt (TickResult.dcGenerated r) (lit 0.9991) = true
  /\ exists d' : Dataset.t float,
      TickResult.updatedDatasets r = [d']
      /\ Dataset.current_metrics d' = Metrics.mk (lit 99.9) (lit 99.9) (lit 99.9)
      /\ Dataset.status d' = ok.
Proof.
  split; [repeat split|].
  exact (proj1 single_tick_scenario mockDataset (lit 0) (lit 0) (lit 0)
               (constantWorld (lit 0.5)) eq_refl eq_refl eq_refl eq_refl).
Defined.

Section OfflineMinute.
Context {num : Type} {N : JsNumber num}.

(** Sixty seconds offline with a lone dataset: one batch of one tick. *)
Lemma offline_minute_lone (d : Dataset.t num) (incidents : list (Incident.t num))
      (dc lifetimeDC prestigeLevel : num) (w : World.t num) :
  let state := SavedState.mk [d] [] incidents dc lifetimeDC prestigeLevel in
  let ticksInBatch :=
    Math_min (lit 60) (num_sub (Math_min (lit 60) (lit 86400)) (lit 0)) in
  let d' := refreshSLA (applyMetricDecay d (effectiveDecayRate d)) in
  num_lt (lit 0) (Math_ceil (num_div (Math_min (lit 60) (lit 86400)) (lit 60))) = true ->
  num_lt (num_add (lit 0) (lit 1))
         (Math_ceil (num_div (Math_min (lit 60) (lit 86400)) (lit 60))) = false ->
  TickResult.dcGenerated (fst (processTick (offlineSnapshot state [d]) w))
  = num_add (lit 0) (calculateDatasetDC d' (lit 1.0))
  /\ fst (calculateOfflineProgress state (lit 60) w)
     = Some (OfflineResult.mk
               (Math_floor
                  (num_add (lit 0)
                     (num_mul (num_mul (num_add (lit 0) (calculateDatasetDC d' (lit 1.0)))
                                       ticksInBatch)
                              (lit 0.5))))
               (num_add (lit 0) ticksInBatch)
               [d']).
Proof.
  intros state ticksInBatch d' Hfirst Hsecond.
  destruct (processTick_lone d dc lifetimeDC prestigeLevel w) as [Hdc Hds].
  change (Snapshot.mk [d] [] [] None dc lifetimeDC prestigeLevel)
    with (offlineSnapshot state [d]) in Hdc, Hds.
  split; [exact Hdc|].
  unfold calculateOfflineProgress. change offlineFuel with (S (S 1439)).
  rewrite (offline_single_batch state (lit 60) w 1439 Hfirst Hsecond).
  change (SavedState.datasets state) with [d].
  rewrite Hdc, Hds. reflexivity.
Qed.

End OfflineMinute.

(** C5. One dataset at 100% SLA with base rate 60 DC per minute, whatever
    its other fields (pipelines, volume, risk, targets, stored SLA and
    status), no staff, 60 seconds elapsed: whatever the saved incidents and
    balance and the random draws, [calculateOfflineProgress] returns with
    [ticksSimulated = 60] and [dcEarned] strictly between 25 and 35, and
    [dcEarned] is the floor of one tick's DC output times the batch's 60
    ticks times the 0.5 offline efficiency.  In double precision, for the
    metrics 100 / 100 / 100, [dcEarned] is 29; in exact arithmetic, for any
    metrics whose SLA is 100, it is 29 or 30. *)
Theorem offline_minute_earns_between_25_and_35 :
  (forall (d : Dataset.t float) (incidents : list (Incident.t float))
          (dc lifetimeDC prestigeLevel : float) (w : World.t float),
      Dataset.base_dc d = lit 60 ->
      Dataset.current_metrics d = Metrics.mk (lit 100) (lit 100) (lit 100) ->
      let state := SavedState.mk [d] [] incidents dc lifetimeDC prestigeLevel in
      exists r : OfflineResult.t float,
        fst (calculateOfflineProgress state (lit 60) w) = Some r
        /\ OfflineResult.ticksSimulated r = lit 60
        /\ OfflineResult.dcEarned r = lit 29
        /\ num_lt (lit 25) (OfflineResult.dcEarned r) = true
        /\ num_lt (OfflineResult.dcEarned r) (lit 35) = true
        /\ OfflineResult.dcEarned r
           = Math_floor
               (num_mul
                  (num_mul
                     (TickResult.dcGenerated
                        (fst (processTick (offlineSnapshot state [d]) w)))
                     (lit 60))
                  (lit 0.5)))
  /\ (forall (d : Dataset.t Q) (incidents : list (Incident.t Q))
             (dc lifetimeDC prestigeLevel : Q) (w : World.t Q),
         (Dataset.base_dc d == 60)%Q ->
         (calculateSLA (Dataset.current_metrics d) == 100)%Q ->
         let state := SavedState.mk [d] [] incidents dc lifetimeDC prestigeLevel in
         exists r : OfflineResult.t Q,
           fst (calculateOfflineProgress state (lit 60) w) = Some r
           /\ (OfflineResult.ticksSimulated r == 60)%Q
           /\ (25 < OfflineResult.dcEarned r < 35)%Q
           /\ (OfflineResult.dcEarned r == 29 \/ OfflineResult.dcEarned r == 30)%Q
           /\ (OfflineResult.dcEarned r
               == inject_Z
                    (Qfloor
                       (TickResult.dcGenerated
                          (fst (processTick (offlineSnapshot state [d]) w))
                        * 60 * 0.5)))%Q).
Proof.
  split.
  - intros d incidents dc lifetimeDC prestigeLevel w Hb Hm state.
    destruct (offline_minute_lone d incidents dc lifetimeDC prestigeLevel w)
      as [Hdc Hres]; [vm_compute; reflexivity|vm_compute; reflexivity|].
    fold state in Hdc, Hres. rewrite Hdc, Hres. clear Hdc Hres.
    eexists. split; [reflexivity|].
    cbn [OfflineResult.ticksSimulated OfflineResult.dcEarned].
    unfold calculateDatasetDC, refreshSLA, applyMetricDecay. cbv zeta.
    cbn [Dataset.with_sla_status Dataset.with_current_metrics Dataset.current_metrics
         Dataset.base_dc].
    rewrite Hb, Hm. cbn [Metrics.T Metrics.A Metrics.C].
    destruct (LoneFacts.effectiveDecayRate_cases d) as (n & Hn & ->).
    do 11 (destruct n as [|n]; [repeat split; vm_compute; reflexivity|]).
    lia.
  - intros d incidents dc lifetimeDC prestigeLevel w Hb Hs state.
    destruct (offline_minute_lone d incidents dc lifetimeDC prestigeLevel w)
      as [Hdc Hres]; [reflexivity|reflexivity|].
    fold state in Hdc, Hres. rewrite Hdc, Hres. clear Hdc Hres.
    eexists. split; [reflexivity|].
    cbn [OfflineResult.ticksSimulated OfflineResult.dcEarned].
    set (d' := refreshSLA (applyMetricDecay d (effectiveDecayRate d))).
    pose proof (LoneFacts.decayed_sla (Dataset.current_metrics d)
                  (LoneFacts.effectiveDecayRate_bounds d) Hs) as Hsla.
    change (calculateSLA _) with (calculateSLA (Dataset.current_metrics d')) in Hsla.
    assert (Hgen : (calculateDatasetDC d' (lit 1.0)
                    == calculateSLA (Dataset.current_metrics d') * (1 # 100))%Q).
    { unfold calculateDatasetDC. cbv zeta.
      assert (Hbase : (Dataset.base_dc d' == 60)%Q) by exact Hb.
      rational_ops. rewrite Hbase. field. }
    set (sla := calculateSLA (Dataset.current_metrics d')) in *. clearbody sla.
    set (gen := calculateDatasetDC d' (lit 1.0)) in *. clearbody gen d'.
    rational_ops.
    change (Qmin 60 (Qmin 60 86400 - 0)) with 60%Q. unfold Rational.floor.
    assert (Hsame : (0 + (0 + gen) * 60 * 0.5 == (0 + gen) * 60 * 0.5)%Q) by ring.
    rewrite Hsame.
    set (total := ((0 + gen) * 60 * 0.5)%Q).
    assert (Htotal : (29.97 <= total <= 30)%Q) by (subst total; lra).
    assert (Hlow : (29 <= Qfloor total)%Z).
    { change 29%Z with (Qfloor 29). apply Qfloor_resp_le. lra. }
    assert (Hup : (Qfloor total <= 30)%Z).
    { change 30%Z with (Qfloor 30). apply Qfloor_resp_le. lra. }
    split; [reflexivity|]. split; [|split; [|reflexivity]].
    + split.
      * change 25%Q with (inject_Z 25). rewrite <- Zlt_Qlt. lia.
      * change 35%Q with (inject_Z 35). rewrite <- Zlt_Qlt. lia.
    + assert (Hcase : (Qfloor total = 29 \/ Qfloor total = 30)%Z) by lia.
      destruct Hcase as [-> | ->]; [left|right]; reflexivity.
Qed.

Lemma offline_minute_earns_between_25_and_35_witness :
  let state := SavedState.mk (num := float) [mockDataset] [] [] (lit 0) (lit 0) (lit 0) in
  (Dataset.base_dc (num := float) mockDataset = lit 60
   /\ Dataset.current_metrics (num := float) mockDataset
      = Metrics.mk (lit 100) (lit 100) (lit 100))
  /\ exists r : OfflineResult.t float,
      fst (calculateOfflineProgress state (lit 60) (constantWorld (lit 0.5))) = Some r
      /\ OfflineResult.ticksSimulated r = lit 60
      /\ OfflineResult.dcEarned r = lit 29
      /\ num_lt (lit 25) (OfflineResult.dcEarned r) = true
      /\ num_lt (OfflineResult.dcEarned r) (lit 35) = true
      /\ OfflineResult.dcEarned r
         = Math_floor
             (num_mul
                (num_mul
                   (TickResult.dcGenerated
                      (fst (processTick (offlineSnapshot state [mockDataset])
                                        (constantWorld (lit 0.5)))))
                   (lit 60))
                (lit 0.5)).
Proof.
  split; [split; reflexivity|].
  exact (proj1 offline_minute_earns_between_25_and_35 mockDataset [] (lit 0) (lit 0) (lit 0)
               (constantWorld (lit 0.5)) eq_refl eq_refl).
Defined.

(** * Further properties of the code *)

(** ** Reading the order of the interface on rationals *)

Lemma num_le_rational (a b : Q) : num_le a b <-> (a <= b)%Q.
Proof. unfold num_le. cbn [num_ge rational]. apply Qle_bool_iff. Qed.

Lemma within_rational (x : Q) : within x <-> (0 <= x <= 100)%Q.
Proof. unfold within. rewrite !num_le_rational. reflexivity. Qed.

Lemma inRange_rational (m : Metrics.t Q) :
  inRange m <->
  (0 <= Metrics.T m <= 100)%Q /\ (0 <= Metrics.A m <= 100)%Q
  /\ (0 <= Metrics.C m <= 100)%Q.
Proof. unfold inRange. rewrite !within_rational. reflexivity. Qed.

(** ** The formula library *)

Module FormulaFacts.

Local Open Scope Q_scope.

Lemma calculateSLA_bounds (m : Metrics.t Q) : 0 <= calculateSLA m <= 100.
Proof. unfold calculateSLA. rational_ops. minmax_cases. lra. Qed.

Lemma calculateSLA_weighted (m : Metrics.t Q) :
  inRange m ->
  calculateSLA m == 0.4 * Metrics.T m + 0.4 * Metrics.A m + 0.2 * Metrics.C m.
Proof.
  rewrite inRange_rational. intros (HT & HA & HC).
  unfold calculateSLA. rational_ops. minmax_cases. lra.
Qed.

Lemma calculateSLA_monotone (m m' : Metrics.t Q) :
  Metrics.T m <= Metrics.T m' -> Metrics.A m <= Metrics.A m' ->
  Metrics.C m <= Metrics.C m' ->
  calculateSLA m <= calculateSLA m'.
Proof.
  intros HT HA HC. unfold calculateSLA. rational_ops. minmax_cases. lra.
Qed.

End FormulaFacts.

(** X1. [calculateSLA] is the weighted sum [0.4 T + 0.4 A + 0.2 C] clamped
    to [[0, 100]]: in exact arithmetic the result lies in [[0, 100]]
    whatever the metrics, is the weighted sum itself when the metrics lie in
    [[0, 100]], and does not decrease when a metric increases; in double
    precision the result lies in [[0, 100]] when the metrics do. *)
Theorem calculateSLA_weighs_and_clamps :
  (forall m : Metrics.t Q, (0 <= calculateSLA m <= 100)%Q)
  /\ (forall m : Metrics.t Q,
        inRange m ->
        (calculateSLA m
         == 0.4 * Metrics.T m + 0.4 * Metrics.A m + 0.2 * Metrics.C m)%Q)
  /\ (forall m m' : Metrics.t Q,
        (Metrics.T m <= Metrics.T m')%Q -> (Metrics.A m <= Metrics.A m')%Q ->
        (Metrics.C m <= Metrics.C m')%Q ->
        (calculateSLA m <= calculateSLA m')%Q)
  /\ (forall m : Metrics.t float, inRange m -> within (calculateSLA m)).
Proof.
  split; [exact FormulaFacts.calculateSLA_bounds|].
  split; [exact FormulaFacts.calculateSLA_weighted|].
  split; [exact FormulaFacts.calculateSLA_monotone|].
  intros m. apply RangeFacts.calculateSLA_within.
Qed.

Lemma calculateSLA_weighs_and_clamps_witness :
  let m : Metrics.t Q := Metrics.mk 100 50 0 in
  let m' : Metrics.t float := Metrics.mk (lit 100) (lit 50) (lit 0) in
  (inRange m /\ inRange m')
  /\ (calculateSLA m == 0.4 * 100 + 0.4 * 50 + 0.2 * 0)%Q
  /\ within (calculateSLA m').
Proof.
  assert (Hm : inRange (Metrics.mk (num := Q) 100 50 0)).
  { repeat split; vm_compute; reflexivity. }
  assert (Hm' : inRange (Metrics.mk (num := float) (lit 100) (lit 50) (lit 0))).
  { repeat split; vm_compute; reflexivity. }
  split; [split; [exact Hm|exact Hm']|].
  destruct calculateSLA_weighs_and_clamps as (_ & Hw & _ & Hf).
  split; [exact (Hw _ Hm)|exact (Hf _ Hm')].
Defined.

(** X2. A dataset whose current metrics are, each of them, at or above its
    SLA targets has status [ok] (exact arithmetic). *)
Theorem dataset_meeting_its_targets_is_ok :
  forall d : Dataset.t Q,
    (Metrics.T (Dataset.sla_targets d) <= Metrics.T (Dataset.current_metrics d))%Q ->
    (Metrics.A (Dataset.sla_targets d) <= Metrics.A (Dataset.current_metrics d))%Q ->
    (Metrics.C (Dataset.sla_targets d) <= Metrics.C (Dataset.current_metrics d))%Q ->
    calculateDatasetStatus d = ok.
Proof.
  intros d HT HA HC. unfold calculateDatasetStatus. cbv zeta.
  pose proof (FormulaFacts.calculateSLA_monotone _ _ HT HA HC) as Hle.
  cbn [num_ge rational]. apply Qle_bool_iff in Hle. rewrite Hle. reflexivity.
Qed.

Lemma dataset_meeting_its_targets_is_ok_witness :
  ((95 <= 100)%Q /\ (95 <= 100)%Q /\ (95 <= 100)%Q)
  /\ calculateDatasetStatus (num := Q) mockDataset = ok.
Proof.
  assert (H : (95 <= 100)%Q) by closed_Qle.
  split; [repeat split; exact H|].
  exact (@dataset_meeting_its_targets_is_ok mockDataset H H H).
Defined.

Module BoundFacts.

Lemma calculateDatasetDC_nominal (d : Dataset.t Q) (globalMultipliers : Q) :
  (0 <= Dataset.base_dc d)%Q -> (0 <= globalMultipliers)%Q ->
  (0 <= calculateDatasetDC d globalMultipliers
   <= Dataset.base_dc d * globalMultipliers / 60)%Q
  /\ (calculateSLA (Dataset.current_metrics d) == 100 ->
      calculateDatasetDC d globalMultipliers
      == Dataset.base_dc d * globalMultipliers / 60)%Q.
Proof.
  revert d globalMultipliers. intros d mult Hb Hm. unfold calculateDatasetDC. cbv zeta. rational_ops.
  pose proof (FormulaFacts.calculateSLA_bounds (Dataset.current_metrics d)) as [H0 H100].
  set (sla := calculateSLA (Dataset.current_metrics d)) in *. clearbody sla.
  set (b := Dataset.base_dc d) in *. clearbody b.
  assert (Hbm : (0 <= b * mult)%Q) by (apply Qmult_le_0_compat; assumption).
  assert (Hd : (sla / 100 == sla * (1 # 100))%Q) by field.
  assert (He : (0 <= sla / 100 <= 1)%Q) by (rewrite Hd; lra).
  set (e := (sla / 100)%Q) in *. clearbody e.
  assert (Hdiv : forall x : Q, (x / 60 == x * (1 # 60))%Q) by (intros x; field).
  rewrite !Hdiv.
  assert (Heq : (b * e * mult == (b * mult) * e)%Q) by ring.
  assert (Hlo : (0 <= (b * mult) * e)%Q) by (apply Qmult_le_0_compat; lra).
  assert (Hhi : ((b * mult) * e <= (b * mult) * 1)%Q).
  { apply Qmult_le_compat_nonneg; lra. }
  split; [lra|].
  intros Hs. assert (He1 : (e == 1)%Q) by (rewrite Hd, Hs; reflexivity).
  rewrite Heq, He1. lra.
Qed.

Lemma calculateIncidentChance_bounds (d : Dataset.t Q) (baseChance : Q) :
  (0.001 <= calculateIncidentChance d baseChance <= 0.1)%Q
  /\ ((calculateSLA (Dataset.current_metrics d) == 100)%Q ->
      (calculateIncidentChance d baseChance == 0.001)%Q).
Proof.
  revert d baseChance. intros d baseChance. unfold calculateIncidentChance. cbv zeta. rational_ops.
  set (sla := calculateSLA (Dataset.current_metrics d)).
  set (chance := (baseChance * (1 + Dataset.volume d / 1000) * ((100 - sla) / 100)
                  * riskMultipliers (Dataset.risk_rating d))%Q).
  split.
  - clearbody chance. minmax_cases. lra.
  - intros Hs.
    assert (Hc : (chance == 0)%Q).
    { subst chance. rewrite Hs. field. }
    clearbody chance. minmax_cases. lra.
Qed.

End BoundFacts.

(** X3. With a base rate and a multiplier that are not negative, the DC per
    second of a dataset lies between 0 and its rate at 100% SLA,
    [base_dc * multiplier / 60], and is that rate when the SLA is 100
    (exact arithmetic). *)
Theorem dataset_rate_is_at_most_nominal :
  forall (d : Dataset.t Q) (globalMultipliers : Q),
    (0 <= Dataset.base_dc d)%Q -> (0 <= globalMultipliers)%Q ->
    (0 <= calculateDatasetDC d globalMultipliers
     <= Dataset.base_dc d * globalMultipliers / 60)%Q
    /\ (calculateSLA (Dataset.current_metrics d) == 100 ->
        calculateDatasetDC d globalMultipliers
        == Dataset.base_dc d * globalMultipliers / 60)%Q.
Proof. exact BoundFacts.calculateDatasetDC_nominal. Qed.

Lemma dataset_rate_is_at_most_nominal_witness :
  ((0 <= 60)%Q /\ (0 <= 1)%Q)
  /\ (0 <= calculateDatasetDC (num := Q) mockDataset 1 <= 60 * 1 / 60)%Q.
Proof.
  assert (Hb : (0 <= 60)%Q) by closed_Qle.
  assert (Hm : (0 <= 1)%Q) by closed_Qle.
  split; [split; [exact Hb|exact Hm]|].
  exact (proj1 (@dataset_rate_is_at_most_nominal mockDataset 1 Hb Hm)).
Defined.

(** Sums and products over a list. *)
Module Totals.

Local Open Scope Q_scope.

Lemma sumOf_cons {A : Type} (g : A -> Q) (x : A) (l : list A) :
  sumOf g (x :: l) = g x + sumOf g l.
Proof. reflexivity. Qed.

Lemma productOf_cons {A : Type} (g : A -> Q) (x : A) (l : list A) :
  productOf g (x :: l) = g x * productOf g l.
Proof. reflexivity. Qed.

Lemma fold_left_sum {A : Type} (g : A -> Q) (l : list A) (acc : Q) :
  fold_left (fun total x => total + g x) l acc == acc + sumOf g l.
Proof.
  revert acc. induction l as [|x l IH]; intros acc.
  - cbn. ring.
  - cbn [fold_left]. rewrite IH, sumOf_cons. ring.
Qed.

Lemma fold_left_product {A : Type} (g : A -> Q) (l : list A) (acc : Q) :
  fold_left (fun p x => p * g x) l acc == acc * productOf g l.
Proof.
  revert acc. induction l as [|x l IH]; intros acc.
  - cbn. ring.
  - cbn [fold_left]. rewrite IH, productOf_cons. ring.
Qed.

Lemma sumOf_app {A : Type} (g : A -> Q) (l l' : list A) :
  sumOf g (l ++ l') == sumOf g l + sumOf g l'.
Proof.
  induction l as [|x l IH].
  - change (sumOf g []) with 0. cbn [app]. ring.
  - cbn [app]. rewrite !sumOf_cons, IH. ring.
Qed.

Lemma productOf_app {A : Type} (g : A -> Q) (l l' : list A) :
  productOf g (l ++ l') == productOf g l * productOf g l'.
Proof.
  induction l as [|x l IH].
  - change (productOf g []) with 1. cbn [app]. ring.
  - cbn [app]. rewrite !productOf_cons, IH. ring.
Qed.

Lemma sumOf_ext {A : Type} (g h : A -> Q) (l : list A) :
  (forall x, In x l -> g x == h x) -> sumOf g l == sumOf h l.
Proof.
  induction l as [|x l IH]; intros Hext; [reflexivity|].
  rewrite !sumOf_cons.
  rewrite (Hext x (or_introl eq_refl)), IH; [reflexivity|].
  intros y Hy. apply Hext. right. exact Hy.
Qed.

Lemma sumOf_scale {A : Type} (g : A -> Q) (c : Q) (l : list A) :
  sumOf (fun x => c * g x) l == c * sumOf g l.
Proof.
  induction l as [|x l IH].
  - change (sumOf (fun x => c * g x) []) with 0. change (sumOf g []) with 0. ring.
  - rewrite !sumOf_cons, IH. ring.
Qed.

Lemma sumOf_bounds {A : Type} (g h k : A -> Q) (l : list A) :
  (forall x, In x l -> g x <= h x <= k x) ->
  sumOf g l <= sumOf h l <= sumOf k l.
Proof.
  induction l as [|x l IH]; intros Hb.
  - change (0 <= 0 <= 0). lra.
  - rewrite !sumOf_cons.
    pose proof (Hb x (or_introl eq_refl)).
    assert (sumOf g l <= sumOf h l <= sumOf k l).
    { apply IH. intros y Hy. apply Hb. right. exact Hy. }
    lra.
Qed.

Lemma productOf_permutation {A : Type} (g : A -> Q) (l l' : list A) :
  Permutation l l' -> productOf g l == productOf g l'.
Proof.
  induction 1 as [|x l l' _ IH|x y l|l l' l'' _ IH1 _ IH2].
  - reflexivity.
  - rewrite !productOf_cons, IH. reflexivity.
  - rewrite !productOf_cons. ring.
  - rewrite IH1. exact IH2.
Qed.

Lemma productOf_nonneg {A : Type} (g : A -> Q) (l : list A) :
  (forall x, In x l -> 0 <= g x) -> 0 <= productOf g l.
Proof.
  induction l as [|x l IH]; intros Hg.
  - change (0 <= 1). lra.
  - rewrite productOf_cons. apply Qmult_le_0_compat.
    + apply Hg. left. reflexivity.
    + apply IH. intros y Hy. apply Hg. right. exact Hy.
Qed.

End Totals.

Module RateFacts.

Local Open Scope Q_scope.

Lemma calculateStaffMultiplier_product (staff : list (Staff.t Q)) :
  calculateStaffMultiplier staff
  == productOf (fun s => StaffEffects.dc_generation_bonus (Staff.effects s)) staff.
Proof.
  unfold calculateStaffMultiplier. rational_ops.
  rewrite Totals.fold_left_product. change (10 # 10) with (lit (num := Q) 1.0).
  cbn [lit rational]. setoid_replace (1.0)%Q with 1%Q by reflexivity. ring.
Qed.

Lemma calculateTotalDC_sum (datasets : list (Dataset.t Q)) (staff : list (Staff.t Q)) :
  calculateTotalDC datasets staff
  == sumOf (fun d => calculateDatasetDC d (calculateStaffMultiplier staff)) datasets.
Proof.
  unfold calculateTotalDC. cbv zeta. rational_ops.
  rewrite (Totals.fold_left_sum
             (fun d => calculateDatasetDC d (calculateStaffMultiplier staff))).
  ring.
Qed.

Lemma calculateDatasetDC_scales (d : Dataset.t Q) (mult : Q) :
  calculateDatasetDC d mult == mult * calculateDatasetDC d 1.
Proof. unfold calculateDatasetDC. cbv zeta. rational_ops. field. Qed.

Lemma calculateDatasetDC_proper (d : Dataset.t Q) (m m' : Q) :
  m == m' -> calculateDatasetDC d m == calculateDatasetDC d m'.
Proof.
  intros H. rewrite (calculateDatasetDC_scales d m), (calculateDatasetDC_scales d m').
  rewrite H. reflexivity.
Qed.

End RateFacts.

Section LeftToRight.
Context {num : Type} {N : JsNumber num}.

(** The total is built from left to right, one addition per dataset. *)
Lemma calculateTotalDC_snoc (datasets : list (Dataset.t num)) (d : Dataset.t num)
      (staff : list (Staff.t num)) :
  calculateTotalDC (datasets ++ [d]) staff
  = num_add (calculateTotalDC datasets staff)
            (calculateDatasetDC d (calculateStaffMultiplier staff)).
Proof. unfold calculateTotalDC. cbv zeta. rewrite fold_left_app. reflexivity. Qed.

End LeftToRight.

(** X4. The total DC per second is 0 for no dataset and adds the datasets'
    rates from left to right, one addition per dataset (any arithmetic).
    In exact arithmetic it is additive over a concatenation of dataset
    lists and is the staff multiplier times the total without staff.  In
    double precision each addition and product is rounded and neither holds
    to the last place: for datasets of base rate 6, 12 and 18 at 100% SLA
    the total of the three is above the sum of the totals of the first and
    of the other two, and under a staff member of factor 1.2 their total is
    below 1.2 times their total without staff. *)
Theorem total_rate_is_additive_up_to_rounding :
  (forall (num : Type) (N : JsNumber num) (staff : list (Staff.t num)),
      calculateTotalDC [] staff = lit 0)
  /\ (forall (num : Type) (N : JsNumber num) (ds : list (Dataset.t num))
             (d : Dataset.t num) (staff : list (Staff.t num)),
        calculateTotalDC (ds ++ [d]) staff
        = num_add (calculateTotalDC ds staff)
                  (calculateDatasetDC d (calculateStaffMultiplier staff)))
  /\ (forall (ds ds' : list (Dataset.t Q)) (staff : list (Staff.t Q)),
        (calculateTotalDC (ds ++ ds') staff
         == calculateTotalDC ds staff + calculateTotalDC ds' staff)%Q)
  /\ (forall (ds : list (Dataset.t Q)) (staff : list (Staff.t Q)),
        (calculateTotalDC ds staff
         == calculateStaffMultiplier staff * calculateTotalDC ds [])%Q)
  /\ (let ds : list (Dataset.t float) := [ratedDataset (lit 6)] in
      let ds' : list (Dataset.t float) :=
        [ratedDataset (lit 12); ratedDataset (lit 18)] in
      num_lt (num_add (calculateTotalDC ds []) (calculateTotalDC ds' []))
             (calculateTotalDC (ds ++ ds') []) = true)
  /\ (let ds : list (Dataset.t float) :=
        [ratedDataset (lit 6); ratedDataset (lit 12); ratedDataset (lit 18)] in
      let staff : list (Staff.t float) := [booster (lit 1.2)] in
      num_lt (calculateTotalDC ds staff)
             (num_mul (calculateStaffMultiplier staff) (calculateTotalDC ds []))
      = true).
Proof.
  split; [reflexivity|]. split; [intros; apply calculateTotalDC_snoc|].
  split; [|split; [|split; vm_compute; reflexivity]].
  - intros ds ds' staff. rewrite !RateFacts.calculateTotalDC_sum.
    apply Totals.sumOf_app.
  - intros ds staff. rewrite !RateFacts.calculateTotalDC_sum.
    rewrite <- Totals.sumOf_scale. apply Totals.sumOf_ext. intros d _.
    rewrite (RateFacts.calculateDatasetDC_scales d (calculateStaffMultiplier staff)).
    rewrite (RateFacts.calculateDatasetDC_proper d (m := calculateStaffMultiplier [])
               (m' := 1%Q)); [reflexivity|].
    reflexivity.
Qed.

(** X5. In exact arithmetic the order in which the staff were hired matters
    neither to the DC multiplier nor to the incident resolution speed nor
    to the total DC per second, and the multiplier of two staff lists put
    together is the product of theirs; without staff the multiplier is 1 in
    any arithmetic.  In double precision every product is rounded and the
    order shows in the last place: the factors 1.05, 1.1 and 1.25 give a
    larger multiplier in this order than in the reverse order. *)
Theorem staff_order_matters_only_to_rounding :
  (forall (staff staff' : list (Staff.t Q)) (datasets : list (Dataset.t Q)),
      Permutation staff staff' ->
      (calculateStaffMultiplier staff == calculateStaffMultiplier staff')%Q
      /\ (resolutionSpeed staff == resolutionSpeed staff')%Q
      /\ (calculateTotalDC datasets staff == calculateTotalDC datasets staff')%Q)
  /\ (forall (num : Type) (N : JsNumber num),
        calculateStaffMultiplier (@nil (Staff.t num)) = lit 1.0)
  /\ (forall staff staff' : list (Staff.t Q),
        (calculateStaffMultiplier (staff ++ staff')
         == calculateStaffMultiplier staff * calculateStaffMultiplier staff')%Q)
  /\ (let staff : list (Staff.t float) :=
        [booster (lit 1.05); booster (lit 1.1); booster (lit 1.25)] in
      Permutation staff (rev staff)
      /\ num_lt (calculateStaffMultiplier (rev staff)) (calculateStaffMultiplier staff)
         = true).
Proof.
  split; [|split; [reflexivity|split]].
  - intros staff staff' datasets Hperm.
    assert (Hmult : (calculateStaffMultiplier staff == calculateStaffMultiplier staff')%Q).
    { rewrite !RateFacts.calculateStaffMultiplier_product.
      apply Totals.productOf_permutation. exact Hperm. }
    split; [exact Hmult|]. split.
    + rewrite !ProgressFacts.resolutionSpeed_product. unfold speedProduct.
      exact (Totals.productOf_permutation
               (fun s => StaffEffects.incident_resolution_speed (Staff.effects s)) Hperm).
    + rewrite !RateFacts.calculateTotalDC_sum. apply Totals.sumOf_ext. intros d _.
      apply RateFacts.calculateDatasetDC_proper. exact Hmult.
  - intros staff staff'. rewrite !RateFacts.calculateStaffMultiplier_product.
    apply Totals.productOf_app.
  - cbv zeta. split; [apply Permutation_rev|vm_compute; reflexivity].
Qed.

Lemma staff_order_matters_only_to_rounding_witness :
  let staff : list (Staff.t Q) := [engineer; fastEngineer] in
  let staff' : list (Staff.t Q) := [fastEngineer; engineer] in
  Permutation staff staff'
  /\ (resolutionSpeed staff == resolutionSpeed staff')%Q
  /\ (calculateTotalDC [mockDataset] staff == calculateTotalDC [mockDataset] staff')%Q.
Proof.
  assert (H : Permutation (A := Staff.t Q) [engineer; fastEngineer]
                          [fastEngineer; engineer]) by apply perm_swap.
  split; [exact H|].
  destruct (proj1 staff_order_matters_only_to_rounding _ _ [mockDataset] H)
    as (_ & Hs & Ht).
  split; [exact Hs|exact Ht].
Defined.

(** [Math.min(100, y)] is never above 100 in double precision, NaN and the
    infinities included. *)
Lemma F64_min_hundred_not_above (y : float) :
  PrimFloat.ltb (lit 100) (F64.min (lit 100) y) = false.
Proof.
  unfold F64.min. rewrite FloatAxioms.compare_spec.
  destruct (SFcompare (Prim2SF (lit 100)) (Prim2SF y)) as [c|] eqn:E;
    [|reflexivity].
  destruct c; cbn [flatten_cmp_opt]; try reflexivity.
  rewrite FloatAxioms.ltb_spec. unfold SFltb. rewrite E. reflexivity.
Qed.

(** X6. [applyPipelineEffects] appends the pipeline's id to the dataset's
    installed pipelines, leaves the stored SLA and status as they were, and
    raises each metric by the pipeline's effect, capped at 100: no metric
    leaves it above 100, in exact arithmetic and in double precision (NaN
    and the infinities included), and a raise that stays at or below 100 is
    applied in full. *)
Theorem pipeline_is_appended_and_metrics_capped :
  (forall (num : Type) (N : JsNumber num) (d : Dataset.t num) (p : Pipeline.t num),
      Dataset.pipelines_installed (applyPipelineEffects d p)
      = Dataset.pipelines_installed d ++ [Pipeline.id p]
      /\ Dataset.id (applyPipelineEffects d p) = Dataset.id d
      /\ Dataset.base_dc (applyPipelineEffects d p) = Dataset.base_dc d
      /\ Dataset.sla_targets (applyPipelineEffects d p) = Dataset.sla_targets d
      /\ Dataset.currentSLA (applyPipelineEffects d p) = Dataset.currentSLA d
      /\ Dataset.status (applyPipelineEffects d p) = Dataset.status d)
  /\ (forall (d : Dataset.t Q) (p : Pipeline.t Q),
        let before := Dataset.current_metrics d in
        let after := Dataset.current_metrics (applyPipelineEffects d p) in
        (Metrics.T after <= 100 /\ Metrics.A after <= 100 /\ Metrics.C after <= 100)%Q
        /\ ((Metrics.T before + PipelineEffects.T (Pipeline.effects p) <= 100)%Q ->
            (Metrics.T after == Metrics.T before + PipelineEffects.T (Pipeline.effects p))%Q)
        /\ ((Metrics.A before + PipelineEffects.A (Pipeline.effects p) <= 100)%Q ->
            (Metrics.A after == Metrics.A before + PipelineEffects.A (Pipeline.effects p))%Q)
        /\ ((Metrics.C before + PipelineEffects.C (Pipeline.effects p) <= 100)%Q ->
            (Metrics.C after == Metrics.C before + PipelineEffects.C (Pipeline.effects p))%Q))
  /\ (forall (d : Dataset.t float) (p : Pipeline.t float),
        let after := Dataset.current_metrics (applyPipelineEffects d p) in
        num_lt (lit 100) (Metrics.T after) = false
        /\ num_lt (lit 100) (Metrics.A after) = false
        /\ num_lt (lit 100) (Metrics.C after) = false).
Proof.
  split; [|split].
  - intros num N d p. repeat split.
  - intros d p before after. subst before after. unfold applyPipelineEffects.
    cbn [Dataset.current_metrics Metrics.T Metrics.A Metrics.C]. rational_ops.
    minmax_cases. repeat split; try intros H; lra.
  - intros d p after. subst after. unfold applyPipelineEffects.
    cbn [Dataset.current_metrics Metrics.T Metrics.A Metrics.C num_lt Math_min
         num_add binary64].
    repeat split; apply F64_min_hundred_not_above.
Qed.

Lemma pipeline_is_appended_and_metrics_capped_witness :
  let d : Dataset.t Q :=
    Dataset.with_current_metrics mockDataset (Metrics.mk 80 70 60)%Q in
  (80 + 10 <= 100)%Q
  /\ (Metrics.T (Dataset.current_metrics (applyPipelineEffects d mockPipeline)) == 80 + 10)%Q.
Proof.
  assert (H : (80 + 10 <= 100)%Q) by closed_Qle.
  split; [exact H|].
  destruct pipeline_is_appended_and_metrics_capped as (_ & Hq & _).
  destruct (Hq (Dataset.with_current_metrics mockDataset (Metrics.mk 80 70 60)%Q)
               mockPipeline) as (_ & HT & _).
  exact (HT H).
Defined.

Module DecayFacts.

Local Open Scope Q_scope.

Lemma num_of_nat_succ (n : nat) :
  num_of_nat (num := Q) (S n) == num_of_nat n + 1.
Proof.
  unfold num_of_nat. cbn [lit rational]. rewrite Nat2Z.inj_succ.
  unfold Z.succ. rewrite inject_Z_plus. reflexivity.
Qed.

Lemma rational_of_nat_nonneg (n : nat) : 0 <= num_of_nat (num := Q) n.
Proof.
  unfold num_of_nat. cbn [lit rational]. change 0 with (inject_Z 0).
  rewrite <- Zle_Qle. lia.
Qed.

Lemma num_of_nat_le (n m : nat) :
  (n <= m)%nat -> num_of_nat (num := Q) n <= num_of_nat m.
Proof.
  intros H. unfold num_of_nat. cbn [lit rational]. rewrite <- Zle_Qle. lia.
Qed.

Lemma effectiveDecayRate_value (d : Dataset.t Q) :
  effectiveDecayRate d
  == Qmax 0.01 (0.1 - num_of_nat (List.length (Dataset.pipelines_installed d)) * 0.01).
Proof. unfold effectiveDecayRate, BASE_DECAY_RATE. rational_ops. reflexivity. Qed.

End DecayFacts.

Section DecayRange.
Context {num : Type} {N : JsNumber num} {R : JsRange num}.

(** The decay rate lies between the floor and the base rate. *)
Lemma effectiveDecayRate_within (d : Dataset.t num) :
  num_le (lit 0.01) (effectiveDecayRate d) /\ num_le (effectiveDecayRate d) (lit 0.1).
Proof.
  unfold effectiveDecayRate, BASE_DECAY_RATE. cbv zeta.
  set (n := num_of_nat (List.length (Dataset.pipelines_installed d))).
  assert (Hred : num_le (lit 0) (num_mul n (lit 0.01))).
  { apply num_mul_nonneg; [apply num_of_nat_nonneg| |].
    - apply lit_lt; [literal_in|literal_in|reflexivity].
    - apply lit_le; [literal_in|literal_in|closed_Qle]. }
  assert (Hsub : num_le (num_sub (lit 0.1) (num_mul n (lit 0.01))) (lit 0.1)).
  { apply num_sub_nonneg; [| |exact Hred];
      apply lit_le; [literal_in|literal_in|closed_Qle|literal_in|literal_in|closed_Qle]. }
  assert (Hfloor : num_le (num := num) (lit 0.01) (lit 0.1))
    by (apply lit_le; [literal_in|literal_in|closed_Qle]).
  destruct (Math_max_cases (num_le_number_l Hfloor) (num_le_number_l Hsub))
    as [[-> _]|[-> Hle]].
  - split; [exact (num_le_number_l Hfloor)|exact Hfloor].
  - split; [exact Hle|exact Hsub].
Qed.

End DecayRange.

Module DecaySteps.

Import Binary64Facts Binary64Steps.

Lemma length_after_pipeline {num : Type} {N : JsNumber num}
      (d : Dataset.t num) (p : Pipeline.t num) :
  List.length (Dataset.pipelines_installed (applyPipelineEffects d p))
  = S (List.length (Dataset.pipelines_installed d)).
Proof.
  cbn [applyPipelineEffects Dataset.pipelines_installed].
  rewrite length_app. cbn [List.length]. lia.
Qed.

(** In double precision one pipeline more never raises the rate. *)
Lemma effectiveDecayRate_step (d : Dataset.t float) (p : Pipeline.t float) :
  num_le (effectiveDecayRate (applyPipelineEffects d p)) (effectiveDecayRate d).
Proof.
  pose proof (length_after_pipeline d p) as Hlen.
  destruct (Nat.le_gt_cases 10 (List.length (Dataset.pipelines_installed d))) as [H|H].
  - rewrite !effectiveDecayRate_floor by lia. vm_compute. reflexivity.
  - unfold effectiveDecayRate at 1 2. cbv zeta. rewrite Hlen.
    set (n := List.length (Dataset.pipelines_installed d)) in *. clearbody n.
    do 10 (destruct n as [|n]; [vm_compute; reflexivity|]). lia.
Qed.

End DecaySteps.

(** X7. Installing a pipeline never raises the decay rate of the dataset.
    The rate depends on the number of installed pipelines alone, not on the
    pipeline installed (its [decay_reduction] is not read); it always lies
    between the floor 0.01 and the base rate 0.1, and from ten installed
    pipelines on it is the floor.  In exact arithmetic and in double
    precision; the bounds in any arithmetic with the range laws.  With nine
    pipelines the two arithmetics part: the rate is the floor in exact
    arithmetic and strictly above it in double precision. *)
Theorem installing_a_pipeline_slows_decay :
  (forall (num : Type) (N : JsNumber num) (d : Dataset.t num) (p p' : Pipeline.t num),
      effectiveDecayRate (applyPipelineEffects d p')
      = effectiveDecayRate (applyPipelineEffects d p))
  /\ (forall (num : Type) (N : JsNumber num) (R : JsRange num) (d : Dataset.t num),
        num_le (lit 0.01) (effectiveDecayRate d)
        /\ num_le (effectiveDecayRate d) (lit 0.1))
  /\ (forall (d : Dataset.t Q) (p : Pipeline.t Q),
        (effectiveDecayRate (applyPipelineEffects d p) <= effectiveDecayRate d)%Q)
  /\ (forall (d : Dataset.t float) (p : Pipeline.t float),
        num_le (effectiveDecayRate (applyPipelineEffects d p)) (effectiveDecayRate d))
  /\ (forall d : Dataset.t Q,
        (9 <= List.length (Dataset.pipelines_installed d))%nat ->
        (effectiveDecayRate d == 0.01)%Q)
  /\ (forall d : Dataset.t float,
        (10 <= List.length (Dataset.pipelines_installed d))%nat ->
        effectiveDecayRate d = lit 0.01)
  /\ (forall d : Dataset.t float,
        List.length (Dataset.pipelines_installed d) = 9%nat ->
        num_lt (lit 0.01) (effectiveDecayRate d) = true).
Proof.
  split; [|split; [|split; [|split; [|split; [|split]]]]].
  - intros num N d p p'. unfold effectiveDecayRate. cbv zeta.
    rewrite !DecaySteps.length_after_pipeline. reflexivity.
  - intros num N R d. apply effectiveDecayRate_within.
  - intros d p.
    pose proof (DecayFacts.effectiveDecayRate_value d) as Hd.
    pose proof (DecayFacts.effectiveDecayRate_value (applyPipelineEffects d p)) as Hp.
    rewrite DecaySteps.length_after_pipeline, DecayFacts.num_of_nat_succ in Hp.
    rewrite Hp, Hd. minmax_cases. lra.
  - exact DecaySteps.effectiveDecayRate_step.
  - intros d H9. rewrite (DecayFacts.effectiveDecayRate_value d).
    pose proof (DecayFacts.num_of_nat_le H9) as Hle.
    change (num_of_nat (num := Q) 9) with 9%Q in Hle.
    minmax_cases. lra.
  - exact Binary64Steps.effectiveDecayRate_floor.
  - intros d H9. unfold effectiveDecayRate. cbv zeta. rewrite H9.
    vm_compute. reflexivity.
Qed.

(** X8. The chance of an incident on a dataset is always between 0.1% and
    10% per tick, whatever the dataset and the base chance, and is the
    0.1% floor when the dataset's SLA is 100: a dataset at its best still
    draws incidents (exact arithmetic). *)
Theorem incident_chance_is_between_floor_and_cap :
  forall (d : Dataset.t Q) (baseChance : Q),
    (0.001 <= calculateIncidentChance d baseChance <= 0.1)%Q
    /\ ((calculateSLA (Dataset.current_metrics d) == 100)%Q ->
        (calculateIncidentChance d baseChance == 0.001)%Q).
Proof. exact BoundFacts.calculateIncidentChance_bounds. Qed.

Lemma incident_chance_is_between_floor_and_cap_witness :
  (calculateSLA (Dataset.current_metrics (num := Q) mockDataset) == 100)%Q
  /\ (calculateIncidentChance (num := Q) mockDataset 0.003 == 0.001)%Q.
Proof.
  assert (H : (calculateSLA (Dataset.current_metrics (num := Q) mockDataset) == 100)%Q)
    by reflexivity.
  split; [exact H|].
  exact (proj2 (@incident_chance_is_between_floor_and_cap mockDataset 0.003%Q) H).
Defined.

Module GlobalFacts.

Local Open Scope Q_scope.

Lemma sumOf_const {A : Type} (c : Q) (l : list A) :
  sumOf (fun _ => c) l == c * num_of_nat (List.length l).
Proof.
  induction l as [|x l IH].
  - change (0 == c * 0). ring.
  - rewrite Totals.sumOf_cons, IH. cbn [List.length].
    rewrite DecayFacts.num_of_nat_succ. ring.
Qed.

Lemma totalSLA_sum (datasets : list (Dataset.t Q)) :
  fold_left (fun sum dataset => num_add sum (calculateSLA (Dataset.current_metrics dataset)))
            datasets (lit 0)
  == sumOf (fun d => calculateSLA (Dataset.current_metrics d)) datasets.
Proof.
  rational_ops.
  rewrite (Totals.fold_left_sum (fun d => calculateSLA (Dataset.current_metrics d))).
  ring.
Qed.

End GlobalFacts.

(** X9. The global SLA is 100 for no dataset, the SLA of the dataset for
    one, and in general the mean of the datasets' SLAs, which lies in
    [[0, 100]] whatever their metrics (exact arithmetic). *)
Theorem global_sla_is_a_mean_in_range :
  calculateGlobalSLA (@nil (Dataset.t Q)) = 100%Q
  /\ (forall d : Dataset.t Q,
        (calculateGlobalSLA [d] == calculateSLA (Dataset.current_metrics d))%Q)
  /\ (forall datasets : list (Dataset.t Q),
        (0 <= calculateGlobalSLA datasets <= 100)%Q)
  /\ (forall (d : Dataset.t Q) (datasets : list (Dataset.t Q)),
        (calculateGlobalSLA (d :: datasets) * num_of_nat (S (List.length datasets))
         == sumOf (fun x => calculateSLA (Dataset.current_metrics x)) (d :: datasets))%Q).
Proof.
  assert (Hmean : forall (d : Dataset.t Q) (datasets : list (Dataset.t Q)),
             (calculateGlobalSLA (d :: datasets) * num_of_nat (S (List.length datasets))
              == sumOf (fun x => calculateSLA (Dataset.current_metrics x))
                       (d :: datasets))%Q).
  { intros d datasets. unfold calculateGlobalSLA.
    cbn [List.length Nat.eqb]. cbv zeta.
    rewrite GlobalFacts.totalSLA_sum. cbn [num_div rational].
    pose proof (DecayFacts.rational_of_nat_nonneg (List.length datasets)) as Hn.
    pose proof (DecayFacts.num_of_nat_succ (List.length datasets)) as Hs.
    field. lra. }
  split; [reflexivity|]. split; [|split; [|exact Hmean]].
  - intros d. pose proof (Hmean d []) as H.
    change (num_of_nat (num := Q) (S (List.length (@nil (Dataset.t Q))))) with 1%Q in H.
    rewrite Totals.sumOf_cons in H. change (sumOf _ []) with 0%Q in H. lra.
  - intros [|d datasets]; [cbn; lra|].
    pose proof (Hmean d datasets) as H.
    pose proof (Totals.sumOf_bounds
                  (fun _ => 0%Q) (fun x => calculateSLA (Dataset.current_metrics x))
                  (fun _ => 100%Q) (d :: datasets)
                  (fun x _ => FormulaFacts.calculateSLA_bounds (Dataset.current_metrics x)))
      as [Hlo Hhi].
    rewrite GlobalFacts.sumOf_const in Hlo, Hhi. cbn [List.length] in Hlo, Hhi.
    pose proof (DecayFacts.rational_of_nat_nonneg (List.length datasets)) as Hn.
    pose proof (DecayFacts.num_of_nat_succ (List.length datasets)) as Hs.
    set (n := num_of_nat (S (List.length datasets))) in *.
    assert (Hpos : (0 < n)%Q) by lra.
    set (g := calculateGlobalSLA (d :: datasets)) in *.
    rewrite <- H in Hlo, Hhi. clearbody g n.
    split.
    + apply Qnot_lt_le. intros Hneg.
      assert ((g * n < 0)%Q).
      { setoid_replace (g * n)%Q with (- ((- g) * n))%Q by ring.
        assert ((0 < (- g) * n)%Q) by (apply Qmult_lt_0_compat; lra). lra. }
      lra.
    + apply Qnot_lt_le. intros Hbig.
      assert ((0 < (g - 100) * n)%Q) by (apply Qmult_lt_0_compat; lra).
      assert (((g - 100) * n == g * n - 100 * n)%Q) by ring. lra.
Qed.

(** ** The tick: what it keeps of the datasets *)

Section TickFrame.
Context {num : Type} {N : JsNumber num}.

Lemma staticPart_applyMetricDecay (d : Dataset.t num) (r : num) :
  staticPart (applyMetricDecay d r) = staticPart d.
Proof. reflexivity. Qed.

Lemma staticPart_applyStaffBonuses (d : Dataset.t num) (staff : list (Staff.t num)) :
  staticPart (applyStaffBonuses d staff) = staticPart d.
Proof. reflexivity. Qed.

Lemma staticPart_decayAndBonus (staff : list (Staff.t num)) (d : Dataset.t num) :
  staticPart (decayAndBonus staff d) = staticPart d.
Proof.
  unfold decayAndBonus. destruct (Nat.ltb 0 (List.length staff)); reflexivity.
Qed.

Lemma staticPart_applyIncidentPenalties (l : list (Incident.t num)) (d : Dataset.t num) :
  staticPart (applyIncidentPenalties l d) = staticPart d.
Proof.
  unfold applyIncidentPenalties. destruct (Nat.eqb _ 0); reflexivity.
Qed.

Lemma staticPart_refreshSLA (d : Dataset.t num) :
  staticPart (refreshSLA d) = staticPart d.
Proof. reflexivity. Qed.

Lemma tickDatasets_shape (state : Snapshot.t num) :
  tickDatasets state
  = map (fun d => refreshSLA
                    (applyIncidentPenalties (tickIncidents state)
                       (decayAndBonus (Snapshot.staff state) d)))
        (Snapshot.datasets state).
Proof.
  unfold tickDatasets, tickIncidents, processIncidents. cbn [fst snd].
  rewrite !map_map. reflexivity.
Qed.

Lemma tickDatasets_staticPart (state : Snapshot.t num) :
  map staticPart (tickDatasets state) = map staticPart (Snapshot.datasets state).
Proof.
  rewrite tickDatasets_shape, map_map. apply map_ext. intros d.
  rewrite staticPart_refreshSLA, staticPart_applyIncidentPenalties.
  apply staticPart_decayAndBonus.
Qed.

Lemma processTick_newIncidents (state : Snapshot.t num) (w : World.t num) :
  Snapshot.currentEvent state = None ->
  TickResult.newIncidents (fst (processTick state w))
  = fst (rollIncidents (tickDatasets state) [] (skipPerf 7 w)).
Proof.
  intros Hev. unfold processTick, tickDatasets, bind, ret, performance_now.
  rewrite Hev. cbn [fst snd].
  destruct (processIncidents _ _ _) as [ds is_]. cbn [fst snd World.random World.date
    World.perf World.render_incident_id].
  unfold skipPerf. cbn [Nat.add].
  match goal with |- context [rollIncidents ?l ?acc ?w'] =>
    destruct (rollIncidents l acc w') as [inc w''] end.
  reflexivity.
Qed.

End TickFrame.

(** X10. A tick keeps the datasets in number and in order, and changes of a
    dataset only its current metrics, its stored SLA and its status: the
    id, name, description, base rate, volume, risk rating, SLA targets,
    installed pipelines and unlock requirement of each dataset of the
    result are those of the dataset at the same place in the snapshot,
    under a blocking event or not, in any arithmetic. *)
Theorem tick_changes_only_metrics_sla_and_status :
  forall (num : Type) (N : JsNumber num) (state : Snapshot.t num) (w : World.t num),
    map staticPart (TickResult.updatedDatasets (fst (processTick state w)))
    = map staticPart (Snapshot.datasets state)
    /\ List.length (TickResult.updatedDatasets (fst (processTick state w)))
       = List.length (Snapshot.datasets state).
Proof.
  intros num N state w.
  assert (H : map staticPart (TickResult.updatedDatasets (fst (processTick state w)))
              = map staticPart (Snapshot.datasets state)).
  { destruct (Snapshot.currentEvent state) as [e|] eqn:Hev.
    - rewrite (processTick_paused state w Hev). reflexivity.
    - destruct (processTick_active state w Hev) as (_ & Hupd & _).
      rewrite Hupd. apply tickDatasets_staticPart. }
  split; [exact H|].
  rewrite <- (length_map staticPart), H. apply length_map.
Qed.

(** X11. After an active tick the stored SLA and status of every dataset of
    the result are those its current metrics give, and the DC generated is
    the total rate of the datasets of the result, the rate after this
    tick's decay, bonuses and incident penalties (any arithmetic). *)
Theorem tick_result_is_consistent :
  forall (num : Type) (N : JsNumber num) (state : Snapshot.t num) (w : World.t num),
    Snapshot.currentEvent state = None ->
    let r := fst (processTick state w) in
    Forall (fun d => Dataset.currentSLA d = calculateSLA (Dataset.current_metrics d)
                     /\ Dataset.status d = calculateDatasetStatus d)
           (TickResult.updatedDatasets r)
    /\ TickResult.dcGenerated r
       = calculateTotalDC (TickResult.updatedDatasets r) (Snapshot.staff state).
Proof.
  intros num N state w Hev r.
  destruct (processTick_active state w Hev) as (Hdc & Hupd & _).
  subst r. rewrite Hdc, Hupd. split; [|reflexivity].
  unfold tickDatasets. apply Forall_forall. intros d Hd.
  apply in_map_iff in Hd. destruct Hd as (d0 & <- & _).
  split; reflexivity.
Qed.

Lemma tick_result_is_consistent_witness :
  let state := activeSnapshot (num := float) [mockDataset] [engineer] [justStarted] in
  let r := fst (processTick state (constantWorld (lit 0.5))) in
  Snapshot.currentEvent state = None
  /\ Forall (fun d => Dataset.currentSLA d = calculateSLA (Dataset.current_metrics d)
                      /\ Dataset.status d = calculateDatasetStatus d)
            (TickResult.updatedDatasets r)
  /\ TickResult.dcGenerated r
     = calculateTotalDC (TickResult.updatedDatasets r) (Snapshot.staff state).
Proof.
  split; [reflexivity|].
  exact (@tick_result_is_consistent float binary64
           (activeSnapshot [mockDataset] [engineer] [justStarted])
           (constantWorld (lit 0.5)) eq_refl).
Defined.

Module TickRateFacts.

Local Open Scope Q_scope.

Lemma sumOf_map {A B : Type} (g : B -> Q) (f : A -> B) (l : list A) :
  sumOf g (map f l) = sumOf (fun x => g (f x)) l.
Proof.
  induction l as [|x l IH]; [reflexivity|].
  cbn [map]. rewrite !Totals.sumOf_cons, IH. reflexivity.
Qed.

Lemma nominalRate_sum (datasets : list (Dataset.t Q)) (staff : list (Staff.t Q)) :
  nominalRate datasets staff
  == sumOf (fun d => Dataset.base_dc d * calculateStaffMultiplier staff / 60) datasets.
Proof.
  unfold nominalRate. rational_ops.
  rewrite (Totals.fold_left_sum
             (fun d => Dataset.base_dc d * calculateStaffMultiplier staff / 60)).
  ring.
Qed.

Lemma staffMultiplier_nonneg (staff : list (Staff.t Q)) :
  Forall (fun s => 0 <= StaffEffects.dc_generation_bonus (Staff.effects s)) staff ->
  0 <= calculateStaffMultiplier staff.
Proof.
  intros H. rewrite RateFacts.calculateStaffMultiplier_product.
  apply Totals.productOf_nonneg. apply Forall_forall. exact H.
Qed.

Lemma base_dc_of_staticPart (d d' : Dataset.t Q) :
  staticPart d = staticPart d' -> Dataset.base_dc d = Dataset.base_dc d'.
Proof. unfold staticPart. intros H. injection H. intros. assumption. Qed.

(** The total rate of datasets with base rates and a multiplier that are
    not negative lies between 0 and their rate at 100% SLA. *)
Lemma calculateTotalDC_bounds (datasets : list (Dataset.t Q)) (staff : list (Staff.t Q)) :
  Forall (fun d => 0 <= Dataset.base_dc d) datasets ->
  Forall (fun s => 0 <= StaffEffects.dc_generation_bonus (Staff.effects s)) staff ->
  0 <= calculateTotalDC datasets staff <= nominalRate datasets staff.
Proof.
  intros Hb Hs. rewrite RateFacts.calculateTotalDC_sum, nominalRate_sum.
  pose proof (staffMultiplier_nonneg Hs) as Hm.
  pose proof (Totals.sumOf_bounds
                (fun _ => 0)
                (fun d => calculateDatasetDC d (calculateStaffMultiplier staff))
                (fun d => Dataset.base_dc d * calculateStaffMultiplier staff / 60)
                datasets) as H.
  assert (Hz : sumOf (fun _ : Dataset.t Q => 0) datasets == 0).
  { rewrite GlobalFacts.sumOf_const. ring. }
  rewrite Hz in H. apply H. intros d Hd.
  rewrite Forall_forall in Hb.
  exact (proj1 (@BoundFacts.calculateDatasetDC_nominal d _ (Hb d Hd) Hm)).
Qed.

Lemma nominalRate_tickDatasets (state : Snapshot.t Q) (staff : list (Staff.t Q)) :
  nominalRate (tickDatasets state) staff == nominalRate (Snapshot.datasets state) staff.
Proof.
  rewrite !nominalRate_sum.
  pose proof (tickDatasets_staticPart state) as H.
  revert H. generalize (tickDatasets state) as l'. generalize (Snapshot.datasets state) as l.
  induction l as [|d l IH]; intros [|d' l'] H; cbn [map] in H; try discriminate H.
  - reflexivity.
  - pose proof (f_equal (hd (staticPart d)) H) as Hd.
    pose proof (f_equal (@tl _) H) as Hl. cbn [hd tl] in Hd, Hl.
    rewrite !Totals.sumOf_cons.
    rewrite (base_dc_of_staticPart Hd), (IH l' Hl). reflexivity.
Qed.

Lemma tickDatasets_base_dc (state : Snapshot.t Q) :
  Forall (fun d => 0 <= Dataset.base_dc d) (Snapshot.datasets state) ->
  Forall (fun d => 0 <= Dataset.base_dc d) (tickDatasets state).
Proof.
  intros H. rewrite tickDatasets_shape. apply Forall_forall. intros d' Hd'.
  apply in_map_iff in Hd'. destruct Hd' as (d & <- & Hd).
  rewrite Forall_forall in H. specialize (H d Hd).
  assert (E : Dataset.base_dc
                (refreshSLA (applyIncidentPenalties (tickIncidents state)
                               (decayAndBonus (Snapshot.staff state) d)))
              = Dataset.base_dc d).
  { apply base_dc_of_staticPart.
    rewrite staticPart_refreshSLA, staticPart_applyIncidentPenalties.
    apply staticPart_decayAndBonus. }
  rewrite E. exact H.
Qed.

End TickRateFacts.

(** X12. With base rates and staff DC bonuses that are not negative, an
    active tick generates no less than 0 and no more than the datasets' rate
    at 100% SLA, the sum of [base_dc * staff multiplier / 60] (exact
    arithmetic). *)
Theorem tick_generates_at_most_the_nominal_rate :
  forall (state : Snapshot.t Q) (w : World.t Q),
    Snapshot.currentEvent state = None ->
    Forall (fun d => (0 <= Dataset.base_dc d)%Q) (Snapshot.datasets state) ->
    Forall (fun s => (0 <= StaffEffects.dc_generation_bonus (Staff.effects s))%Q)
           (Snapshot.staff state) ->
    (0 <= TickResult.dcGenerated (fst (processTick state w))
     <= nominalRate (Snapshot.datasets state) (Snapshot.staff state))%Q.
Proof.
  intros state w Hev Hb Hs.
  destruct (processTick_active state w Hev) as (Hdc & _). rewrite Hdc.
  rewrite <- (TickRateFacts.nominalRate_tickDatasets state (Snapshot.staff state)).
  apply TickRateFacts.calculateTotalDC_bounds; [|exact Hs].
  apply TickRateFacts.tickDatasets_base_dc. exact Hb.
Qed.

Lemma tick_generates_at_most_the_nominal_rate_witness :
  let state := activeSnapshot (num := Q) [mockDataset] [engineer] [justStarted] in
  (Snapshot.currentEvent state = None
   /\ Forall (fun d => (0 <= Dataset.base_dc d)%Q) (Snapshot.datasets state)
   /\ Forall (fun s => (0 <= StaffEffects.dc_generation_bonus (Staff.effects s))%Q)
             (Snapshot.staff state))
  /\ (0 <= TickResult.dcGenerated (fst (processTick state (constantWorld (lit 0.5))))
      <= nominalRate (Snapshot.datasets state) (Snapshot.staff state))%Q.
Proof.
  assert (Hb : Forall (fun d : Dataset.t Q => (0 <= Dataset.base_dc d)%Q) [mockDataset]).
  { repeat constructor. closed_Qle. }
  assert (Hs : Forall (fun s : Staff.t Q =>
                         (0 <= StaffEffects.dc_generation_bonus (Staff.effects s))%Q)
                      [engineer]).
  { repeat constructor. closed_Qle. }
  split; [split; [reflexivity|split; [exact Hb|exact Hs]]|].
  exact (@tick_generates_at_most_the_nominal_rate
           (activeSnapshot [mockDataset] [engineer] [justStarted])
           (constantWorld (lit 0.5)) eq_refl Hb Hs).
Defined.

(** ** Incident penalties fall on the targeted dataset alone *)

Section Penalties.
Context {num : Type} {N : JsNumber num}.

Lemma applyIncidentPenalties_untargeted (l : list (Incident.t num)) (d : Dataset.t num) :
  (forall i, In i l -> Incident.dataset_id i <> Dataset.id d) ->
  applyIncidentPenalties l d = d.
Proof.
  intros H. unfold applyIncidentPenalties.
  assert (E : filter (fun incident =>
                        String.eqb (Incident.dataset_id incident) (Dataset.id d)) l = []).
  { induction l as [|i l IH]; [reflexivity|]. cbn [filter].
    destruct (String.eqb (Incident.dataset_id i) (Dataset.id d)) eqn:Eq.
    - apply String.eqb_eq in Eq. exfalso. exact (H i (or_introl eq_refl) Eq).
    - apply IH. intros j Hj. apply H. right. exact Hj. }
  rewrite E. reflexivity.
Qed.

End Penalties.

(** X13. The penalties of the incidents fall on the dataset each one names,
    and on no other: in an active tick a dataset that no surviving incident
    names by [dataset_id] leaves the tick decayed, raised by the staff
    bonuses and refreshed, and nothing else (any arithmetic). *)
Theorem penalties_fall_on_the_named_dataset :
  forall (num : Type) (N : JsNumber num) (state : Snapshot.t num) (w : World.t num),
    Snapshot.currentEvent state = None ->
    let r := fst (processTick state w) in
    Forall2
      (fun d d' =>
         (forall i, In i (TickResult.updatedIncidents r) ->
                    Incident.dataset_id i <> Dataset.id d) ->
         d' = refreshSLA (decayAndBonus (Snapshot.staff state) d))
      (Snapshot.datasets state) (TickResult.updatedDatasets r).
Proof.
  intros num N state w Hev r.
  destruct (processTick_active state w Hev) as (_ & Hupd & Hinc & _).
  subst r. rewrite Hupd, Hinc, tickDatasets_shape.
  induction (Snapshot.datasets state) as [|d l IH]; cbn [map]; constructor.
  - intros H. rewrite applyIncidentPenalties_untargeted; [reflexivity|].
    intros i Hi.
    assert (E : Dataset.id (decayAndBonus (Snapshot.staff state) d) = Dataset.id d).
    { unfold decayAndBonus. destruct (Nat.ltb 0 _); reflexivity. }
    rewrite E. exact (H i Hi).
  - exact IH.
Qed.

Lemma penalties_fall_on_the_named_dataset_witness :
  let state := activeSnapshot (num := Q) [mockDataset; otherDataset] [] [justStarted] in
  let r := fst (processTick state (constantWorld (lit 0.5))) in
  Snapshot.currentEvent state = None
  /\ Forall2
       (fun d d' =>
          (forall i, In i (TickResult.updatedIncidents r) ->
                     Incident.dataset_id i <> Dataset.id d) ->
          d' = refreshSLA (decayAndBonus (Snapshot.staff state) d))
       (Snapshot.datasets state) (TickResult.updatedDatasets r).
Proof.
  split; [reflexivity|].
  exact (@penalties_fall_on_the_named_dataset Q rational
           (activeSnapshot [mockDataset; otherDataset] [] [justStarted])
           (constantWorld (lit 0.5)) eq_refl).
Defined.

(** ** The incidents a tick spawns *)

Section Spawning.
Context {num : Type} {N : JsNumber num}.

Lemma createIncident_spawnedFrom (d : Dataset.t num) (w : World.t num) :
  spawnedFrom d
    (templateAt d (Math_floor (num_mul (World.random w 0)
                                       (num_of_nat (List.length (incidentTypes d))))))
    (fst (createIncident d w)).
Proof. reflexivity. Qed.

Lemma createIncident_random (d : Dataset.t num) (w : World.t num) (n : nat) :
  World.random (snd (createIncident d w)) n = World.random w (2 + n).
Proof. reflexivity. Qed.

Lemma createIncident_draws (P : num -> Prop) (d : Dataset.t num) (w : World.t num) :
  draws P w -> draws P (snd (createIncident d w)).
Proof. intros H n. rewrite createIncident_random. apply H. Qed.

Lemma Math_random_draws (P : num -> Prop) (w : World.t num) :
  draws P w -> draws P (snd (Math_random w)).
Proof. intros H n. exact (H (S n)). Qed.

Lemma rollIncidents_step (d : Dataset.t num) (rest : list (Dataset.t num))
      (acc : list (Incident.t num)) (w : World.t num) :
  rollIncidents (d :: rest) acc w
  = if num_lt (World.random w 0) (calculateIncidentChance d (lit 0.003))
    then rollIncidents rest
           (acc ++ [fst (createIncident d (snd (Math_random w)))])
           (snd (createIncident d (snd (Math_random w))))
    else rollIncidents rest acc (snd (Math_random w)).
Proof.
  cbn [rollIncidents]. unfold bind at 1. cbn [Math_random fst snd].
  destruct (num_lt _ _); [|reflexivity].
  unfold bind at 1.
  destruct (createIncident d _) as [i w']. reflexivity.
Qed.

(** Whatever is true of the incidents pushed so far, and of each incident
    created for a dataset of the list, is true of all the incidents the
    roll returns. *)
Lemma rollIncidents_invariant (P : num -> Prop) (I : Incident.t num -> Prop)
      (datasets : list (Dataset.t num)) :
  (forall d w, In d datasets -> draws P w -> I (fst (createIncident d w))) ->
  forall (acc : list (Incident.t num)) (w : World.t num),
    draws P w -> Forall I acc ->
    Forall I (fst (rollIncidents datasets acc w)).
Proof.
  induction datasets as [|d rest IH]; intros Hnew acc w Hw Hacc; [exact Hacc|].
  rewrite rollIncidents_step.
  destruct (num_lt _ _).
  - apply IH.
    + intros d' w' Hd'. apply Hnew. right. exact Hd'.
    + apply createIncident_draws, Math_random_draws. exact Hw.
    + apply Forall_app. split; [exact Hacc|]. constructor; [|constructor].
      apply Hnew; [left; reflexivity|]. apply Math_random_draws. exact Hw.
  - apply IH.
    + intros d' w' Hd'. apply Hnew. right. exact Hd'.
    + apply Math_random_draws. exact Hw.
    + exact Hacc.
Qed.

Lemma rollIncidents_length (datasets : list (Dataset.t num)) :
  forall (acc : list (Incident.t num)) (w : World.t num),
    (List.length (fst (rollIncidents datasets acc w))
     <= List.length acc + List.length datasets)%nat.
Proof.
  induction datasets as [|d rest IH]; intros acc w.
  - cbn. lia.
  - rewrite rollIncidents_step. destruct (num_lt _ _).
    + etransitivity; [apply IH|]. rewrite length_app. cbn [List.length]. lia.
    + etransitivity; [apply IH|]. cbn [List.length]. lia.
Qed.

End Spawning.

Section OnePerDataset.
Context {num : Type} {N : JsNumber num}.

Lemma onePerDataset_none (datasets : list (Dataset.t num)) :
  onePerDataset datasets [].
Proof.
  induction datasets as [|d rest IH]; [constructor|].
  apply onePerDataset_skip. exact IH.
Qed.

Lemma onePerDataset_length (datasets : list (Dataset.t num))
      (incidents : list (Incident.t num)) :
  onePerDataset datasets incidents ->
  (List.length incidents <= List.length datasets)%nat.
Proof. intros H. induction H; cbn [List.length]; lia. Qed.

(** The roll appends to what it was given at most one new incident for each
    dataset. *)
Lemma rollIncidents_onePerDataset (datasets : list (Dataset.t num)) :
  forall (acc : list (Incident.t num)) (w : World.t num),
  exists new : list (Incident.t num),
    fst (rollIncidents datasets acc w) = acc ++ new
    /\ onePerDataset datasets new.
Proof.
  induction datasets as [|d rest IH]; intros acc w.
  - exists []. split; [cbn; rewrite app_nil_r; reflexivity|constructor].
  - rewrite rollIncidents_step. destruct (num_lt _ _).
    + destruct (IH (acc ++ [fst (createIncident d (snd (Math_random w)))])
                   (snd (createIncident d (snd (Math_random w))))) as (new & Hnew & Hone).
      exists (fst (createIncident d (snd (Math_random w))) :: new).
      split; [rewrite Hnew, <- app_assoc; reflexivity|].
      apply onePerDataset_spawn; [reflexivity|reflexivity|exact Hone].
    + destruct (IH acc (snd (Math_random w))) as (new & Hnew & Hone).
      exists new. split; [exact Hnew|]. apply onePerDataset_skip. exact Hone.
Qed.

End OnePerDataset.

Module CatalogFacts.

(** With a draw in [[0, 1)] the template is read from the catalog, at an
    index the array has: [templateAt] does not reach its fallback.  In
    exact arithmetic and in double precision. *)
Lemma catalog_read_rational (d : Dataset.t Q) (r : Q) :
  unitDraw r ->
  exists k : nat,
    (k < 3)%nat
    /\ nth_error (incidentTypes d) k
       = Some (templateAt d (Math_floor
                               (num_mul r (num_of_nat (List.length (incidentTypes d)))))).
Proof.
  intros [H0 H1]. apply num_le_rational in H0. apply rational_ltb_lt in H1.
  destruct (@draw_indexes_catalog d r (conj H0 H1)) as (k & Hk & Hlt).
  exists k. split; [exact Hlt|].
  unfold templateAt. rewrite Hk. apply nth_error_nth'. exact Hlt.
Qed.

Lemma catalog_read_binary64 (d : Dataset.t float) (r : float) :
  unitDraw r ->
  exists k : nat,
    (k < 3)%nat
    /\ nth_error (incidentTypes d) k
       = Some (templateAt d (Math_floor
                               (num_mul r (num_of_nat (List.length (incidentTypes d)))))).
Proof.
  intros [H0 H1].
  destruct (Binary64Draws.draw_indexes_catalog_binary64 d r H0 H1) as (k & Hk & Hlt).
  exists k. split; [exact Hlt|].
  unfold templateAt. rewrite Hk. apply nth_error_nth'. exact Hlt.
Qed.

End CatalogFacts.

(** X14. With random draws in [[0, 1)], as [Math.random] returns them, a
    tick spawns at most one incident for each dataset: the new incidents
    pair off, in order, with distinct datasets of the tick's result, each
    one naming its dataset by [dataset_id] and starting at progress 0.  So
    there are no more new incidents than datasets, and there is none under
    a blocking event (any arithmetic).  For such a draw the template of a
    new incident is an element of the catalog, read at index 0, 1 or 2, in
    exact arithmetic and in double precision: [createIncident] does not
    read past the catalog. *)
Theorem new_incidents_start_at_zero_on_a_listed_dataset :
  (forall (num : Type) (N : JsNumber num) (state : Snapshot.t num) (w : World.t num),
      draws unitDraw w ->
      let r := fst (processTick state w) in
      onePerDataset (TickResult.updatedDatasets r) (TickResult.newIncidents r)
      /\ (List.length (TickResult.newIncidents r)
          <= List.length (Snapshot.datasets state))%nat
      /\ (Snapshot.currentEvent state <> None -> TickResult.newIncidents r = []))
  /\ (forall (d : Dataset.t Q) (r : Q),
        unitDraw r ->
        exists k : nat,
          (k < 3)%nat
          /\ nth_error (incidentTypes d) k
             = Some (templateAt d
                       (Math_floor
                          (num_mul r (num_of_nat (List.length (incidentTypes d)))))))
  /\ (forall (d : Dataset.t float) (r : float),
        unitDraw r ->
        exists k : nat,
          (k < 3)%nat
          /\ nth_error (incidentTypes d) k
             = Some (templateAt d
                       (Math_floor
                          (num_mul r (num_of_nat (List.length (incidentTypes d))))))).
Proof.
  split; [|split; [exact CatalogFacts.catalog_read_rational
                  |exact CatalogFacts.catalog_read_binary64]].
  intros num N state w _ r. subst r.
  destruct (Snapshot.currentEvent state) as [e|] eqn:Hev.
  - rewrite (processTick_paused state w Hev).
    cbn [TickResult.newIncidents TickResult.updatedDatasets].
    split; [apply onePerDataset_none|]. split; [cbn; lia|reflexivity].
  - destruct (processTick_active state w Hev) as (_ & Hupd & _).
    rewrite (processTick_newIncidents state w Hev), Hupd.
    destruct (rollIncidents_onePerDataset (tickDatasets state) [] (skipPerf 7 w))
      as (new & -> & Hone).
    cbn [app]. split; [exact Hone|].
    split; [|intros H; exfalso; apply H; reflexivity].
    apply onePerDataset_length in Hone.
    rewrite <- (length_map staticPart), tickDatasets_staticPart, length_map in Hone.
    exact Hone.
Qed.

Lemma new_incidents_start_at_zero_on_a_listed_dataset_witness :
  let state := activeSnapshot (num := Q) [mockDataset; otherDataset] [] [] in
  let r := fst (processTick state (constantWorld 0%Q)) in
  draws unitDraw (constantWorld (num := Q) 0)
  /\ onePerDataset (TickResult.updatedDatasets r) (TickResult.newIncidents r)
  /\ List.length (TickResult.newIncidents r) = 2%nat.
Proof.
  assert (Hw : draws unitDraw (constantWorld (num := Q) 0)).
  { intros n. split; reflexivity. }
  split; [exact Hw|]. split; [|vm_compute; reflexivity].
  exact (proj1 (proj1 new_incidents_start_at_zero_on_a_listed_dataset Q _
                  (activeSnapshot [mockDataset; otherDataset] [] [])
                  (constantWorld 0%Q) Hw)).
Defined.

Module SpawnFacts.

Local Open Scope Q_scope.

Lemma templateAt_in_catalog (d : Dataset.t Q) (r : Q) :
  0 <= r < 1 ->
  In (templateAt d (Math_floor (num_mul r (num_of_nat (List.length (incidentTypes d))))))
     (incidentTypes d).
Proof.
  intros Hr. destruct (draw_indexes_catalog d Hr) as (k & Hk & Hlt).
  unfold templateAt. rewrite Hk. apply nth_In. exact Hlt.
Qed.

Lemma catalog_templates (d : Dataset.t Q) (t : IncidentTemplate.t Q) :
  In t (incidentTypes d) ->
  (Metrics.T (IncidentTemplate.impact t) <= 0
   /\ Metrics.A (IncidentTemplate.impact t) <= 0
   /\ Metrics.C (IncidentTemplate.impact t) <= 0)
  /\ 30 <= IncidentTemplate.resolutionTime t <= 120
  /\ (IncidentTemplate.haltsDC t = true <-> IncidentTemplate.type t = pipeline_failure).
Proof.
  intros [<-|[<-|[<-|[]]]]; cbn; (split; [repeat split; closed_Qle|]);
    (split; [split; closed_Qle|]); split; intros H; try reflexivity; discriminate H.
Qed.




End SpawnFacts.

(** X15. With random draws in [[0, 1)], every incident an active tick
    spawns is built from one of the three templates of [createIncident]
    (data delay, corrupted batch, pipeline failure) for a dataset of the
    tick's result: its impacts are not positive, its base resolution time
    is between 30 and 120, so above 0, and it halts DC generation exactly
    when it is a pipeline failure (exact arithmetic). *)
Theorem new_incidents_come_from_the_catalog :
  forall (state : Snapshot.t Q) (w : World.t Q),
    Snapshot.currentEvent state = None ->
    draws (fun r => 0 <= r < 1)%Q w ->
    let r := fst (processTick state w) in
    Forall (fun i =>
              (exists d t, In d (TickResult.updatedDatasets r)
                           /\ In t (incidentTypes d) /\ spawnedFrom d t i)
              /\ nonPositiveImpact i
              /\ (30 <= Incident.base_resolution_time i <= 120)%Q
              /\ (Incident.halts_dc_generation i = true
                  <-> Incident.type i = pipeline_failure))
           (TickResult.newIncidents r).
Proof.
  intros state w Hev Hw r. subst r.
  destruct (processTick_active state w Hev) as (_ & Hupd & _).
  rewrite (processTick_newIncidents state w Hev), Hupd.
  apply (rollIncidents_invariant (P := fun r => 0 <= r < 1)%Q);
    [|exact Hw|constructor].
  intros d w' Hd Hw'.
  pose proof (createIncident_spawnedFrom d w') as Hsp.
  pose proof (SpawnFacts.templateAt_in_catalog d (Hw' 0%nat)) as Hin.
  set (t := templateAt d _) in *.
  destruct (SpawnFacts.catalog_templates Hin) as (Himp & Htime & Hhalt).
  split; [exists d, t; auto|].
  rewrite Hsp.
  cbn [Incident.base_resolution_time Incident.halts_dc_generation Incident.type].
  split; [|split; [exact Htime|exact Hhalt]].
  unfold nonPositiveImpact. cbn [Incident.metric_impact].
  rewrite !num_le_rational. exact Himp.
Qed.

Lemma new_incidents_come_from_the_catalog_witness :
  let state := activeSnapshot (num := Q) [mockDataset] [] [] in
  let w := constantWorld (num := Q) 0 in
  let r := fst (processTick state w) in
  (Snapshot.currentEvent state = None /\ draws (fun r => 0 <= r < 1)%Q w)
  /\ List.length (TickResult.newIncidents r) = 1%nat
  /\ Forall (fun i =>
               (exists d t, In d (TickResult.updatedDatasets r)
                            /\ In t (incidentTypes d) /\ spawnedFrom d t i)
               /\ nonPositiveImpact i
               /\ (30 <= Incident.base_resolution_time i <= 120)%Q
               /\ (Incident.halts_dc_generation i = true
                   <-> Incident.type i = pipeline_failure))
            (TickResult.newIncidents r).
Proof.
  assert (Hw : draws (fun r => 0 <= r < 1)%Q (constantWorld (num := Q) 0)).
  { intros n. split; [closed_Qle|reflexivity]. }
  split; [split; [reflexivity|exact Hw]|]. split; [vm_compute; reflexivity|].
  exact (@new_incidents_come_from_the_catalog
           (activeSnapshot [mockDataset] [] []) (constantWorld 0%Q) eq_refl Hw).
Defined.



(** ** Offline progress *)

Section OfflinePure.
Context {num : Type} {N : JsNumber num}.

(** The offline loop reads of the platform only the clock of the tick's
    timings, which its result does not contain. *)
Lemma offlineLoop_pure (state : SavedState.t num) (t batches : num) (fuel : nat) :
  forall (batch total : num) (ds : list (Dataset.t num)) (p : num) (w : World.t num),
    fst (offlineLoop fuel state t batches batch total ds p w)
    = offlineLoopPure fuel state t batches batch total ds p.
Proof.
  induction fuel as [|fuel IH]; intros batch total ds p w; [reflexivity|].
  cbn [offlineLoop offlineLoopPure].
  destruct (num_lt batch batches); [|reflexivity].
  unfold bind at 1.
  pose proof (processTick_active (offlineSnapshot state ds) w eq_refl) as H.
  cbv zeta in H. destruct H as (Hdc & Hds & _).
  change (Snapshot.mk ds (SavedState.staff state) [] None (SavedState.dc state)
            (SavedState.lifetimeDC state) (SavedState.prestigeLevel state))
    with (offlineSnapshot state ds).
  destruct (processTick (offlineSnapshot state ds) w) as [r w'].
  cbn [fst] in Hdc, Hds. rewrite Hdc, Hds.
  cbv zeta. apply IH.
Qed.

Lemma calculateOfflineProgress_pure (state : SavedState.t num) (secondsElapsed : num)
      (w : World.t num) :
  let t := Math_min secondsElapsed (lit 86400) in
  fst (calculateOfflineProgress state secondsElapsed w)
  = match offlineLoopPure offlineFuel state t (Math_ceil (num_div t (lit 60)))
                          (lit 0) (lit 0) (SavedState.datasets state) (lit 0) with
    | Some (totalDCEarned, currentDatasets, ticksProcessed) =>
        Some (OfflineResult.mk (Math_floor totalDCEarned) ticksProcessed currentDatasets)
    | None => None
    end.
Proof.
  intros t. unfold calculateOfflineProgress, calculateOfflineProgressFuel. cbv zeta.
  fold t. unfold bind at 1.
  rewrite <- (offlineLoop_pure state t (Math_ceil (num_div t (lit 60))) offlineFuel
                (lit 0) (lit 0) (SavedState.datasets state) (lit 0) w).
  destruct (offlineLoop _ _ _ _ _ _ _ _ w) as [[[[total ds] p]|] w']; reflexivity.
Qed.

Lemma offlineStep_staff (state state' : SavedState.t num) (ds : list (Dataset.t num)) :
  SavedState.staff state = SavedState.staff state' ->
  offlineStep state ds = offlineStep state' ds.
Proof.
  intros Hs. unfold offlineStep, tickDatasets, offlineSnapshot.
  cbn [Snapshot.staff Snapshot.datasets Snapshot.activeIncidents].
  rewrite Hs. reflexivity.
Qed.

Lemma offlineLoopPure_staff (state state' : SavedState.t num) (t batches : num)
      (fuel : nat) :
  SavedState.staff state = SavedState.staff state' ->
  forall (batch total : num) (ds : list (Dataset.t num)) (p : num),
    offlineLoopPure fuel state t batches batch total ds p
    = offlineLoopPure fuel state' t batches batch total ds p.
Proof.
  intros Hs. induction fuel as [|fuel IH]; intros batch total ds p; [reflexivity|].
  cbn [offlineLoopPure]. destruct (num_lt batch batches); [|reflexivity].
  cbv zeta. rewrite (offlineStep_staff state state' ds Hs), Hs. apply IH.
Qed.

(** The datasets leave the loop decayed once for each turn. *)
Lemma offlineLoopPure_datasets (state : SavedState.t num) (t batches : num) (fuel : nat) :
  forall (batch total : num) (ds : list (Dataset.t num)) (p : num),
    option_map (fun out => snd (fst out))
               (offlineLoopPure fuel state t batches batch total ds p)
    = option_map (fun n => Nat.iter n (offlineStep state) ds)
                 (batchesRun fuel batches batch).
Proof.
  induction fuel as [|fuel IH]; intros batch total ds p; [reflexivity|].
  cbn [offlineLoopPure batchesRun].
  destruct (num_lt batch batches); [|reflexivity].
  cbv zeta. rewrite IH.
  destruct (batchesRun fuel batches (num_add batch (lit 1))) as [n|]; [|reflexivity].
  cbn [option_map]. f_equal. symmetry. apply Nat.iter_succ_r.
Qed.

Lemma offlineLoopPure_exit (state : SavedState.t num) (t batches batch total : num)
      (ds : list (Dataset.t num)) (p : num) (fuel : nat) :
  num_lt batch batches = false ->
  offlineLoopPure (S fuel) state t batches batch total ds p = Some (total, ds, p).
Proof. intros H. cbn [offlineLoopPure]. rewrite H. reflexivity. Qed.

(** No turn of the loop: nothing earned, nothing simulated, the datasets as
    they were. *)
Lemma calculateOfflineProgress_no_batch (state : SavedState.t num) (secondsElapsed : num)
      (w : World.t num) :
  num_lt (lit 0)
         (Math_ceil (num_div (Math_min secondsElapsed (lit 86400)) (lit 60))) = false ->
  fst (calculateOfflineProgress state secondsElapsed w)
  = Some (OfflineResult.mk (Math_floor (lit 0)) (lit 0) (SavedState.datasets state)).
Proof.
  intros Htest. rewrite calculateOfflineProgress_pure. cbv zeta.
  change offlineFuel with (S 1440). rewrite offlineLoopPure_exit by exact Htest.
  reflexivity.
Qed.

Lemma finalDatasets_of_run (state : SavedState.t num) (secondsElapsed : num)
      (w : World.t num) (n : nat) :
  batchesRun offlineFuel
             (Math_ceil (num_div (Math_min secondsElapsed (lit 86400)) (lit 60)))
             (lit 0) = Some n ->
  exists r : OfflineResult.t num,
    fst (calculateOfflineProgress state secondsElapsed w) = Some r
    /\ OfflineResult.finalDatasets r
       = Nat.iter n (offlineStep state) (SavedState.datasets state).
Proof.
  intros Hrun. rewrite calculateOfflineProgress_pure. cbv zeta.
  pose proof (offlineLoopPure_datasets state (Math_min secondsElapsed (lit 86400))
                (Math_ceil (num_div (Math_min secondsElapsed (lit 86400)) (lit 60)))
                offlineFuel (lit 0) (lit 0) (SavedState.datasets state) (lit 0)) as H.
  rewrite Hrun in H.
  destruct (offlineLoopPure _ _ _ _ _ _ _ _) as [[[total ds] p]|]; [|discriminate H].
  cbn [option_map fst snd] in H. injection H as H.
  eexists. split; [reflexivity|]. exact H.
Qed.

End OfflinePure.

Module BatchFacts.

Local Open Scope Q_scope.

Lemma batchesRun_rational (n : Z) :
  forall (fuel : nat) (k : Z) (batch : Q),
    (k <= n \/ n < 0 /\ k = 0)%Z ->
    batch == inject_Z k ->
    (Z.to_nat (n - k) < fuel)%nat ->
    batchesRun fuel (inject_Z n) batch = Some (Z.to_nat (n - k)).
Proof.
  induction fuel as [|fuel IH]; intros k batch Hk Hbatch Hfuel; [lia|].
  cbn [batchesRun]. rational_ops.
  destruct (Rational.ltb batch (inject_Z n)) eqn:Htest.
  - apply rational_ltb_lt in Htest.
    assert (Hkn : (k < n)%Z) by (rewrite Zlt_Qlt; lra).
    rewrite (IH (k + 1)%Z); [| lia | rewrite inject_Z_plus, Hbatch; reflexivity | lia].
    cbn [option_map]. f_equal. lia.
  - apply rational_ltb_ge in Htest.
    assert (Hnk : (n <= k)%Z) by (rewrite Zle_Qle; lra).
    f_equal. lia.
Qed.

Lemma batches_of_elapsed (secondsElapsed : Q) :
  let t := Qmin secondsElapsed 86400 in
  batchesRun offlineFuel (Math_ceil (t / 60)) 0 = Some (Z.to_nat (Qceiling (t / 60))).
Proof.
  intros t. rational_ops. unfold Rational.ceil.
  assert (Ht : t <= 86400) by (subst t; minmax_cases; lra).
  assert (Hn : (Qceiling (t / 60) <= 1440)%Z).
  { apply OfflineFacts.ceiling_at_most. change (inject_Z 1440 * 60) with 86400. lra. }
  rewrite (@batchesRun_rational (Qceiling (t / 60)) offlineFuel 0%Z 0).
  - rewrite Z.sub_0_r. reflexivity.
  - lia.
  - reflexivity.
  - unfold offlineFuel. lia.
Qed.

Import Binary64Facts.

Lemma batchesRun_whole (B : Z) :
  (0 <= B <= 1440)%Z ->
  forall (fuel : nat) (k : Z),
    (0 <= k <= B)%Z -> (Z.to_nat (B - k) < fuel)%nat ->
    batchesRun fuel (F64.of_Z B) (F64.of_Z k) = Some (Z.to_nat (B - k)).
Proof.
  intros HB.
  assert (H53 : (2 ^ 53 = 9007199254740992)%Z) by reflexivity.
  induction fuel as [|fuel IH]; intros k Hk Hfuel; [lia|].
  cbn [batchesRun]. cbn [num_lt num_add binary64].
  change (lit 1) with (F64.of_Z 1).
  rewrite of_Z_ltb by lia.
  destruct (k <? B)%Z eqn:E.
  - apply Z.ltb_lt in E. rewrite (of_Z_add k 1) by lia.
    rewrite IH by lia. cbn [option_map]. f_equal. lia.
  - apply Z.ltb_ge in E. f_equal. lia.
Qed.

Lemma batches_of_whole_seconds (z : Z) :
  (0 <= z < 2 ^ 53)%Z ->
  batchesRun offlineFuel
             (Math_ceil (num_div (Math_min (lit (inject_Z z)) (lit 86400)) (lit 60)))
             (lit (num := float) 0)
  = Some (Z.to_nat ((Z.min z 86400 + 59) / 60)).
Proof.
  intros Hz. rewrite (WholeSeconds.cap_of_whole_seconds z Hz).
  set (m := Z.min z 86400).
  assert (Hm : (0 <= m <= 86400)%Z) by (subst m; lia).
  rewrite WholeSeconds.lit_whole. cbn [Math_ceil num_div binary64].
  change (lit 60) with (F64.of_Z 60). change (lit 0) with (F64.of_Z 0).
  rewrite (ceil_of_quotient m Hm).
  rewrite batchesRun_whole.
  - rewrite Z.sub_0_r. reflexivity.
  - Z.to_euclidean_division_equations. lia.
  - Z.to_euclidean_division_equations. lia.
  - unfold offlineFuel. Z.to_euclidean_division_equations. lia.
Qed.

End BatchFacts.

(** X17. With no time elapsed, a negative elapsed time (exact arithmetic) or
    an elapsed time that is not a number (double precision),
    [calculateOfflineProgress] simulates nothing: 0 DC earned, 0 ticks, and
    the datasets returned as they were given. *)
Theorem no_elapsed_time_earns_nothing :
  forall (state : SavedState.t Q) (secondsElapsed : Q) (w : World.t Q),
    (secondsElapsed <= 0)%Q ->
    fst (calculateOfflineProgress state secondsElapsed w)
    = Some (OfflineResult.mk 0%Q 0%Q (SavedState.datasets state))
    /\ (forall (state' : SavedState.t float) (w' : World.t float),
           fst (calculateOfflineProgress state' PrimFloat.nan w')
           = Some (OfflineResult.mk (lit 0) (lit 0) (SavedState.datasets state'))).
Proof.
  intros state s w Hs. split.
  - rewrite calculateOfflineProgress_no_batch; [reflexivity|].
    rational_ops. unfold Rational.ceil. apply rational_ltb_ge.
    assert (Ht : (Qmin s 86400 <= 0)%Q) by (minmax_cases; lra).
    assert (Hn : (Qceiling (Qmin s 86400 / 60) <= 0)%Z).
    { apply OfflineFacts.ceiling_at_most. change (inject_Z 0 * 60)%Q with 0%Q. exact Ht. }
    rewrite Zle_Qle in Hn. exact Hn.
  - intros state' w'. rewrite calculateOfflineProgress_no_batch; [reflexivity|].
    vm_compute. reflexivity.
Qed.

Lemma no_elapsed_time_earns_nothing_witness :
  (-(5) <= 0)%Q
  /\ fst (calculateOfflineProgress (num := Q) (savedState [mockDataset]) (-(5)) (constantWorld 0.5))
     = Some (OfflineResult.mk 0%Q 0%Q (SavedState.datasets (num := Q) (savedState [mockDataset]))).
Proof.
  assert (H : (-(5) <= 0)%Q) by closed_Qle.
  split; [exact H|].
  exact (proj1 (@no_elapsed_time_earns_nothing (savedState [mockDataset]) (-(5))%Q (constantWorld 0.5%Q) H)).
Defined.

(** X18. Offline, the datasets decay once for each batch of 60 seconds, not
    once for each second: [finalDatasets] is the saved datasets after
    [ceil(min(secondsElapsed, 86400) / 60)] ticks without incidents, so
    after at most 1440 of them (exact arithmetic for every elapsed time;
    double precision for every whole number of seconds below 2^53). *)
Theorem offline_datasets_decay_once_per_batch :
  forall (state : SavedState.t Q) (secondsElapsed : Q) (w : World.t Q),
    (exists r,
        fst (calculateOfflineProgress state secondsElapsed w) = Some r
        /\ OfflineResult.finalDatasets r
           = Nat.iter (Z.to_nat (Qceiling (Qmin secondsElapsed 86400 / 60)))
                      (offlineStep state) (SavedState.datasets state))
    /\ (Z.to_nat (Qceiling (Qmin secondsElapsed 86400 / 60)) <= 1440)%nat
    /\ (forall (state' : SavedState.t float) (w' : World.t float) (z : Z),
           (0 <= z < 2 ^ 53)%Z ->
           exists r,
             fst (calculateOfflineProgress state' (lit (inject_Z z)) w') = Some r
             /\ OfflineResult.finalDatasets r
                = Nat.iter (Z.to_nat ((Z.min z 86400 + 59) / 60))
                           (offlineStep state') (SavedState.datasets state')).
Proof.
  intros state s w. split; [|split].
  - apply finalDatasets_of_run. exact (BatchFacts.batches_of_elapsed s).
  - assert (Ht : (Qmin s 86400 <= 86400)%Q) by (minmax_cases; lra).
    assert (Hn : (Qceiling (Qmin s 86400 / 60) <= 1440)%Z).
    { apply OfflineFacts.ceiling_at_most.
      change (inject_Z 1440 * 60)%Q with 86400%Q. exact Ht. }
    lia.
  - intros state' w' z Hz. apply finalDatasets_of_run.
    exact (BatchFacts.batches_of_whole_seconds Hz).
Qed.

(** X19. The result of [calculateOfflineProgress] depends on the saved
    datasets, the staff and the elapsed time alone: not on the saved
    incidents, DC, lifetime DC or prestige level, and not on the random
    numbers or the clock (any arithmetic). *)
Theorem offline_result_ignores_incidents_balance_and_chance :
  forall (num : Type) (N : JsNumber num) (state state' : SavedState.t num)
         (secondsElapsed : num) (w w' : World.t num),
    SavedState.datasets state = SavedState.datasets state' ->
    SavedState.staff state = SavedState.staff state' ->
    fst (calculateOfflineProgress state secondsElapsed w)
    = fst (calculateOfflineProgress state' secondsElapsed w').
Proof.
  intros num N state state' s w w' Hd Hs.
  rewrite !calculateOfflineProgress_pure. cbv zeta.
  rewrite Hd, (offlineLoopPure_staff state state' _ _ offlineFuel Hs). reflexivity.
Qed.

Lemma offline_result_ignores_incidents_balance_and_chance_witness :
  let state := savedState (num := float) [mockDataset] in
  let state' := SavedState.mk (SavedState.datasets state) (SavedState.staff state)
                              [justStarted] (lit 7) (lit 9) (lit 3) in
  (SavedState.datasets state = SavedState.datasets state'
   /\ SavedState.staff state = SavedState.staff state')
  /\ fst (calculateOfflineProgress state (lit 120) (constantWorld (lit 0.5)))
     = fst (calculateOfflineProgress state' (lit 120) (constantWorld (lit 0))).
Proof.
  split; [split; reflexivity|].
  exact (@offline_result_ignores_incidents_balance_and_chance float _
           (savedState [mockDataset])
           (SavedState.mk (SavedState.datasets (savedState [mockDataset]))
                          (SavedState.staff (savedState [mockDataset]))
                          [justStarted] (lit 7) (lit 9) (lit 3))
           (lit 120) (constantWorld (lit 0.5)) (constantWorld (lit 0))
           eq_refl eq_refl).
Defined.

Module EarningFacts.

Local Open Scope Q_scope.


End EarningFacts.



(** ** The store: its tick *)

Section StoreTick.
Context {num : Type} {N : JsNumber num}.

Lemma tick_unfold (state : GameState.t num) (w : World.t num) :
  let r := fst (processTick (snapshotOf state) w) in
  fst (tick state w)
  = GameState.mk
      (num_add (GameState.dc state) (TickResult.dcGenerated r))
      (num_add (GameState.lifetimeDC state) (TickResult.dcGenerated r))
      (GameState.prestigeLevel state)
      (map (withPrestige (calculatePrestigeBonus (GameState.prestigeLevel state)))
           (TickResult.updatedDatasets r))
      (GameState.purchasedPipelines state)
      (GameState.staff state)
      (GameState.unlockedTechnologies state)
      (TickResult.updatedIncidents r ++ TickResult.newIncidents r)
      (match TickResult.newEvent r with
       | Some event => Some event
       | None => GameState.currentEvent state
       end)
      (World.date (snd (processTick (snapshotOf state) w)) 0)
      (GameState.offlineProgressApplied state).
Proof.
  cbv zeta. unfold tick, bind, ret, Date_now.
  destruct (processTick (snapshotOf state) w) as [r w']. reflexivity.
Qed.

Lemma tickDatasets_ids (state : Snapshot.t num) :
  map (@Dataset.id num) (tickDatasets state)
  = map (@Dataset.id num) (Snapshot.datasets state).
Proof.
  pose proof (f_equal (map (fun p => fst (fst (fst (fst (fst (fst (fst (fst p)))))))))
                      (tickDatasets_staticPart state)) as H.
  rewrite !map_map in H. exact H.
Qed.

Lemma withPrestige_ids (b : num) (l : list (Dataset.t num)) :
  map (@Dataset.id num) (map (withPrestige b) l) = map (@Dataset.id num) l.
Proof. rewrite map_map. reflexivity. Qed.

End StoreTick.

(** X21. The store's [tick] adds the same amount to [dc] and to
    [lifetimeDC]: 0 while an event is pending, otherwise the total rate of
    the datasets as the engine's tick leaves them, before the prestige
    bonus.  It never raises or clears an event, keeps the datasets' ids in
    order, leaves staff, pipelines, technologies, prestige level and the
    offline flag alone, and stores the surviving incidents followed by the
    new ones (any arithmetic). *)
Theorem store_tick_accounting :
  forall (num : Type) (N : JsNumber num) (state : GameState.t num) (w : World.t num),
    let s' := fst (tick state w) in
    let earned :=
      match GameState.currentEvent state with
      | Some _ => lit 0
      | None => calculateTotalDC (tickDatasets (snapshotOf state)) (GameState.staff state)
      end in
    let kept :=
      match GameState.currentEvent state with
      | Some _ => GameState.activeIncidents state
      | None => tickIncidents (snapshotOf state)
      end in
    GameState.dc s' = num_add (GameState.dc state) earned
    /\ GameState.lifetimeDC s' = num_add (GameState.lifetimeDC state) earned
    /\ GameState.currentEvent s' = GameState.currentEvent state
    /\ map (@Dataset.id num) (GameState.datasets s')
       = map (@Dataset.id num) (GameState.datasets state)
    /\ GameState.activeIncidents s'
       = kept ++ TickResult.newIncidents (fst (processTick (snapshotOf state) w))
    /\ GameState.staff s' = GameState.staff state
    /\ GameState.purchasedPipelines s' = GameState.purchasedPipelines state
    /\ GameState.unlockedTechnologies s' = GameState.unlockedTechnologies state
    /\ GameState.prestigeLevel s' = GameState.prestigeLevel state
    /\ GameState.offlineProgressApplied s' = GameState.offlineProgressApplied state.
Proof.
  intros num N state w. cbv zeta. rewrite tick_unfold. cbv zeta.
  cbn [GameState.dc GameState.lifetimeDC GameState.currentEvent GameState.datasets
       GameState.activeIncidents GameState.staff GameState.purchasedPipelines
       GameState.unlockedTechnologies GameState.prestigeLevel
       GameState.offlineProgressApplied].
  rewrite withPrestige_ids.
  destruct (GameState.currentEvent state) as [e|] eqn:Hev.
  - rewrite (@processTick_paused _ _ (snapshotOf state) e w Hev).
    cbn [TickResult.dcGenerated TickResult.updatedDatasets TickResult.updatedIncidents
         TickResult.newIncidents TickResult.newEvent snapshotOf Snapshot.datasets
         Snapshot.activeIncidents].
    repeat split; reflexivity.
  - destruct (@processTick_active _ _ (snapshotOf state) w Hev) as (Hdc & Hds & Hinc & Hnew).
    rewrite Hdc, Hds, Hinc, Hnew, tickDatasets_ids.
    repeat split; reflexivity.
Qed.

(** X22. While an event is pending the store's [tick] is not a no-op: the
    balance, the incidents and the event stay, but every metric is raised by
    the prestige bonus, 5 per prestige level, up to 100; at a prestige level
    above 0 a metric below 100 rises (exact arithmetic). *)
Theorem paused_store_tick_still_applies_prestige :
  forall (state : GameState.t Q) (e : Event.t Q) (w : World.t Q),
    GameState.currentEvent state = Some e ->
    let s' := fst (tick state w) in
    let bonus := (GameState.prestigeLevel state * 5)%Q in
    (GameState.dc s' == GameState.dc state)%Q
    /\ (GameState.lifetimeDC s' == GameState.lifetimeDC state)%Q
    /\ GameState.activeIncidents s' = GameState.activeIncidents state
    /\ GameState.currentEvent s' = Some e
    /\ GameState.datasets s' = map (withPrestige bonus) (GameState.datasets state)
    /\ (forall d : Dataset.t Q,
           Metrics.T (Dataset.current_metrics (withPrestige bonus d))
           = Qmin 100 (Metrics.T (Dataset.current_metrics d) + bonus)
           /\ Metrics.A (Dataset.current_metrics (withPrestige bonus d))
              = Qmin 100 (Metrics.A (Dataset.current_metrics d) + bonus)
           /\ Metrics.C (Dataset.current_metrics (withPrestige bonus d))
              = Qmin 100 (Metrics.C (Dataset.current_metrics d) + bonus))
    /\ ((0 < GameState.prestigeLevel state)%Q ->
        forall d : Dataset.t Q,
          (Metrics.T (Dataset.current_metrics d) < 100)%Q ->
          (Metrics.T (Dataset.current_metrics d)
           < Metrics.T (Dataset.current_metrics (withPrestige bonus d)))%Q).
Proof.
  intros state e w Hev. cbv zeta. rewrite tick_unfold. cbv zeta.
  rewrite (@processTick_paused _ _ (snapshotOf state) e w Hev).
  cbn [GameState.dc GameState.lifetimeDC GameState.currentEvent GameState.datasets
       GameState.activeIncidents TickResult.dcGenerated TickResult.updatedDatasets
       TickResult.updatedIncidents TickResult.newIncidents TickResult.newEvent
       snapshotOf Snapshot.datasets Snapshot.activeIncidents].
  rewrite app_nil_r. unfold calculatePrestigeBonus. rational_ops.
  split; [ring|]. split; [ring|]. split; [reflexivity|]. split; [exact Hev|].
  split; [reflexivity|]. split.
  - intros d. repeat split; reflexivity.
  - intros Hlevel d Hd.
    unfold withPrestige. cbn [Dataset.with_current_metrics Dataset.current_metrics Metrics.T].
    rational_ops. minmax_cases; lra.
Qed.

Lemma paused_store_tick_still_applies_prestige_witness :
  let state := GameState.mk (num := Q) 50 50 2 [otherDataset] [] [] [] []
                            (Some mockEvent) 0 false in
  GameState.currentEvent state = Some mockEvent
  /\ map (fun d => Metrics.T (Dataset.current_metrics d))
         (GameState.datasets (fst (tick state (constantWorld 0.5))))
     = [Qmin 100 (100 + 2 * 5)].
Proof.
  split; [reflexivity|].
  pose proof (@paused_store_tick_still_applies_prestige
                (GameState.mk (num := Q) 50 50 2 [otherDataset] [] [] [] []
                              (Some mockEvent) 0 false)
                mockEvent (constantWorld 0.5%Q) eq_refl) as H.
  cbv zeta in H. destruct H as (_ & _ & _ & _ & Hds & _).
  rewrite Hds. reflexivity.
Defined.

Section StoreRange.
Context {num : Type} {N : JsNumber num} {R : JsRange num}.

(** The datasets of an active tick keep their metrics in [[0, 100]]. *)
Lemma tickDatasets_inRange (state : Snapshot.t num) :
  Forall (fun d => inRange (Dataset.current_metrics d)) (Snapshot.datasets state) ->
  Forall nonNegativeBonus (Snapshot.staff state) ->
  Forall nonPositiveImpact (Snapshot.activeIncidents state) ->
  Forall (fun d => inRange (Dataset.current_metrics d)) (tickDatasets state).
Proof.
  intros Hds Hst Hinc. unfold tickDatasets, processIncidents. cbn [fst].
  rewrite Forall_forall in *. intros d' Hd'.
  apply in_map_iff in Hd'. destruct Hd' as (d1 & <- & Hd1).
  apply in_map_iff in Hd1. destruct Hd1 as (d2 & <- & Hd2).
  apply in_map_iff in Hd2. destruct Hd2 as (d & <- & Hd).
  cbn [refreshSLA Dataset.with_sla_status Dataset.current_metrics].
  apply RangeFacts.applyIncidentPenalties_inRange.
  - apply RangeFacts.survivors_nonPositiveImpact. apply Forall_forall. exact Hinc.
  - apply RangeFacts.decayAndBonus_inRange; [apply Forall_forall; exact Hst|].
    apply Hds. exact Hd.
Qed.

Lemma withPrestige_inRange (b : num) (d : Dataset.t num) :
  num_le (lit 0) b ->
  inRange (Dataset.current_metrics d) ->
  inRange (Dataset.current_metrics (withPrestige b d)).
Proof.
  intros Hb (HT & HA & HC). unfold withPrestige, inRange.
  cbn [Dataset.with_current_metrics Dataset.current_metrics Metrics.T Metrics.A Metrics.C].
  repeat split; apply RangeFacts.bonus_within; assumption.
Qed.

End StoreRange.

(** X23. The store's [tick] keeps the metrics in [[0, 100]]: when the
    prestige level is not negative, the metrics lie in [[0, 100]], the
    staff bonuses are >= 0 and the incident impacts are <= 0, every dataset
    the tick stores has its three metrics in [[0, 100]], with or without a
    pending event (any arithmetic with the range laws in which
    [0 < 5 <= 100], as in exact arithmetic and in double precision). *)
Theorem store_tick_keeps_metrics_in_range :
  forall (num : Type) (N : JsNumber num) (R : JsRange num)
         (state : GameState.t num) (w : World.t num),
    num_lt (lit 0) (lit 5) = true -> num_le (lit 5) (lit 100) ->
    num_le (lit 0) (GameState.prestigeLevel state) ->
    Forall (fun d => inRange (Dataset.current_metrics d)) (GameState.datasets state) ->
    Forall nonNegativeBonus (GameState.staff state) ->
    Forall nonPositiveImpact (GameState.activeIncidents state) ->
    Forall (fun d => inRange (Dataset.current_metrics d))
           (GameState.datasets (fst (tick state w))).
Proof.
  intros num N R state w H05 H5 Hlevel Hds Hst Hinc.
  rewrite tick_unfold. cbv zeta. cbn [GameState.datasets].
  assert (Hb : num_le (lit 0) (calculatePrestigeBonus (GameState.prestigeLevel state))).
  { unfold calculatePrestigeBonus. apply num_mul_nonneg; assumption. }
  assert (Hupd : Forall (fun d => inRange (Dataset.current_metrics d))
                        (TickResult.updatedDatasets
                           (fst (processTick (snapshotOf state) w)))).
  { destruct (GameState.currentEvent state) as [e|] eqn:Hev.
    - rewrite (@processTick_paused _ _ (snapshotOf state) e w Hev). exact Hds.
    - destruct (@processTick_active _ _ (snapshotOf state) w Hev) as (_ & Hupd & _).
      rewrite Hupd. apply tickDatasets_inRange; assumption. }
  rewrite Forall_forall in *. intros d' Hd'.
  apply in_map_iff in Hd'. destruct Hd' as (d & <- & Hd).
  apply withPrestige_inRange; [exact Hb|]. apply Hupd. exact Hd.
Qed.

Lemma store_tick_keeps_metrics_in_range_witness :
  let state := GameState.mk (num := float) (lit 0) (lit 0) (lit 0)
                            [mockDataset] [] [engineer] [] [justStarted] None
                            (lit 0) false in
  (num_lt (num := float) (lit 0) (lit 5) = true
   /\ num_le (num := float) (lit 5) (lit 100)
   /\ num_le (lit 0) (GameState.prestigeLevel state)
   /\ Forall (fun d => inRange (Dataset.current_metrics d)) (GameState.datasets state)
   /\ Forall nonNegativeBonus (GameState.staff state)
   /\ Forall nonPositiveImpact (GameState.activeIncidents state))
  /\ Forall (fun d => inRange (Dataset.current_metrics d))
            (GameState.datasets (fst (tick state (constantWorld (lit 0.5))))).
Proof.
  assert (H05 : num_lt (num := float) (lit 0) (lit 5) = true) by (vm_compute; reflexivity).
  assert (H5 : num_le (num := float) (lit 5) (lit 100)) by (vm_compute; reflexivity).
  assert (Hl : num_le (num := float) (lit 0) (lit 0)) by (vm_compute; reflexivity).
  assert (Hds : Forall (fun d : Dataset.t float => inRange (Dataset.current_metrics d))
                       [mockDataset]).
  { repeat constructor; vm_compute; reflexivity. }
  assert (Hst : Forall (nonNegativeBonus (num := float)) [engineer]).
  { repeat constructor; vm_compute; reflexivity. }
  assert (Hinc : Forall (nonPositiveImpact (num := float)) [justStarted]).
  { repeat constructor; vm_compute; reflexivity. }
  split; [repeat split; assumption|].
  exact (@store_tick_keeps_metrics_in_range float _ _
           (GameState.mk (lit 0) (lit 0) (lit 0) [mockDataset] [] [engineer] []
                         [justStarted] None (lit 0) false)
           (constantWorld (lit 0.5)) H05 H5 Hl Hds Hst Hinc).
Defined.

(** ** The store: purchases *)

Section Membership.
Context {A : Type}.

Lemma existsb_id_In (key : A -> string) (x : string) (l : list A) :
  existsb (fun a => String.eqb (key a) x) l = true <-> In x (map key l).
Proof.
  rewrite existsb_exists, in_map_iff. split.
  - intros (a & Ha & E). apply String.eqb_eq in E. exists a. split; assumption.
  - intros (a & E & Ha). exists a. split; [exact Ha|]. apply String.eqb_eq. exact E.
Qed.

Lemma existsb_id_not_In (key : A -> string) (x : string) (l : list A) :
  existsb (fun a => String.eqb (key a) x) l = false <-> ~ In x (map key l).
Proof.
  rewrite <- existsb_id_In. destruct (existsb _ l); split; intros H;
    try reflexivity; try discriminate; try (intros E; discriminate E).
  exfalso. apply H. reflexivity.
Qed.

Lemma NoDup_snoc (l : list string) (x : string) :
  NoDup l -> ~ In x l -> NoDup (l ++ [x]).
Proof.
  intros Hl Hx. apply NoDup_app; [exact Hl|repeat constructor; intros []|].
  intros y Hy [<-|[]]. exact (Hx Hy).
Qed.

End Membership.

Lemma includes_In (xs : list string) (x : string) :
  includes xs x = true <-> In x xs.
Proof.
  unfold includes. rewrite existsb_exists. split.
  - intros (y & Hy & E). apply String.eqb_eq in E. subst y. exact Hy.
  - intros H. exists x. split; [exact H|apply String.eqb_refl].
Qed.

(** X24. [hireStaff] hires only a staff member whose id is not yet on the
    staff and whose cost the balance covers; it then pays the cost and
    appends the member, keeping the ids of the staff distinct.  Otherwise
    it changes nothing, and hiring the same member a second time always
    fails (any arithmetic). *)
Theorem hiring_is_checked_and_not_repeated :
  forall (num : Type) (N : JsNumber num) (member : Staff.t num) (state : GameState.t num),
    let hired := fst (hireStaff member state) in
    let s' := snd (hireStaff member state) in
    (hired = true ->
     ~ In (Staff.id member) (map (@Staff.id num) (GameState.staff state))
     /\ num_ge (GameState.dc state) (Staff.cost_to_hire member) = true
     /\ GameState.dc s' = num_sub (GameState.dc state) (Staff.cost_to_hire member)
     /\ GameState.staff s' = GameState.staff state ++ [member]
     /\ GameState.datasets s' = GameState.datasets state
     /\ GameState.lifetimeDC s' = GameState.lifetimeDC state
     /\ (NoDup (map (@Staff.id num) (GameState.staff state)) ->
         NoDup (map (@Staff.id num) (GameState.staff s'))))
    /\ (hired = false -> s' = state)
    /\ hireStaff member s' = (false, s').
Proof.
  intros num N member state. cbv zeta.
  remember (hireStaff member state) as res eqn:Hres.
  unfold hireStaff in Hres.
  destruct (existsb _ (GameState.staff state)) eqn:Hex.
  - subst res. cbn [fst snd]. split; [discriminate|]. split; [reflexivity|].
    unfold hireStaff. rewrite Hex. reflexivity.
  - unfold canAfford in Hres.
    destruct (num_ge (GameState.dc state) (Staff.cost_to_hire member)) eqn:Hdc;
      cbn [negb] in Hres; subst res; cbn [fst snd].
    + apply existsb_id_not_In in Hex.
      split; [|split; [discriminate|]].
      * intros _. cbn [GameState.dc GameState.staff GameState.datasets GameState.lifetimeDC].
        repeat split; try reflexivity; try assumption.
        intros Hnd. rewrite map_app. cbn [map]. apply NoDup_snoc; assumption.
      * unfold hireStaff. cbn [GameState.staff].
        rewrite existsb_app. cbn [existsb]. rewrite String.eqb_refl, orb_true_r.
        reflexivity.
    + split; [discriminate|]. split; [reflexivity|].
      unfold hireStaff, canAfford. rewrite Hex, Hdc. reflexivity.
Qed.

Lemma hiring_is_checked_and_not_repeated_witness :
  let state := storeState (num := Q) 1500 [mockDataset] [] None in
  fst (hireStaff engineer state) = true
  /\ GameState.dc (snd (hireStaff engineer state)) = (1500 - 1000)%Q
  /\ map (@Staff.id Q) (GameState.staff (snd (hireStaff engineer state))) = ["engineer"%string]
  /\ hireStaff engineer (snd (hireStaff engineer state))
     = (false, snd (hireStaff engineer state)).
Proof.
  pose proof (@hiring_is_checked_and_not_repeated Q _ engineer
                (storeState (num := Q) 1500 [mockDataset] [] None)) as H.
  cbv zeta in H. destruct H as (Hyes & _ & Hagain).
  destruct (Hyes eq_refl) as (_ & _ & Hdc & Hstaff & _).
  split; [reflexivity|]. split; [exact Hdc|]. split; [rewrite Hstaff; reflexivity|].
  exact Hagain.
Defined.

(** X25. [unlockTechnology] unlocks only a technology that is not yet
    unlocked, whose prerequisites are all unlocked and whose cost the balance
    covers; it then pays the cost and appends the id, keeping the unlocked
    ids distinct.  Otherwise it changes nothing, and unlocking the same
    technology a second time always fails (any arithmetic). *)
Theorem technology_needs_its_prerequisites :
  forall (num : Type) (N : JsNumber num) (tech : Technology.t num)
         (state : GameState.t num),
    let unlocked := fst (unlockTechnology tech state) in
    let s' := snd (unlockTechnology tech state) in
    (unlocked = true ->
     ~ In (Technology.id tech) (GameState.unlockedTechnologies state)
     /\ (forall reqId, In reqId (Technology.requires tech) ->
                       In reqId (GameState.unlockedTechnologies state))
     /\ num_ge (GameState.dc state) (Technology.cost_dc tech) = true
     /\ GameState.dc s' = num_sub (GameState.dc state) (Technology.cost_dc tech)
     /\ GameState.unlockedTechnologies s'
        = GameState.unlockedTechnologies state ++ [Technology.id tech]
     /\ GameState.datasets s' = GameState.datasets state
     /\ GameState.staff s' = GameState.staff state
     /\ (NoDup (GameState.unlockedTechnologies state) ->
         NoDup (GameState.unlockedTechnologies s')))
    /\ (unlocked = false -> s' = state)
    /\ ((exists reqId, In reqId (Technology.requires tech)
                       /\ ~ In reqId (GameState.unlockedTechnologies state)) ->
        unlocked = false)
    /\ unlockTechnology tech s' = (false, s').
Proof.
  intros num N tech state. cbv zeta.
  remember (unlockTechnology tech state) as res eqn:Hres.
  unfold unlockTechnology in Hres.
  destruct (includes (GameState.unlockedTechnologies state) (Technology.id tech)) eqn:Hin.
  - subst res. cbn [fst snd]. split; [discriminate|]. split; [reflexivity|].
    split; [reflexivity|]. unfold unlockTechnology. rewrite Hin. reflexivity.
  - cbv zeta in Hres.
    destruct (forallb _ (Technology.requires tech)) eqn:Hreq; cbn [negb] in Hres.
    + unfold canAfford in Hres.
      destruct (num_ge (GameState.dc state) (Technology.cost_dc tech)) eqn:Hdc;
        cbn [negb] in Hres; subst res; cbn [fst snd].
      * assert (Hnot : ~ In (Technology.id tech) (GameState.unlockedTechnologies state)).
        { intros H. apply includes_In in H. congruence. }
        assert (Hall : forall reqId, In reqId (Technology.requires tech) ->
                                     In reqId (GameState.unlockedTechnologies state)).
        { intros r Hr. rewrite forallb_forall in Hreq. apply includes_In.
          apply Hreq. exact Hr. }
        split; [|split; [discriminate|split]].
        -- intros _.
           cbn [GameState.dc GameState.unlockedTechnologies GameState.datasets
                GameState.staff].
           repeat split; try reflexivity; try assumption.
           intros Hnd. apply NoDup_snoc; assumption.
        -- intros (r & Hr & Hmissing). exfalso. exact (Hmissing (Hall r Hr)).
        -- unfold unlockTechnology. cbn [GameState.unlockedTechnologies].
           assert (E : includes (GameState.unlockedTechnologies state ++ [Technology.id tech])
                                (Technology.id tech) = true).
           { apply includes_In. apply in_or_app. right. left. reflexivity. }
           rewrite E. reflexivity.
      * split; [discriminate|]. split; [reflexivity|]. split; [reflexivity|].
        unfold unlockTechnology, canAfford. rewrite Hin. cbv zeta.
        rewrite Hreq, Hdc. reflexivity.
    + subst res. cbn [fst snd].
      split; [discriminate|]. split; [reflexivity|]. split; [reflexivity|].
      unfold unlockTechnology. rewrite Hin. cbv zeta. rewrite Hreq. reflexivity.
Qed.

Lemma technology_needs_its_prerequisites_witness :
  let tech := Technology.mk (num := Q) "streaming" "Streaming" "Test" 500
                (TechnologyUnlocks.mk [] [] [] (GlobalBonuses.mk None None None None)) ["cloud"%string] 2 processing_tech in
  let state := storeState (num := Q) 900 [mockDataset] [] None in
  (exists reqId, In reqId (Technology.requires tech)
                 /\ ~ In reqId (GameState.unlockedTechnologies state))
  /\ fst (unlockTechnology tech state) = false.
Proof.
  assert (H : exists reqId : string,
             In reqId ["cloud"%string]
             /\ ~ In reqId (GameState.unlockedTechnologies
                              (storeState (num := Q) 900 [mockDataset] [] None))).
  { exists "cloud"%string. split; [left; reflexivity|intros []]. }
  split; [exact H|].
  exact (proj1 (proj2 (proj2
           (@technology_needs_its_prerequisites Q _
              (Technology.mk (num := Q) "streaming" "Streaming" "Test" 500
                 (TechnologyUnlocks.mk [] [] [] (GlobalBonuses.mk None None None None)) ["cloud"%string] 2 processing_tech)
              (storeState (num := Q) 900 [mockDataset] [] None)))) H).
Defined.

(** ** The store: events *)

Section ResolveEvent.
Context {num : Type} {N : JsNumber num}.

Lemma applyMetricChanges_ids (changes : option num * option num * option num)
      (l : list (Dataset.t num)) :
  map (@Dataset.id num) (map (applyMetricChanges changes) l) = map (@Dataset.id num) l.
Proof.
  rewrite map_map. apply map_ext. intros d. destruct changes as [[dT dA] dC]. reflexivity.
Qed.

End ResolveEvent.

(** X26. [resolveEvent] changes nothing when no event is pending or when
    the pending event has no choice of the given id.  Otherwise it clears
    the event, so that any further [resolveEvent] changes nothing; it keeps
    the datasets' ids, the incidents, the staff and the lifetime DC, leaves
    the balance alone when the choice has no [dc_change] and the datasets
    alone when it has no [metric_changes] (any arithmetic). *)
Theorem resolving_needs_a_pending_event_and_a_known_choice :
  forall (num : Type) (N : JsNumber num) (choiceId : string) (state : GameState.t num),
    let s' := resolveEvent choiceId state in
    (GameState.currentEvent state = None -> s' = state)
    /\ (forall event,
           GameState.currentEvent state = Some event ->
           find (fun c => String.eqb (EventChoice.id c) choiceId) (Event.choices event)
           = None ->
           s' = state)
    /\ (forall event choice,
           GameState.currentEvent state = Some event ->
           find (fun c => String.eqb (EventChoice.id c) choiceId) (Event.choices event)
           = Some choice ->
           EventChoice.id choice = choiceId
           /\ In choice (Event.choices event)
           /\ GameState.currentEvent s' = None
           /\ (forall other, resolveEvent other s' = s')
           /\ map (@Dataset.id num) (GameState.datasets s')
              = map (@Dataset.id num) (GameState.datasets state)
           /\ GameState.activeIncidents s' = GameState.activeIncidents state
           /\ GameState.staff s' = GameState.staff state
           /\ GameState.lifetimeDC s' = GameState.lifetimeDC state
           /\ (EventEffects.dc_change (EventChoice.effects choice) = None ->
               GameState.dc s' = GameState.dc state)
           /\ (EventEffects.metric_changes (EventChoice.effects choice) = None ->
               GameState.datasets s' = GameState.datasets state)).
Proof.
  intros num N choiceId state. cbv zeta. split; [|split].
  - intros Hev. unfold resolveEvent. rewrite Hev. reflexivity.
  - intros event Hev Hfind. unfold resolveEvent. rewrite Hev, Hfind. reflexivity.
  - intros event choice Hev Hfind.
    pose proof (find_some _ _ Hfind) as [Hin Hid]. apply String.eqb_eq in Hid.
    remember (resolveEvent choiceId state) as s' eqn:Hres.
    unfold resolveEvent in Hres. rewrite Hev, Hfind in Hres. cbv zeta in Hres. subst s'.
    cbn [GameState.currentEvent GameState.datasets GameState.activeIncidents
         GameState.staff GameState.lifetimeDC GameState.dc].
    split; [exact Hid|]. split; [exact Hin|]. split; [reflexivity|].
    split; [intros other; reflexivity|].
    split.
    { destruct (EventEffects.metric_changes (EventChoice.effects choice)) as [changes|];
        [apply applyMetricChanges_ids|reflexivity]. }
    split; [reflexivity|]. split; [reflexivity|]. split; [reflexivity|].
    split; intros ->; reflexivity.
Qed.

Lemma resolving_needs_a_pending_event_and_a_known_choice_witness :
  let state := storeState (num := Q) 100 [mockDataset] [] None in
  GameState.currentEvent state = None
  /\ resolveEvent "accept" state = state.
Proof.
  split; [reflexivity|].
  exact (proj1 (@resolving_needs_a_pending_event_and_a_known_choice Q _ "accept"%string
                  (storeState (num := Q) 100 [mockDataset] [] None)) eq_refl).
Defined.

Module EventFacts.

Local Open Scope Q_scope.

Lemma clamp_within (x : Q) : 0 <= Qmax 0 (Qmin 100 x) <= 100.
Proof. minmax_cases; lra. Qed.

Lemma clamp_inside (x : Q) : 0 <= x <= 100 -> Qmax 0 (Qmin 100 x) == x.
Proof. intros H. minmax_cases; lra. Qed.

Lemma orZero_value (x : option Q) :
  orZero x == match x with Some v => v | None => 0 end.
Proof.
  destruct x as [v|]; [|reflexivity]. unfold orZero, truthy. rational_ops.
  destruct (Rational.ltb v 0) eqn:E1; [reflexivity|].
  destruct (Rational.ltb 0 v) eqn:E2; [reflexivity|].
  apply rational_ltb_ge in E1, E2. cbn [orb]. lra.
Qed.

End EventFacts.

(** X27. A resolved choice with [metric_changes] leaves every metric of
    every dataset in [[0, 100]], whatever the metrics and the changes were:
    each metric becomes the old one plus its change (0 when the change is
    absent), clamped to [[0, 100]].  The balance becomes the old one plus
    [dc_change], without any check that it covers a cost (exact
    arithmetic). *)
Theorem resolved_choice_clamps_metrics :
  forall (choiceId : string) (state : GameState.t Q) (event : Event.t Q)
         (choice : EventChoice.t Q),
    GameState.currentEvent state = Some event ->
    find (fun c => String.eqb (EventChoice.id c) choiceId) (Event.choices event)
    = Some choice ->
    let s' := resolveEvent choiceId state in
    let amount (x : option Q) := match x with Some v => v | None => 0%Q end in
    (GameState.dc s'
     == GameState.dc state + amount (EventEffects.dc_change (EventChoice.effects choice)))%Q
    /\ (forall dT dA dC,
           EventEffects.metric_changes (EventChoice.effects choice) = Some (dT, dA, dC) ->
           Forall2 (fun d d' =>
                      (Metrics.T (Dataset.current_metrics d')
                       == Qmax 0 (Qmin 100 (Metrics.T (Dataset.current_metrics d) + amount dT)))%Q
                      /\ (Metrics.A (Dataset.current_metrics d')
                          == Qmax 0 (Qmin 100 (Metrics.A (Dataset.current_metrics d) + amount dA)))%Q
                      /\ (Metrics.C (Dataset.current_metrics d')
                          == Qmax 0 (Qmin 100 (Metrics.C (Dataset.current_metrics d) + amount dC)))%Q
                      /\ inRange (Dataset.current_metrics d'))
                   (GameState.datasets state) (GameState.datasets s')).
Proof.
  intros choiceId state event choice Hev Hfind. cbv zeta.
  unfold resolveEvent. rewrite Hev, Hfind. cbv zeta.
  cbn [GameState.dc GameState.datasets]. split.
  - destruct (EventEffects.dc_change (EventChoice.effects choice)) as [v|];
      [|rational_ops; ring].
    unfold truthy. rational_ops.
    destruct (Rational.ltb v 0) eqn:E1; [reflexivity|].
    destruct (Rational.ltb 0 v) eqn:E2; [reflexivity|].
    apply rational_ltb_ge in E1, E2. cbn [orb]. lra.
  - intros dT dA dC ->.
    induction (GameState.datasets state) as [|d l IH]; [constructor|].
    cbn [map]. constructor; [|exact IH].
    unfold applyMetricChanges.
    cbn [Dataset.with_current_metrics Dataset.current_metrics Metrics.T Metrics.A Metrics.C].
    rational_ops.
    pose proof (EventFacts.orZero_value dT) as HT.
    pose proof (EventFacts.orZero_value dA) as HA.
    pose proof (EventFacts.orZero_value dC) as HC.
    rewrite inRange_rational.
    cbn [Metrics.T Metrics.A Metrics.C].
    repeat split; try (rewrite ?HT, ?HA, ?HC; reflexivity);
      apply EventFacts.clamp_within.
Qed.

Lemma resolved_choice_clamps_metrics_witness :
  let choice := EventChoice.mk (num := Q) "pay" "Pay the fine"
                  (EventEffects.mk (Some (-(500))%Q)
                                   (Some (Some 20%Q, None, Some (-(200))%Q)) None None) in
  let event := Event.mk (num := Q) "audit" "Audit" "Test" audit_event [choice] None None in
  let state := storeState (num := Q) 100 [mockDataset] [] (Some event) in
  (GameState.currentEvent state = Some event
   /\ find (fun c => String.eqb (EventChoice.id c) "pay") (Event.choices event)
      = Some choice)
  /\ (GameState.dc (resolveEvent "pay" state) == -(400))%Q
  /\ map (fun d => Dataset.current_metrics d) (GameState.datasets (resolveEvent "pay" state))
     = [Metrics.mk (Qmax 0 (Qmin 100 (100 + 20))) (Qmax 0 (Qmin 100 (100 + 0)))
                   (Qmax 0 (Qmin 100 (100 + -(200))))].
Proof.
  cbv zeta. split; [split; reflexivity|].
  pose proof (@resolved_choice_clamps_metrics "pay"%string
                (storeState (num := Q) 100 [mockDataset] []
                   (Some (Event.mk (num := Q) "audit" "Audit" "Test" audit_event
                            [EventChoice.mk (num := Q) "pay" "Pay the fine"
                               (EventEffects.mk (Some (-(500))%Q)
                                  (Some (Some 20%Q, None, Some (-(200))%Q)) None None)]
                            None None)))
                _ _ eq_refl eq_refl) as H.
  cbv zeta in H. destruct H as (Hdc & _).
  split; [rewrite Hdc; reflexivity|reflexivity].
Defined.

(** ** The store: datasets and rates *)

(** X28. [unlockDataset] appends a dataset whose id is not yet among the
    store's datasets and changes nothing otherwise: the datasets already
    there stay in place, distinct ids stay distinct, and unlocking the same
    dataset twice is unlocking it once (any arithmetic). *)
Theorem unlocking_a_dataset_keeps_ids_distinct :
  forall (num : Type) (N : JsNumber num) (dataset : Dataset.t num)
         (state : GameState.t num),
    let s' := unlockDataset dataset state in
    (In (Dataset.id dataset) (map (@Dataset.id num) (GameState.datasets state)) ->
     s' = state)
    /\ (~ In (Dataset.id dataset) (map (@Dataset.id num) (GameState.datasets state)) ->
        GameState.datasets s' = GameState.datasets state ++ [dataset])
    /\ In (Dataset.id dataset) (map (@Dataset.id num) (GameState.datasets s'))
    /\ (NoDup (map (@Dataset.id num) (GameState.datasets state)) ->
        NoDup (map (@Dataset.id num) (GameState.datasets s')))
    /\ unlockDataset dataset s' = s'
    /\ GameState.dc s' = GameState.dc state
    /\ GameState.staff s' = GameState.staff state
    /\ GameState.activeIncidents s' = GameState.activeIncidents state.
Proof.
  intros num N dataset state. cbv zeta.
  remember (unlockDataset dataset state) as s' eqn:Hres.
  unfold unlockDataset in Hres.
  destruct (existsb _ (GameState.datasets state)) eqn:Hex; subst s'.
  - pose proof (proj1 (existsb_id_In _ _ _) Hex) as Hin.
    split; [reflexivity|]. split; [intros H; exfalso; exact (H Hin)|].
    split; [exact Hin|]. split; [intros H; exact H|].
    split; [|repeat split; reflexivity].
    unfold unlockDataset. rewrite Hex. reflexivity.
  - pose proof (proj1 (existsb_id_not_In _ _ _) Hex) as Hnot.
    cbn [GameState.datasets GameState.dc GameState.staff GameState.activeIncidents].
    split; [intros H; exfalso; exact (Hnot H)|]. split; [reflexivity|].
    split; [rewrite map_app; apply in_or_app; right; left; reflexivity|].
    split; [intros Hnd; rewrite map_app; cbn [map]; apply NoDup_snoc; assumption|].
    split; [|repeat split; reflexivity].
    unfold unlockDataset. cbn [GameState.datasets].
    rewrite existsb_app. cbn [existsb]. rewrite String.eqb_refl, orb_true_r. reflexivity.
Qed.

Module StoreRateFacts.

Local Open Scope Q_scope.

Lemma find_by_own_id (l : list (Dataset.t Q)) :
  NoDup (map (@Dataset.id Q) l) ->
  forall d, In d l ->
            find (fun d' => String.eqb (Dataset.id d') (Dataset.id d)) l = Some d.
Proof.
  induction l as [|x l IH]; intros Hnd d Hd; [destruct Hd|].
  cbn [map] in Hnd. apply NoDup_cons_iff in Hnd. destruct Hnd as [Hx Hnd].
  cbn [find]. destruct Hd as [->|Hd].
  - rewrite String.eqb_refl. reflexivity.
  - destruct (String.eqb (Dataset.id x) (Dataset.id d)) eqn:E.
    + apply String.eqb_eq in E. exfalso. apply Hx. rewrite E.
      apply in_map. exact Hd.
    + apply IH; assumption.
Qed.

End StoreRateFacts.

(** X29. [getDatasetDCRate] is 0 for an id that no dataset of the store
    has, and the rate of the dataset for the id of a dataset of the store;
    when the datasets' ids are distinct, the rates of the datasets add up to
    [getTotalDCRate] (exact arithmetic). *)
Theorem dataset_rates_add_up_to_the_total :
  forall (state : GameState.t Q),
    (forall datasetId,
        ~ In datasetId (map (@Dataset.id Q) (GameState.datasets state)) ->
        getDatasetDCRate datasetId state = 0%Q)
    /\ (NoDup (map (@Dataset.id Q) (GameState.datasets state)) ->
        (forall d, In d (GameState.datasets state) ->
                   getDatasetDCRate (Dataset.id d) state
                   = calculateDatasetDC d (calculateStaffMultiplier (GameState.staff state)))
        /\ (sumOf (fun d => getDatasetDCRate (Dataset.id d) state) (GameState.datasets state)
            == getTotalDCRate state)%Q).
Proof.
  intros state. split.
  - intros datasetId Hnot. unfold getDatasetDCRate.
    destruct (find _ (GameState.datasets state)) as [d|] eqn:Hfind; [|reflexivity].
    apply find_some in Hfind. destruct Hfind as [Hin E]. apply String.eqb_eq in E.
    exfalso. apply Hnot. rewrite <- E. apply in_map. exact Hin.
  - intros Hnd.
    assert (Hrate : forall d, In d (GameState.datasets state) ->
                              getDatasetDCRate (Dataset.id d) state
                              = calculateDatasetDC d
                                  (calculateStaffMultiplier (GameState.staff state))).
    { intros d Hd. unfold getDatasetDCRate.
      rewrite (@StoreRateFacts.find_by_own_id _ Hnd d Hd). reflexivity. }
    split; [exact Hrate|].
    unfold getTotalDCRate. rewrite RateFacts.calculateTotalDC_sum.
    apply Totals.sumOf_ext. intros d Hd. rewrite (Hrate d Hd). reflexivity.
Qed.

Lemma dataset_rates_add_up_to_the_total_witness :
  let state := storeState (num := Q) 0 [mockDataset; otherDataset] [] None in
  NoDup (map (@Dataset.id Q) (GameState.datasets state))
  /\ (sumOf (fun d => getDatasetDCRate (Dataset.id d) state) (GameState.datasets state)
      == getTotalDCRate state)%Q.
Proof.
  assert (Hnd : NoDup (map (@Dataset.id Q)
                         (GameState.datasets
                            (storeState (num := Q) 0 [mockDataset; otherDataset] [] None)))).
  { repeat constructor; cbn; intuition discriminate. }
  split; [exact Hnd|].
  exact (proj2 (proj2 (@dataset_rates_add_up_to_the_total
                         (storeState (num := Q) 0 [mockDataset; otherDataset] [] None))
                      Hnd)).
Defined.

(** ** The store: offline progress *)

(** X30. [applyOfflineProgress] applies offline progress at most once: it
    always returns with the flag [offlineProgressApplied] set, after which
    any further call changes nothing.  The first call adds the earned DC to
    both [dc] and [lifetimeDC], stores the datasets the offline simulation
    returns, drops every active incident and keeps the pending event and the
    staff (exact arithmetic). *)
Theorem offline_progress_is_applied_once :
  forall (state : GameState.t Q) (secondsElapsed : Q) (w : World.t Q),
    exists s',
      fst (applyOfflineProgress secondsElapsed state w) = Some s'
      /\ GameState.offlineProgressApplied s' = true
      /\ (forall secondsElapsed' w',
             fst (applyOfflineProgress secondsElapsed' s' w') = Some s')
      /\ (GameState.offlineProgressApplied state = true -> s' = state)
      /\ (GameState.offlineProgressApplied state = false ->
          GameState.activeIncidents s' = []
          /\ GameState.currentEvent s' = GameState.currentEvent state
          /\ GameState.staff s' = GameState.staff state
          /\ exists r,
              fst (calculateOfflineProgress (savedStateOf state) secondsElapsed w) = Some r
              /\ GameState.dc s' = (GameState.dc state + OfflineResult.dcEarned r)%Q
              /\ GameState.lifetimeDC s'
                 = (GameState.lifetimeDC state + OfflineResult.dcEarned r)%Q
              /\ GameState.datasets s' = OfflineResult.finalDatasets r).
Proof.
  intros state s w. unfold applyOfflineProgress at 1.
  destruct (GameState.offlineProgressApplied state) eqn:Hflag.
  - exists state. split; [reflexivity|]. split; [exact Hflag|].
    split; [|split; [reflexivity|discriminate]].
    intros s2 w2. unfold applyOfflineProgress. rewrite Hflag. reflexivity.
  - destruct (OfflineFacts.calculateOfflineProgress_returns (savedStateOf state) s w)
      as (r & Hr).
    unfold bind at 1.
    destruct (calculateOfflineProgress (savedStateOf state) s w) as [out w1] eqn:Hrun.
    cbn [fst] in Hr. subst out.
    unfold bind, ret, Date_now. cbn [fst snd].
    eexists. split; [reflexivity|].
    cbn [GameState.offlineProgressApplied GameState.activeIncidents
         GameState.currentEvent GameState.staff GameState.dc GameState.lifetimeDC
         GameState.datasets].
    split; [reflexivity|]. split; [intros s2 w2; reflexivity|].
    split; [discriminate|]. intros _.
    repeat split. exists r. repeat split.
Qed.
